(** * The CHILD_SA creation task of the IKEv2 daemon

    Shallow embedding of [src/libcharon/sa/ikev2/tasks/child_create.c].

    The task object [private_child_create_t] is a record; the methods that
    mutate it are written in a small state monad over the task, the message
    being built or processed and the trace of calls made to the external
    collaborators (kernel interface, bus, scheduler, IKE_SA).  Whatever the
    collaborators answer is taken from an environment record [env]. *)

From Stdlib Require Import ZArith NArith List Bool Lia.
From Stdlib Require Import Strings.Byte.
From stdpp Require Import base tactics option list numbers.
Import ListNotations.
Local Open Scope Z_scope.

(** ** Chunks *)

(** A [chunk_t] is a pointer and a length.  Every chunk a CHILD_CREATE task holds is
    produced by [chunk_clone], [chunk_free] or a payload accessor, all of
    which give [chunk_empty] (the NULL pointer) for zero bytes, so a chunk is
    the list of its bytes and its pointer is non-NULL iff the list is
    non-empty. *)
Definition chunk_t : Type := list byte.

#[global] Instance byte_eq_dec : EqDecision byte := Byte.byte_eq_dec.

Definition chunk_empty : chunk_t := [].

(** [c.ptr != NULL] *)
Definition chunk_ptr (c : chunk_t) : bool :=
  match c with
  | [] => false
  | _ :: _ => true
  end.

Definition chunk_clone (c : chunk_t) : chunk_t := c.

(** Modelled from the spec: [chunk_equals_const] of utils/chunk.h is not part
    of the sources; two chunks are equal when neither is NULL, the lengths
    agree and all bytes agree. *)
Definition chunk_equals_const (a b : chunk_t) : bool :=
  chunk_ptr a && chunk_ptr b && bool_decide (a = b).

Definition byte_of_Z (z : Z) : byte :=
  default x00 (Byte.of_N (Z.to_N (z mod 256))).

Definition Z_of_byte (b : byte) : Z := Z.of_N (Byte.to_N b).

(** [htons] followed by [chunk_from_thing] on a [uint16_t]: the two bytes in
    network order. *)
Definition chunk_from_htons (v : Z) : chunk_t :=
  [byte_of_Z (Z.shiftr v 8); byte_of_Z (Z.land v 255)].

(** [untoh16]: read a big-endian 16-bit value. *)
Definition untoh16 (c : chunk_t) : Z :=
  match c with
  | hi :: lo :: _ => Z.lor (Z.shiftl (Z_of_byte hi) 8) (Z_of_byte lo)
  | _ => 0
  end.

(** [memcmp] over the first [n] bytes, bytes compared as unsigned chars.  The
    sign of the C result is the [comparison]. *)
Fixpoint memcmp (s1 s2 : list byte) (n : nat) {struct n} : comparison :=
  match n with
  | O => Eq
  | S n' =>
      match s1, s2 with
      | b1 :: r1, b2 :: r2 =>
          match N.compare (Byte.to_N b1) (Byte.to_N b2) with
          | Eq => memcmp r1 r2 n'
          | c => c
          end
      | _, _ => Eq
      end
  end.

(** ** Enumerations

    Modelled from the spec: the enumerations below are declared in headers
    that are not part of the sources; only the values child_create.c uses or
    passes on are named. *)

Inductive status_t :=
  | SUCCESS | FAILED | OUT_OF_RES | ALREADY_DONE | NOT_SUPPORTED | INVALID_ARG
  | NOT_FOUND | PARSE_ERROR | VERIFY_ERROR | INVALID_STATE | DESTROY_ME
  | NEED_MORE.

Inductive exchange_type_t :=
  | IKE_SA_INIT | IKE_AUTH | CREATE_CHILD_SA | INFORMATIONAL
  | IKE_SESSION_RESUME | IKE_INTERMEDIATE | IKE_FOLLOWUP_KE
  | EXCHANGE_TYPE_UNDEFINED.

Inductive protocol_id_t := PROTO_NONE | PROTO_IKE | PROTO_AH | PROTO_ESP | PROTO_IPCOMP.

Inductive ipsec_mode_t := MODE_NONE | MODE_TRANSPORT | MODE_TUNNEL | MODE_BEET | MODE_PASS | MODE_DROP.

Inductive child_sa_state_t :=
  | CHILD_CREATED | CHILD_ROUTED | CHILD_INSTALLING | CHILD_INSTALLED
  | CHILD_UPDATING | CHILD_REKEYING | CHILD_REKEYED | CHILD_RETRYING
  | CHILD_DELETING | CHILD_DELETED | CHILD_DESTROYING.

Inductive childless_t := CHILDLESS_ALLOW | CHILDLESS_NEVER | CHILDLESS_PREFER | CHILDLESS_FORCE.

Inductive sec_label_mode_t :=
  | SEC_LABEL_MODE_SYSTEM | SEC_LABEL_MODE_SIMPLE | SEC_LABEL_MODE_SELINUX.

Inductive ike_sa_state_t :=
  | IKE_CREATED | IKE_CONNECTING | IKE_ESTABLISHED | IKE_PASSIVE | IKE_REKEYING
  | IKE_REKEYED | IKE_DELETING | IKE_DESTROYING.

Inductive ike_condition_t :=
  | COND_NAT_ANY | COND_NAT_HERE | COND_NAT_THERE | COND_AUTHENTICATED | COND_REDIRECTED.

Inductive ike_extension_t := EXT_STRONGSWAN | EXT_IKE_CHILDLESS.

Inductive child_cfg_option_t := OPT_IPCOMP | OPT_PROXY_MODE.

Inductive narrow_hook_t :=
  | NARROW_INITIATOR_PRE_NOAUTH | NARROW_INITIATOR_PRE_AUTH | NARROW_RESPONDER
  | NARROW_RESPONDER_POST | NARROW_INITIATOR_POST_NOAUTH | NARROW_INITIATOR_POST_AUTH.

Inductive alert_t :=
  | ALERT_TS_MISMATCH | ALERT_INSTALL_CHILD_SA_FAILED | ALERT_INSTALL_CHILD_POLICY_FAILED
  | ALERT_PROPOSAL_MISMATCH_CHILD | ALERT_KEEP_ON_CHILD_SA_FAILURE.

#[global] Instance status_eq_dec : EqDecision status_t.
Proof. solve_decision. Defined.
#[global] Instance exchange_type_eq_dec : EqDecision exchange_type_t.
Proof. solve_decision. Defined.
#[global] Instance protocol_id_eq_dec : EqDecision protocol_id_t.
Proof. solve_decision. Defined.
#[global] Instance ipsec_mode_eq_dec : EqDecision ipsec_mode_t.
Proof. solve_decision. Defined.
#[global] Instance child_sa_state_eq_dec : EqDecision child_sa_state_t.
Proof. solve_decision. Defined.
#[global] Instance childless_eq_dec : EqDecision childless_t.
Proof. solve_decision. Defined.
#[global] Instance sec_label_mode_eq_dec : EqDecision sec_label_mode_t.
Proof. solve_decision. Defined.
#[global] Instance ike_sa_state_eq_dec : EqDecision ike_sa_state_t.
Proof. solve_decision. Defined.

(** Modelled from the spec: the headers that declare the notify types, the
    transform types and the IPComp transforms are not part of the sources.
    The code compares and increments these values, so they stay numbers, with
    the codes of the IKEv2 registries. *)
Definition notify_type_t : Type := Z.
Definition INVALID_SYNTAX : notify_type_t := 7.
Definition NO_PROPOSAL_CHOSEN : notify_type_t := 14.
Definition INVALID_KE_PAYLOAD : notify_type_t := 17.
Definition SINGLE_PAIR_REQUIRED : notify_type_t := 34.
Definition NO_ADDITIONAL_SAS : notify_type_t := 35.
Definition INTERNAL_ADDRESS_FAILURE : notify_type_t := 36.
Definition FAILED_CP_REQUIRED : notify_type_t := 37.
Definition TS_UNACCEPTABLE : notify_type_t := 38.
Definition INVALID_SELECTORS : notify_type_t := 39.
Definition TEMPORARY_FAILURE : notify_type_t := 43.
Definition STATE_NOT_FOUND : notify_type_t := 47.
Definition IPCOMP_SUPPORTED : notify_type_t := 16387.
Definition USE_TRANSPORT_MODE : notify_type_t := 16391.
Definition ESP_TFC_PADDING_NOT_SUPPORTED : notify_type_t := 16394.
Definition ADDITIONAL_KEY_EXCHANGE : notify_type_t := 16441.
Definition USE_BEET_MODE : notify_type_t := 40961.

Definition transform_type_t : Type := Z.
Definition KEY_EXCHANGE_METHOD : transform_type_t := 4.
Definition ADDITIONAL_KEY_EXCHANGE_1 : transform_type_t := 6.
Definition ADDITIONAL_KEY_EXCHANGE_2 : transform_type_t := 7.
Definition ADDITIONAL_KEY_EXCHANGE_3 : transform_type_t := 8.
Definition ADDITIONAL_KEY_EXCHANGE_4 : transform_type_t := 9.
Definition ADDITIONAL_KEY_EXCHANGE_5 : transform_type_t := 10.
Definition ADDITIONAL_KEY_EXCHANGE_6 : transform_type_t := 11.
Definition ADDITIONAL_KEY_EXCHANGE_7 : transform_type_t := 12.

Definition key_exchange_method_t : Type := Z.
Definition KE_NONE : key_exchange_method_t := 0.

Definition ipcomp_transform_t : Type := Z.
Definition IPCOMP_NONE : ipcomp_transform_t := 0.
Definition IPCOMP_OUI : ipcomp_transform_t := 1.
Definition IPCOMP_DEFLATE : ipcomp_transform_t := 2.
Definition IPCOMP_LZS : ipcomp_transform_t := 3.
Definition IPCOMP_LZJH : ipcomp_transform_t := 4.

Definition MAX_ADDITIONAL_KEY_EXCHANGES : nat := 7.

(** Maximum number of key exchanges (including the initial one, if any) *)
Definition MAX_KEY_EXCHANGES : nat := MAX_ADDITIONAL_KEY_EXCHANGES + 1.

(** ** Objects of the collaborators *)

(** Hosts and child configurations are handles: the task only passes them
    on, everything it learns about them comes from the environment. *)
Definition host_t : Type := Z.
Definition child_cfg_t : Type := Z.

(** A security label is its encoding. *)
Definition sec_label_t : Type := chunk_t.

(** Modelled from the spec: [sec_labels_equal] of selectors/sec_label.h is not
    part of the sources; two optional labels are equal when both are absent or
    both are present with the same encoding. *)
Definition sec_labels_equal (a b : option sec_label_t) : bool :=
  match a, b with
  | None, None => true
  | Some x, Some y => bool_decide (x = y)
  | _, _ => false
  end.

Record traffic_selector_t := Build_traffic_selector {
  ts_protocol : Z;
  ts_from_port : Z;
  ts_to_port : Z;
  ts_from_addr : Z;
  ts_to_addr : Z
}.

(** *** Proposals *)

(** A proposal: protocol, SPI and the transforms as (type, algorithm) pairs
    in order of preference. *)
Record proposal_t := Build_proposal {
  prop_protocol : protocol_id_t;
  prop_spi : Z;
  prop_transforms : list (transform_type_t * Z)
}.

Definition get_protocol (p : proposal_t) : protocol_id_t := prop_protocol p.
Definition get_spi (p : proposal_t) : Z := prop_spi p.
Definition set_spi (p : proposal_t) (spi : Z) : proposal_t :=
  {| prop_protocol := prop_protocol p; prop_spi := spi;
     prop_transforms := prop_transforms p |}.

(** Modelled from the spec: proposal.c is not part of the sources.
    [get_algorithm] yields the first transform of the given type, if any. *)
Definition get_algorithm (p : proposal_t) (type : transform_type_t) : option Z :=
  match List.find (fun tr => Z.eqb (fst tr) type) (prop_transforms p) with
  | Some tr => Some (snd tr)
  | None => None
  end.

(** Modelled from the spec: proposal.c is not part of the sources.
    [has_transform] tells whether the algorithm is among the transforms of
    the type; asked for algorithm 0 it tells whether the proposal has no
    (non-zero) transform of the type at all. *)
Definition has_transform (p : proposal_t) (type : transform_type_t) (alg : Z) : bool :=
  let of_type := List.filter (fun tr => Z.eqb (fst tr) type && negb (Z.eqb (snd tr) 0))
                             (prop_transforms p) in
  if Z.eqb alg 0 then
    match of_type with [] => true | _ :: _ => false end
  else List.existsb (fun tr => Z.eqb (snd tr) alg) of_type.

(** Modelled from the spec: proposal.c is not part of the sources.
    [promote_transform] moves a selected transform of a type to the front,
    returning false (and leaving the proposal alone) if it is absent. *)
Definition promote_transform (p : proposal_t) (type : transform_type_t) (alg : Z)
  : bool * proposal_t :=
  let is_it := fun tr : transform_type_t * Z => Z.eqb (fst tr) type && Z.eqb (snd tr) alg in
  if List.existsb is_it (prop_transforms p) then
    (true, {| prop_protocol := prop_protocol p; prop_spi := prop_spi p;
              prop_transforms :=
                (type, alg) :: List.filter (fun tr => negb (is_it tr)) (prop_transforms p) |})
  else (false, p).

(** *** Key exchanges *)

(** A key exchange object: its method and the public value of the peer once
    applied. *)
Record key_exchange_t := Build_key_exchange {
  kx_method : key_exchange_method_t;
  kx_peer_public : option chunk_t
}.

Definition get_method (k : key_exchange_t) : key_exchange_method_t := kx_method k.

(** One entry of [this->key_exchanges]. *)
Record key_exchange_slot_t := Build_key_exchange_slot {
  kx_type : transform_type_t;
  kx_meth : key_exchange_method_t;
  kx_done : bool
}.

Definition empty_slot : key_exchange_slot_t :=
  {| kx_type := 0; kx_meth := 0; kx_done := false |}.

(** The keys [derive_child_keys] hands out. *)
Record child_keys_t := Build_child_keys {
  encr_i : chunk_t;
  integ_i : chunk_t;
  encr_r : chunk_t;
  integ_r : chunk_t
}.

(** *** CHILD_SA *)

(** Data collected to create the CHILD_SA ([this->child]). *)
Record child_sa_create_t := Build_child_sa_create {
  reqid : Z;
  mark_in : Z;
  mark_out : Z;
  if_id_in : Z;
  if_id_out : Z;
  if_id_in_def : Z;
  if_id_out_def : Z;
  label : option sec_label_t;
  encap : bool
}.

Definition upd_reqid (v : Z) (x : child_sa_create_t) : child_sa_create_t :=
  {| reqid := v; mark_in := mark_in x; mark_out := mark_out x; if_id_in := if_id_in x;
  if_id_out := if_id_out x; if_id_in_def := if_id_in_def x; if_id_out_def := if_id_out_def x;
  label := label x; encap := encap x |}.
Definition upd_mark_in (v : Z) (x : child_sa_create_t) : child_sa_create_t :=
  {| reqid := reqid x; mark_in := v; mark_out := mark_out x; if_id_in := if_id_in x; if_id_out
  := if_id_out x; if_id_in_def := if_id_in_def x; if_id_out_def := if_id_out_def x; label :=
  label x; encap := encap x |}.
Definition upd_mark_out (v : Z) (x : child_sa_create_t) : child_sa_create_t :=
  {| reqid := reqid x; mark_in := mark_in x; mark_out := v; if_id_in := if_id_in x; if_id_out
  := if_id_out x; if_id_in_def := if_id_in_def x; if_id_out_def := if_id_out_def x; label :=
  label x; encap := encap x |}.
Definition upd_if_id_in (v : Z) (x : child_sa_create_t) : child_sa_create_t :=
  {| reqid := reqid x; mark_in := mark_in x; mark_out := mark_out x; if_id_in := v; if_id_out
  := if_id_out x; if_id_in_def := if_id_in_def x; if_id_out_def := if_id_out_def x; label :=
  label x; encap := encap x |}.
Definition upd_if_id_out (v : Z) (x : child_sa_create_t) : child_sa_create_t :=
  {| reqid := reqid x; mark_in := mark_in x; mark_out := mark_out x; if_id_in := if_id_in x;
  if_id_out := v; if_id_in_def := if_id_in_def x; if_id_out_def := if_id_out_def x; label :=
  label x; encap := encap x |}.
Definition upd_if_id_in_def (v : Z) (x : child_sa_create_t) : child_sa_create_t :=
  {| reqid := reqid x; mark_in := mark_in x; mark_out := mark_out x; if_id_in := if_id_in x;
  if_id_out := if_id_out x; if_id_in_def := v; if_id_out_def := if_id_out_def x; label :=
  label x; encap := encap x |}.
Definition upd_if_id_out_def (v : Z) (x : child_sa_create_t) : child_sa_create_t :=
  {| reqid := reqid x; mark_in := mark_in x; mark_out := mark_out x; if_id_in := if_id_in x;
  if_id_out := if_id_out x; if_id_in_def := if_id_in_def x; if_id_out_def := v; label := label
  x; encap := encap x |}.
Definition upd_label (v : option sec_label_t) (x : child_sa_create_t) : child_sa_create_t :=
  {| reqid := reqid x; mark_in := mark_in x; mark_out := mark_out x; if_id_in := if_id_in x;
  if_id_out := if_id_out x; if_id_in_def := if_id_in_def x; if_id_out_def := if_id_out_def x;
  label := v; encap := encap x |}.
Definition upd_encap (v : bool) (x : child_sa_create_t) : child_sa_create_t :=
  {| reqid := reqid x; mark_in := mark_in x; mark_out := mark_out x; if_id_in := if_id_in x;
  if_id_out := if_id_out x; if_id_in_def := if_id_in_def x; if_id_out_def := if_id_out_def x;
  label := label x; encap := v |}.

(** The CHILD_SA object, as far as the task reads and sets it.  Mark fields hold the [value] of the mark. *)
Record child_sa_t := Build_child_sa {
  sa_config : child_cfg_t;
  sa_unique_id : Z;
  sa_reqid : Z;
  sa_mark_in : Z;
  sa_mark_out : Z;
  sa_if_id_in : Z;
  sa_if_id_out : Z;
  sa_label : option sec_label_t;
  sa_state : child_sa_state_t;
  sa_ipcomp : ipcomp_transform_t;
  sa_mode : ipsec_mode_t;
  sa_protocol : protocol_id_t;
  sa_proposal : option proposal_t;
  sa_my_host : host_t;
  sa_other_host : host_t;
  sa_encap : bool;
  sa_my_ts : list traffic_selector_t;
  sa_other_ts : list traffic_selector_t
}.

Definition upd_sa_state (v : child_sa_state_t) (x : child_sa_t) : child_sa_t :=
  {| sa_config := sa_config x; sa_unique_id := sa_unique_id x; sa_reqid := sa_reqid x;
  sa_mark_in := sa_mark_in x; sa_mark_out := sa_mark_out x; sa_if_id_in := sa_if_id_in x;
  sa_if_id_out := sa_if_id_out x; sa_label := sa_label x; sa_state := v; sa_ipcomp :=
  sa_ipcomp x; sa_mode := sa_mode x; sa_protocol := sa_protocol x; sa_proposal := sa_proposal
  x; sa_my_host := sa_my_host x; sa_other_host := sa_other_host x; sa_encap := sa_encap x;
  sa_my_ts := sa_my_ts x; sa_other_ts := sa_other_ts x |}.
Definition upd_sa_ipcomp (v : ipcomp_transform_t) (x : child_sa_t) : child_sa_t :=
  {| sa_config := sa_config x; sa_unique_id := sa_unique_id x; sa_reqid := sa_reqid x;
  sa_mark_in := sa_mark_in x; sa_mark_out := sa_mark_out x; sa_if_id_in := sa_if_id_in x;
  sa_if_id_out := sa_if_id_out x; sa_label := sa_label x; sa_state := sa_state x; sa_ipcomp :=
  v; sa_mode := sa_mode x; sa_protocol := sa_protocol x; sa_proposal := sa_proposal x;
  sa_my_host := sa_my_host x; sa_other_host := sa_other_host x; sa_encap := sa_encap x;
  sa_my_ts := sa_my_ts x; sa_other_ts := sa_other_ts x |}.
Definition upd_sa_mode (v : ipsec_mode_t) (x : child_sa_t) : child_sa_t :=
  {| sa_config := sa_config x; sa_unique_id := sa_unique_id x; sa_reqid := sa_reqid x;
  sa_mark_in := sa_mark_in x; sa_mark_out := sa_mark_out x; sa_if_id_in := sa_if_id_in x;
  sa_if_id_out := sa_if_id_out x; sa_label := sa_label x; sa_state := sa_state x; sa_ipcomp :=
  sa_ipcomp x; sa_mode := v; sa_protocol := sa_protocol x; sa_proposal := sa_proposal x;
  sa_my_host := sa_my_host x; sa_other_host := sa_other_host x; sa_encap := sa_encap x;
  sa_my_ts := sa_my_ts x; sa_other_ts := sa_other_ts x |}.
Definition upd_sa_protocol (v : protocol_id_t) (x : child_sa_t) : child_sa_t :=
  {| sa_config := sa_config x; sa_unique_id := sa_unique_id x; sa_reqid := sa_reqid x;
  sa_mark_in := sa_mark_in x; sa_mark_out := sa_mark_out x; sa_if_id_in := sa_if_id_in x;
  sa_if_id_out := sa_if_id_out x; sa_label := sa_label x; sa_state := sa_state x; sa_ipcomp :=
  sa_ipcomp x; sa_mode := sa_mode x; sa_protocol := v; sa_proposal := sa_proposal x;
  sa_my_host := sa_my_host x; sa_other_host := sa_other_host x; sa_encap := sa_encap x;
  sa_my_ts := sa_my_ts x; sa_other_ts := sa_other_ts x |}.
Definition upd_sa_proposal (v : option proposal_t) (x : child_sa_t) : child_sa_t :=
  {| sa_config := sa_config x; sa_unique_id := sa_unique_id x; sa_reqid := sa_reqid x;
  sa_mark_in := sa_mark_in x; sa_mark_out := sa_mark_out x; sa_if_id_in := sa_if_id_in x;
  sa_if_id_out := sa_if_id_out x; sa_label := sa_label x; sa_state := sa_state x; sa_ipcomp :=
  sa_ipcomp x; sa_mode := sa_mode x; sa_protocol := sa_protocol x; sa_proposal := v;
  sa_my_host := sa_my_host x; sa_other_host := sa_other_host x; sa_encap := sa_encap x;
  sa_my_ts := sa_my_ts x; sa_other_ts := sa_other_ts x |}.
Definition upd_sa_my_host (v : host_t) (x : child_sa_t) : child_sa_t :=
  {| sa_config := sa_config x; sa_unique_id := sa_unique_id x; sa_reqid := sa_reqid x;
  sa_mark_in := sa_mark_in x; sa_mark_out := sa_mark_out x; sa_if_id_in := sa_if_id_in x;
  sa_if_id_out := sa_if_id_out x; sa_label := sa_label x; sa_state := sa_state x; sa_ipcomp :=
  sa_ipcomp x; sa_mode := sa_mode x; sa_protocol := sa_protocol x; sa_proposal := sa_proposal
  x; sa_my_host := v; sa_other_host := sa_other_host x; sa_encap := sa_encap x; sa_my_ts :=
  sa_my_ts x; sa_other_ts := sa_other_ts x |}.
Definition upd_sa_other_host (v : host_t) (x : child_sa_t) : child_sa_t :=
  {| sa_config := sa_config x; sa_unique_id := sa_unique_id x; sa_reqid := sa_reqid x;
  sa_mark_in := sa_mark_in x; sa_mark_out := sa_mark_out x; sa_if_id_in := sa_if_id_in x;
  sa_if_id_out := sa_if_id_out x; sa_label := sa_label x; sa_state := sa_state x; sa_ipcomp :=
  sa_ipcomp x; sa_mode := sa_mode x; sa_protocol := sa_protocol x; sa_proposal := sa_proposal
  x; sa_my_host := sa_my_host x; sa_other_host := v; sa_encap := sa_encap x; sa_my_ts :=
  sa_my_ts x; sa_other_ts := sa_other_ts x |}.
Definition upd_sa_encap (v : bool) (x : child_sa_t) : child_sa_t :=
  {| sa_config := sa_config x; sa_unique_id := sa_unique_id x; sa_reqid := sa_reqid x;
  sa_mark_in := sa_mark_in x; sa_mark_out := sa_mark_out x; sa_if_id_in := sa_if_id_in x;
  sa_if_id_out := sa_if_id_out x; sa_label := sa_label x; sa_state := sa_state x; sa_ipcomp :=
  sa_ipcomp x; sa_mode := sa_mode x; sa_protocol := sa_protocol x; sa_proposal := sa_proposal
  x; sa_my_host := sa_my_host x; sa_other_host := sa_other_host x; sa_encap := v; sa_my_ts :=
  sa_my_ts x; sa_other_ts := sa_other_ts x |}.
Definition upd_sa_my_ts (v : list traffic_selector_t) (x : child_sa_t) : child_sa_t :=
  {| sa_config := sa_config x; sa_unique_id := sa_unique_id x; sa_reqid := sa_reqid x;
  sa_mark_in := sa_mark_in x; sa_mark_out := sa_mark_out x; sa_if_id_in := sa_if_id_in x;
  sa_if_id_out := sa_if_id_out x; sa_label := sa_label x; sa_state := sa_state x; sa_ipcomp :=
  sa_ipcomp x; sa_mode := sa_mode x; sa_protocol := sa_protocol x; sa_proposal := sa_proposal
  x; sa_my_host := sa_my_host x; sa_other_host := sa_other_host x; sa_encap := sa_encap x;
  sa_my_ts := v; sa_other_ts := sa_other_ts x |}.
Definition upd_sa_other_ts (v : list traffic_selector_t) (x : child_sa_t) : child_sa_t :=
  {| sa_config := sa_config x; sa_unique_id := sa_unique_id x; sa_reqid := sa_reqid x;
  sa_mark_in := sa_mark_in x; sa_mark_out := sa_mark_out x; sa_if_id_in := sa_if_id_in x;
  sa_if_id_out := sa_if_id_out x; sa_label := sa_label x; sa_state := sa_state x; sa_ipcomp :=
  sa_ipcomp x; sa_mode := sa_mode x; sa_protocol := sa_protocol x; sa_proposal := sa_proposal
  x; sa_my_host := sa_my_host x; sa_other_host := sa_other_host x; sa_encap := sa_encap x;
  sa_my_ts := sa_my_ts x; sa_other_ts := v |}.

Definition get_config_sa (a : child_sa_t) : child_cfg_t := sa_config a.
Definition get_reqid (a : child_sa_t) : Z := sa_reqid a.
Definition get_mark (a : child_sa_t) (inbound : bool) : Z :=
  if inbound then sa_mark_in a else sa_mark_out a.
Definition get_if_id (a : child_sa_t) (inbound : bool) : Z :=
  if inbound then sa_if_id_in a else sa_if_id_out a.
Definition get_label (a : child_sa_t) : option sec_label_t := sa_label a.
Definition get_state (a : child_sa_t) : child_sa_state_t := sa_state a.

(** *** Messages *)

Inductive payload_t :=
  | PLV2_SECURITY_ASSOCIATION (props : list proposal_t)
  | PLV2_KEY_EXCHANGE (method : key_exchange_method_t) (data : chunk_t)
  | PLV2_NONCE (nonce : chunk_t)
  | PLV2_TS_INITIATOR (ts : list traffic_selector_t) (labels : list sec_label_t)
  | PLV2_TS_RESPONDER (ts : list traffic_selector_t) (labels : list sec_label_t)
  | PLV2_NOTIFY (type : notify_type_t) (data : chunk_t)
  | PLV2_DELETE (protocol : protocol_id_t) (spis : list Z)
  | PLV2_OTHER (type : Z).

Record message_t := Build_message {
  exchange_type : exchange_type_t;
  payloads : list payload_t
}.

Definition get_exchange_type (m : message_t) : exchange_type_t := exchange_type m.

Definition set_exchange_type (m : message_t) (e : exchange_type_t) : message_t :=
  {| exchange_type := e; payloads := payloads m |}.

Definition add_payload (m : message_t) (p : payload_t) : message_t :=
  {| exchange_type := exchange_type m; payloads := payloads m ++ [p] |}.

(** Modelled from the spec: message.c is not part of the sources.
    [add_notify] appends a notify payload, after dropping every payload
    added so far when [flush] is set. *)
Definition add_notify (m : message_t) (flush : bool) (type : notify_type_t)
    (data : chunk_t) : message_t :=
  {| exchange_type := exchange_type m;
     payloads := (if flush then [] else payloads m) ++ [PLV2_NOTIFY type data] |}.

(** [message->get_notify]: the data of the first notify of the type. *)
Fixpoint get_notify (pls : list payload_t) (type : notify_type_t) : option chunk_t :=
  match pls with
  | [] => None
  | PLV2_NOTIFY ty data :: rest => if Z.eqb ty type then Some data else get_notify rest type
  | _ :: rest => get_notify rest type
  end.

(** [message->get_payload(message, PLV2_NONCE)] *)
Fixpoint get_nonce_payload (pls : list payload_t) : option chunk_t :=
  match pls with
  | [] => None
  | PLV2_NONCE n :: _ => Some n
  | _ :: rest => get_nonce_payload rest
  end.

(** [message->get_payload(message, PLV2_KEY_EXCHANGE)] *)
Fixpoint get_ke_payload (pls : list payload_t)
  : option (key_exchange_method_t * chunk_t) :=
  match pls with
  | [] => None
  | PLV2_KEY_EXCHANGE m d :: _ => Some (m, d)
  | _ :: rest => get_ke_payload rest
  end.

(** ** The task *)

Inductive build_t :=
  | _build_i | _build_i_multi_ke | _build_i_delete
  | _build_r | _build_r_multi_ke | build_return_need_more.

Inductive process_t :=
  | _process_i | _process_i_multi_ke
  | _process_r | _process_r_multi_ke | process_return_need_more.

#[global] Instance build_eq_dec : EqDecision build_t.
Proof. solve_decision. Defined.

(** Private members of a child_create_t task.  [build] and [process] are the two handlers of [public.task] that the task swaps at run time; the IKE_SA, its keymat and the nonce generator are collaborators and live in the environment. *)
Record private_child_create_t := Build_private_child_create {
  build : build_t;
  process : process_t;
  initiator : bool;
  my_nonce : chunk_t;
  other_nonce : chunk_t;
  config : option child_cfg_t;
  proposals : option (list proposal_t);
  proposal : option proposal_t;
  tsi : option (list traffic_selector_t);
  tsr : option (list traffic_selector_t);
  labels_i : option (list sec_label_t);
  labels_r : option (list sec_label_t);
  packet_tsi : option traffic_selector_t;
  packet_tsr : option traffic_selector_t;
  key_exchanges : list key_exchange_slot_t;
  ke_index : nat;
  ke_method : key_exchange_method_t;
  ke : option key_exchange_t;
  kes : list key_exchange_t;
  ke_failed : bool;
  link : chunk_t;
  mode : ipsec_mode_t;
  tfcv3 : bool;
  ipcomp : ipcomp_transform_t;
  ipcomp_received : ipcomp_transform_t;
  proto : protocol_id_t;
  my_spi : Z;
  other_spi : Z;
  my_cpi : Z;
  other_cpi : Z;
  child : child_sa_create_t;
  child_sa : option child_sa_t;
  established : bool;
  rekey : bool;
  retry : bool;
  aborted : bool
}.

Definition upd_build (v : build_t) (x : private_child_create_t) : private_child_create_t :=
  {| build := v; process := process x; initiator := initiator x; my_nonce := my_nonce x;
  other_nonce := other_nonce x; config := config x; proposals := proposals x; proposal :=
  proposal x; tsi := tsi x; tsr := tsr x; labels_i := labels_i x; labels_r := labels_r x;
  packet_tsi := packet_tsi x; packet_tsr := packet_tsr x; key_exchanges := key_exchanges x;
  ke_index := ke_index x; ke_method := ke_method x; ke := ke x; kes := kes x; ke_failed :=
  ke_failed x; link := link x; mode := mode x; tfcv3 := tfcv3 x; ipcomp := ipcomp x;
  ipcomp_received := ipcomp_received x; proto := proto x; my_spi := my_spi x; other_spi :=
  other_spi x; my_cpi := my_cpi x; other_cpi := other_cpi x; child := child x; child_sa :=
  child_sa x; established := established x; rekey := rekey x; retry := retry x; aborted :=
  aborted x |}.
Definition upd_process (v : process_t) (x : private_child_create_t) : private_child_create_t :=
  {| build := build x; process := v; initiator := initiator x; my_nonce := my_nonce x;
  other_nonce := other_nonce x; config := config x; proposals := proposals x; proposal :=
  proposal x; tsi := tsi x; tsr := tsr x; labels_i := labels_i x; labels_r := labels_r x;
  packet_tsi := packet_tsi x; packet_tsr := packet_tsr x; key_exchanges := key_exchanges x;
  ke_index := ke_index x; ke_method := ke_method x; ke := ke x; kes := kes x; ke_failed :=
  ke_failed x; link := link x; mode := mode x; tfcv3 := tfcv3 x; ipcomp := ipcomp x;
  ipcomp_received := ipcomp_received x; proto := proto x; my_spi := my_spi x; other_spi :=
  other_spi x; my_cpi := my_cpi x; other_cpi := other_cpi x; child := child x; child_sa :=
  child_sa x; established := established x; rekey := rekey x; retry := retry x; aborted :=
  aborted x |}.
Definition upd_initiator (v : bool) (x : private_child_create_t) : private_child_create_t :=
  {| build := build x; process := process x; initiator := v; my_nonce := my_nonce x;
  other_nonce := other_nonce x; config := config x; proposals := proposals x; proposal :=
  proposal x; tsi := tsi x; tsr := tsr x; labels_i := labels_i x; labels_r := labels_r x;
  packet_tsi := packet_tsi x; packet_tsr := packet_tsr x; key_exchanges := key_exchanges x;
  ke_index := ke_index x; ke_method := ke_method x; ke := ke x; kes := kes x; ke_failed :=
  ke_failed x; link := link x; mode := mode x; tfcv3 := tfcv3 x; ipcomp := ipcomp x;
  ipcomp_received := ipcomp_received x; proto := proto x; my_spi := my_spi x; other_spi :=
  other_spi x; my_cpi := my_cpi x; other_cpi := other_cpi x; child := child x; child_sa :=
  child_sa x; established := established x; rekey := rekey x; retry := retry x; aborted :=
  aborted x |}.
Definition upd_my_nonce (v : chunk_t) (x : private_child_create_t) : private_child_create_t :=
  {| build := build x; process := process x; initiator := initiator x; my_nonce := v;
  other_nonce := other_nonce x; config := config x; proposals := proposals x; proposal :=
  proposal x; tsi := tsi x; tsr := tsr x; labels_i := labels_i x; labels_r := labels_r x;
  packet_tsi := packet_tsi x; packet_tsr := packet_tsr x; key_exchanges := key_exchanges x;
  ke_index := ke_index x; ke_method := ke_method x; ke := ke x; kes := kes x; ke_failed :=
  ke_failed x; link := link x; mode := mode x; tfcv3 := tfcv3 x; ipcomp := ipcomp x;
  ipcomp_received := ipcomp_received x; proto := proto x; my_spi := my_spi x; other_spi :=
  other_spi x; my_cpi := my_cpi x; other_cpi := other_cpi x; child := child x; child_sa :=
  child_sa x; established := established x; rekey := rekey x; retry := retry x; aborted :=
  aborted x |}.
Definition upd_other_nonce (v : chunk_t) (x : private_child_create_t) : private_child_create_t :=
  {| build := build x; process := process x; initiator := initiator x; my_nonce := my_nonce x;
  other_nonce := v; config := config x; proposals := proposals x; proposal := proposal x; tsi
  := tsi x; tsr := tsr x; labels_i := labels_i x; labels_r := labels_r x; packet_tsi :=
  packet_tsi x; packet_tsr := packet_tsr x; key_exchanges := key_exchanges x; ke_index :=
  ke_index x; ke_method := ke_method x; ke := ke x; kes := kes x; ke_failed := ke_failed x;
  link := link x; mode := mode x; tfcv3 := tfcv3 x; ipcomp := ipcomp x; ipcomp_received :=
  ipcomp_received x; proto := proto x; my_spi := my_spi x; other_spi := other_spi x; my_cpi :=
  my_cpi x; other_cpi := other_cpi x; child := child x; child_sa := child_sa x; established :=
  established x; rekey := rekey x; retry := retry x; aborted := aborted x |}.
Definition upd_config (v : option child_cfg_t) (x : private_child_create_t) : private_child_create_t :=
  {| build := build x; process := process x; initiator := initiator x; my_nonce := my_nonce x;
  other_nonce := other_nonce x; config := v; proposals := proposals x; proposal := proposal x;
  tsi := tsi x; tsr := tsr x; labels_i := labels_i x; labels_r := labels_r x; packet_tsi :=
  packet_tsi x; packet_tsr := packet_tsr x; key_exchanges := key_exchanges x; ke_index :=
  ke_index x; ke_method := ke_method x; ke := ke x; kes := kes x; ke_failed := ke_failed x;
  link := link x; mode := mode x; tfcv3 := tfcv3 x; ipcomp := ipcomp x; ipcomp_received :=
  ipcomp_received x; proto := proto x; my_spi := my_spi x; other_spi := other_spi x; my_cpi :=
  my_cpi x; other_cpi := other_cpi x; child := child x; child_sa := child_sa x; established :=
  established x; rekey := rekey x; retry := retry x; aborted := aborted x |}.
Definition upd_proposals (v : option (list proposal_t)) (x : private_child_create_t) : private_child_create_t :=
  {| build := build x; process := process x; initiator := initiator x; my_nonce := my_nonce x;
  other_nonce := other_nonce x; config := config x; proposals := v; proposal := proposal x;
  tsi := tsi x; tsr := tsr x; labels_i := labels_i x; labels_r := labels_r x; packet_tsi :=
  packet_tsi x; packet_tsr := packet_tsr x; key_exchanges := key_exchanges x; ke_index :=
  ke_index x; ke_method := ke_method x; ke := ke x; kes := kes x; ke_failed := ke_failed x;
  link := link x; mode := mode x; tfcv3 := tfcv3 x; ipcomp := ipcomp x; ipcomp_received :=
  ipcomp_received x; proto := proto x; my_spi := my_spi x; other_spi := other_spi x; my_cpi :=
  my_cpi x; other_cpi := other_cpi x; child := child x; child_sa := child_sa x; established :=
  established x; rekey := rekey x; retry := retry x; aborted := aborted x |}.
Definition upd_proposal (v : option proposal_t) (x : private_child_create_t) : private_child_create_t :=
  {| build := build x; process := process x; initiator := initiator x; my_nonce := my_nonce x;
  other_nonce := other_nonce x; config := config x; proposals := proposals x; proposal := v;
  tsi := tsi x; tsr := tsr x; labels_i := labels_i x; labels_r := labels_r x; packet_tsi :=
  packet_tsi x; packet_tsr := packet_tsr x; key_exchanges := key_exchanges x; ke_index :=
  ke_index x; ke_method := ke_method x; ke := ke x; kes := kes x; ke_failed := ke_failed x;
  link := link x; mode := mode x; tfcv3 := tfcv3 x; ipcomp := ipcomp x; ipcomp_received :=
  ipcomp_received x; proto := proto x; my_spi := my_spi x; other_spi := other_spi x; my_cpi :=
  my_cpi x; other_cpi := other_cpi x; child := child x; child_sa := child_sa x; established :=
  established x; rekey := rekey x; retry := retry x; aborted := aborted x |}.
Definition upd_tsi (v : option (list traffic_selector_t)) (x : private_child_create_t) : private_child_create_t :=
  {| build := build x; process := process x; initiator := initiator x; my_nonce := my_nonce x;
  other_nonce := other_nonce x; config := config x; proposals := proposals x; proposal :=
  proposal x; tsi := v; tsr := tsr x; labels_i := labels_i x; labels_r := labels_r x;
  packet_tsi := packet_tsi x; packet_tsr := packet_tsr x; key_exchanges := key_exchanges x;
  ke_index := ke_index x; ke_method := ke_method x; ke := ke x; kes := kes x; ke_failed :=
  ke_failed x; link := link x; mode := mode x; tfcv3 := tfcv3 x; ipcomp := ipcomp x;
  ipcomp_received := ipcomp_received x; proto := proto x; my_spi := my_spi x; other_spi :=
  other_spi x; my_cpi := my_cpi x; other_cpi := other_cpi x; child := child x; child_sa :=
  child_sa x; established := established x; rekey := rekey x; retry := retry x; aborted :=
  aborted x |}.
Definition upd_tsr (v : option (list traffic_selector_t)) (x : private_child_create_t) : private_child_create_t :=
  {| build := build x; process := process x; initiator := initiator x; my_nonce := my_nonce x;
  other_nonce := other_nonce x; config := config x; proposals := proposals x; proposal :=
  proposal x; tsi := tsi x; tsr := v; labels_i := labels_i x; labels_r := labels_r x;
  packet_tsi := packet_tsi x; packet_tsr := packet_tsr x; key_exchanges := key_exchanges x;
  ke_index := ke_index x; ke_method := ke_method x; ke := ke x; kes := kes x; ke_failed :=
  ke_failed x; link := link x; mode := mode x; tfcv3 := tfcv3 x; ipcomp := ipcomp x;
  ipcomp_received := ipcomp_received x; proto := proto x; my_spi := my_spi x; other_spi :=
  other_spi x; my_cpi := my_cpi x; other_cpi := other_cpi x; child := child x; child_sa :=
  child_sa x; established := established x; rekey := rekey x; retry := retry x; aborted :=
  aborted x |}.
Definition upd_labels_i (v : option (list sec_label_t)) (x : private_child_create_t) : private_child_create_t :=
  {| build := build x; process := process x; initiator := initiator x; my_nonce := my_nonce x;
  other_nonce := other_nonce x; config := config x; proposals := proposals x; proposal :=
  proposal x; tsi := tsi x; tsr := tsr x; labels_i := v; labels_r := labels_r x; packet_tsi :=
  packet_tsi x; packet_tsr := packet_tsr x; key_exchanges := key_exchanges x; ke_index :=
  ke_index x; ke_method := ke_method x; ke := ke x; kes := kes x; ke_failed := ke_failed x;
  link := link x; mode := mode x; tfcv3 := tfcv3 x; ipcomp := ipcomp x; ipcomp_received :=
  ipcomp_received x; proto := proto x; my_spi := my_spi x; other_spi := other_spi x; my_cpi :=
  my_cpi x; other_cpi := other_cpi x; child := child x; child_sa := child_sa x; established :=
  established x; rekey := rekey x; retry := retry x; aborted := aborted x |}.
Definition upd_labels_r (v : option (list sec_label_t)) (x : private_child_create_t) : private_child_create_t :=
  {| build := build x; process := process x; initiator := initiator x; my_nonce := my_nonce x;
  other_nonce := other_nonce x; config := config x; proposals := proposals x; proposal :=
  proposal x; tsi := tsi x; tsr := tsr x; labels_i := labels_i x; labels_r := v; packet_tsi :=
  packet_tsi x; packet_tsr := packet_tsr x; key_exchanges := key_exchanges x; ke_index :=
  ke_index x; ke_method := ke_method x; ke := ke x; kes := kes x; ke_failed := ke_failed x;
  link := link x; mode := mode x; tfcv3 := tfcv3 x; ipcomp := ipcomp x; ipcomp_received :=
  ipcomp_received x; proto := proto x; my_spi := my_spi x; other_spi := other_spi x; my_cpi :=
  my_cpi x; other_cpi := other_cpi x; child := child x; child_sa := child_sa x; established :=
  established x; rekey := rekey x; retry := retry x; aborted := aborted x |}.
Definition upd_packet_tsi (v : option traffic_selector_t) (x : private_child_create_t) : private_child_create_t :=
  {| build := build x; process := process x; initiator := initiator x; my_nonce := my_nonce x;
  other_nonce := other_nonce x; config := config x; proposals := proposals x; proposal :=
  proposal x; tsi := tsi x; tsr := tsr x; labels_i := labels_i x; labels_r := labels_r x;
  packet_tsi := v; packet_tsr := packet_tsr x; key_exchanges := key_exchanges x; ke_index :=
  ke_index x; ke_method := ke_method x; ke := ke x; kes := kes x; ke_failed := ke_failed x;
  link := link x; mode := mode x; tfcv3 := tfcv3 x; ipcomp := ipcomp x; ipcomp_received :=
  ipcomp_received x; proto := proto x; my_spi := my_spi x; other_spi := other_spi x; my_cpi :=
  my_cpi x; other_cpi := other_cpi x; child := child x; child_sa := child_sa x; established :=
  established x; rekey := rekey x; retry := retry x; aborted := aborted x |}.
Definition upd_packet_tsr (v : option traffic_selector_t) (x : private_child_create_t) : private_child_create_t :=
  {| build := build x; process := process x; initiator := initiator x; my_nonce := my_nonce x;
  other_nonce := other_nonce x; config := config x; proposals := proposals x; proposal :=
  proposal x; tsi := tsi x; tsr := tsr x; labels_i := labels_i x; labels_r := labels_r x;
  packet_tsi := packet_tsi x; packet_tsr := v; key_exchanges := key_exchanges x; ke_index :=
  ke_index x; ke_method := ke_method x; ke := ke x; kes := kes x; ke_failed := ke_failed x;
  link := link x; mode := mode x; tfcv3 := tfcv3 x; ipcomp := ipcomp x; ipcomp_received :=
  ipcomp_received x; proto := proto x; my_spi := my_spi x; other_spi := other_spi x; my_cpi :=
  my_cpi x; other_cpi := other_cpi x; child := child x; child_sa := child_sa x; established :=
  established x; rekey := rekey x; retry := retry x; aborted := aborted x |}.
Definition upd_key_exchanges (v : list key_exchange_slot_t) (x : private_child_create_t) : private_child_create_t :=
  {| build := build x; process := process x; initiator := initiator x; my_nonce := my_nonce x;
  other_nonce := other_nonce x; config := config x; proposals := proposals x; proposal :=
  proposal x; tsi := tsi x; tsr := tsr x; labels_i := labels_i x; labels_r := labels_r x;
  packet_tsi := packet_tsi x; packet_tsr := packet_tsr x; key_exchanges := v; ke_index :=
  ke_index x; ke_method := ke_method x; ke := ke x; kes := kes x; ke_failed := ke_failed x;
  link := link x; mode := mode x; tfcv3 := tfcv3 x; ipcomp := ipcomp x; ipcomp_received :=
  ipcomp_received x; proto := proto x; my_spi := my_spi x; other_spi := other_spi x; my_cpi :=
  my_cpi x; other_cpi := other_cpi x; child := child x; child_sa := child_sa x; established :=
  established x; rekey := rekey x; retry := retry x; aborted := aborted x |}.
Definition upd_ke_index (v : nat) (x : private_child_create_t) : private_child_create_t :=
  {| build := build x; process := process x; initiator := initiator x; my_nonce := my_nonce x;
  other_nonce := other_nonce x; config := config x; proposals := proposals x; proposal :=
  proposal x; tsi := tsi x; tsr := tsr x; labels_i := labels_i x; labels_r := labels_r x;
  packet_tsi := packet_tsi x; packet_tsr := packet_tsr x; key_exchanges := key_exchanges x;
  ke_index := v; ke_method := ke_method x; ke := ke x; kes := kes x; ke_failed := ke_failed x;
  link := link x; mode := mode x; tfcv3 := tfcv3 x; ipcomp := ipcomp x; ipcomp_received :=
  ipcomp_received x; proto := proto x; my_spi := my_spi x; other_spi := other_spi x; my_cpi :=
  my_cpi x; other_cpi := other_cpi x; child := child x; child_sa := child_sa x; established :=
  established x; rekey := rekey x; retry := retry x; aborted := aborted x |}.
Definition upd_ke_method (v : key_exchange_method_t) (x : private_child_create_t) : private_child_create_t :=
  {| build := build x; process := process x; initiator := initiator x; my_nonce := my_nonce x;
  other_nonce := other_nonce x; config := config x; proposals := proposals x; proposal :=
  proposal x; tsi := tsi x; tsr := tsr x; labels_i := labels_i x; labels_r := labels_r x;
  packet_tsi := packet_tsi x; packet_tsr := packet_tsr x; key_exchanges := key_exchanges x;
  ke_index := ke_index x; ke_method := v; ke := ke x; kes := kes x; ke_failed := ke_failed x;
  link := link x; mode := mode x; tfcv3 := tfcv3 x; ipcomp := ipcomp x; ipcomp_received :=
  ipcomp_received x; proto := proto x; my_spi := my_spi x; other_spi := other_spi x; my_cpi :=
  my_cpi x; other_cpi := other_cpi x; child := child x; child_sa := child_sa x; established :=
  established x; rekey := rekey x; retry := retry x; aborted := aborted x |}.
Definition upd_ke (v : option key_exchange_t) (x : private_child_create_t) : private_child_create_t :=
  {| build := build x; process := process x; initiator := initiator x; my_nonce := my_nonce x;
  other_nonce := other_nonce x; config := config x; proposals := proposals x; proposal :=
  proposal x; tsi := tsi x; tsr := tsr x; labels_i := labels_i x; labels_r := labels_r x;
  packet_tsi := packet_tsi x; packet_tsr := packet_tsr x; key_exchanges := key_exchanges x;
  ke_index := ke_index x; ke_method := ke_method x; ke := v; kes := kes x; ke_failed :=
  ke_failed x; link := link x; mode := mode x; tfcv3 := tfcv3 x; ipcomp := ipcomp x;
  ipcomp_received := ipcomp_received x; proto := proto x; my_spi := my_spi x; other_spi :=
  other_spi x; my_cpi := my_cpi x; other_cpi := other_cpi x; child := child x; child_sa :=
  child_sa x; established := established x; rekey := rekey x; retry := retry x; aborted :=
  aborted x |}.
Definition upd_kes (v : list key_exchange_t) (x : private_child_create_t) : private_child_create_t :=
  {| build := build x; process := process x; initiator := initiator x; my_nonce := my_nonce x;
  other_nonce := other_nonce x; config := config x; proposals := proposals x; proposal :=
  proposal x; tsi := tsi x; tsr := tsr x; labels_i := labels_i x; labels_r := labels_r x;
  packet_tsi := packet_tsi x; packet_tsr := packet_tsr x; key_exchanges := key_exchanges x;
  ke_index := ke_index x; ke_method := ke_method x; ke := ke x; kes := v; ke_failed :=
  ke_failed x; link := link x; mode := mode x; tfcv3 := tfcv3 x; ipcomp := ipcomp x;
  ipcomp_received := ipcomp_received x; proto := proto x; my_spi := my_spi x; other_spi :=
  other_spi x; my_cpi := my_cpi x; other_cpi := other_cpi x; child := child x; child_sa :=
  child_sa x; established := established x; rekey := rekey x; retry := retry x; aborted :=
  aborted x |}.
Definition upd_ke_failed (v : bool) (x : private_child_create_t) : private_child_create_t :=
  {| build := build x; process := process x; initiator := initiator x; my_nonce := my_nonce x;
  other_nonce := other_nonce x; config := config x; proposals := proposals x; proposal :=
  proposal x; tsi := tsi x; tsr := tsr x; labels_i := labels_i x; labels_r := labels_r x;
  packet_tsi := packet_tsi x; packet_tsr := packet_tsr x; key_exchanges := key_exchanges x;
  ke_index := ke_index x; ke_method := ke_method x; ke := ke x; kes := kes x; ke_failed := v;
  link := link x; mode := mode x; tfcv3 := tfcv3 x; ipcomp := ipcomp x; ipcomp_received :=
  ipcomp_received x; proto := proto x; my_spi := my_spi x; other_spi := other_spi x; my_cpi :=
  my_cpi x; other_cpi := other_cpi x; child := child x; child_sa := child_sa x; established :=
  established x; rekey := rekey x; retry := retry x; aborted := aborted x |}.
Definition upd_link (v : chunk_t) (x : private_child_create_t) : private_child_create_t :=
  {| build := build x; process := process x; initiator := initiator x; my_nonce := my_nonce x;
  other_nonce := other_nonce x; config := config x; proposals := proposals x; proposal :=
  proposal x; tsi := tsi x; tsr := tsr x; labels_i := labels_i x; labels_r := labels_r x;
  packet_tsi := packet_tsi x; packet_tsr := packet_tsr x; key_exchanges := key_exchanges x;
  ke_index := ke_index x; ke_method := ke_method x; ke := ke x; kes := kes x; ke_failed :=
  ke_failed x; link := v; mode := mode x; tfcv3 := tfcv3 x; ipcomp := ipcomp x;
  ipcomp_received := ipcomp_received x; proto := proto x; my_spi := my_spi x; other_spi :=
  other_spi x; my_cpi := my_cpi x; other_cpi := other_cpi x; child := child x; child_sa :=
  child_sa x; established := established x; rekey := rekey x; retry := retry x; aborted :=
  aborted x |}.
Definition upd_mode (v : ipsec_mode_t) (x : private_child_create_t) : private_child_create_t :=
  {| build := build x; process := process x; initiator := initiator x; my_nonce := my_nonce x;
  other_nonce := other_nonce x; config := config x; proposals := proposals x; proposal :=
  proposal x; tsi := tsi x; tsr := tsr x; labels_i := labels_i x; labels_r := labels_r x;
  packet_tsi := packet_tsi x; packet_tsr := packet_tsr x; key_exchanges := key_exchanges x;
  ke_index := ke_index x; ke_method := ke_method x; ke := ke x; kes := kes x; ke_failed :=
  ke_failed x; link := link x; mode := v; tfcv3 := tfcv3 x; ipcomp := ipcomp x;
  ipcomp_received := ipcomp_received x; proto := proto x; my_spi := my_spi x; other_spi :=
  other_spi x; my_cpi := my_cpi x; other_cpi := other_cpi x; child := child x; child_sa :=
  child_sa x; established := established x; rekey := rekey x; retry := retry x; aborted :=
  aborted x |}.
Definition upd_tfcv3 (v : bool) (x : private_child_create_t) : private_child_create_t :=
  {| build := build x; process := process x; initiator := initiator x; my_nonce := my_nonce x;
  other_nonce := other_nonce x; config := config x; proposals := proposals x; proposal :=
  proposal x; tsi := tsi x; tsr := tsr x; labels_i := labels_i x; labels_r := labels_r x;
  packet_tsi := packet_tsi x; packet_tsr := packet_tsr x; key_exchanges := key_exchanges x;
  ke_index := ke_index x; ke_method := ke_method x; ke := ke x; kes := kes x; ke_failed :=
  ke_failed x; link := link x; mode := mode x; tfcv3 := v; ipcomp := ipcomp x; ipcomp_received
  := ipcomp_received x; proto := proto x; my_spi := my_spi x; other_spi := other_spi x; my_cpi
  := my_cpi x; other_cpi := other_cpi x; child := child x; child_sa := child_sa x; established
  := established x; rekey := rekey x; retry := retry x; aborted := aborted x |}.
Definition upd_ipcomp (v : ipcomp_transform_t) (x : private_child_create_t) : private_child_create_t :=
  {| build := build x; process := process x; initiator := initiator x; my_nonce := my_nonce x;
  other_nonce := other_nonce x; config := config x; proposals := proposals x; proposal :=
  proposal x; tsi := tsi x; tsr := tsr x; labels_i := labels_i x; labels_r := labels_r x;
  packet_tsi := packet_tsi x; packet_tsr := packet_tsr x; key_exchanges := key_exchanges x;
  ke_index := ke_index x; ke_method := ke_method x; ke := ke x; kes := kes x; ke_failed :=
  ke_failed x; link := link x; mode := mode x; tfcv3 := tfcv3 x; ipcomp := v; ipcomp_received
  := ipcomp_received x; proto := proto x; my_spi := my_spi x; other_spi := other_spi x; my_cpi
  := my_cpi x; other_cpi := other_cpi x; child := child x; child_sa := child_sa x; established
  := established x; rekey := rekey x; retry := retry x; aborted := aborted x |}.
Definition upd_ipcomp_received (v : ipcomp_transform_t) (x : private_child_create_t) : private_child_create_t :=
  {| build := build x; process := process x; initiator := initiator x; my_nonce := my_nonce x;
  other_nonce := other_nonce x; config := config x; proposals := proposals x; proposal :=
  proposal x; tsi := tsi x; tsr := tsr x; labels_i := labels_i x; labels_r := labels_r x;
  packet_tsi := packet_tsi x; packet_tsr := packet_tsr x; key_exchanges := key_exchanges x;
  ke_index := ke_index x; ke_method := ke_method x; ke := ke x; kes := kes x; ke_failed :=
  ke_failed x; link := link x; mode := mode x; tfcv3 := tfcv3 x; ipcomp := ipcomp x;
  ipcomp_received := v; proto := proto x; my_spi := my_spi x; other_spi := other_spi x; my_cpi
  := my_cpi x; other_cpi := other_cpi x; child := child x; child_sa := child_sa x; established
  := established x; rekey := rekey x; retry := retry x; aborted := aborted x |}.
Definition upd_proto (v : protocol_id_t) (x : private_child_create_t) : private_child_create_t :=
  {| build := build x; process := process x; initiator := initiator x; my_nonce := my_nonce x;
  other_nonce := other_nonce x; config := config x; proposals := proposals x; proposal :=
  proposal x; tsi := tsi x; tsr := tsr x; labels_i := labels_i x; labels_r := labels_r x;
  packet_tsi := packet_tsi x; packet_tsr := packet_tsr x; key_exchanges := key_exchanges x;
  ke_index := ke_index x; ke_method := ke_method x; ke := ke x; kes := kes x; ke_failed :=
  ke_failed x; link := link x; mode := mode x; tfcv3 := tfcv3 x; ipcomp := ipcomp x;
  ipcomp_received := ipcomp_received x; proto := v; my_spi := my_spi x; other_spi := other_spi
  x; my_cpi := my_cpi x; other_cpi := other_cpi x; child := child x; child_sa := child_sa x;
  established := established x; rekey := rekey x; retry := retry x; aborted := aborted x |}.
Definition upd_my_spi (v : Z) (x : private_child_create_t) : private_child_create_t :=
  {| build := build x; process := process x; initiator := initiator x; my_nonce := my_nonce x;
  other_nonce := other_nonce x; config := config x; proposals := proposals x; proposal :=
  proposal x; tsi := tsi x; tsr := tsr x; labels_i := labels_i x; labels_r := labels_r x;
  packet_tsi := packet_tsi x; packet_tsr := packet_tsr x; key_exchanges := key_exchanges x;
  ke_index := ke_index x; ke_method := ke_method x; ke := ke x; kes := kes x; ke_failed :=
  ke_failed x; link := link x; mode := mode x; tfcv3 := tfcv3 x; ipcomp := ipcomp x;
  ipcomp_received := ipcomp_received x; proto := proto x; my_spi := v; other_spi := other_spi
  x; my_cpi := my_cpi x; other_cpi := other_cpi x; child := child x; child_sa := child_sa x;
  established := established x; rekey := rekey x; retry := retry x; aborted := aborted x |}.
Definition upd_other_spi (v : Z) (x : private_child_create_t) : private_child_create_t :=
  {| build := build x; process := process x; initiator := initiator x; my_nonce := my_nonce x;
  other_nonce := other_nonce x; config := config x; proposals := proposals x; proposal :=
  proposal x; tsi := tsi x; tsr := tsr x; labels_i := labels_i x; labels_r := labels_r x;
  packet_tsi := packet_tsi x; packet_tsr := packet_tsr x; key_exchanges := key_exchanges x;
  ke_index := ke_index x; ke_method := ke_method x; ke := ke x; kes := kes x; ke_failed :=
  ke_failed x; link := link x; mode := mode x; tfcv3 := tfcv3 x; ipcomp := ipcomp x;
  ipcomp_received := ipcomp_received x; proto := proto x; my_spi := my_spi x; other_spi := v;
  my_cpi := my_cpi x; other_cpi := other_cpi x; child := child x; child_sa := child_sa x;
  established := established x; rekey := rekey x; retry := retry x; aborted := aborted x |}.
Definition upd_my_cpi (v : Z) (x : private_child_create_t) : private_child_create_t :=
  {| build := build x; process := process x; initiator := initiator x; my_nonce := my_nonce x;
  other_nonce := other_nonce x; config := config x; proposals := proposals x; proposal :=
  proposal x; tsi := tsi x; tsr := tsr x; labels_i := labels_i x; labels_r := labels_r x;
  packet_tsi := packet_tsi x; packet_tsr := packet_tsr x; key_exchanges := key_exchanges x;
  ke_index := ke_index x; ke_method := ke_method x; ke := ke x; kes := kes x; ke_failed :=
  ke_failed x; link := link x; mode := mode x; tfcv3 := tfcv3 x; ipcomp := ipcomp x;
  ipcomp_received := ipcomp_received x; proto := proto x; my_spi := my_spi x; other_spi :=
  other_spi x; my_cpi := v; other_cpi := other_cpi x; child := child x; child_sa := child_sa
  x; established := established x; rekey := rekey x; retry := retry x; aborted := aborted x
  |}.
Definition upd_other_cpi (v : Z) (x : private_child_create_t) : private_child_create_t :=
  {| build := build x; process := process x; initiator := initiator x; my_nonce := my_nonce x;
  other_nonce := other_nonce x; config := config x; proposals := proposals x; proposal :=
  proposal x; tsi := tsi x; tsr := tsr x; labels_i := labels_i x; labels_r := labels_r x;
  packet_tsi := packet_tsi x; packet_tsr := packet_tsr x; key_exchanges := key_exchanges x;
  ke_index := ke_index x; ke_method := ke_method x; ke := ke x; kes := kes x; ke_failed :=
  ke_failed x; link := link x; mode := mode x; tfcv3 := tfcv3 x; ipcomp := ipcomp x;
  ipcomp_received := ipcomp_received x; proto := proto x; my_spi := my_spi x; other_spi :=
  other_spi x; my_cpi := my_cpi x; other_cpi := v; child := child x; child_sa := child_sa x;
  established := established x; rekey := rekey x; retry := retry x; aborted := aborted x |}.
Definition upd_child (v : child_sa_create_t) (x : private_child_create_t) : private_child_create_t :=
  {| build := build x; process := process x; initiator := initiator x; my_nonce := my_nonce x;
  other_nonce := other_nonce x; config := config x; proposals := proposals x; proposal :=
  proposal x; tsi := tsi x; tsr := tsr x; labels_i := labels_i x; labels_r := labels_r x;
  packet_tsi := packet_tsi x; packet_tsr := packet_tsr x; key_exchanges := key_exchanges x;
  ke_index := ke_index x; ke_method := ke_method x; ke := ke x; kes := kes x; ke_failed :=
  ke_failed x; link := link x; mode := mode x; tfcv3 := tfcv3 x; ipcomp := ipcomp x;
  ipcomp_received := ipcomp_received x; proto := proto x; my_spi := my_spi x; other_spi :=
  other_spi x; my_cpi := my_cpi x; other_cpi := other_cpi x; child := v; child_sa := child_sa
  x; established := established x; rekey := rekey x; retry := retry x; aborted := aborted x
  |}.
Definition upd_child_sa (v : option child_sa_t) (x : private_child_create_t) : private_child_create_t :=
  {| build := build x; process := process x; initiator := initiator x; my_nonce := my_nonce x;
  other_nonce := other_nonce x; config := config x; proposals := proposals x; proposal :=
  proposal x; tsi := tsi x; tsr := tsr x; labels_i := labels_i x; labels_r := labels_r x;
  packet_tsi := packet_tsi x; packet_tsr := packet_tsr x; key_exchanges := key_exchanges x;
  ke_index := ke_index x; ke_method := ke_method x; ke := ke x; kes := kes x; ke_failed :=
  ke_failed x; link := link x; mode := mode x; tfcv3 := tfcv3 x; ipcomp := ipcomp x;
  ipcomp_received := ipcomp_received x; proto := proto x; my_spi := my_spi x; other_spi :=
  other_spi x; my_cpi := my_cpi x; other_cpi := other_cpi x; child := child x; child_sa := v;
  established := established x; rekey := rekey x; retry := retry x; aborted := aborted x |}.
Definition upd_established (v : bool) (x : private_child_create_t) : private_child_create_t :=
  {| build := build x; process := process x; initiator := initiator x; my_nonce := my_nonce x;
  other_nonce := other_nonce x; config := config x; proposals := proposals x; proposal :=
  proposal x; tsi := tsi x; tsr := tsr x; labels_i := labels_i x; labels_r := labels_r x;
  packet_tsi := packet_tsi x; packet_tsr := packet_tsr x; key_exchanges := key_exchanges x;
  ke_index := ke_index x; ke_method := ke_method x; ke := ke x; kes := kes x; ke_failed :=
  ke_failed x; link := link x; mode := mode x; tfcv3 := tfcv3 x; ipcomp := ipcomp x;
  ipcomp_received := ipcomp_received x; proto := proto x; my_spi := my_spi x; other_spi :=
  other_spi x; my_cpi := my_cpi x; other_cpi := other_cpi x; child := child x; child_sa :=
  child_sa x; established := v; rekey := rekey x; retry := retry x; aborted := aborted x |}.
Definition upd_rekey (v : bool) (x : private_child_create_t) : private_child_create_t :=
  {| build := build x; process := process x; initiator := initiator x; my_nonce := my_nonce x;
  other_nonce := other_nonce x; config := config x; proposals := proposals x; proposal :=
  proposal x; tsi := tsi x; tsr := tsr x; labels_i := labels_i x; labels_r := labels_r x;
  packet_tsi := packet_tsi x; packet_tsr := packet_tsr x; key_exchanges := key_exchanges x;
  ke_index := ke_index x; ke_method := ke_method x; ke := ke x; kes := kes x; ke_failed :=
  ke_failed x; link := link x; mode := mode x; tfcv3 := tfcv3 x; ipcomp := ipcomp x;
  ipcomp_received := ipcomp_received x; proto := proto x; my_spi := my_spi x; other_spi :=
  other_spi x; my_cpi := my_cpi x; other_cpi := other_cpi x; child := child x; child_sa :=
  child_sa x; established := established x; rekey := v; retry := retry x; aborted := aborted x
  |}.
Definition upd_retry (v : bool) (x : private_child_create_t) : private_child_create_t :=
  {| build := build x; process := process x; initiator := initiator x; my_nonce := my_nonce x;
  other_nonce := other_nonce x; config := config x; proposals := proposals x; proposal :=
  proposal x; tsi := tsi x; tsr := tsr x; labels_i := labels_i x; labels_r := labels_r x;
  packet_tsi := packet_tsi x; packet_tsr := packet_tsr x; key_exchanges := key_exchanges x;
  ke_index := ke_index x; ke_method := ke_method x; ke := ke x; kes := kes x; ke_failed :=
  ke_failed x; link := link x; mode := mode x; tfcv3 := tfcv3 x; ipcomp := ipcomp x;
  ipcomp_received := ipcomp_received x; proto := proto x; my_spi := my_spi x; other_spi :=
  other_spi x; my_cpi := my_cpi x; other_cpi := other_cpi x; child := child x; child_sa :=
  child_sa x; established := established x; rekey := rekey x; retry := v; aborted := aborted x
  |}.
Definition upd_aborted (v : bool) (x : private_child_create_t) : private_child_create_t :=
  {| build := build x; process := process x; initiator := initiator x; my_nonce := my_nonce x;
  other_nonce := other_nonce x; config := config x; proposals := proposals x; proposal :=
  proposal x; tsi := tsi x; tsr := tsr x; labels_i := labels_i x; labels_r := labels_r x;
  packet_tsi := packet_tsi x; packet_tsr := packet_tsr x; key_exchanges := key_exchanges x;
  ke_index := ke_index x; ke_method := ke_method x; ke := ke x; kes := kes x; ke_failed :=
  ke_failed x; link := link x; mode := mode x; tfcv3 := tfcv3 x; ipcomp := ipcomp x;
  ipcomp_received := ipcomp_received x; proto := proto x; my_spi := my_spi x; other_spi :=
  other_spi x; my_cpi := my_cpi x; other_cpi := other_cpi x; child := child x; child_sa :=
  child_sa x; established := established x; rekey := rekey x; retry := retry x; aborted := v
  |}.

(** ** The environment *)

(** Calls the task makes to its collaborators, in the order made. *)
Inductive event :=
  | EvRefReqid (r : Z)
  | EvReleaseReqid (r : Z)
  | EvAllocSpi (protocol : protocol_id_t)
  | EvAllocCpi
  | EvSetState (s : child_sa_state_t)
  | EvDestroyChildSa
  | EvNarrow (hook : narrow_hook_t)
  | EvAlert (a : alert_t)
  | EvDeriveChildKeys (p : proposal_t) (kes : list key_exchange_t) (nonce_i nonce_r : chunk_t)
  | EvInstall (encr integ : chunk_t) (spi cpi : Z) (initiator inbound tfcv3 : bool)
  | EvRegisterOutbound (encr integ : chunk_t) (spi cpi : Z) (initiator tfcv3 : bool)
  | EvInstallPolicies
  | EvChildDerivedKeys (initiator : bool) (keys : child_keys_t)
  | EvChildKeys (initiator : bool) (kes : list key_exchange_t) (nonce_i nonce_r : chunk_t)
  | EvChildUpdown (up : bool)
  | EvAddChildSa (sa : child_sa_t)
  | EvScheduleInactivity (id timeout : Z) (close_ike : bool)
  | EvScheduleDeleteIkeSa (ms : Z)
  | EvQueueTaskDelayed (task : private_child_create_t) (delay : Z).

(** What the collaborators answer.  The IKE_SA with its configuration, the
    keymat, the kernel interface behind the CHILD_SA, the traffic selector
    and key exchange objects, the bus and the settings are all outside this
    file; their answers are parameters of the model. *)
Record env := Build_env {
  (* IKE_SA *)
  get_my_host : host_t;
  get_other_host : host_t;
  has_condition : ike_condition_t -> bool;
  supports_extension : ike_extension_t -> bool;
  ike_get_state : ike_sa_state_t;
  ike_get_if_id : bool -> Z;
  ike_child_sas : list child_sa_t;
  ike_sa_get_dynamic_hosts : bool -> list host_t;
  (* ike_cfg and peer_cfg *)
  childless : childless_t;
  get_peer_cfg : bool;
  virtual_ips : list host_t;
  peer_select_child_cfg :
    list traffic_selector_t -> list traffic_selector_t -> list host_t -> list host_t ->
    option (list sec_label_t) -> option (list sec_label_t) -> option child_cfg_t;
  (* child_cfg *)
  cfg_equals : child_cfg_t -> child_cfg_t -> bool;
  cfg_get_label : child_cfg_t -> option sec_label_t;
  cfg_get_label_mode : child_cfg_t -> sec_label_mode_t;
  cfg_get_proposals : child_cfg_t -> bool -> list proposal_t;
  cfg_get_mode : child_cfg_t -> ipsec_mode_t;
  cfg_get_algorithm : child_cfg_t -> transform_type_t -> key_exchange_method_t;
  cfg_has_option : child_cfg_t -> child_cfg_option_t -> bool;
  cfg_get_inactivity : child_cfg_t -> Z;
  cfg_select_proposal :
    child_cfg_t -> list proposal_t -> bool -> bool -> bool -> option proposal_t;
  cfg_select_label :
    child_cfg_t -> option (list sec_label_t) -> option (option sec_label_t);
  cfg_get_traffic_selectors :
    child_cfg_t -> bool -> option (list traffic_selector_t) -> list host_t ->
    list traffic_selector_t;
  (* keymat *)
  create_nonce_gen : bool;
  allocate_nonce : option chunk_t;
  create_ke_supported : key_exchange_method_t -> bool;
  derive_child_keys :
    proposal_t -> list key_exchange_t -> chunk_t -> chunk_t -> option child_keys_t;
  (* key exchange objects *)
  set_public_key : key_exchange_t -> chunk_t -> bool;
  get_public_key : key_exchange_t -> option chunk_t;
  (* CHILD_SA and the kernel behind it *)
  child_sa_create : host_t -> host_t -> child_cfg_t -> child_sa_create_t -> child_sa_t;
  alloc_spi : protocol_id_t -> Z;
  alloc_cpi : Z;
  install : chunk_t -> chunk_t -> Z -> Z -> bool -> bool -> bool -> status_t;
  register_outbound : chunk_t -> chunk_t -> Z -> Z -> bool -> bool -> status_t;
  install_policies : status_t;
  kernel_esp_v3_tfc : bool;
  ref_reqid : Z -> status_t;
  (* traffic selectors *)
  is_host : traffic_selector_t -> option host_t -> bool;
  to_subnet : traffic_selector_t -> host_t;
  set_address : traffic_selector_t -> host_t -> traffic_selector_t;
  host_create_any : host_t -> host_t;
  (* bus *)
  narrow :
    narrow_hook_t -> list traffic_selector_t -> list traffic_selector_t ->
    list traffic_selector_t * list traffic_selector_t;
  (* settings *)
  inactivity_close_ike : bool;
  accept_private_algs : bool;
  prefer_configured_proposals : bool;
  close_ike_on_child_failure : bool;
  (* retry timing *)
  random : Z;
  RETRY_INTERVAL : Z;
  RETRY_JITTER : Z
}.

(** ** The monad of the task's methods *)

Record state := Build_state {
  this : private_child_create_t;
  message : message_t;
  trace : list event
}.

(** A method takes the state to a result and a new state, or to nothing when
    it dereferences a NULL pointer. *)
Definition M (A : Type) : Type := state -> option (A * state).

Definition ret {A} (a : A) : M A := fun s => Some (a, s).

Definition bind {A B} (m : M A) (f : A -> M B) : M B :=
  fun s => match m s with
           | Some (a, s') => f a s'
           | None => None
           end.

Notation "x <- m ;; k" := (bind m (fun x => k))
  (at level 20, m at level 99, k at level 200, only parsing).
Notation "m ;;; k" := (bind m (fun _ => k))
  (at level 100, k at level 200, right associativity, only parsing).

Definition crash {A} : M A := fun _ => None.

(** [o->...] on a pointer that may be NULL *)
Definition deref {A} (o : option A) : M A :=
  match o with
  | Some a => ret a
  | None => crash
  end.

Definition get_this : M private_child_create_t := fun s => Some (this s, s).

Definition set (f : private_child_create_t -> private_child_create_t) : M unit :=
  fun s => Some (tt, {| this := f (this s); message := message s; trace := trace s |}).

Definition get_message : M message_t := fun s => Some (message s, s).

Definition set_message (f : message_t -> message_t) : M unit :=
  fun s => Some (tt, {| this := this s; message := f (message s); trace := trace s |}).

Definition emit (e : event) : M unit :=
  fun s => Some (tt, {| this := this s; message := message s; trace := trace s ++ [e] |}).

(** Run a method on another task object. *)
Definition on_task {A} (t : private_child_create_t) (m : M A)
  : M (A * private_child_create_t) :=
  fun s => match m {| this := t; message := message s; trace := trace s |} with
           | Some (a, s') =>
               Some ((a, this s'),
                     {| this := this s; message := message s'; trace := trace s' |})
           | None => None
           end.

(** [this->child_sa->set_...] *)
Definition upd_sa (f : child_sa_t -> child_sa_t) : M unit :=
  t <- get_this ;;
  sa <- deref (child_sa t) ;;
  set (upd_child_sa (Some (f sa))).

Definition set_state (s : child_sa_state_t) : M unit :=
  upd_sa (upd_sa_state s) ;;; emit (EvSetState s).

Definition when (b : bool) (m : M unit) : M unit := if b then m else ret tt.

(** [p != NULL] *)
Definition non_null {A} (o : option A) : bool :=
  match o with
  | Some _ => true
  | None => false
  end.

Section child_create.

Variable E : env.

(** ** Public configuration methods and constructor *)

(** [child_create_create] *)
Definition child_create_create (cfg : option child_cfg_t) (rekey_ : bool)
    (tsi_ tsr_ : option traffic_selector_t) : private_child_create_t :=
  {| build := match cfg with Some _ => _build_i | None => _build_r end;
     process := match cfg with Some _ => _process_i | None => _process_r end;
     initiator := match cfg with Some _ => true | None => false end;
     my_nonce := chunk_empty;
     other_nonce := chunk_empty;
     config := cfg;
     proposals := None;
     proposal := None;
     tsi := None;
     tsr := None;
     labels_i := None;
     labels_r := None;
     packet_tsi := tsi_;
     packet_tsr := tsr_;
     key_exchanges := replicate MAX_KEY_EXCHANGES empty_slot;
     ke_index := 0%nat;
     ke_method := KE_NONE;
     ke := None;
     kes := [];
     ke_failed := false;
     link := chunk_empty;
     mode := MODE_TUNNEL;
     tfcv3 := true;
     ipcomp := IPCOMP_NONE;
     ipcomp_received := IPCOMP_NONE;
     proto := PROTO_NONE;
     my_spi := 0;
     other_spi := 0;
     my_cpi := 0;
     other_cpi := 0;
     child := {| reqid := 0; mark_in := 0; mark_out := 0; if_id_in := 0; if_id_out := 0;
                 if_id_in_def := 0; if_id_out_def := 0; label := None; encap := false |};
     child_sa := None;
     established := false;
     rekey := rekey_;
     retry := false;
     aborted := false |}.

Definition upd_in_child (f : child_sa_create_t -> child_sa_create_t)
    (t : private_child_create_t) : private_child_create_t :=
  upd_child (f (child t)) t.

Definition use_reqid (r : Z) : M unit :=
  t <- get_this ;;
  let existing_reqid := reqid (child t) in
  ok <- (if Z.eqb r 0 then ret true
         else emit (EvRefReqid r) ;;; ret (bool_decide (ref_reqid E r = SUCCESS))) ;;
  when ok
    (set (upd_in_child (upd_reqid r)) ;;;
     when (negb (Z.eqb existing_reqid 0)) (emit (EvReleaseReqid existing_reqid))).

Definition use_marks (in_ out : Z) : M unit :=
  set (upd_in_child (upd_mark_in in_)) ;;;
  set (upd_in_child (upd_mark_out out)).

Definition use_if_ids (in_ out : Z) : M unit :=
  set (upd_in_child (upd_if_id_in in_)) ;;;
  set (upd_in_child (upd_if_id_out out)).

Definition use_label (l : option sec_label_t) : M unit :=
  set (upd_in_child (upd_label l)).

Definition use_ke_method (m : key_exchange_method_t) : M unit :=
  set (upd_ke_method m).

Definition get_child (t : private_child_create_t) : option child_sa_t := child_sa t.

Definition get_other_spi (t : private_child_create_t) : Z := other_spi t.

Definition set_config (cfg : option child_cfg_t) : M unit :=
  set (upd_config cfg).

Definition get_config (t : private_child_create_t) : option child_cfg_t :=
  if initiator t then config t else None.

Definition get_lower_nonce (t : private_child_create_t) : chunk_t :=
  match memcmp (my_nonce t) (other_nonce t)
               (Nat.min (length (my_nonce t)) (length (other_nonce t))) with
  | Lt => my_nonce t
  | _ => other_nonce t
  end.

Definition abort_ : M unit := set (upd_aborted true).

(** ** Helpers *)

(** Schedule a retry if creating the CHILD_SA temporary failed *)
Definition schedule_delayed_retry : M unit :=
  t <- get_this ;;
  cfg <- deref (config t) ;;
  let retry_ := RETRY_INTERVAL E - (random E) mod (RETRY_JITTER E) in
  let task := child_create_create (Some cfg) false (packet_tsi t) (packet_tsr t) in
  r <- on_task task
         (use_reqid (reqid (child t)) ;;;
          use_marks (mark_in (child t)) (mark_out (child t)) ;;;
          use_if_ids (if_id_in (child t)) (if_id_out (child t)) ;;;
          use_label (label (child t))) ;;
  emit (EvQueueTaskDelayed (snd r) retry_).

(** get the nonce from a message; [store] is the nonce written to *)
Definition get_nonce (store : chunk_t -> private_child_create_t -> private_child_create_t)
  : M status_t :=
  m <- get_message ;;
  match get_nonce_payload (payloads m) with
  | None => ret FAILED
  | Some n => set (store n) ;;; ret NEED_MORE
  end.

(** generate a new nonce to include in a CREATE_CHILD_SA message *)
Definition generate_nonce : M bool :=
  if create_nonce_gen E then
    match allocate_nonce E with
    | Some n => set (upd_my_nonce n) ;;; ret true
    | None => ret false
    end
  else ret false.

(** Check a list of traffic selectors if any selector belongs to host *)
Definition ts_list_is_host (l : list traffic_selector_t) (host : option host_t) : bool :=
  List.forallb (fun ts => is_host E ts host) l.

(** Allocate local SPI *)
Definition allocate_spi : M bool :=
  t <- get_this ;;
  (if initiator t then
     set (upd_proto PROTO_ESP) ;;;
     props <- deref (proposals t) ;;
     match props with
     | p :: _ => set (upd_proto (get_protocol p))
     | [] => ret tt
     end
   else
     p <- deref (proposal t) ;;
     set (upd_proto (get_protocol p))) ;;;
  t <- get_this ;;
  sa <- deref (child_sa t) ;;
  emit (EvAllocSpi (proto t)) ;;;
  set (upd_my_spi (alloc_spi E (proto t))) ;;;
  ret (negb (Z.eqb (alloc_spi E (proto t)) 0)).

(** The first loop of [update_and_check_proposals]: the proposals kept in
    place, those moved to [other_ke_methods], and [found]. *)
Fixpoint update_proposals_loop (spi : Z) (method : key_exchange_method_t)
    (props : list proposal_t) : list proposal_t * list proposal_t * bool :=
  match props with
  | [] => ([], [], false)
  | p :: rest =>
      let '(kept, others, found) := update_proposals_loop spi method rest in
      let p := set_spi p spi in
      if negb (Z.eqb method KE_NONE) then
        let '(ok, p') := promote_transform p KEY_EXCHANGE_METHOD method in
        if ok then (p' :: kept, others, true)
        else (kept, p' :: others, found)
      else (p :: kept, others, found)
  end.

(** Update the proposals with the allocated SPIs as initiator and check the KE
    method and promote it if necessary *)
Definition update_and_check_proposals : M bool :=
  t <- get_this ;;
  props <- deref (proposals t) ;;
  let '(kept, others, found) := update_proposals_loop (my_spi t) (ke_method t) props in
  set (upd_proposals (Some (kept ++ others))) ;;;
  ret (Z.eqb (ke_method t) KE_NONE || found).

(** Schedule inactivity timeout for CHILD_SA with reqid, if enabled *)
Definition schedule_inactivity_timeout : M unit :=
  t <- get_this ;;
  cfg <- deref (config t) ;;
  let timeout := cfg_get_inactivity E cfg in
  if negb (Z.eqb timeout 0) then
    sa <- deref (child_sa t) ;;
    emit (EvScheduleInactivity (sa_unique_id sa) timeout (inactivity_close_ike E))
  else ret tt.

(** The loop of [get_transport_nat_ts]; [first] is the first host seen. *)
Fixpoint transport_nat_loop (ike : host_t) (first : option host_t)
    (in_ : list traffic_selector_t) : list traffic_selector_t :=
  match in_ with
  | [] => []
  | ts :: rest =>
      if is_host E ts first then
        let first' := match first with
                      | None => Some (to_subnet E ts)
                      | Some h => Some h
                      end in
        set_address E ts ike :: transport_nat_loop ike first' rest
      else transport_nat_loop ike first rest
  end.

(** Substitute any host address with NATed address in traffic selector *)
Definition get_transport_nat_ts (local : bool) (in_ : list traffic_selector_t)
  : list traffic_selector_t :=
  let ike := if local then get_my_host E else get_other_host E in
  transport_nat_loop ike None in_.

(** Narrow received traffic selectors with configuration *)
Definition narrow_ts (t : private_child_create_t) (cfg : child_cfg_t) (local : bool)
    (in_ : option (list traffic_selector_t)) : M (list traffic_selector_t) :=
  let cond := if local then COND_NAT_HERE else COND_NAT_THERE in
  let hosts := ike_sa_get_dynamic_hosts E local in
  if bool_decide (mode t = MODE_TRANSPORT) && has_condition E cond then
    l <- deref in_ ;;
    ret (cfg_get_traffic_selectors E cfg local (Some (get_transport_nat_ts local l)) hosts)
  else ret (cfg_get_traffic_selectors E cfg local in_ hosts).

(** Check if requested mode is acceptable *)
Definition check_mode (i r : host_t) : M bool :=
  t <- get_this ;;
  cfg <- deref (config t) ;;
  match mode t with
  | MODE_TRANSPORT =>
      if negb (cfg_has_option E cfg OPT_PROXY_MODE) then
        tsi_ <- deref (tsi t) ;;
        if negb (ts_list_is_host tsi_ (Some i)) then ret false
        else
          tsr_ <- deref (tsr t) ;;
          if negb (ts_list_is_host tsr_ (Some r)) then ret false
          else ret (bool_decide (cfg_get_mode E cfg = MODE_TRANSPORT))
      else ret (bool_decide (cfg_get_mode E cfg = MODE_TRANSPORT))
  | MODE_BEET =>
      tsi_ <- deref (tsi t) ;;
      if negb (ts_list_is_host tsi_ None) then ret false
      else
        tsr_ <- deref (tsr t) ;;
        if negb (ts_list_is_host tsr_ None) then ret false
        else ret (bool_decide (cfg_get_mode E cfg = MODE_BEET))
  | _ => ret true
  end.

(** Do traffic selector narrowing and check mode:
    - FAILED: mode mismatch
    - NOT_FOUND: TS unacceptable *)
Definition narrow_and_check_ts (ike_auth : bool) : M status_t :=
  t <- get_this ;;
  let me := get_my_host E in
  let other := get_other_host E in
  upd_sa (upd_sa_proposal (proposal t)) ;;;
  cfg <- deref (config t) ;;
  my_ts <- narrow_ts t cfg true (if initiator t then tsi t else tsr t) ;;
  other_ts <- narrow_ts t cfg false (if initiator t then tsr t else tsi t) ;;
  let hook := if initiator t then
                if ike_auth then NARROW_INITIATOR_POST_NOAUTH
                else NARROW_INITIATOR_POST_AUTH
              else NARROW_RESPONDER in
  emit (EvNarrow hook) ;;;
  let '(my_ts, other_ts) := narrow E hook my_ts other_ts in
  if Nat.eqb (length my_ts) 0 || Nat.eqb (length other_ts) 0 then
    emit (EvAlert ALERT_TS_MISMATCH) ;;;
    ret NOT_FOUND
  else
    deref (tsr t) ;;;
    deref (tsi t) ;;;
    if initiator t then
      set (upd_tsi (Some my_ts)) ;;;
      set (upd_tsr (Some other_ts)) ;;;
      ok <- check_mode me other ;;
      if negb ok then ret FAILED else ret SUCCESS
    else
      set (upd_tsr (Some my_ts)) ;;;
      set (upd_tsi (Some other_ts)) ;;;
      ok <- check_mode other me ;;
      (if negb ok then set (upd_mode MODE_TUNNEL) else ret tt) ;;;
      ret SUCCESS.

(** [this->child_sa->install()] towards the kernel *)
Definition install_sa (encr integ : chunk_t) (spi cpi : Z) (inbound : bool) : M status_t :=
  t <- get_this ;;
  deref (child_sa t) ;;;
  emit (EvInstall encr integ spi cpi (initiator t) inbound (tfcv3 t)) ;;;
  ret (install E encr integ spi cpi (initiator t) inbound (tfcv3 t)).

(** [this->child_sa->register_outbound()] *)
Definition register_outbound_sa (encr integ : chunk_t) (spi cpi : Z) : M status_t :=
  t <- get_this ;;
  deref (child_sa t) ;;;
  emit (EvRegisterOutbound encr integ spi cpi (initiator t) (tfcv3 t)) ;;;
  ret (register_outbound E encr integ spi cpi (initiator t) (tfcv3 t)).

Definition no_keys : child_keys_t :=
  {| encr_i := chunk_empty; integ_i := chunk_empty;
     encr_r := chunk_empty; integ_r := chunk_empty |}.

(** Install a CHILD_SA:
    - FAILED: failure to install SAs
    - NOT_FOUND: TS unacceptable (only responder), or failure to install policies *)
Definition install_child_sa : M status_t :=
  t <- get_this ;;
  let nonce_i := if initiator t then my_nonce t else other_nonce t in
  let nonce_r := if initiator t then other_nonce t else my_nonce t in
  ts <- (if initiator t then ret (Some (tsi t, tsr t))
         else
           (* use a copy of the traffic selectors, as the POST hook should not
              change payloads *)
           tsr_ <- deref (tsr t) ;;
           tsi_ <- deref (tsi t) ;;
           deref (child_sa t) ;;;
           emit (EvNarrow NARROW_RESPONDER_POST) ;;;
           let '(my_ts, other_ts) := narrow E NARROW_RESPONDER_POST tsr_ tsi_ in
           if Nat.eqb (length my_ts) 0 || Nat.eqb (length other_ts) 0 then ret None
           else ret (Some (Some my_ts, Some other_ts))) ;;
  match ts with
  | None => ret NOT_FOUND
  | Some (my_ts, other_ts) =>
      upd_sa (upd_sa_ipcomp (ipcomp t)) ;;;
      upd_sa (upd_sa_mode (mode t)) ;;;
      p <- deref (proposal t) ;;
      upd_sa (upd_sa_protocol (get_protocol p)) ;;;
      set_state CHILD_INSTALLING ;;;
      (* addresses might have changed since we originally sent the request,
         update them before we configure any policies and install the SAs *)
      upd_sa (fun sa => upd_sa_encap (has_condition E COND_NAT_ANY)
                          (upd_sa_other_host (get_other_host E)
                             (upd_sa_my_host (get_my_host E) sa))) ;;;
      my_ts <- deref my_ts ;;
      other_ts <- deref other_ts ;;
      upd_sa (fun sa => upd_sa_other_ts other_ts (upd_sa_my_ts my_ts sa)) ;;;
      when (Z.eqb (my_cpi t) 0 || Z.eqb (other_cpi t) 0 || Z.eqb (ipcomp t) IPCOMP_NONE)
        (set (upd_my_cpi 0) ;;;
         set (upd_other_cpi 0) ;;;
         set (upd_ipcomp IPCOMP_NONE)) ;;;
      t <- get_this ;;
      emit (EvDeriveChildKeys p (kes t) nonce_i nonce_r) ;;;
      let keys := derive_child_keys E p (kes t) nonce_i nonce_r in
      st <- match keys with
            | Some k =>
                status_i <-
                  (if initiator t then
                     install_sa (encr_r k) (integ_r k) (my_spi t) (my_cpi t) true
                   else
                     install_sa (encr_i k) (integ_i k) (my_spi t) (my_cpi t) true) ;;
                status_o <-
                  (if rekey t then
                     (* during rekeyings we install the outbound SA and/or
                        policies separately *)
                     if initiator t then
                       register_outbound_sa (encr_i k) (integ_i k) (other_spi t) (other_cpi t)
                     else
                       register_outbound_sa (encr_r k) (integ_r k) (other_spi t) (other_cpi t)
                   else if initiator t then
                     install_sa (encr_i k) (integ_i k) (other_spi t) (other_cpi t) false
                   else
                     install_sa (encr_r k) (integ_r k) (other_spi t) (other_cpi t) false) ;;
                ret (status_i, status_o)
            | None => ret (FAILED, FAILED)
            end ;;
      let '(status_i, status_o) := st in
      status <-
        (if negb (bool_decide (status_i = SUCCESS)) || negb (bool_decide (status_o = SUCCESS))
         then
           emit (EvAlert ALERT_INSTALL_CHILD_SA_FAILED) ;;;
           ret FAILED
         else
           emit EvInstallPolicies ;;;
           if negb (bool_decide (install_policies E = SUCCESS)) then
             emit (EvAlert ALERT_INSTALL_CHILD_POLICY_FAILED) ;;;
             ret NOT_FOUND
           else
             emit (EvChildDerivedKeys (initiator t) (default no_keys keys)) ;;;
             emit (EvChildKeys (initiator t) (kes t) nonce_i nonce_r) ;;;
             ret SUCCESS) ;;
      if negb (bool_decide (status = SUCCESS)) then ret status
      else
        set_state CHILD_INSTALLED ;;;
        t <- get_this ;;
        sa <- deref (child_sa t) ;;
        emit (EvAddChildSa sa) ;;;
        set (upd_established true) ;;;
        schedule_inactivity_timeout ;;;
        ret SUCCESS
  end.

(** Select a proposal *)
Definition select_proposal (no_ke : bool) : M bool :=
  t <- get_this ;;
  match proposals t with
  | None => ret false
  | Some props =>
      let skip_ke := no_ke in
      let skip_private :=
        negb (supports_extension E EXT_STRONGSWAN) && negb (accept_private_algs E) in
      let prefer_supplied := negb (prefer_configured_proposals E) in
      cfg <- deref (config t) ;;
      let sel := cfg_select_proposal E cfg props skip_ke skip_private prefer_supplied in
      set (upd_proposal sel) ;;;
      match sel with
      | None => emit (EvAlert ALERT_PROPOSAL_MISMATCH_CHILD) ;;; ret false
      | Some _ => ret true
      end
  end.

(** Add a KE payload if a key exchange is used.  As responder we might already
    have stored the object in the list of completed exchanges. *)
Definition add_ke_payload : M bool :=
  t <- get_this ;;
  match (match ke t with Some k => Some k | None => list.last (kes t) end) with
  | None => ret true
  | Some k =>
      match get_public_key E k with
      | None => ret false
      | Some pub =>
          set_message (fun m => add_payload m (PLV2_KEY_EXCHANGE (get_method k) pub)) ;;;
          ret true
      end
  end.

(** Build payloads in additional exchanges when using multiple key exchanges *)
Definition build_payloads_multi_ke : M bool :=
  ok <- add_ke_payload ;;
  if negb ok then ret false
  else
    t <- get_this ;;
    when (chunk_ptr (link t))
      (set_message (fun m => add_notify m false ADDITIONAL_KEY_EXCHANGE (link t))) ;;;
    ret true.

Definition labels_of (l : option sec_label_t) : list sec_label_t :=
  match l with
  | Some x => [x]
  | None => []
  end.

(** build the payloads for the message *)
Definition build_payloads : M bool :=
  m <- get_message ;;
  if bool_decide (get_exchange_type m = IKE_FOLLOWUP_KE) then build_payloads_multi_ke
  else
    t <- get_this ;;
    (if initiator t then
       props <- deref (proposals t) ;;
       set_message (fun m => add_payload m (PLV2_SECURITY_ASSOCIATION props))
     else
       p <- deref (proposal t) ;;
       set_message (fun m => add_payload m (PLV2_SECURITY_ASSOCIATION [p]))) ;;;
    (* add nonce payload if not in IKE_AUTH *)
    when (bool_decide (get_exchange_type m = CREATE_CHILD_SA))
      (set_message (fun m => add_payload m (PLV2_NONCE (my_nonce t)))) ;;;
    when (chunk_ptr (link t))
      (set_message (fun m => add_notify m false ADDITIONAL_KEY_EXCHANGE (link t))) ;;;
    ok <- add_ke_payload ;;
    if negb ok then ret false
    else
      (* add TSi/TSr payloads *)
      tsi_ <- deref (tsi t) ;;
      set_message (fun m => add_payload m (PLV2_TS_INITIATOR tsi_ (labels_of (label (child t))))) ;;;
      tsr_ <- deref (tsr t) ;;
      set_message (fun m => add_payload m (PLV2_TS_RESPONDER tsr_ (labels_of (label (child t))))) ;;;
      (* add a notify if we are not in tunnel mode *)
      match mode t with
      | MODE_TRANSPORT =>
          set_message (fun m => add_notify m false USE_TRANSPORT_MODE chunk_empty)
      | MODE_BEET =>
          set_message (fun m => add_notify m false USE_BEET_MODE chunk_empty)
      | _ => ret tt
      end ;;;
      when (negb (kernel_esp_v3_tfc E))
        (set_message (fun m => add_notify m false ESP_TFC_PADDING_NOT_SUPPORTED chunk_empty)) ;;;
      ret true.

(** The data of an IPCOMP_SUPPORTED notify: the two bytes of the CPI and the
    transform.  A CPI is held as the number its two bytes spell in network
    order. *)
Definition chunk_from_cpi (cpi : Z) (transform : ipcomp_transform_t) : chunk_t :=
  [byte_of_Z (Z.shiftr cpi 8); byte_of_Z (Z.land cpi 255); byte_of_Z transform].

(** Adds an IPCOMP_SUPPORTED notify to the message, allocating a CPI *)
Definition add_ipcomp_notify (ipcomp_ : ipcomp_transform_t) : M unit :=
  t <- get_this ;;
  deref (child_sa t) ;;;
  emit EvAllocCpi ;;;
  set (upd_my_cpi (alloc_cpi E)) ;;;
  if negb (Z.eqb (alloc_cpi E) 0) then
    set (upd_ipcomp ipcomp_) ;;;
    set_message (fun m => add_notify m false IPCOMP_SUPPORTED
                            (chunk_from_cpi (alloc_cpi E) ipcomp_))
  else ret tt.

(** handle a received notify payload *)
Definition handle_notify (type : notify_type_t) (data : chunk_t) : M unit :=
  if Z.eqb type USE_TRANSPORT_MODE then set (upd_mode MODE_TRANSPORT)
  else if Z.eqb type USE_BEET_MODE then
    (* handle private use notify only if we know its meaning *)
    when (supports_extension E EXT_STRONGSWAN) (set (upd_mode MODE_BEET))
  else if Z.eqb type IPCOMP_SUPPORTED then
    match data with
    | b0 :: b1 :: b2 :: _ =>
        let cpi := untoh16 [b0; b1] in
        let ipcomp_ := Z_of_byte b2 in
        if Z.eqb ipcomp_ IPCOMP_DEFLATE then
          set (upd_other_cpi cpi) ;;;
          set (upd_ipcomp_received ipcomp_)
        else ret tt
    | _ => crash (* reads past the end of the notification data *)
    end
  else if Z.eqb type ESP_TFC_PADDING_NOT_SUPPORTED then set (upd_tfcv3 false)
  else ret tt.

(** [key_exchanges[i].type = t; key_exchanges[i].method = alg] *)
Definition set_slot (i : nat) (t : transform_type_t) (alg : key_exchange_method_t)
    (kx : list key_exchange_slot_t) : list key_exchange_slot_t :=
  alter (fun s => {| kx_type := t; kx_meth := alg; kx_done := kx_done s |}) i kx.

(** The loop of [determine_key_exchanges]: [n] transform types are left to
    visit, [t] is the current one and [i] the next free entry. *)
Fixpoint determine_additional (p : proposal_t) (n : nat) (t : transform_type_t) (i : nat)
    (kx : list key_exchange_slot_t) : list key_exchange_slot_t :=
  match n with
  | O => kx
  | S n' =>
      match get_algorithm p t with
      | Some alg => determine_additional p n' (t + 1) (S i) (set_slot i t alg kx)
      | None => determine_additional p n' (t + 1) i kx
      end
  end.

(** Collect all key exchanges from the proposal *)
Definition determine_key_exchanges : M unit :=
  t <- get_this ;;
  p <- deref (proposal t) ;;
  match get_algorithm p KEY_EXCHANGE_METHOD with
  | None => ret tt (* no PFS *)
  | Some alg =>
      set (upd_key_exchanges
             (determine_additional p
                (Z.to_nat (ADDITIONAL_KEY_EXCHANGE_7 - ADDITIONAL_KEY_EXCHANGE_1 + 1))
                ADDITIONAL_KEY_EXCHANGE_1 1
                (set_slot 0 KEY_EXCHANGE_METHOD alg (key_exchanges t))))
  end.

(** Check if additional key exchanges are required *)
Definition additional_key_exchange_required (t : private_child_create_t) : bool :=
  List.existsb (fun s => negb (Z.eqb (kx_type s) 0) && negb (kx_done s))
    (drop (ke_index t) (take MAX_KEY_EXCHANGES (key_exchanges t))).

(** Clear data on key exchanges *)
Definition clear_key_exchanges : M unit :=
  set (upd_key_exchanges (replicate MAX_KEY_EXCHANGES empty_slot)) ;;;
  set (upd_ke_index 0%nat) ;;;
  set (upd_kes []).

(** [this->keymat->keymat.create_ke()] *)
Definition create_ke (method : key_exchange_method_t) : option key_exchange_t :=
  if create_ke_supported E method
  then Some {| kx_method := method; kx_peer_public := None |}
  else None.

(** Process a KE payload *)
Definition process_ke_payload (received : key_exchange_method_t) (data : chunk_t) : M unit :=
  t <- get_this ;;
  slot <- deref (key_exchanges t !! ke_index t) ;;
  let method := kx_meth slot in
  (* the proposal is selected after processing the KE payload, so this is
     only relevant for additional key exchanges *)
  if negb (Z.eqb method 0) && negb (Z.eqb method received) then set (upd_ke_failed true)
  else
    set (upd_ke_method received) ;;;
    (if negb (initiator t) then set (upd_ke (create_ke received))
     else
       match ke t with
       | Some k => when (negb (Z.eqb (get_method k) received)) (set (upd_ke_failed true))
       | None => ret tt
       end) ;;;
    t <- get_this ;;
    match ke t with
    | Some k =>
        if negb (ke_failed t) then
          if set_public_key E k data then
            set (upd_ke (Some {| kx_method := kx_method k; kx_peer_public := Some data |}))
          else set (upd_ke_failed true)
        else ret tt
    | None => ret tt
    end.

(** Check if the proposed KE method in CREATE_CHILD_SA (received via KE payload)
    is valid according to the selected proposal.  The second component is the
    value written through [req]. *)
Definition check_ke_method : M (bool * option key_exchange_method_t) :=
  t <- get_this ;;
  p <- deref (proposal t) ;;
  if negb (has_transform p KEY_EXCHANGE_METHOD (ke_method t)) then
    match get_algorithm p KEY_EXCHANGE_METHOD with
    | Some alg => ret (false, Some alg)
    | None =>
        (* the selected proposal does not use a key exchange method *)
        set (upd_ke None) ;;;
        set (upd_ke_method KE_NONE) ;;;
        (* ignore errors that occurred while handling the KE payload *)
        set (upd_ke_failed false) ;;;
        ret (true, None)
    end
  else ret (true, None).

(** Check if the proposed key exchange method is valid as responder or whether
    we should request another KE payload. *)
Definition check_ke_method_r : M bool :=
  r <- check_ke_method ;;
  t <- get_this ;;
  if negb (fst r) then
    alg <- deref (snd r) ;;
    set_message (fun m => add_notify m false INVALID_KE_PAYLOAD (chunk_from_htons alg)) ;;;
    ret false
  else if negb (Z.eqb (ke_method t) KE_NONE) && negb (bool_decide (is_Some (ke t))) then
    set_message (fun m => add_notify m true NO_PROPOSAL_CHOSEN chunk_empty) ;;;
    ret false
  else ret true.

Fixpoint for_each {A} (f : A -> M unit) (l : list A) : M unit :=
  match l with
  | [] => ret tt
  | x :: rest => f x ;;; for_each f rest
  end.

(** Read payloads from message *)
Definition process_payloads : M unit :=
  (* defaults to TUNNEL mode *)
  set (upd_mode MODE_TUNNEL) ;;;
  m <- get_message ;;
  for_each
    (fun payload =>
       match payload with
       | PLV2_SECURITY_ASSOCIATION props => set (upd_proposals (Some props))
       | PLV2_KEY_EXCHANGE method data => process_ke_payload method data
       | PLV2_TS_INITIATOR ts labels =>
           set (upd_tsi (Some ts)) ;;; set (upd_labels_i (Some labels))
       | PLV2_TS_RESPONDER ts labels =>
           set (upd_tsr (Some ts)) ;;; set (upd_labels_r (Some labels))
       | PLV2_NOTIFY type data => handle_notify type data
       | _ => ret tt
       end)
    (payloads m).

(** Check if we have only the generic label available when using SELinux and not
    a specific one from an acquire. *)
Definition generic_label_only : M bool :=
  t <- get_this ;;
  cfg <- deref (config t) ;;
  ret (non_null (cfg_get_label E cfg) && negb (non_null (label (child t))) &&
       bool_decide (cfg_get_label_mode E cfg = SEC_LABEL_MODE_SELINUX)).

(** Check if we should defer the creation of this CHILD_SA until after the
    IKE_SA has been established childless. *)
Definition defer_child_sa : M status_t :=
  let policy := childless E in
  if supports_extension E EXT_IKE_CHILDLESS then
    (* with SELinux, we prefer not to create a CHILD_SA when we only have
       the generic label available *)
    if bool_decide (policy = CHILDLESS_PREFER) || bool_decide (policy = CHILDLESS_FORCE)
    then ret NEED_MORE
    else
      g <- generic_label_only ;;
      if g then ret NEED_MORE else ret NOT_SUPPORTED
  else if bool_decide (policy = CHILDLESS_FORCE) then ret DESTROY_ME
  else ret NOT_SUPPORTED.

(** Compare two CHILD_SA objects for equality *)
Definition child_sa_equals (a b : child_sa_t) : bool :=
  let cfg := get_config_sa a in
  cfg_equals E cfg (get_config_sa b) &&
  (* reqids are allocated based on the final TS, so we can only compare
     them if they are static (i.e. both have them) *)
  (Z.eqb (get_reqid a) 0 || Z.eqb (get_reqid b) 0 ||
   Z.eqb (get_reqid a) (get_reqid b)) &&
  Z.eqb (get_mark a true) (get_mark b true) &&
  Z.eqb (get_mark a false) (get_mark b false) &&
  Z.eqb (get_if_id a true) (get_if_id b true) &&
  Z.eqb (get_if_id a false) (get_if_id b false) &&
  sec_labels_equal (get_label a) (get_label b).

(** Check if there is a duplicate CHILD_SA already established and we can abort
    initiating this one. *)
Definition check_for_duplicate : M bool :=
  t <- get_this ;;
  match child_sa t with
  | Some mine =>
      ret (non_null
             (List.find
                (fun sa => bool_decide (get_state sa = CHILD_INSTALLED) &&
                           child_sa_equals sa mine)
                (ike_child_sas E)))
  | None =>
      if List.existsb (fun sa => bool_decide (get_state sa = CHILD_INSTALLED))
           (ike_child_sas E)
      then crash
      else ret false
  end.

(** Check if this is an attempt to create an SA with generic label and should
    be aborted. *)
Definition check_for_generic_label : M bool :=
  g <- generic_label_only ;;
  if g then
    t <- get_this ;;
    deref (child_sa t) ;;;
    ret true
  else ret false.

Definition build_i_multi_ke : M status_t :=
  set_message (fun m => set_exchange_type m IKE_FOLLOWUP_KE) ;;;
  t <- get_this ;;
  slot <- deref (key_exchanges t !! ke_index t) ;;
  let method := kx_meth slot in
  set (upd_ke (create_ke method)) ;;;
  if negb (non_null (create_ke method)) then ret FAILED
  else if negb (chunk_ptr (link t)) then ret FAILED
  else
    ok <- build_payloads_multi_ke ;;
    if negb ok then ret FAILED else ret NEED_MORE.

(** [build_i], the switch on the exchange type: either the status to return
    at once or [no_ke]. *)
Definition build_i_prologue : M (status_t + bool) :=
  m <- get_message ;;
  match get_exchange_type m with
  | IKE_SA_INIT =>
      s <- get_nonce upd_my_nonce ;;
      ret (inl s)
  | CREATE_CHILD_SA =>
      ok <- generate_nonce ;;
      if negb ok then
        set_message (fun m => set_exchange_type m EXCHANGE_TYPE_UNDEFINED) ;;;
        ret (inl SUCCESS)
      else ret (inr false)
  | IKE_AUTH =>
      d <- defer_child_sa ;;
      match d with
      | DESTROY_ME => ret (inl DESTROY_ME) (* config mismatch *)
      | NEED_MORE =>
          (* defer until after IKE_SA has been established *)
          set (upd_my_nonce chunk_empty) ;;;
          ret (inl NEED_MORE)
      | _ =>
          (* send only in the first request, not in subsequent rounds *)
          set (upd_build build_return_need_more) ;;;
          ret (inr true)
      end
  | _ => ret (inl NEED_MORE)
  end.

(** [build_i] after the switch, up to the creation of the CHILD_SA object:
    the traffic selectors, label, proposals and mode to offer.  Yields the
    configuration in use. *)
Definition build_i_child_sa (no_ke : bool) : M child_cfg_t :=
  t <- get_this ;;
  (* check if we want a virtual IP, but don't have one *)
  vips <- (if negb (rekey t) then
             if get_peer_cfg E
             then ret (List.map (host_create_any E) (virtual_ips E))
             else crash
           else ret []) ;;
  cfg <- deref (config t) ;;
  let tsi_ :=
    match vips with
    | _ :: _ => cfg_get_traffic_selectors E cfg true None vips
    | [] => (* no virtual IPs configured *)
        cfg_get_traffic_selectors E cfg true None (ike_sa_get_dynamic_hosts E true)
    end in
  let tsr_ := cfg_get_traffic_selectors E cfg false None (ike_sa_get_dynamic_hosts E false) in
  set (upd_tsi (Some (match packet_tsi t with Some p => p :: tsi_ | None => tsi_ end))) ;;;
  set (upd_tsr (Some (match packet_tsr t with Some p => p :: tsr_ | None => tsr_ end))) ;;;
  g <- generic_label_only ;;
  when (negb g && negb (non_null (label (child t))))
    (* in the simple label mode we propose the configured label as we
       won't have labels from acquires *)
    (set (upd_in_child (upd_label (cfg_get_label E cfg)))) ;;;
  set (upd_proposals (Some (cfg_get_proposals E cfg no_ke))) ;;;
  set (upd_mode (cfg_get_mode E cfg)) ;;;
  set (upd_in_child (upd_if_id_in_def (ike_get_if_id E true))) ;;;
  set (upd_in_child (upd_if_id_out_def (ike_get_if_id E false))) ;;;
  set (upd_in_child (upd_encap (has_condition E COND_NAT_ANY))) ;;;
  t <- get_this ;;
  set (upd_child_sa
         (Some (child_sa_create E (get_my_host E) (get_other_host E) cfg (child t)))) ;;;
  ret cfg.

(** [build_i] from the check for a duplicate to the end. *)
Definition build_i_send (no_ke : bool) (cfg : child_cfg_t) : M status_t :=
  t <- get_this ;;
  m <- get_message ;;
  (* check this after creating the object so that its destruction is detected
     by controller and trap manager *)
  stop <- (if negb (rekey t) && bool_decide (get_exchange_type m = CREATE_CHILD_SA) then
             g <- check_for_generic_label ;;
             if g then ret true else check_for_duplicate
           else ret false) ;;
  if stop then
    set_message (fun m => set_exchange_type m EXCHANGE_TYPE_UNDEFINED) ;;;
    ret SUCCESS
  else
    ok <- allocate_spi ;;
    if negb ok then ret FAILED
    else
      t <- get_this ;;
      when (negb no_ke && negb (retry t))
        (* during a rekeying the method might already be set *)
        (when (Z.eqb (ke_method t) KE_NONE)
           (set (upd_ke_method (cfg_get_algorithm E cfg KEY_EXCHANGE_METHOD)))) ;;;
      ok <- update_and_check_proposals ;;
      if negb ok then ret FAILED
      else
        t <- get_this ;;
        when (negb (Z.eqb (ke_method t) KE_NONE)) (set (upd_ke (create_ke (ke_method t)))) ;;;
        if negb (Z.eqb (ke_method t) KE_NONE) && negb (non_null (create_ke (ke_method t)))
        then ret FAILED
        else
          (* IPCOMP_DEFLATE is the only transform we support at the moment *)
          when (cfg_has_option E cfg OPT_IPCOMP) (add_ipcomp_notify IPCOMP_DEFLATE) ;;;
          t <- get_this ;;
          tsi_ <- deref (tsi t) ;;
          tsr_ <- deref (tsr t) ;;
          let hook := if bool_decide (get_exchange_type m = IKE_AUTH)
                      then NARROW_INITIATOR_PRE_NOAUTH else NARROW_INITIATOR_PRE_AUTH in
          emit (EvNarrow hook) ;;;
          set (upd_tsi (Some (fst (narrow E hook tsi_ tsr_)))) ;;;
          set (upd_tsr (Some (snd (narrow E hook tsi_ tsr_)))) ;;;
          ok <- build_payloads ;;
          if negb ok then ret FAILED
          else
            set (upd_tsi None) ;;;
            set (upd_tsr None) ;;;
            set (upd_proposals None) ;;;
            ret NEED_MORE.

Definition build_i : M status_t :=
  r <- build_i_prologue ;;
  match r with
  | inl s => ret s
  | inr no_ke =>
      cfg <- build_i_child_sa no_ke ;;
      build_i_send no_ke cfg
  end.

(** Process payloads in a IKE_FOLLOWUP_KE message or a CREATE_CHILD_SA response *)
Definition process_link : M unit :=
  m <- get_message ;;
  t <- get_this ;;
  match get_notify (payloads m) ADDITIONAL_KEY_EXCHANGE with
  | Some link_ =>
      if initiator t then set (upd_link (chunk_clone link_))
      else if negb (chunk_equals_const (link t) link_) then set (upd_link chunk_empty)
      else ret tt
  | None => set (upd_link chunk_empty)
  end.

(** Process payloads in additional exchanges when using multiple key exchanges *)
Definition process_payloads_multi_ke : M unit :=
  m <- get_message ;;
  match get_ke_payload (payloads m) with
  | Some (method, data) => process_ke_payload method data
  | None => set (upd_ke_failed true)
  end ;;;
  process_link.

Definition process_r_multi_ke : M status_t :=
  m <- get_message ;;
  when (bool_decide (get_exchange_type m = IKE_FOLLOWUP_KE)) process_payloads_multi_ke ;;;
  ret NEED_MORE.

Definition process_r : M status_t :=
  m <- get_message ;;
  match get_exchange_type m with
  | IKE_SA_INIT => get_nonce upd_other_nonce
  | CREATE_CHILD_SA =>
      get_nonce upd_other_nonce ;;;
      process_payloads ;;;
      ret NEED_MORE
  | IKE_AUTH =>
      (* only handle first AUTH payload, not additional rounds *)
      set (upd_process process_return_need_more) ;;;
      process_payloads ;;;
      ret NEED_MORE
  | _ => ret NEED_MORE
  end.

(** handle CHILD_SA setup failure *)
Definition handle_child_sa_failure : M unit :=
  t <- get_this ;;
  if aborted t then ret tt
  else
    m <- get_message ;;
    let is_first := bool_decide (get_exchange_type m = IKE_AUTH) in
    if is_first && close_ike_on_child_failure E then
      (* we delay the delete for 100ms, as the IKE_AUTH response must arrive
         first *)
      emit (EvScheduleDeleteIkeSa 100)
    else emit (EvAlert ALERT_KEEP_ON_CHILD_SA_FAILURE).

(** Substitute transport mode NAT selectors, if applicable *)
Definition get_ts_if_nat_transport (t : private_child_create_t) (local : bool)
    (in_ : list traffic_selector_t) : option (list traffic_selector_t) :=
  if bool_decide (mode t = MODE_TRANSPORT) then
    if has_condition E (if local then COND_NAT_HERE else COND_NAT_THERE) then
      let out := get_transport_nat_ts local in_ in
      if Nat.eqb (length out) 0 then None else Some out
    else None
  else None.

(** Select a matching CHILD config as responder *)
Definition select_child_cfg (t : private_child_create_t) : option child_cfg_t :=
  match get_peer_cfg E, tsi t, tsr t with
  | true, Some tsi_, Some tsr_ =>
      let tsr' := get_ts_if_nat_transport t true tsr_ in
      let tsi' := get_ts_if_nat_transport t false tsi_ in
      let listr := ike_sa_get_dynamic_hosts E true in
      let listi := ike_sa_get_dynamic_hosts E false in
      let child_cfg :=
        peer_select_child_cfg E (default tsr_ tsr') (default tsi_ tsi') listr listi
          (labels_r t) (labels_i t) in
      let child_cfg :=
        match child_cfg with
        | Some c =>
            if (non_null tsi' || non_null tsr') &&
               negb (bool_decide (cfg_get_mode E c = MODE_TRANSPORT))
            then None (* found a CHILD config, but it doesn't use transport mode *)
            else Some c
        | None => None
        end in
      if negb (non_null child_cfg) && (non_null tsi' || non_null tsr') then
        (* no match for the substituted NAT selectors, try it without *)
        peer_select_child_cfg E tsr_ tsi_ listr listi (labels_r t) (labels_i t)
      else child_cfg
  | _, _, _ => None
  end.

(** Check how to handle a possibly childless IKE_SA *)
Definition handle_childless (t : private_child_create_t) : status_t :=
  if negb (non_null (proposals t)) && negb (non_null (tsi t)) && negb (non_null (tsr t))
  then
    (* looks like a childless IKE_SA, check if we allow it *)
    if bool_decide (childless E = CHILDLESS_NEVER) then INVALID_STATE else SUCCESS
  else
    (* the peer apparently wants to create a regular IKE_SA *)
    if bool_decide (childless E = CHILDLESS_FORCE) then INVALID_STATE else NOT_SUPPORTED.

(** Select a security label. *)
Definition select_label : M bool :=
  t <- get_this ;;
  cfg <- deref (config t) ;;
  match cfg_select_label E cfg (labels_i t) with
  | None => ret false
  | Some li =>
      match cfg_select_label E cfg (labels_r t) with
      | None => ret false
      | Some lr =>
          match li with
          | Some l =>
              if negb (sec_labels_equal (Some l) lr) then ret false
              else
                match label (child t) with
                | None => set (upd_in_child (upd_label (Some l))) ;;; ret true
                | Some mine =>
                    if negb (sec_labels_equal (Some mine) (Some l)) then ret false
                    else ret true
                end
          | None => ret true
          end
      end
  end.

(** Called when a key exchange is done, returns TRUE once all are done. *)
Definition key_exchange_done : M bool :=
  t <- get_this ;;
  match ke t with
  | None => ret true
  | Some k =>
      deref (key_exchanges t !! ke_index t) ;;;
      set (upd_key_exchanges
             (alter (fun s => {| kx_type := kx_type s; kx_meth := kx_meth s; kx_done := true |})
                (ke_index t) (key_exchanges t))) ;;;
      set (upd_ke_index (S (ke_index t))) ;;;
      t' <- get_this ;;
      let additional_ke := additional_key_exchange_required t' in
      set (upd_kes (kes t ++ [k])) ;;;
      set (upd_ke None) ;;;
      ret (negb additional_ke)
  end.

(** Complete the current key exchange and install the CHILD_SA if all are done
    as responder. *)
Definition key_exchange_done_and_install_r (ike_auth : bool) : M bool :=
  all_done <- key_exchange_done ;;
  t <- get_this ;;
  (if all_done then set (upd_link chunk_empty)
   else when (negb (chunk_ptr (link t))) (set (upd_link (chunk_clone [x42])))) ;;;
  ok <- build_payloads ;;
  if negb ok then
    set_message (fun m => add_notify m false NO_PROPOSAL_CHOSEN chunk_empty) ;;;
    handle_child_sa_failure ;;;
    ret true
  else if all_done then
    st <- install_child_sa ;;
    match st with
    | SUCCESS =>
        t <- get_this ;;
        (* invoke the child_up() hook if we are not rekeying *)
        when (negb (rekey t)) (emit (EvChildUpdown true)) ;;;
        ret all_done
    | NOT_FOUND =>
        set_message (fun m => add_notify m true TS_UNACCEPTABLE chunk_empty) ;;;
        handle_child_sa_failure ;;;
        ret true
    | _ =>
        set_message (fun m => add_notify m true NO_PROPOSAL_CHOSEN chunk_empty) ;;;
        handle_child_sa_failure ;;;
        ret true
    end
  else ret all_done.

Definition build_r_multi_ke : M status_t :=
  t <- get_this ;;
  if negb (non_null (ke t)) then
    set_message (fun m => add_notify m false INVALID_SYNTAX chunk_empty) ;;;
    handle_child_sa_failure ;;;
    ret SUCCESS
  else if ke_failed t then
    set_message (fun m => add_notify m false NO_PROPOSAL_CHOSEN chunk_empty) ;;;
    handle_child_sa_failure ;;;
    ret SUCCESS
  else if negb (chunk_ptr (link t)) then
    set_message (fun m => add_notify m false STATE_NOT_FOUND chunk_empty) ;;;
    handle_child_sa_failure ;;;
    ret SUCCESS
  else
    done <- key_exchange_done_and_install_r false ;;
    if negb done then ret NEED_MORE else ret SUCCESS.

(** [build_r], the switch on the exchange type: either the status to return
    at once or [(no_ke, ike_auth)]. *)
Definition build_r_prologue : M (status_t + bool * bool) :=
  m <- get_message ;;
  match get_exchange_type m with
  | IKE_SA_INIT =>
      s <- get_nonce upd_my_nonce ;;
      ret (inl s)
  | CREATE_CHILD_SA =>
      ok <- generate_nonce ;;
      if negb ok then
        set_message (fun m => add_notify m false NO_PROPOSAL_CHOSEN chunk_empty) ;;;
        ret (inl SUCCESS)
      else ret (inr (false, false))
  | IKE_AUTH =>
      if negb (has_condition E COND_AUTHENTICATED) then
        (* wait until all authentication rounds completed *)
        ret (inl NEED_MORE)
      else if has_condition E COND_REDIRECTED then
        (* no CHILD_SA is created for redirected SAs *)
        ret (inl SUCCESS)
      else
        t <- get_this ;;
        match handle_childless t with
        | SUCCESS => ret (inl SUCCESS) (* no CHILD_SA built *)
        | INVALID_STATE =>
            set_message (fun m => add_notify m false INVALID_SYNTAX chunk_empty) ;;;
            ret (inl FAILED)
        | _ => ret (inr (true, true)) (* continue with regular initiation *)
        end
  | _ => ret (inl NEED_MORE)
  end.

Definition is_cp_failure_notify (p : payload_t) : bool :=
  match p with
  | PLV2_NOTIFY type _ =>
      Z.eqb type INTERNAL_ADDRESS_FAILURE || Z.eqb type FAILED_CP_REQUIRED
  | _ => false
  end.

(** [build_r] from the check of the IKE_SA state to the selection of the
    proposal: the status to return, or nothing to go on. *)
Definition build_r_select (no_ke : bool) : M (option status_t) :=
  if bool_decide (ike_get_state E = IKE_REKEYING) then
    set_message (fun m => add_notify m true TEMPORARY_FAILURE chunk_empty) ;;;
    ret (Some SUCCESS)
  else if bool_decide (ike_get_state E = IKE_DELETING) then
    set_message (fun m => add_notify m true TEMPORARY_FAILURE chunk_empty) ;;;
    ret (Some SUCCESS)
  else
    t <- get_this ;;
    when (negb (non_null (config t))) (set (upd_config (select_child_cfg t))) ;;;
    t <- get_this ;;
    if negb (non_null (config t)) || negb (non_null (tsi t)) || negb (non_null (tsr t)) then
      (if negb (non_null (tsi t)) || negb (non_null (tsr t)) then ret tt
       else emit (EvAlert ALERT_TS_MISMATCH)) ;;;
      set_message (fun m => add_notify m false TS_UNACCEPTABLE chunk_empty) ;;;
      handle_child_sa_failure ;;;
      ret (Some SUCCESS)
    else
      (* check if ike_config_t included non-critical error notifies *)
      m <- get_message ;;
      if List.existsb is_cp_failure_notify (payloads m) then
        handle_child_sa_failure ;;;
        ret (Some SUCCESS)
      else
        ok <- select_proposal no_ke ;;
        if negb ok then
          set_message (fun m => add_notify m false NO_PROPOSAL_CHOSEN chunk_empty) ;;;
          handle_child_sa_failure ;;;
          ret (Some SUCCESS)
        else ret None.

(** [build_r] from the check of the key exchange method to the end. *)
Definition build_r_negotiate (ike_auth : bool) : M status_t :=
  ok <- check_ke_method_r ;;
  if negb ok then
    (* the peer will retry, we don't handle this as failure *)
    ret SUCCESS
  else
    t <- get_this ;;
    (* this flag might get reset if the check above notices a proposal without
       KE was selected *)
    if ke_failed t then
      set_message (fun m => add_notify m false NO_PROPOSAL_CHOSEN chunk_empty) ;;;
      handle_child_sa_failure ;;;
      ret SUCCESS
    else
      determine_key_exchanges ;;;
      ok <- select_label ;;
      if negb ok then
        set_message (fun m => add_notify m false TS_UNACCEPTABLE chunk_empty) ;;;
        handle_child_sa_failure ;;;
        ret SUCCESS
      else
        set (upd_in_child (upd_if_id_in_def (ike_get_if_id E true))) ;;;
        set (upd_in_child (upd_if_id_out_def (ike_get_if_id E false))) ;;;
        set (upd_in_child (upd_encap (has_condition E COND_NAT_ANY))) ;;;
        t <- get_this ;;
        cfg <- deref (config t) ;;
        set (upd_child_sa
               (Some (child_sa_create E (get_my_host E) (get_other_host E) cfg (child t)))) ;;;
        p <- deref (proposal t) ;;
        set (upd_other_spi (get_spi p)) ;;;
        ok <- allocate_spi ;;
        if negb ok then
          set_message (fun m => add_notify m false NO_PROPOSAL_CHOSEN chunk_empty) ;;;
          handle_child_sa_failure ;;;
          ret SUCCESS
        else
          t <- get_this ;;
          set (upd_proposal (Some (set_spi p (my_spi t)))) ;;;
          when (negb (Z.eqb (ipcomp_received t) IPCOMP_NONE))
            (when (cfg_has_option E cfg OPT_IPCOMP) (add_ipcomp_notify (ipcomp_received t))) ;;;
          st <- narrow_and_check_ts ike_auth ;;
          match st with
          | SUCCESS =>
              done <- key_exchange_done_and_install_r ike_auth ;;
              if negb done then
                set (upd_build _build_r_multi_ke) ;;;
                set (upd_process _process_r_multi_ke) ;;;
                ret NEED_MORE
              else ret SUCCESS
          | NOT_FOUND =>
              set_message (fun m => add_notify m false TS_UNACCEPTABLE chunk_empty) ;;;
              handle_child_sa_failure ;;;
              ret SUCCESS
          | _ =>
              set_message (fun m => add_notify m false NO_PROPOSAL_CHOSEN chunk_empty) ;;;
              handle_child_sa_failure ;;;
              ret SUCCESS
          end.

Definition build_r : M status_t :=
  r <- build_r_prologue ;;
  match r with
  | inl s => ret s
  | inr (no_ke, ike_auth) =>
      r <- build_r_select no_ke ;;
      match r with
      | Some s => ret s
      | None => build_r_negotiate ike_auth
      end
  end.

(** Raise alerts for received notify errors *)
Definition raise_alerts (type : notify_type_t) : M unit :=
  if Z.eqb type NO_PROPOSAL_CHOSEN then
    t <- get_this ;;
    deref (config t) ;;;
    emit (EvAlert ALERT_PROPOSAL_MISMATCH_CHILD)
  else ret tt.

Definition build_i_delete : M status_t :=
  set_message (fun m => set_exchange_type m INFORMATIONAL) ;;;
  t <- get_this ;;
  when (negb (Z.eqb (my_spi t) 0) && negb (bool_decide (proto t = PROTO_NONE)))
    (set_message (fun m => add_payload m (PLV2_DELETE (proto t) [my_spi t]))) ;;;
  ret SUCCESS.

(** Change task to delete the failed CHILD_SA as initiator *)
Definition delete_failed_sa : M status_t :=
  t <- get_this ;;
  if negb (Z.eqb (my_spi t) 0) && negb (bool_decide (proto t = PROTO_NONE)) then
    set (upd_build _build_i_delete) ;;;
    (* destroying it here allows the rekey task to differentiate between
       this and the multi-KE case *)
    deref (child_sa t) ;;;
    emit EvDestroyChildSa ;;;
    set (upd_child_sa None) ;;;
    ret NEED_MORE
  else ret SUCCESS.

(** Complete the current key exchange and install the CHILD_SA if all are done
    as initiator. *)
Definition key_exchange_done_and_install_i (ike_auth : bool) : M status_t :=
  done <- key_exchange_done ;;
  if done then
    st <- install_child_sa ;;
    if bool_decide (st = SUCCESS) then
      t <- get_this ;;
      (* invoke the child_up() hook if we are not rekeying *)
      when (negb (rekey t)) (emit (EvChildUpdown true)) ;;;
      ret SUCCESS
    else
      handle_child_sa_failure ;;;
      delete_failed_sa
  else ret NEED_MORE.

Definition process_i_multi_ke : M status_t :=
  m <- get_message ;;
  if non_null (get_notify (payloads m) TEMPORARY_FAILURE) then
    t <- get_this ;;
    (* the rekey task will retry itself if necessary *)
    when (negb (rekey t) && negb (aborted t)) schedule_delayed_retry ;;;
    ret SUCCESS
  else
    process_payloads_multi_ke ;;;
    t <- get_this ;;
    if ke_failed t || aborted t then
      handle_child_sa_failure ;;;
      delete_failed_sa
    else key_exchange_done_and_install_i false.

Definition migrate : M unit :=
  set (upd_my_nonce chunk_empty) ;;;
  set (upd_other_nonce chunk_empty) ;;;
  set (upd_link chunk_empty) ;;;
  t <- get_this ;;
  when (non_null (child_sa t)) (emit EvDestroyChildSa) ;;;
  set (upd_ke_failed false) ;;;
  clear_key_exchanges ;;;
  when (negb (rekey t) && negb (retry t)) (set (upd_ke_method KE_NONE)) ;;;
  set (upd_proposal None) ;;;
  set (upd_proposals None) ;;;
  set (upd_tsi None) ;;;
  set (upd_tsr None) ;;;
  set (upd_labels_i None) ;;;
  set (upd_labels_r None) ;;;
  set (upd_ke None) ;;;
  set (upd_child_sa None) ;;;
  set (upd_mode MODE_TUNNEL) ;;;
  set (upd_ipcomp IPCOMP_NONE) ;;;
  set (upd_ipcomp_received IPCOMP_NONE) ;;;
  set (upd_other_cpi 0) ;;;
  set (upd_established false) ;;;
  set (upd_build _build_i) ;;;
  set (upd_process _process_i).

(** [process_i], the switch on the exchange type: either the status to
    return at once or [(no_ke, ike_auth)]. *)
Definition process_i_prologue : M (status_t + bool * bool) :=
  m <- get_message ;;
  match get_exchange_type m with
  | IKE_SA_INIT =>
      s <- get_nonce upd_other_nonce ;;
      ret (inl s)
  | CREATE_CHILD_SA =>
      get_nonce upd_other_nonce ;;;
      ret (inr (false, false))
  | IKE_AUTH =>
      if negb (has_condition E COND_AUTHENTICATED) then
        (* wait until all authentication rounds completed *)
        ret (inl NEED_MORE)
      else
        d <- defer_child_sa ;;
        if bool_decide (d = NEED_MORE) then
          (* defer until after IKE_SA has been established *)
          set (upd_other_nonce chunk_empty) ;;;
          ret (inl NEED_MORE)
        else ret (inr (true, true))
  | _ => ret (inl NEED_MORE)
  end.

(** handle notify errors related to CHILD_SA only *)
Definition is_child_error_notify (type : notify_type_t) : bool :=
  Z.eqb type NO_PROPOSAL_CHOSEN || Z.eqb type SINGLE_PAIR_REQUIRED ||
  Z.eqb type NO_ADDITIONAL_SAS || Z.eqb type INTERNAL_ADDRESS_FAILURE ||
  Z.eqb type FAILED_CP_REQUIRED || Z.eqb type TS_UNACCEPTABLE ||
  Z.eqb type INVALID_SELECTORS.

(** [process_i], one notify of the loop that checks for erroneous notifies:
    the status to return, or nothing to go on with the next payload. *)
Definition process_i_notify (type : notify_type_t) (data : chunk_t) : M (option status_t) :=
  if is_child_error_notify type then
    raise_alerts type ;;;
    handle_child_sa_failure ;;;
    (* an error in CHILD_SA creation is not critical *)
    ret (Some SUCCESS)
  else if Z.eqb type TEMPORARY_FAILURE then
    t <- get_this ;;
    (* the rekey task will retry itself if necessary *)
    when (negb (rekey t) && negb (aborted t)) schedule_delayed_retry ;;;
    ret (Some SUCCESS)
  else if Z.eqb type INVALID_KE_PAYLOAD then
    t <- get_this ;;
    if aborted t then
      (* nothing to do if the task was aborted *)
      ret (Some SUCCESS)
    else
      let alg := if Nat.eqb (length data) 2 then untoh16 data else KE_NONE in
      if retry t then
        handle_child_sa_failure ;;;
        (* an error in CHILD_SA creation is not critical *)
        ret (Some SUCCESS)
      else
        set (upd_retry true) ;;;
        set (upd_ke_method alg) ;;;
        set_state CHILD_RETRYING ;;;
        migrate ;;;
        ret (Some NEED_MORE)
  else
    m <- get_message ;;
    if bool_decide (get_exchange_type m = CREATE_CHILD_SA) then
      (* handle notifies if not handled in IKE_AUTH *)
      if Z.leb type 16383 then ret (Some SUCCESS) else ret None
    else ret None.

(** [process_i], the loop that checks for erroneous notifies. *)
Fixpoint process_i_notifies (pls : list payload_t) : M (option status_t) :=
  match pls with
  | [] => ret None
  | PLV2_NOTIFY type data :: rest =>
      r <- process_i_notify type data ;;
      match r with
      | Some s => ret (Some s)
      | None => process_i_notifies rest
      end
  | _ :: rest => process_i_notifies rest
  end.

(** [process_i] from reading the payloads to the check for an aborted task:
    the status to return, or nothing to go on. *)
Definition process_i_select (no_ke : bool) : M (option status_t) :=
  process_payloads ;;;
  ok <- select_proposal no_ke ;;
  if negb ok then
    handle_child_sa_failure ;;;
    s <- delete_failed_sa ;;
    ret (Some s)
  else
    t <- get_this ;;
    p <- deref (proposal t) ;;
    set (upd_other_spi (get_spi p)) ;;;
    set (upd_proposal (Some (set_spi p (my_spi t)))) ;;;
    if aborted t then
      deref (child_sa t) ;;;
      s <- delete_failed_sa ;;
      ret (Some s)
    else ret None.

(** [process_i], the check of the IPComp notifies: the status to return, or
    nothing to go on. *)
Definition process_i_ipcomp : M (option status_t) :=
  t <- get_this ;;
  if Z.eqb (ipcomp t) IPCOMP_NONE && negb (Z.eqb (ipcomp_received t) IPCOMP_NONE) then
    handle_child_sa_failure ;;;
    s <- delete_failed_sa ;;
    ret (Some s)
  else if negb (Z.eqb (ipcomp t) IPCOMP_NONE) && Z.eqb (ipcomp_received t) IPCOMP_NONE then
    set (upd_ipcomp IPCOMP_NONE) ;;;
    ret None
  else if negb (Z.eqb (ipcomp t) IPCOMP_NONE) &&
          negb (Z.eqb (ipcomp t) (ipcomp_received t)) then
    handle_child_sa_failure ;;;
    s <- delete_failed_sa ;;
    ret (Some s)
  else ret None.

(** [process_i] from the check of the key exchange method to the end. *)
Definition process_i_finish (ike_auth : bool) : M status_t :=
  r <- check_ke_method ;;
  if negb (fst r) then
    handle_child_sa_failure ;;;
    delete_failed_sa
  else
    t <- get_this ;;
    if ke_failed t then
      handle_child_sa_failure ;;;
      delete_failed_sa
    else
      determine_key_exchanges ;;;
      ok <- select_label ;;
      if negb ok then
        handle_child_sa_failure ;;;
        delete_failed_sa
      else
        st <- narrow_and_check_ts ike_auth ;;
        if negb (bool_decide (st = SUCCESS)) then
          handle_child_sa_failure ;;;
          delete_failed_sa
        else
          st <- key_exchange_done_and_install_i ike_auth ;;
          if bool_decide (st = NEED_MORE) then
            (* if the installation failed, we delete the failed SA, i.e.
               build() was changed, otherwise, we switch to multi-KE mode *)
            t <- get_this ;;
            when (bool_decide (build t = _build_i))
              ((* if we don't have the notify, we handle it in build() *)
               process_link ;;;
               set (upd_build _build_i_multi_ke) ;;;
               set (upd_process _process_i_multi_ke)) ;;;
            ret NEED_MORE
          else ret SUCCESS.

Definition process_i : M status_t :=
  r <- process_i_prologue ;;
  match r with
  | inl s => ret s
  | inr (no_ke, ike_auth) =>
      m <- get_message ;;
      r <- process_i_notifies (payloads m) ;;
      match r with
      | Some s => ret s
      | None =>
          r <- process_i_select no_ke ;;
          match r with
          | Some s => ret s
          | None =>
              r <- process_i_ipcomp ;;
              match r with
              | Some s => ret s
              | None => process_i_finish ike_auth
              end
          end
      end
  end.

Definition destroy : M unit :=
  t <- get_this ;;
  when (negb (established t) && non_null (child_sa t)) (emit EvDestroyChildSa) ;;;
  when (negb (Z.eqb (reqid (child t)) 0)) (emit (EvReleaseReqid (reqid (child t)))).

(** [task->build(task, message)] and [task->process(task, message)] through
    the handlers the task currently has. *)
Definition task_build : M status_t :=
  t <- get_this ;;
  match build t with
  | _build_i => build_i
  | _build_i_multi_ke => build_i_multi_ke
  | _build_i_delete => build_i_delete
  | _build_r => build_r
  | _build_r_multi_ke => build_r_multi_ke
  | build_return_need_more => ret NEED_MORE
  end.

Definition task_process : M status_t :=
  t <- get_this ;;
  match process t with
  | _process_i => process_i
  | _process_i_multi_ke => process_i_multi_ke
  | _process_r => process_r
  | _process_r_multi_ke => process_r_multi_ke
  | process_return_need_more => ret NEED_MORE
  end.

(** * Properties *)

(** ** The lower nonce *)

(** Strict lexicographic order on byte strings, bytes as unsigned numbers:
    the strings agree up to some position where the left one has the smaller
    byte. *)
Definition lex_lt (a b : list byte) : Prop :=
  exists (i : nat) (x y : byte),
    a !! i = Some x /\ b !! i = Some y /\ take i a = take i b /\
    (Byte.to_N x < Byte.to_N y)%N.

Lemma byte_to_N_inj (x y : byte) : Byte.to_N x = Byte.to_N y -> x = y.
Proof.
  intros H.
  assert (Hx := Byte.of_to_N x). assert (Hy := Byte.of_to_N y).
  rewrite H in Hx. congruence.
Qed.

Lemma memcmp_Eq (a b : list byte) (n : nat) :
  (n <= length a)%nat -> (n <= length b)%nat ->
  memcmp a b n = Eq <-> take n a = take n b.
Proof.
  revert a b. induction n as [|n IH]; intros a b Ha Hb; simpl.
  - rewrite !take_0. by split.
  - destruct a as [|x a]; [simpl in Ha; lia|].
    destruct b as [|y b]; [simpl in Hb; lia|].
    simpl in Ha, Hb. simpl.
    destruct (N.compare_spec (Byte.to_N x) (Byte.to_N y)) as [Heq|Hlt|Hgt].
    + apply byte_to_N_inj in Heq. subst y.
      rewrite IH by lia. split; [intros ->; reflexivity | intros H; congruence].
    + split; [discriminate|]. intros H. injection H as -> _. lia.
    + split; [discriminate|]. intros H. injection H as -> _. lia.
Qed.

Lemma memcmp_Lt (a b : list byte) (n : nat) :
  (n <= length a)%nat -> (n <= length b)%nat ->
  memcmp a b n = Lt <-> lex_lt (take n a) (take n b).
Proof.
  revert a b. induction n as [|n IH]; intros a b Ha Hb; simpl.
  - split; [discriminate|]. intros (i & x & y & H1 & _). rewrite take_0 in H1.
    destruct i; discriminate.
  - destruct a as [|x a]; [simpl in Ha; lia|].
    destruct b as [|y b]; [simpl in Hb; lia|].
    simpl in Ha, Hb. simpl.
    destruct (N.compare_spec (Byte.to_N x) (Byte.to_N y)) as [Heq|Hlt|Hgt].
    + apply byte_to_N_inj in Heq. subst y. rewrite IH by lia. split.
      * intros (i & u & v & H1 & H2 & H3 & H4).
        exists (S i), u, v. simpl. rewrite H3. auto.
      * intros (i & u & v & H1 & H2 & H3 & H4). destruct i as [|i].
        -- simpl in H1, H2. simplify_eq. lia.
        -- simpl in H1, H2, H3. exists i, u, v. repeat split; auto. congruence.
    + split; [intros _|reflexivity].
      exists 0%nat, x, y. simpl. auto.
    + split; [discriminate|].
      intros (i & u & v & H1 & H2 & H3 & H4). destruct i as [|i].
      * simpl in H1, H2. simplify_eq. lia.
      * simpl in H3. injection H3 as -> _. lia.
Qed.

Lemma memcmp_Gt (a b : list byte) (n : nat) :
  (n <= length a)%nat -> (n <= length b)%nat ->
  memcmp a b n = Gt <-> lex_lt (take n b) (take n a).
Proof.
  revert a b. induction n as [|n IH]; intros a b Ha Hb; simpl.
  - split; [discriminate|]. intros (i & x & y & H1 & _). rewrite take_0 in H1.
    destruct i; discriminate.
  - destruct a as [|x a]; [simpl in Ha; lia|].
    destruct b as [|y b]; [simpl in Hb; lia|].
    simpl in Ha, Hb. simpl.
    destruct (N.compare_spec (Byte.to_N x) (Byte.to_N y)) as [Heq|Hlt|Hgt].
    + apply byte_to_N_inj in Heq. subst y. rewrite IH by lia. split.
      * intros (i & u & v & H1 & H2 & H3 & H4).
        exists (S i), u, v. simpl. rewrite H3. auto.
      * intros (i & u & v & H1 & H2 & H3 & H4). destruct i as [|i].
        -- simpl in H1, H2. simplify_eq. lia.
        -- simpl in H1, H2, H3. exists i, u, v. repeat split; auto. congruence.
    + split; [discriminate|].
      intros (i & u & v & H1 & H2 & H3 & H4). destruct i as [|i].
      * simpl in H1, H2. simplify_eq. lia.
      * simpl in H3. injection H3 as -> _. lia.
    + split; [intros _|reflexivity].
      exists 0%nat, y, x. simpl. auto.
Qed.

(** What the specification says of [get_lower_nonce]: the smaller prefix
    wins and a tie goes to [my_nonce]. *)
Definition lower_nonce_as_specified (my other result : chunk_t) : Prop :=
  let n := Nat.min (length my) (length other) in
  (lex_lt (take n my) (take n other) -> result = my) /\
  (lex_lt (take n other) (take n my) -> result = other) /\
  (take n my = take n other -> result = my).

(** The prefixes of the two nonces that are compared: the first
    min(len my, len other) bytes of each. *)
Definition my_prefix (t : private_child_create_t) : list byte :=
  take (Nat.min (length (my_nonce t)) (length (other_nonce t))) (my_nonce t).

Definition other_prefix (t : private_child_create_t) : list byte :=
  take (Nat.min (length (my_nonce t)) (length (other_nonce t))) (other_nonce t).

(** C4 (as amended).  [get_lower_nonce] compares the prefixes of length
    min(len my, len other) of the two nonces as unsigned byte strings: it
    returns [my_nonce] when its prefix is strictly smaller, and
    [other_nonce] both when the other prefix is strictly smaller and when
    the two prefixes tie. *)
Theorem get_lower_nonce_prefix_order (t : private_child_create_t) :
  (lex_lt (my_prefix t) (other_prefix t) /\ get_lower_nonce t = my_nonce t) \/
  (my_prefix t = other_prefix t /\ get_lower_nonce t = other_nonce t) \/
  (lex_lt (other_prefix t) (my_prefix t) /\ get_lower_nonce t = other_nonce t).
Proof.
  unfold my_prefix, other_prefix, get_lower_nonce.
  set (n := Nat.min (length (my_nonce t)) (length (other_nonce t))).
  assert (Ha : (n <= length (my_nonce t))%nat) by (subst n; lia).
  assert (Hb : (n <= length (other_nonce t))%nat) by (subst n; lia).
  destruct (memcmp (my_nonce t) (other_nonce t) n) eqn:Hc.
  - right; left. split; [|reflexivity]. by apply memcmp_Eq.
  - left. split; [|reflexivity]. by apply memcmp_Lt.
  - right; right. split; [|reflexivity]. by apply memcmp_Gt.
Qed.

(** ** The key exchange plan *)

(** The transforms of the types [t], [t+1], ..., [t+n-1] that the proposal
    has, in increasing order of type. *)
Definition present_transforms (p : proposal_t) (t : transform_type_t) (n : nat)
  : list (transform_type_t * key_exchange_method_t) :=
  omap (fun ty => (fun alg => (ty, alg)) <$> get_algorithm p ty) (seqZ t (Z.of_nat n)).

(** The additional key exchanges of a proposal, in order of transform type. *)
Definition present_additional (p : proposal_t)
  : list (transform_type_t * key_exchange_method_t) :=
  present_transforms p ADDITIONAL_KEY_EXCHANGE_1 MAX_ADDITIONAL_KEY_EXCHANGES.

(** Writing a plan over the first entries of the array; the [done] flags and
    the entries behind the plan stay. *)
Definition overlay (plan : list (transform_type_t * key_exchange_method_t))
    (kx : list key_exchange_slot_t) : list key_exchange_slot_t :=
  zip_with (fun e s => {| kx_type := fst e; kx_meth := snd e; kx_done := kx_done s |}) plan kx
  ++ drop (length plan) kx.

(** The additional key exchanges as the specification describes their
    collection: taken up to the first absent transform. *)
Fixpoint additional_prefix (p : proposal_t) (n : nat) (t : transform_type_t)
  : list (transform_type_t * key_exchange_method_t) :=
  match n with
  | O => []
  | S n' =>
      match get_algorithm p t with
      | Some alg => (t, alg) :: additional_prefix p n' (t + 1)
      | None => []
      end
  end.

(** The plan as the specification describes it: nothing without a
    KEY_EXCHANGE_METHOD, else that method and the additional ones up to the
    first absent one; a proposal with an additional transform behind such a
    gap is rejected ([None]). *)
Definition plan_as_specified (p : proposal_t)
  : option (list (transform_type_t * key_exchange_method_t)) :=
  match get_algorithm p KEY_EXCHANGE_METHOD with
  | None => Some []
  | Some alg =>
      let pre := additional_prefix p MAX_ADDITIONAL_KEY_EXCHANGES ADDITIONAL_KEY_EXCHANGE_1 in
      if bool_decide (length pre = length (present_additional p))
      then Some ((KEY_EXCHANGE_METHOD, alg) :: pre)
      else None
  end.

Lemma present_transforms_S (p : proposal_t) (t : transform_type_t) (n : nat) :
  present_transforms p t (S n) =
  match get_algorithm p t with
  | Some alg => (t, alg) :: present_transforms p (t + 1) n
  | None => present_transforms p (t + 1) n
  end.
Proof.
  unfold present_transforms. rewrite seqZ_cons by lia.
  replace (Z.pred (Z.of_nat (S n))) with (Z.of_nat n) by lia.
  replace (Z.succ t) with (t + 1) by lia.
  simpl. destruct (get_algorithm p t); reflexivity.
Qed.

Lemma overlay_nil (kx : list key_exchange_slot_t) : overlay [] kx = kx.
Proof. unfold overlay. simpl. by rewrite drop_0. Qed.

Lemma overlay_cons e plan s kx :
  overlay (e :: plan) (s :: kx) =
  {| kx_type := fst e; kx_meth := snd e; kx_done := kx_done s |} :: overlay plan kx.
Proof. reflexivity. Qed.

Lemma length_present_transforms (p : proposal_t) (t : transform_type_t) (n : nat) :
  (length (present_transforms p t n) <= n)%nat.
Proof.
  revert t. induction n as [|n IH]; intros t.
  - reflexivity.
  - rewrite present_transforms_S. specialize (IH (t + 1)).
    destruct (get_algorithm p t); simpl; lia.
Qed.

(** The loop of [determine_key_exchanges] writes the present transforms,
    densely, from entry [i] on. *)
Lemma determine_additional_overlay (p : proposal_t) (n : nat) (t : transform_type_t)
    (i : nat) (kx : list key_exchange_slot_t) :
  (i + n <= length kx)%nat ->
  determine_additional p n t i kx =
  take i kx ++ overlay (present_transforms p t n) (drop i kx).
Proof.
  revert t i kx. induction n as [|n IH]; intros t i kx Hlen.
  - simpl. unfold present_transforms. simpl. rewrite overlay_nil.
    by rewrite take_drop.
  - simpl. rewrite present_transforms_S.
    destruct (get_algorithm p t) as [alg|].
    + rewrite IH by (unfold set_slot; rewrite length_alter; lia).
      unfold set_slot.
      destruct (lookup_lt_is_Some_2 kx i) as [s Hs]; [lia|].
      rewrite (take_S_r _ _ _ (eq_trans (list_lookup_alter_eq _ kx i)
                                 (f_equal _ Hs))).
      rewrite take_alter_ge by lia.
      rewrite drop_alter_lt by lia.
      rewrite (drop_S kx s i Hs), overlay_cons.
      rewrite <- app_assoc. reflexivity.
    + rewrite IH by lia. reflexivity.
Qed.

(** C5 (as amended).  On a proposal with a KEY_EXCHANGE_METHOD transform,
    [determine_key_exchanges] writes that method into entry 0 and every
    ADDITIONAL_KEY_EXCHANGE_1..7 transform the proposal has, in increasing
    order of transform type and each with its type, into the entries that
    follow, without leaving a free entry between them: an absent type is
    skipped, it neither ends the collection nor rejects the proposal.
    Without a KEY_EXCHANGE_METHOD transform the plan is left as it was. *)
Theorem determine_key_exchanges_plan (s : state) (p : proposal_t) :
  proposal (this s) = Some p ->
  length (key_exchanges (this s)) = MAX_KEY_EXCHANGES ->
  determine_key_exchanges s =
  Some (tt,
        match get_algorithm p KEY_EXCHANGE_METHOD with
        | None => s
        | Some alg =>
            {| this :=
                 upd_key_exchanges
                   (overlay ((KEY_EXCHANGE_METHOD, alg) :: present_additional p)
                      (key_exchanges (this s)))
                   (this s);
               message := message s;
               trace := trace s |}
        end).
Proof.
  intros Hp Hlen. unfold determine_key_exchanges, bind, get_this, deref, ret, set.
  rewrite Hp. cbv beta iota.
  destruct (get_algorithm p KEY_EXCHANGE_METHOD) as [alg|]; [|by destruct s].
  do 4 f_equal.
  destruct (key_exchanges (this s)) as [|s0 kx] eqn:Hkx; [discriminate|].
  change (Z.to_nat (ADDITIONAL_KEY_EXCHANGE_7 - ADDITIONAL_KEY_EXCHANGE_1 + 1))
    with MAX_ADDITIONAL_KEY_EXCHANGES.
  rewrite determine_additional_overlay.
  - unfold set_slot. simpl. rewrite drop_0. reflexivity.
  - unfold set_slot. simpl. simpl in Hlen. unfold MAX_KEY_EXCHANGES in Hlen. lia.
Qed.

(** ** What no method changes *)

(** Whatever a method does to the task, the role it was created with and
    its rekey flag stay, and a retry flag once set stays set. *)
Definition evolves (t t' : private_child_create_t) : Prop :=
  initiator t' = initiator t /\ rekey t' = rekey t /\
  (retry t = true -> retry t' = true).

#[global] Instance evolves_preorder : PreOrder evolves.
Proof.
  split.
  - intros t. unfold evolves. auto.
  - intros t1 t2 t3 (H1 & H2 & H3) (H4 & H5 & H6). unfold evolves.
    repeat split; [congruence | congruence | auto].
Qed.

Definition preserves {A} (m : M A) : Prop :=
  forall s a s', m s = Some (a, s') -> evolves (this s) (this s').

Lemma preserves_ret {A} (a : A) : preserves (ret a).
Proof. intros s a' s' [= _ <-]. reflexivity. Qed.

Lemma preserves_crash {A} : preserves (@crash A).
Proof. intros s a s' [=]. Qed.

Lemma preserves_bind {A B} (m : M A) (f : A -> M B) :
  preserves m -> (forall a, preserves (f a)) -> preserves (bind m f).
Proof.
  intros Hm Hf s b s'. unfold bind.
  destruct (m s) as [[a s1]|] eqn:H1; [|discriminate].
  intros H2. etransitivity; [eapply Hm | eapply Hf]; eauto.
Qed.

Lemma preserves_deref {A} (o : option A) : preserves (deref o).
Proof. destruct o; [apply preserves_ret | apply preserves_crash]. Qed.

Lemma preserves_get_this : preserves get_this.
Proof. intros s a s' [= _ <-]. reflexivity. Qed.

Lemma preserves_get_message : preserves get_message.
Proof. intros s a s' [= _ <-]. reflexivity. Qed.

Lemma preserves_set_message f : preserves (set_message f).
Proof. intros s a s' [= _ <-]. reflexivity. Qed.

Lemma preserves_emit e : preserves (emit e).
Proof. intros s a s' [= _ <-]. reflexivity. Qed.

Lemma preserves_set f : (forall t, evolves t (f t)) -> preserves (set f).
Proof. intros Hf s a s' [= _ <-]. apply Hf. Qed.

Lemma preserves_when b m : preserves m -> preserves (when b m).
Proof. intros Hm. destruct b; [exact Hm | apply preserves_ret]. Qed.

Lemma preserves_on_task {A} t (m : M A) : preserves (on_task t m).
Proof.
  intros s a s'. unfold on_task.
  destruct (m _) as [[a1 s1]|]; [|discriminate].
  intros [= _ <-]. reflexivity.
Qed.

Lemma preserves_for_each {A} (f : A -> M unit) (l : list A) :
  (forall x, preserves (f x)) -> preserves (for_each f l).
Proof.
  intros Hf. induction l as [|x l IH]; simpl.
  - apply preserves_ret.
  - apply preserves_bind; auto.
Qed.

Create HintDb pres discriminated.

#[local] Hint Resolve preserves_ret preserves_crash preserves_deref preserves_get_this
  preserves_get_message preserves_set_message preserves_emit preserves_on_task : pres.

Ltac pres_set :=
  let t := fresh "t" in
  intros t; unfold evolves, upd_in_child; cbn; auto.

Ltac pres_step :=
  first
    [ solve [auto with pres]
    | match goal with
      | |- preserves (bind _ _) => apply preserves_bind; [|intros ?]
      | |- preserves (when _ _) => apply preserves_when
      | |- preserves (set _) => apply preserves_set; try solve [pres_set]
      | |- preserves (for_each _ _) => apply preserves_for_each; intros ?; cbv beta
      | |- preserves (let _ := _ in _) => cbv zeta
      | |- preserves (match ?x with _ => _ end) => destruct x
      end ].

Ltac pres := repeat pres_step.

Lemma upd_sa_preserves f : preserves (upd_sa f).
Proof. unfold upd_sa. pres. Qed.
#[local] Hint Resolve upd_sa_preserves : pres.

Lemma set_state_preserves st : preserves (set_state st).
Proof. unfold set_state. pres. Qed.
#[local] Hint Resolve set_state_preserves : pres.

Lemma use_reqid_preserves r : preserves (use_reqid r).
Proof. unfold use_reqid. pres. Qed.

Lemma use_marks_preserves i o : preserves (use_marks i o).
Proof. unfold use_marks. pres. Qed.

Lemma use_if_ids_preserves i o : preserves (use_if_ids i o).
Proof. unfold use_if_ids. pres. Qed.

Lemma use_label_preserves l : preserves (use_label l).
Proof. unfold use_label. pres. Qed.

Lemma use_ke_method_preserves m : preserves (use_ke_method m).
Proof. unfold use_ke_method. pres. Qed.

Lemma set_config_preserves c : preserves (set_config c).
Proof. unfold set_config. pres. Qed.

Lemma abort_preserves : preserves abort_.
Proof. unfold abort_. pres. Qed.

Lemma schedule_delayed_retry_preserves : preserves schedule_delayed_retry.
Proof. unfold schedule_delayed_retry. pres. Qed.
#[local] Hint Resolve schedule_delayed_retry_preserves : pres.

Lemma get_nonce_preserves store :
  (forall n t, evolves t (store n t)) -> preserves (get_nonce store).
Proof. intros H. unfold get_nonce. pres. Qed.

Lemma get_nonce_my_preserves : preserves (get_nonce upd_my_nonce).
Proof. apply get_nonce_preserves. intros n. pres_set. Qed.

Lemma get_nonce_other_preserves : preserves (get_nonce upd_other_nonce).
Proof. apply get_nonce_preserves. intros n. pres_set. Qed.
#[local] Hint Resolve get_nonce_my_preserves get_nonce_other_preserves : pres.

Lemma generate_nonce_preserves : preserves generate_nonce.
Proof. unfold generate_nonce. pres. Qed.
#[local] Hint Resolve generate_nonce_preserves : pres.

Lemma allocate_spi_preserves : preserves allocate_spi.
Proof. unfold allocate_spi. pres. Qed.
#[local] Hint Resolve allocate_spi_preserves : pres.

Lemma update_and_check_proposals_preserves : preserves update_and_check_proposals.
Proof. unfold update_and_check_proposals. pres. Qed.
#[local] Hint Resolve update_and_check_proposals_preserves : pres.

Lemma schedule_inactivity_timeout_preserves : preserves schedule_inactivity_timeout.
Proof. unfold schedule_inactivity_timeout. pres. Qed.
#[local] Hint Resolve schedule_inactivity_timeout_preserves : pres.

Lemma narrow_ts_preserves t c l i : preserves (narrow_ts t c l i).
Proof. unfold narrow_ts. pres. Qed.
#[local] Hint Resolve narrow_ts_preserves : pres.

Lemma check_mode_preserves i r : preserves (check_mode i r).
Proof. unfold check_mode. pres. Qed.
#[local] Hint Resolve check_mode_preserves : pres.

Lemma narrow_and_check_ts_preserves a : preserves (narrow_and_check_ts a).
Proof. unfold narrow_and_check_ts. pres. Qed.
#[local] Hint Resolve narrow_and_check_ts_preserves : pres.

Lemma install_sa_preserves e i s c b : preserves (install_sa e i s c b).
Proof. unfold install_sa. pres. Qed.

Lemma register_outbound_sa_preserves e i s c : preserves (register_outbound_sa e i s c).
Proof. unfold register_outbound_sa. pres. Qed.
#[local] Hint Resolve install_sa_preserves register_outbound_sa_preserves : pres.

Lemma install_child_sa_preserves : preserves install_child_sa.
Proof. unfold install_child_sa. pres. Qed.
#[local] Hint Resolve install_child_sa_preserves : pres.

Lemma select_proposal_preserves b : preserves (select_proposal b).
Proof. unfold select_proposal. pres. Qed.
#[local] Hint Resolve select_proposal_preserves : pres.

Lemma add_ke_payload_preserves : preserves add_ke_payload.
Proof. unfold add_ke_payload. pres. Qed.
#[local] Hint Resolve add_ke_payload_preserves : pres.

Lemma build_payloads_multi_ke_preserves : preserves build_payloads_multi_ke.
Proof. unfold build_payloads_multi_ke. pres. Qed.
#[local] Hint Resolve build_payloads_multi_ke_preserves : pres.

Lemma build_payloads_preserves : preserves build_payloads.
Proof. unfold build_payloads. pres. Qed.
#[local] Hint Resolve build_payloads_preserves : pres.

Lemma add_ipcomp_notify_preserves i : preserves (add_ipcomp_notify i).
Proof. unfold add_ipcomp_notify. pres. Qed.
#[local] Hint Resolve add_ipcomp_notify_preserves : pres.

Lemma handle_notify_preserves ty d : preserves (handle_notify ty d).
Proof. unfold handle_notify. pres. Qed.
#[local] Hint Resolve handle_notify_preserves : pres.

Lemma determine_key_exchanges_preserves : preserves determine_key_exchanges.
Proof. unfold determine_key_exchanges. pres. Qed.
#[local] Hint Resolve determine_key_exchanges_preserves : pres.

Lemma clear_key_exchanges_preserves : preserves clear_key_exchanges.
Proof. unfold clear_key_exchanges. pres. Qed.
#[local] Hint Resolve clear_key_exchanges_preserves : pres.

Lemma process_ke_payload_preserves m d : preserves (process_ke_payload m d).
Proof. unfold process_ke_payload. pres. Qed.
#[local] Hint Resolve process_ke_payload_preserves : pres.

Lemma check_ke_method_preserves : preserves check_ke_method.
Proof. unfold check_ke_method. pres. Qed.
#[local] Hint Resolve check_ke_method_preserves : pres.

Lemma check_ke_method_r_preserves : preserves check_ke_method_r.
Proof. unfold check_ke_method_r. pres. Qed.
#[local] Hint Resolve check_ke_method_r_preserves : pres.

Lemma process_payloads_preserves : preserves process_payloads.
Proof. unfold process_payloads. pres. Qed.
#[local] Hint Resolve process_payloads_preserves : pres.

Lemma generic_label_only_preserves : preserves generic_label_only.
Proof. unfold generic_label_only. pres. Qed.
#[local] Hint Resolve generic_label_only_preserves : pres.

Lemma defer_child_sa_preserves : preserves defer_child_sa.
Proof. unfold defer_child_sa. pres. Qed.
#[local] Hint Resolve defer_child_sa_preserves : pres.

Lemma check_for_duplicate_preserves : preserves check_for_duplicate.
Proof. unfold check_for_duplicate. pres. Qed.
#[local] Hint Resolve check_for_duplicate_preserves : pres.

Lemma check_for_generic_label_preserves : preserves check_for_generic_label.
Proof. unfold check_for_generic_label. pres. Qed.
#[local] Hint Resolve check_for_generic_label_preserves : pres.

Lemma build_i_multi_ke_preserves : preserves build_i_multi_ke.
Proof. unfold build_i_multi_ke. pres. Qed.

Lemma build_i_prologue_preserves : preserves build_i_prologue.
Proof. unfold build_i_prologue. pres. Qed.

Lemma build_i_child_sa_preserves b : preserves (build_i_child_sa b).
Proof. unfold build_i_child_sa. pres. Qed.

Lemma build_i_send_preserves b c : preserves (build_i_send b c).
Proof. unfold build_i_send. pres. Qed.
#[local] Hint Resolve build_i_prologue_preserves build_i_child_sa_preserves
  build_i_send_preserves : pres.

Lemma build_i_preserves : preserves build_i.
Proof. unfold build_i. pres. Qed.

Lemma process_link_preserves : preserves process_link.
Proof. unfold process_link. pres. Qed.
#[local] Hint Resolve process_link_preserves : pres.

Lemma process_payloads_multi_ke_preserves : preserves process_payloads_multi_ke.
Proof. unfold process_payloads_multi_ke. pres. Qed.
#[local] Hint Resolve process_payloads_multi_ke_preserves : pres.

Lemma process_r_multi_ke_preserves : preserves process_r_multi_ke.
Proof. unfold process_r_multi_ke. pres. Qed.

Lemma process_r_preserves : preserves process_r.
Proof. unfold process_r. pres. Qed.

Lemma handle_child_sa_failure_preserves : preserves handle_child_sa_failure.
Proof. unfold handle_child_sa_failure. pres. Qed.
#[local] Hint Resolve handle_child_sa_failure_preserves : pres.

Lemma select_label_preserves : preserves select_label.
Proof. unfold select_label. pres. Qed.
#[local] Hint Resolve select_label_preserves : pres.

Lemma key_exchange_done_preserves : preserves key_exchange_done.
Proof. unfold key_exchange_done. pres. Qed.
#[local] Hint Resolve key_exchange_done_preserves : pres.

Lemma key_exchange_done_and_install_r_preserves a :
  preserves (key_exchange_done_and_install_r a).
Proof. unfold key_exchange_done_and_install_r. pres. Qed.
#[local] Hint Resolve key_exchange_done_and_install_r_preserves : pres.

Lemma build_r_multi_ke_preserves : preserves build_r_multi_ke.
Proof. unfold build_r_multi_ke. pres. Qed.

Lemma build_r_prologue_preserves : preserves build_r_prologue.
Proof. unfold build_r_prologue. pres. Qed.

Lemma build_r_select_preserves b : preserves (build_r_select b).
Proof. unfold build_r_select. pres. Qed.

Lemma build_r_negotiate_preserves b : preserves (build_r_negotiate b).
Proof. unfold build_r_negotiate. pres. Qed.
#[local] Hint Resolve build_r_prologue_preserves build_r_select_preserves
  build_r_negotiate_preserves : pres.

Lemma build_r_preserves : preserves build_r.
Proof. unfold build_r. pres. Qed.

Lemma raise_alerts_preserves ty : preserves (raise_alerts ty).
Proof. unfold raise_alerts. pres. Qed.
#[local] Hint Resolve raise_alerts_preserves : pres.

Lemma build_i_delete_preserves : preserves build_i_delete.
Proof. unfold build_i_delete. pres. Qed.

Lemma delete_failed_sa_preserves : preserves delete_failed_sa.
Proof. unfold delete_failed_sa. pres. Qed.
#[local] Hint Resolve delete_failed_sa_preserves : pres.

Lemma key_exchange_done_and_install_i_preserves a :
  preserves (key_exchange_done_and_install_i a).
Proof. unfold key_exchange_done_and_install_i. pres. Qed.
#[local] Hint Resolve key_exchange_done_and_install_i_preserves : pres.

Lemma process_i_multi_ke_preserves : preserves process_i_multi_ke.
Proof. unfold process_i_multi_ke. pres. Qed.

Lemma migrate_preserves : preserves migrate.
Proof. unfold migrate. pres. Qed.
#[local] Hint Resolve migrate_preserves : pres.

Lemma process_i_prologue_preserves : preserves process_i_prologue.
Proof. unfold process_i_prologue. pres. Qed.

Lemma process_i_notify_preserves ty d : preserves (process_i_notify ty d).
Proof. unfold process_i_notify. pres. Qed.
#[local] Hint Resolve process_i_prologue_preserves process_i_notify_preserves : pres.

Lemma process_i_notifies_preserves pls : preserves (process_i_notifies pls).
Proof.
  induction pls as [|pl pls IH]; simpl.
  - apply preserves_ret.
  - destruct pl; try exact IH. pres.
Qed.

Lemma process_i_select_preserves b : preserves (process_i_select b).
Proof. unfold process_i_select. pres. Qed.

Lemma process_i_ipcomp_preserves : preserves process_i_ipcomp.
Proof. unfold process_i_ipcomp. pres. Qed.

Lemma process_i_finish_preserves b : preserves (process_i_finish b).
Proof. unfold process_i_finish. pres. Qed.
#[local] Hint Resolve process_i_notifies_preserves process_i_select_preserves
  process_i_ipcomp_preserves process_i_finish_preserves : pres.

Lemma process_i_preserves : preserves process_i.
Proof. unfold process_i. pres. Qed.

Lemma destroy_preserves : preserves destroy.
Proof. unfold destroy. pres. Qed.

#[local] Hint Resolve build_i_preserves build_i_multi_ke_preserves build_i_delete_preserves
  build_r_preserves build_r_multi_ke_preserves process_i_preserves
  process_i_multi_ke_preserves process_r_preserves process_r_multi_ke_preserves : pres.

Lemma task_build_preserves : preserves task_build.
Proof. unfold task_build. pres. Qed.

Lemma task_process_preserves : preserves task_process.
Proof. unfold task_process. pres. Qed.

(** ** Reasoning about runs of a method *)

(** Reading a field through the setters. *)
Ltac fields :=
  cbn [reqid mark_in mark_out if_id_in if_id_out if_id_in_def if_id_out_def label encap
  sa_config sa_unique_id sa_reqid sa_mark_in sa_mark_out sa_if_id_in sa_if_id_out sa_label
  sa_state sa_ipcomp sa_mode sa_protocol sa_proposal sa_my_host sa_other_host sa_encap
  sa_my_ts sa_other_ts build process initiator my_nonce other_nonce config proposals proposal
  tsi tsr labels_i labels_r packet_tsi packet_tsr key_exchanges ke_index ke_method ke kes
  ke_failed link mode tfcv3 ipcomp ipcomp_received proto my_spi other_spi my_cpi other_cpi
  child child_sa established rekey retry aborted this message trace exchange_type payloads
  prop_protocol prop_spi prop_transforms kx_method kx_peer_public kx_type kx_meth kx_done
  encr_i integ_i encr_r integ_r upd_reqid upd_mark_in upd_mark_out upd_if_id_in upd_if_id_out
  upd_if_id_in_def upd_if_id_out_def upd_label upd_encap upd_sa_state upd_sa_ipcomp
  upd_sa_mode upd_sa_protocol upd_sa_proposal upd_sa_my_host upd_sa_other_host upd_sa_encap
  upd_sa_my_ts upd_sa_other_ts upd_build upd_process upd_initiator upd_my_nonce
  upd_other_nonce upd_config upd_proposals upd_proposal upd_tsi upd_tsr upd_labels_i
  upd_labels_r upd_packet_tsi upd_packet_tsr upd_key_exchanges upd_ke_index upd_ke_method
  upd_ke upd_kes upd_ke_failed upd_link upd_mode upd_tfcv3 upd_ipcomp upd_ipcomp_received
  upd_proto upd_my_spi upd_other_spi upd_my_cpi upd_other_cpi upd_child upd_child_sa
  upd_established upd_rekey upd_retry upd_aborted upd_sa upd_in_child].

Ltac fields_in H :=
  cbn [reqid mark_in mark_out if_id_in if_id_out if_id_in_def if_id_out_def label encap
  sa_config sa_unique_id sa_reqid sa_mark_in sa_mark_out sa_if_id_in sa_if_id_out sa_label
  sa_state sa_ipcomp sa_mode sa_protocol sa_proposal sa_my_host sa_other_host sa_encap
  sa_my_ts sa_other_ts build process initiator my_nonce other_nonce config proposals proposal
  tsi tsr labels_i labels_r packet_tsi packet_tsr key_exchanges ke_index ke_method ke kes
  ke_failed link mode tfcv3 ipcomp ipcomp_received proto my_spi other_spi my_cpi other_cpi
  child child_sa established rekey retry aborted this message trace exchange_type payloads
  prop_protocol prop_spi prop_transforms kx_method kx_peer_public kx_type kx_meth kx_done
  encr_i integ_i encr_r integ_r upd_reqid upd_mark_in upd_mark_out upd_if_id_in upd_if_id_out
  upd_if_id_in_def upd_if_id_out_def upd_label upd_encap upd_sa_state upd_sa_ipcomp
  upd_sa_mode upd_sa_protocol upd_sa_proposal upd_sa_my_host upd_sa_other_host upd_sa_encap
  upd_sa_my_ts upd_sa_other_ts upd_build upd_process upd_initiator upd_my_nonce
  upd_other_nonce upd_config upd_proposals upd_proposal upd_tsi upd_tsr upd_labels_i
  upd_labels_r upd_packet_tsi upd_packet_tsr upd_key_exchanges upd_ke_index upd_ke_method
  upd_ke upd_kes upd_ke_failed upd_link upd_mode upd_tfcv3 upd_ipcomp upd_ipcomp_received
  upd_proto upd_my_spi upd_other_spi upd_my_cpi upd_other_cpi upd_child upd_child_sa
  upd_established upd_rekey upd_retry upd_aborted upd_sa upd_in_child] in H.

(** [wp m s Q]: if [m] run from [s] returns, its result and final state
    satisfy [Q]. *)
Definition wp {A} (m : M A) (s : state) (Q : A -> state -> Prop) : Prop :=
  forall a s', m s = Some (a, s') -> Q a s'.

(** [runs m s Q]: [m] run from [s] returns, with a result and a final state
    that satisfy [Q]. *)
Definition runs {A} (m : M A) (s : state) (Q : A -> state -> Prop) : Prop :=
  exists a s', m s = Some (a, s') /\ Q a s'.

Lemma wp_ret {A} (a : A) s Q : Q a s -> wp (ret a) s Q.
Proof. intros H a' s' [= <- <-]. exact H. Qed.

Lemma wp_crash {A} s (Q : A -> state -> Prop) : wp crash s Q.
Proof. intros a s' [=]. Qed.

Lemma wp_bind {A B} (m : M A) (f : A -> M B) s Q :
  wp m s (fun a s1 => wp (f a) s1 Q) -> wp (bind m f) s Q.
Proof.
  intros H b s'. unfold bind. destruct (m s) as [[a s1]|] eqn:Hm; [|discriminate].
  apply (H a s1 Hm).
Qed.

Lemma wp_deref {A} (o : option A) s Q :
  (forall a, o = Some a -> Q a s) -> wp (deref o) s Q.
Proof. intros H. destruct o; [apply wp_ret; auto | apply wp_crash]. Qed.

Lemma wp_get_this s Q : Q (this s) s -> wp get_this s Q.
Proof. intros H a s' [= <- <-]. exact H. Qed.

Lemma wp_get_message s Q : Q (message s) s -> wp get_message s Q.
Proof. intros H a s' [= <- <-]. exact H. Qed.

Lemma wp_set f s Q :
  Q tt {| this := f (this s); message := message s; trace := trace s |} ->
  wp (set f) s Q.
Proof. intros H a s' [= <- <-]. exact H. Qed.

Lemma wp_set_message f s Q :
  Q tt {| this := this s; message := f (message s); trace := trace s |} ->
  wp (set_message f) s Q.
Proof. intros H a s' [= <- <-]. exact H. Qed.

Lemma wp_emit e s Q :
  Q tt {| this := this s; message := message s; trace := trace s ++ [e] |} ->
  wp (emit e) s Q.
Proof. intros H a s' [= <- <-]. exact H. Qed.

Lemma wp_when b m s Q :
  (b = true -> wp m s Q) -> (b = false -> Q tt s) -> wp (when b m) s Q.
Proof. destruct b; simpl; intros H1 H2; [auto | apply wp_ret; auto]. Qed.

Lemma wp_mono {A} (m : M A) s (Q Q' : A -> state -> Prop) :
  wp m s Q -> (forall a s', Q a s' -> Q' a s') -> wp m s Q'.
Proof. intros H HQ a s' Hm. apply HQ, H, Hm. Qed.

Lemma wp_and {A} (m : M A) s (Q Q' : A -> state -> Prop) :
  wp m s Q -> wp m s Q' -> wp m s (fun a s' => Q a s' /\ Q' a s').
Proof. intros H1 H2 a s' Hm. split; [apply H1 | apply H2]; exact Hm. Qed.

Lemma wp_preserves {A} (m : M A) s :
  preserves m -> wp m s (fun _ s' => evolves (this s) (this s')).
Proof. intros H a s' Hm. exact (H s a s' Hm). Qed.

Lemma runs_ret {A} (a : A) s Q : Q a s -> runs (ret a) s Q.
Proof. intros H. exists a, s. auto. Qed.

Lemma runs_bind {A B} (m : M A) (f : A -> M B) s Q :
  runs m s (fun a s1 => runs (f a) s1 Q) -> runs (bind m f) s Q.
Proof.
  intros (a & s1 & Hm & b & s' & Hf & HQ). exists b, s'. split; [|exact HQ].
  unfold bind. rewrite Hm. exact Hf.
Qed.

Lemma runs_deref {A} (o : option A) a s Q : o = Some a -> Q a s -> runs (deref o) s Q.
Proof. intros -> H. by apply runs_ret. Qed.

Lemma runs_get_this s Q : Q (this s) s -> runs get_this s Q.
Proof. intros H. eexists _, _. split; [reflexivity | exact H]. Qed.

Lemma runs_get_message s Q : Q (message s) s -> runs get_message s Q.
Proof. intros H. eexists _, _. split; [reflexivity | exact H]. Qed.

Lemma runs_set f s Q :
  Q tt {| this := f (this s); message := message s; trace := trace s |} ->
  runs (set f) s Q.
Proof. intros H. eexists _, _. split; [reflexivity | exact H]. Qed.

Lemma runs_set_message f s Q :
  Q tt {| this := this s; message := f (message s); trace := trace s |} ->
  runs (set_message f) s Q.
Proof. intros H. eexists _, _. split; [reflexivity | exact H]. Qed.

Lemma runs_emit e s Q :
  Q tt {| this := this s; message := message s; trace := trace s ++ [e] |} ->
  runs (emit e) s Q.
Proof. intros H. eexists _, _. split; [reflexivity | exact H]. Qed.

Lemma runs_when b m s Q :
  (b = true -> runs m s Q) -> (b = false -> Q tt s) -> runs (when b m) s Q.
Proof. destruct b; simpl; intros H1 H2; [auto | apply runs_ret; auto]. Qed.

Lemma runs_mono {A} (m : M A) s (Q Q' : A -> state -> Prop) :
  runs m s Q -> (forall a s', Q a s' -> Q' a s') -> runs m s Q'.
Proof. intros (a & s' & Hm & HQ) H. exists a, s'. auto. Qed.

Lemma runs_wp {A} (m : M A) s (Q Q' : A -> state -> Prop) :
  runs m s Q -> wp m s Q' -> runs m s (fun a s' => Q a s' /\ Q' a s').
Proof. intros (a & s' & Hm & HQ) H. exists a, s'. auto. Qed.

Lemma runs_same_run {A} (m m' : M A) s Q : m s = m' s -> runs m' s Q -> runs m s Q.
Proof. intros H (a & s' & Hm & HQ). exists a, s'. split; [congruence | exact HQ]. Qed.

Lemma runs_eq {A} (m : M A) s a s' : m s = Some (a, s') -> runs m s (fun b s1 => b = a /\ s1 = s').
Proof. intros H. exists a, s'. auto. Qed.

(** One step of a run: the rule for the method at the head, or a case
    distinction on what it branches on. *)
Ltac wp_step :=
  lazymatch goal with
  | |- wp (bind _ _) _ _ => apply wp_bind
  | |- wp (ret _) _ _ => apply wp_ret
  | |- wp crash _ _ => apply wp_crash
  | |- wp (deref _) _ _ => apply wp_deref; intros ? ?
  | |- wp get_this _ _ => apply wp_get_this
  | |- wp get_message _ _ => apply wp_get_message
  | |- wp (set _) _ _ => apply wp_set
  | |- wp (set_message _) _ _ => apply wp_set_message
  | |- wp (emit _) _ _ => apply wp_emit
  | |- wp (when _ _) _ _ => apply wp_when; intros ?
  | |- wp (upd_sa _) _ _ => unfold upd_sa
  | |- wp (set_state _) _ _ => unfold set_state
  | |- wp (let _ := _ in _) _ _ => cbv zeta
  | |- wp (match ?x with _ => _ end) _ _ =>
      first
        [ is_var x; destruct x
        | match goal with H : x = _ |- _ => rewrite H end
        | let v := eval lazy in x in
          lazymatch v with
          | true => change x with true
          | false => change x with false
          end
        | let Hx := fresh "Hx" in destruct x eqn:Hx ]
  end; cbv beta; fields.

Ltac runs_step :=
  lazymatch goal with
  | |- runs (bind _ _) _ _ => apply runs_bind
  | |- runs (ret _) _ _ => apply runs_ret
  | |- runs (deref _) _ _ => eapply runs_deref; [fields; eassumption || reflexivity|]
  | |- runs get_this _ _ => apply runs_get_this
  | |- runs get_message _ _ => apply runs_get_message
  | |- runs (set _) _ _ => apply runs_set
  | |- runs (set_message _) _ _ => apply runs_set_message
  | |- runs (emit _) _ _ => apply runs_emit
  | |- runs (upd_sa _) _ _ => unfold upd_sa
  | |- runs (set_state _) _ _ => unfold set_state
  | |- runs (let _ := _ in _) _ _ => cbv zeta
  end; cbv beta; fields.

(** ** Duplicates *)

(** The duplicate test in the words of the specification. *)
Definition is_duplicate_as_specified (a b : child_sa_t) : Prop :=
  get_state a = CHILD_INSTALLED /\
  cfg_equals E (get_config_sa a) (get_config_sa b) = true /\
  get_mark a true = get_mark b true /\ get_mark a false = get_mark b false /\
  get_if_id a true = get_if_id b true /\ get_if_id a false = get_if_id b false /\
  sec_labels_equal (get_label a) (get_label b) = true /\
  ((get_reqid a = 0 /\ get_reqid b = 0) \/ get_reqid a = get_reqid b).

(** The duplicate test with the comparison of the reqids the code makes:
    they are compared only if both CHILD_SAs have one. *)
Definition is_duplicate (a b : child_sa_t) : Prop :=
  get_state a = CHILD_INSTALLED /\
  cfg_equals E (get_config_sa a) (get_config_sa b) = true /\
  get_mark a true = get_mark b true /\ get_mark a false = get_mark b false /\
  get_if_id a true = get_if_id b true /\ get_if_id a false = get_if_id b false /\
  sec_labels_equal (get_label a) (get_label b) = true /\
  (get_reqid a = 0 \/ get_reqid b = 0 \/ get_reqid a = get_reqid b).

Lemma child_sa_equals_duplicate (a b : child_sa_t) :
  bool_decide (get_state a = CHILD_INSTALLED) && child_sa_equals a b = true <->
  is_duplicate a b.
Proof.
  unfold child_sa_equals, is_duplicate.
  rewrite !andb_true_iff, !orb_true_iff, !Z.eqb_eq, bool_decide_eq_true.
  tauto.
Qed.

Lemma find_duplicate (mine : child_sa_t) (l : list child_sa_t) :
  non_null (List.find (fun sa => bool_decide (get_state sa = CHILD_INSTALLED) &&
                                 child_sa_equals sa mine) l) = true <->
  exists sa, In sa l /\ is_duplicate sa mine.
Proof.
  induction l as [|x l IH]; simpl.
  - split; [discriminate | intros (sa & [] & _)].
  - destruct (bool_decide (get_state x = CHILD_INSTALLED) && child_sa_equals x mine)
      eqn:Hx.
    + split; [intros _ | reflexivity].
      exists x. split; [by left | by apply child_sa_equals_duplicate].
    + rewrite IH. split.
      * intros (sa & Hin & Hd). exists sa. auto.
      * intros (sa & [-> | Hin] & Hd); [|by exists sa].
        apply child_sa_equals_duplicate in Hd. congruence.
Qed.

Lemma check_for_duplicate_spec (s : state) (mine : child_sa_t) :
  child_sa (this s) = Some mine ->
  exists b, check_for_duplicate s = Some (b, s) /\
            (b = true <-> exists sa, In sa (ike_child_sas E) /\ is_duplicate sa mine).
Proof.
  intros Hm. unfold check_for_duplicate, bind, get_this, ret. rewrite Hm.
  eexists. split; [reflexivity|]. apply find_duplicate.
Qed.

Lemma build_i_prologue_create_child_sa (s : state) :
  exchange_type (message s) = CREATE_CHILD_SA ->
  wp build_i_prologue s
    (fun r s0 =>
       match r with
       | inr no_ke =>
           no_ke = false /\ message s0 = message s /\ rekey (this s0) = rekey (this s)
       | inl st =>
           st = SUCCESS /\ exchange_type (message s0) = EXCHANGE_TYPE_UNDEFINED /\
           payloads (message s0) = payloads (message s)
       end).
Proof.
  intros Hx. unfold build_i_prologue, generate_nonce, get_exchange_type.
  wp_step. wp_step. rewrite Hx.
  repeat wp_step; auto.
Qed.

Lemma build_i_child_sa_frame (s : state) (no_ke : bool) :
  wp (build_i_child_sa no_ke) s
    (fun cfg s1 => message s1 = message s /\ rekey (this s1) = rekey (this s) /\
                   trace s1 = trace s /\ config (this s1) = Some cfg).
Proof.
  unfold build_i_child_sa, generic_label_only.
  repeat wp_step; auto.
Qed.

(** C6 (as amended).  In a non-rekey [build_i] of a CREATE_CHILD_SA request
    that gets as far as creating its CHILD_SA object [mine]: the check for a
    duplicate succeeds exactly if some CHILD_SA of the IKE_SA is INSTALLED,
    has an equal config, equal marks (in and out), equal interface IDs (in
    and out), equal labels, and a reqid that is zero, or faces a zero reqid
    of [mine], or equals the reqid of [mine]; and when there is such a
    CHILD_SA, the build sets the exchange type to undefined, adds no payload
    and returns SUCCESS. *)
Theorem build_i_duplicate (s s0 s1 : state) (no_ke : bool) (cfg : child_cfg_t)
    (mine : child_sa_t) :
  rekey (this s) = false ->
  exchange_type (message s) = CREATE_CHILD_SA ->
  build_i_prologue s = Some (inr no_ke, s0) ->
  build_i_child_sa no_ke s0 = Some (cfg, s1) ->
  child_sa (this s1) = Some mine ->
  (exists b, check_for_duplicate s1 = Some (b, s1) /\
             (b = true <-> exists sa, In sa (ike_child_sas E) /\ is_duplicate sa mine)) /\
  ((exists sa, In sa (ike_child_sas E) /\ is_duplicate sa mine) ->
   build_i s =
   Some (SUCCESS,
         {| this := this s1;
            message := {| exchange_type := EXCHANGE_TYPE_UNDEFINED;
                          payloads := payloads (message s) |};
            trace := trace s1 |})).
Proof.
  intros Hrekey Hx Hpro Hsa Hmine.
  split; [by apply check_for_duplicate_spec|].
  intros Hdup.
  destruct (build_i_prologue_create_child_sa s Hx _ _ Hpro) as (_ & Hm0 & Hr0).
  destruct (build_i_child_sa_frame s0 no_ke _ _ Hsa) as (Hm1 & Hr1 & _ & Hc).
  destruct (check_for_duplicate_spec s1 mine Hmine) as (b & Hcheck & Hb).
  apply Hb in Hdup. subst b.
  assert (Hmsg : message s1 = message s) by congruence.
  assert (Hrk : rekey (this s1) = false) by congruence.
  assert (Hsend : runs (build_i_send no_ke cfg) s1
            (fun st s' => st = SUCCESS /\
               s' = {| this := this s1;
                       message := {| exchange_type := EXCHANGE_TYPE_UNDEFINED;
                                     payloads := payloads (message s) |};
                       trace := trace s1 |})).
  { unfold build_i_send, get_exchange_type. repeat runs_step.
    rewrite Hrk, Hmsg, Hx. cbn [negb andb].
    rewrite bool_decide_eq_true_2 by reflexivity.
    unfold check_for_generic_label, generic_label_only. repeat runs_step.
    destruct (non_null (cfg_get_label E cfg) && negb (non_null (label (child (this s1)))) &&
              bool_decide (cfg_get_label_mode E cfg = SEC_LABEL_MODE_SELINUX)).
    - repeat runs_step. rewrite Hmsg. auto.
    - repeat runs_step. eapply runs_mono; [apply runs_eq, Hcheck|].
      intros b s' [-> ->]. repeat runs_step. rewrite Hmsg. auto. }
  destruct Hsend as (st & s' & Hrun & -> & ->).
  unfold build_i, bind. rewrite Hpro, Hsa. exact Hrun.
Qed.

(** ** Installing the CHILD_SA *)

(** The calls made between two states of a run. *)
Definition events_since (s s' : state) : list event :=
  drop (length (trace s)) (trace s').

(** The calls that derive keys and hand an SA to the kernel. *)
Definition is_sa_call (e : event) : bool :=
  match e with
  | EvDeriveChildKeys _ _ _ _ => true
  | EvInstall _ _ _ _ _ _ _ => true
  | EvRegisterOutbound _ _ _ _ _ _ => true
  | _ => false
  end.

(** The calls that hand the outbound SA to the kernel. *)
Definition is_outbound_call (e : event) : bool :=
  match e with
  | EvInstall _ _ _ _ _ false _ => true
  | EvRegisterOutbound _ _ _ _ _ _ => true
  | _ => false
  end.

(** The calls that establish the CHILD_SA once both SAs are in the kernel. *)
Definition is_establishing_call (e : event) : bool :=
  match e with
  | EvInstallPolicies => true
  | EvSetState CHILD_INSTALLED => true
  | EvAddChildSa _ => true
  | EvChildUpdown _ => true
  | _ => false
  end.

Lemma events_since_app (s : state) (t : private_child_create_t) (m : message_t)
    (evs : list event) :
  events_since s {| this := t; message := m; trace := trace s ++ evs |} = evs.
Proof. unfold events_since. cbn [trace]. by rewrite drop_app_length. Qed.

Lemma events_since_nil (s : state) (t : private_child_create_t) (m : message_t) :
  events_since s {| this := t; message := m; trace := trace s |} = [].
Proof. unfold events_since. cbn [trace]. by rewrite drop_all. Qed.

Ltac events :=
  rewrite <- ?app_assoc; rewrite ?events_since_app, ?events_since_nil;
  cbn [app List.filter List.existsb is_sa_call is_outbound_call is_establishing_call
       orb andb negb].

(** The nonce of the initiator of the exchange and that of its responder,
    from the nonces of the task and its role. *)
Definition nonce_i (t : private_child_create_t) : chunk_t :=
  if initiator t then my_nonce t else other_nonce t.

Definition nonce_r (t : private_child_create_t) : chunk_t :=
  if initiator t then other_nonce t else my_nonce t.

Ltac known_fields :=
  repeat match goal with
         | H : initiator (this _) = _ |- _ => rewrite H
         | H : rekey (this _) = _ |- _ => rewrite H
         end.

Lemma install_child_sa_keys_wp (s : state) :
  wp install_child_sa s (fun st s' => st = SUCCESS ->
    exists (p : proposal_t) (k : child_keys_t),
      proposal (this s) = Some p /\
      derive_child_keys E p (kes (this s)) (nonce_i (this s)) (nonce_r (this s)) = Some k /\
      List.filter is_sa_call (events_since s s') =
      [ EvDeriveChildKeys p (kes (this s)) (nonce_i (this s)) (nonce_r (this s));
        EvInstall (if initiator (this s) then encr_r k else encr_i k)
                  (if initiator (this s) then integ_r k else integ_i k)
                  (my_spi (this s)) (my_cpi (this s')) (initiator (this s)) true
                  (tfcv3 (this s));
        if rekey (this s) then
          EvRegisterOutbound (if initiator (this s) then encr_i k else encr_r k)
                             (if initiator (this s) then integ_i k else integ_r k)
                             (other_spi (this s)) (other_cpi (this s'))
                             (initiator (this s)) (tfcv3 (this s))
        else
          EvInstall (if initiator (this s) then encr_i k else encr_r k)
                    (if initiator (this s) then integ_i k else integ_r k)
                    (other_spi (this s)) (other_cpi (this s')) (initiator (this s)) false
                    (tfcv3 (this s)) ]).
Proof.
  unfold nonce_i, nonce_r.
  unfold install_child_sa, install_sa, register_outbound_sa, schedule_inactivity_timeout.
  repeat wp_step.
  all: intros Hst; try discriminate Hst.
  all: eexists _, _; split; [eassumption|]; split; [eassumption|].
  all: events; known_fields; reflexivity.
Qed.

(** C1.  Every successful [install_child_sa] makes exactly three calls that
    derive keys or hand an SA to the kernel, in this order: the key
    derivation, with the initiator's nonce first and the responder's second
    whatever the role of the task; the install of the inbound SA, with
    [my_spi] and the keys of the peer (the responder's keys [encr_r],
    [integ_r] when the task is initiator, the initiator's keys [encr_i],
    [integ_i] when it is responder); and the install -- the registration
    when rekeying -- of the outbound SA, with [other_spi] and our own keys
    (the initiator's when the task is initiator, the responder's when it is
    responder). *)
Theorem install_child_sa_keys (s s' : state) :
  install_child_sa s = Some (SUCCESS, s') ->
  exists (p : proposal_t) (k : child_keys_t),
    proposal (this s) = Some p /\
    derive_child_keys E p (kes (this s)) (nonce_i (this s)) (nonce_r (this s)) = Some k /\
    List.filter is_sa_call (events_since s s') =
    [ EvDeriveChildKeys p (kes (this s)) (nonce_i (this s)) (nonce_r (this s));
      EvInstall (if initiator (this s) then encr_r k else encr_i k)
                (if initiator (this s) then integ_r k else integ_i k)
                (my_spi (this s)) (my_cpi (this s')) (initiator (this s)) true
                (tfcv3 (this s));
      if rekey (this s) then
        EvRegisterOutbound (if initiator (this s) then encr_i k else encr_r k)
                           (if initiator (this s) then integ_i k else integ_r k)
                           (other_spi (this s)) (other_cpi (this s'))
                           (initiator (this s)) (tfcv3 (this s))
      else
        EvInstall (if initiator (this s) then encr_i k else encr_r k)
                  (if initiator (this s) then integ_i k else integ_r k)
                  (other_spi (this s)) (other_cpi (this s')) (initiator (this s)) false
                  (tfcv3 (this s)) ].
Proof.
  intros Hrun. exact (install_child_sa_keys_wp s SUCCESS s' Hrun eq_refl).
Qed.

Lemma status_not_success (st : status_t) :
  negb (bool_decide (st = SUCCESS)) = false -> st = SUCCESS.
Proof. intros H. apply negb_false_iff in H. by apply bool_decide_eq_true in H. Qed.

Lemma install_child_sa_inbound_failure_wp (s : state) (encr integ : chunk_t) (spi cpi : Z)
    (ini tfc : bool) :
  install E encr integ spi cpi ini true tfc <> SUCCESS ->
  wp install_child_sa s (fun st s' =>
    In (EvInstall encr integ spi cpi ini true tfc) (events_since s s') ->
    st = FAILED /\
    List.existsb is_outbound_call (events_since s s') = true /\
    List.existsb is_establishing_call (events_since s s') = false /\
    established (this s') = established (this s)).
Proof.
  intros Hfail.
  unfold install_child_sa, install_sa, register_outbound_sa, schedule_inactivity_timeout.
  repeat wp_step.
  all: events; cbn [In]; intros Hin.
  all: repeat match goal with
              | H : _ \/ _ |- _ => destruct H as [H|H]
              | H : False |- _ => destruct H
              | H : @eq event _ _ |- _ => first [discriminate H | injection H as <- <- <- <- <- <-]
              end.
  all: try (repeat split; reflexivity).
  all: exfalso.
  all: repeat match goal with
              | H : _ || _ = false |- _ => apply orb_false_elim in H as [? ?]
              | H : negb (bool_decide (_ = SUCCESS)) = false |- _ =>
                  apply status_not_success in H
              end.
  all: known_fields; congruence.
Qed.

(** C3 (as amended).  [install_child_sa] hands the outbound SA to the kernel
    (install, or register_outbound when rekeying) whatever the install of
    the inbound SA returned.  When the inbound install failed, the CHILD_SA
    is not established for all that: [install_child_sa] returns FAILED,
    installs no policies, does not set the state INSTALLED, does not add the
    CHILD_SA to the IKE_SA and leaves [established] as it was. *)
Theorem install_child_sa_inbound_failure (s s' : state) (st : status_t)
    (encr integ : chunk_t) (spi cpi : Z) (ini tfc : bool) :
  install_child_sa s = Some (st, s') ->
  In (EvInstall encr integ spi cpi ini true tfc) (events_since s s') ->
  install E encr integ spi cpi ini true tfc <> SUCCESS ->
  st = FAILED /\
  List.existsb is_outbound_call (events_since s s') = true /\
  List.existsb is_establishing_call (events_since s s') = false /\
  established (this s') = established (this s).
Proof.
  intros Hrun Hin Hfail.
  exact (install_child_sa_inbound_failure_wp s encr integ spi cpi ini tfc Hfail st s' Hrun Hin).
Qed.

(** ** The methods of a task *)

(** The methods the IKE_SA and the sibling tasks call on a task. *)
Inductive method_call :=
  | Call_use_reqid (r : Z)
  | Call_use_marks (in_ out : Z)
  | Call_use_if_ids (in_ out : Z)
  | Call_use_label (l : option sec_label_t)
  | Call_use_ke_method (m : key_exchange_method_t)
  | Call_set_config (cfg : option child_cfg_t)
  | Call_abort
  | Call_migrate
  | Call_build
  | Call_process.

Definition call (c : method_call) : M unit :=
  match c with
  | Call_use_reqid r => use_reqid r
  | Call_use_marks i o => use_marks i o
  | Call_use_if_ids i o => use_if_ids i o
  | Call_use_label l => use_label l
  | Call_use_ke_method m => use_ke_method m
  | Call_set_config cfg => set_config cfg
  | Call_abort => abort_
  | Call_migrate => migrate
  | Call_build => task_build ;;; ret tt
  | Call_process => task_process ;;; ret tt
  end.

Lemma call_preserves (c : method_call) : preserves (call c).
Proof.
  destruct c; simpl;
    auto using use_reqid_preserves, use_marks_preserves, use_if_ids_preserves,
      use_label_preserves, use_ke_method_preserves, set_config_preserves,
      abort_preserves, migrate_preserves.
  - apply preserves_bind; [apply task_build_preserves | intros; apply preserves_ret].
  - apply preserves_bind; [apply task_process_preserves | intros; apply preserves_ret].
Qed.

(** ** INVALID_KE_PAYLOAD *)

(** The payloads the loop over the notifies of [process_i] passes over, in a
    message of exchange type [exch]. *)
Definition passed_over (exch : exchange_type_t) (p : payload_t) : bool :=
  match p with
  | PLV2_NOTIFY type _ =>
      negb (is_child_error_notify type) && negb (Z.eqb type TEMPORARY_FAILURE) &&
      negb (Z.eqb type INVALID_KE_PAYLOAD) &&
      (negb (bool_decide (exch = CREATE_CHILD_SA)) || negb (Z.leb type 16383))
  | _ => true
  end.

Lemma process_i_notifies_passed_over (pre rest : list payload_t) (s : state) :
  forallb (passed_over (exchange_type (message s))) pre = true ->
  process_i_notifies (pre ++ rest) s = process_i_notifies rest s.
Proof.
  induction pre as [|p pre IH]; [reflexivity|].
  simpl. intros [Hp Hpre]%andb_true_iff. specialize (IH Hpre).
  destruct p; try exact IH.
  simpl in Hp. apply andb_true_iff in Hp as [Hp H4].
  apply andb_true_iff in Hp as [Hp H3]. apply andb_true_iff in Hp as [H1 H2].
  apply negb_true_iff in H1, H2, H3.
  unfold bind at 1. unfold process_i_notify. rewrite H1, H2, H3.
  unfold bind, get_message, get_exchange_type, ret.
  destruct (bool_decide (exchange_type (message s) = CREATE_CHILD_SA)).
  - simpl in H4. apply negb_true_iff in H4. rewrite H4. exact IH.
  - exact IH.
Qed.

(** The task when [process_i] comes to its loop over the notifies of the
    message [m]: for CREATE_CHILD_SA it has taken the nonce of the peer from
    the nonce payload, if there is one; nothing else has been written. *)
Definition with_peer_nonce (t : private_child_create_t) (m : message_t)
  : private_child_create_t :=
  match exchange_type m with
  | CREATE_CHILD_SA =>
      match get_nonce_payload (payloads m) with
      | Some n => upd_other_nonce n t
      | None => t
      end
  | _ => t
  end.

Lemma process_i_prologue_task (s : state) :
  wp process_i_prologue s (fun r s0 =>
    match r with
    | inl _ => True
    | inr _ => this s0 = with_peer_nonce (this s) (message s)
    end).
Proof.
  unfold process_i_prologue, get_nonce, defer_child_sa, generic_label_only,
    get_exchange_type, with_peer_nonce.
  repeat wp_step; try exact I;
    repeat match goal with H : _ = _ |- _ => rewrite H end; reflexivity.
Qed.

(** The switch of [process_i] leaves everything but [other_nonce] as it
    was. *)
Lemma process_i_prologue_frame (s : state) :
  wp process_i_prologue s (fun r s0 =>
    message s0 = message s /\ trace s0 = trace s /\
    aborted (this s0) = aborted (this s) /\ retry (this s0) = retry (this s) /\
    rekey (this s0) = rekey (this s) /\ child_sa (this s0) = child_sa (this s) /\
    ke_method (this s0) = ke_method (this s) /\ initiator (this s0) = initiator (this s) /\
    my_spi (this s0) = my_spi (this s) /\ proto (this s0) = proto (this s) /\
    ipcomp (this s0) = ipcomp (this s) /\
    ipcomp_received (this s0) = ipcomp_received (this s)).
Proof.
  unfold process_i_prologue, get_nonce, defer_child_sa, generic_label_only.
  repeat wp_step; repeat split; reflexivity.
Qed.

(** The method an INVALID_KE_PAYLOAD notify asks for. *)
Definition requested_method (data : chunk_t) : key_exchange_method_t :=
  if Nat.eqb (length data) 2 then untoh16 data else KE_NONE.

Lemma process_i_notify_invalid_ke_first (s : state) (data : chunk_t) (sa : child_sa_t) :
  aborted (this s) = false -> retry (this s) = false ->
  child_sa (this s) = Some sa ->
  runs (process_i_notify INVALID_KE_PAYLOAD data) s (fun r s' =>
    r = Some NEED_MORE /\
    retry (this s') = true /\ ke_method (this s') = requested_method data /\
    child_sa (this s') = None /\
    build (this s') = _build_i /\ process (this s') = _process_i /\
    message s' = message s /\
    trace s' = trace s ++ [EvSetState CHILD_RETRYING; EvDestroyChildSa]).
Proof.
  intros Ha Hr Hsa. unfold process_i_notify.
  change (is_child_error_notify INVALID_KE_PAYLOAD) with false.
  change (Z.eqb INVALID_KE_PAYLOAD TEMPORARY_FAILURE) with false.
  change (Z.eqb INVALID_KE_PAYLOAD INVALID_KE_PAYLOAD) with true.
  cbv iota. repeat runs_step. rewrite Ha, Hr. cbv iota.
  unfold migrate, clear_key_exchanges. repeat runs_step.
  apply runs_when; [intros _; repeat runs_step | intros Hf; discriminate Hf].
  apply runs_when;
    [intros Hb; cbn [negb] in Hb; rewrite andb_false_r in Hb; discriminate Hb | intros _].
  repeat runs_step. rewrite <- app_assoc. repeat split; reflexivity.
Qed.

Lemma process_i_notify_invalid_ke_again (s : state) (data : chunk_t) :
  aborted (this s) = false -> retry (this s) = true ->
  runs (process_i_notify INVALID_KE_PAYLOAD data) s (fun r s' =>
    r = Some SUCCESS /\ this s' = this s /\ message s' = message s /\
    trace s' =
    trace s ++
    [if bool_decide (exchange_type (message s) = IKE_AUTH) && close_ike_on_child_failure E
     then EvScheduleDeleteIkeSa 100
     else EvAlert ALERT_KEEP_ON_CHILD_SA_FAILURE]).
Proof.
  intros Ha Hr. unfold process_i_notify.
  change (is_child_error_notify INVALID_KE_PAYLOAD) with false.
  change (Z.eqb INVALID_KE_PAYLOAD TEMPORARY_FAILURE) with false.
  change (Z.eqb INVALID_KE_PAYLOAD INVALID_KE_PAYLOAD) with true.
  cbv iota. repeat runs_step. rewrite Ha, Hr. cbv iota.
  unfold handle_child_sa_failure, get_exchange_type. repeat runs_step.
  rewrite Ha. cbv iota. repeat runs_step.
  destruct (bool_decide (exchange_type (message s) = IKE_AUTH) &&
            close_ike_on_child_failure E); repeat runs_step; auto.
Qed.

Lemma process_i_notify_invalid_ke_aborted (s : state) (data : chunk_t) :
  aborted (this s) = true ->
  process_i_notify INVALID_KE_PAYLOAD data s = Some (Some SUCCESS, s).
Proof.
  intros Ha. unfold process_i_notify.
  change (is_child_error_notify INVALID_KE_PAYLOAD) with false.
  change (Z.eqb INVALID_KE_PAYLOAD TEMPORARY_FAILURE) with false.
  change (Z.eqb INVALID_KE_PAYLOAD INVALID_KE_PAYLOAD) with true.
  cbv iota. unfold bind, get_this, ret. rewrite Ha. reflexivity.
Qed.

(** [process_i] up to the notify the loop stops at. *)
Lemma process_i_at_notify (s s0 : state) (no_ke ike_auth : bool)
    (pre post : list payload_t) (type : notify_type_t) (data : chunk_t)
    (Q : status_t -> state -> Prop) :
  process_i_prologue s = Some (inr (no_ke, ike_auth), s0) ->
  payloads (message s) = pre ++ PLV2_NOTIFY type data :: post ->
  forallb (passed_over (exchange_type (message s))) pre = true ->
  runs (process_i_notify type data) s0 (fun r s' => exists st, r = Some st /\ Q st s') ->
  runs process_i s Q.
Proof.
  intros Hpro Hpl Hpre Hn.
  destruct (process_i_prologue_frame s _ _ Hpro) as (Hm & _).
  unfold process_i. apply runs_bind.
  eapply runs_mono; [apply runs_eq, Hpro|]. intros r s1 [-> ->].
  repeat runs_step. rewrite Hm, Hpl.
  eapply runs_same_run;
    [apply process_i_notifies_passed_over; rewrite Hm; exact Hpre|].
  simpl. apply runs_bind.
  eapply runs_mono; [exact Hn|]. intros r s' (st & -> & HQ).
  do 2 apply runs_ret. exact HQ.
Qed.

(** ** IPComp *)

Lemma bind_run {A B} (m : M A) (k : A -> M B) (s s' : state) (a : A) :
  m s = Some (a, s') -> bind m k s = k a s'.
Proof. intros H. unfold bind. by rewrite H. Qed.

(** What [handle_child_sa_failure] reports for a task that was not
    aborted. *)
Definition failure_event (m : message_t) : event :=
  if bool_decide (exchange_type m = IKE_AUTH) && close_ike_on_child_failure E
  then EvScheduleDeleteIkeSa 100
  else EvAlert ALERT_KEEP_ON_CHILD_SA_FAILURE.

(** Whether [delete_failed_sa] has an SPI to delete. *)
Definition spi_allocated (t : private_child_create_t) : bool :=
  negb (Z.eqb (my_spi t) 0) && negb (bool_decide (proto t = PROTO_NONE)).

(** The run [r] fails the CHILD_SA of the task in [s]: the failure is
    handled, and the CHILD_SA is destroyed and a delete is sent next if an
    SPI was allocated for it; nothing else happens. *)
Definition child_sa_failed (s : state) (r : option (status_t * state)) : Prop :=
  exists s',
    r = Some (if spi_allocated (this s) then NEED_MORE else SUCCESS, s') /\
    this s' = (if spi_allocated (this s)
               then upd_child_sa None (upd_build _build_i_delete (this s))
               else this s) /\
    message s' = message s /\
    events_since s s' =
      failure_event (message s) :: (if spi_allocated (this s) then [EvDestroyChildSa] else []).

Lemma fail_child_sa_runs (s : state) :
  aborted (this s) = false -> child_sa (this s) <> None ->
  exists s',
    (handle_child_sa_failure ;;; st <- delete_failed_sa ;; ret (Some st)) s =
      Some (Some (if spi_allocated (this s) then NEED_MORE else SUCCESS), s') /\
    this s' = (if spi_allocated (this s)
               then upd_child_sa None (upd_build _build_i_delete (this s))
               else this s) /\
    message s' = message s /\
    events_since s s' =
      failure_event (message s) :: (if spi_allocated (this s) then [EvDestroyChildSa] else []).
Proof.
  intros Ha Hsa. destruct (child_sa (this s)) as [sa|] eqn:Hsa'; [clear Hsa|contradiction].
  assert (H : runs (handle_child_sa_failure ;;; st <- delete_failed_sa ;; ret (Some st)) s
                (fun r s' =>
                   r = Some (if spi_allocated (this s) then NEED_MORE else SUCCESS) /\
                   this s' = (if spi_allocated (this s)
                              then upd_child_sa None (upd_build _build_i_delete (this s))
                              else this s) /\
                   message s' = message s /\
                   trace s' = trace s ++
                     failure_event (message s) ::
                     (if spi_allocated (this s) then [EvDestroyChildSa] else []))).
  { unfold handle_child_sa_failure, delete_failed_sa, get_exchange_type, failure_event,
      spi_allocated.
    repeat runs_step. rewrite Ha. cbv iota. repeat runs_step.
    destruct (bool_decide (exchange_type (message s) = IKE_AUTH) &&
              close_ike_on_child_failure E);
      repeat runs_step;
      destruct (negb (Z.eqb (my_spi (this s)) 0) &&
                negb (bool_decide (proto (this s) = PROTO_NONE)));
      repeat runs_step; rewrite <- ?app_assoc; auto. }
  destruct H as (r & s' & Hrun & -> & H1 & H2 & H3). exists s'.
  split; [exact Hrun|]. split; [exact H1|]. split; [exact H2|].
  unfold events_since. rewrite H3. by rewrite drop_app_length.
Qed.

(** [process_i] goes on after the selection of the proposal only if the
    task was not aborted. *)
Lemma process_i_select_not_aborted (no_ke : bool) (s : state) :
  wp (process_i_select no_ke) s (fun r s' => r = None -> aborted (this s') = false).
Proof.
  unfold process_i_select. apply wp_bind.
  eapply wp_mono; [intros ? ? _; exact I|]. intros _ s1 _. cbv beta.
  apply wp_bind. eapply wp_mono; [intros ? ? _; exact I|]. intros ok s2 _. cbv beta.
  destruct ok; cbn [negb]; cbv iota.
  - repeat wp_step.
    + eapply wp_mono; [intros ? ? _; exact I|]. intros st s3 _.
      apply wp_ret. discriminate.
    + intros _. assumption.
  - apply wp_bind. eapply wp_mono; [intros ? ? _; exact I|]. intros _ s3 _. cbv beta.
    apply wp_bind. eapply wp_mono; [intros ? ? _; exact I|]. intros st s4 _.
    apply wp_ret. discriminate.
Qed.

(** [process_i] from the check of the IPComp notifies on. *)
Lemma process_i_at_ipcomp (s s0 s1 s2 : state) (no_ke ike_auth : bool) :
  process_i_prologue s = Some (inr (no_ke, ike_auth), s0) ->
  process_i_notifies (payloads (message s0)) s0 = Some (None, s1) ->
  process_i_select no_ke s1 = Some (None, s2) ->
  process_i s =
  (r <- process_i_ipcomp ;;
   match r with
   | Some st => ret st
   | None => process_i_finish ike_auth
   end) s2.
Proof.
  intros Hpro Hnot Hsel. unfold process_i.
  rewrite (bind_run _ _ _ _ _ Hpro). cbv iota beta.
  unfold bind at 1. unfold get_message at 1. cbv iota beta.
  rewrite (bind_run _ _ _ _ _ Hnot). cbv iota beta.
  rewrite (bind_run _ _ _ _ _ Hsel). reflexivity.
Qed.

(** C8 (as amended).  Let [process_i] come to its check of the IPComp
    notifies, with a CHILD_SA.  The check compares the transform the task
    proposed ([ipcomp]) with the transform it recorded from the response
    ([ipcomp_received]).  If the task proposed none and recorded one, or
    proposed one and recorded a different one, [process_i] fails the
    CHILD_SA.  If the task proposed one and recorded none, IPComp is
    disabled and [process_i] goes on with the check of the key exchange
    method; if both are the same it goes on with the task unchanged.  A
    received IPCOMP_SUPPORTED notify is recorded, with its CPI, only if its
    transform is DEFLATE: one with another transform changes nothing, so the
    task counts it as no notify at all. *)
Theorem process_i_ipcomp_check (s s0 s1 s2 : state) (no_ke ike_auth : bool) :
  process_i_prologue s = Some (inr (no_ke, ike_auth), s0) ->
  process_i_notifies (payloads (message s0)) s0 = Some (None, s1) ->
  process_i_select no_ke s1 = Some (None, s2) ->
  child_sa (this s2) <> None ->
  (ipcomp (this s2) = IPCOMP_NONE -> ipcomp_received (this s2) <> IPCOMP_NONE ->
   child_sa_failed s2 (process_i s)) /\
  (ipcomp (this s2) <> IPCOMP_NONE -> ipcomp_received (this s2) <> IPCOMP_NONE ->
   ipcomp (this s2) <> ipcomp_received (this s2) ->
   child_sa_failed s2 (process_i s)) /\
  (ipcomp (this s2) <> IPCOMP_NONE -> ipcomp_received (this s2) = IPCOMP_NONE ->
   process_i s =
   process_i_finish ike_auth
     {| this := upd_ipcomp IPCOMP_NONE (this s2); message := message s2;
        trace := trace s2 |}) /\
  (ipcomp (this s2) = ipcomp_received (this s2) ->
   process_i s = process_i_finish ike_auth s2) /\
  (forall (b0 b1 b2 : byte) (rest : chunk_t) (st : state),
     handle_notify IPCOMP_SUPPORTED (b0 :: b1 :: b2 :: rest) st =
     Some (tt,
           if Z.eqb (Z_of_byte b2) IPCOMP_DEFLATE
           then {| this := upd_ipcomp_received IPCOMP_DEFLATE
                             (upd_other_cpi (untoh16 [b0; b1]) (this st));
                   message := message st; trace := trace st |}
           else st)).
Proof.
  intros Hpro Hnot Hsel Hsa.
  pose proof (process_i_select_not_aborted no_ke s1 _ _ Hsel eq_refl) as Ha.
  rewrite (process_i_at_ipcomp s s0 s1 s2 no_ke ike_auth Hpro Hnot Hsel).
  destruct (fail_child_sa_runs s2 Ha Hsa) as (s' & Hrun & H1 & H2 & H3).
  assert (Hcheck : process_i_ipcomp s2 =
                   (if (ipcomp (this s2) =? IPCOMP_NONE) &&
                       negb (ipcomp_received (this s2) =? IPCOMP_NONE)
                    then handle_child_sa_failure ;;; st <- delete_failed_sa ;; ret (Some st)
                    else if negb (ipcomp (this s2) =? IPCOMP_NONE) &&
                            (ipcomp_received (this s2) =? IPCOMP_NONE)
                    then set (upd_ipcomp IPCOMP_NONE) ;;; ret None
                    else if negb (ipcomp (this s2) =? IPCOMP_NONE) &&
                            negb (ipcomp (this s2) =? ipcomp_received (this s2))
                    then handle_child_sa_failure ;;; st <- delete_failed_sa ;; ret (Some st)
                    else ret None) s2) by reflexivity.
  repeat split.
  - intros Hi Hr. unfold bind at 1. rewrite Hcheck.
    apply Z.eqb_neq in Hr. rewrite Hi, Hr.
    change (IPCOMP_NONE =? IPCOMP_NONE) with true. cbn [negb andb]. cbv iota.
    rewrite Hrun. exists s'. auto.
  - intros Hi Hr Hd. unfold bind at 1. rewrite Hcheck.
    apply Z.eqb_neq in Hi, Hr, Hd. rewrite Hi, Hr, Hd.
    cbn [negb andb]. cbv iota. rewrite Hrun. exists s'. auto.
  - intros Hi Hr. unfold bind at 1. rewrite Hcheck.
    apply Z.eqb_neq in Hi. rewrite Hi, Hr.
    change (IPCOMP_NONE =? IPCOMP_NONE) with true. cbn [negb andb]. cbv iota.
    reflexivity.
  - intros Hi. unfold bind at 1. rewrite Hcheck. rewrite <- Hi, Z.eqb_refl.
    destruct (ipcomp (this s2) =? IPCOMP_NONE); cbn [negb andb]; cbv iota; reflexivity.
  - intros b0 b1 b2 rest st. unfold handle_notify.
    change (IPCOMP_SUPPORTED =? USE_TRANSPORT_MODE) with false.
    change (IPCOMP_SUPPORTED =? USE_BEET_MODE) with false.
    change (IPCOMP_SUPPORTED =? IPCOMP_SUPPORTED) with true. cbv iota zeta.
    destruct (Z_of_byte b2 =? IPCOMP_DEFLATE) eqn:Hb.
    + apply Z.eqb_eq in Hb. rewrite Hb. reflexivity.
    + by destruct st.
Qed.

(** ** An unacceptable key exchange method *)

Lemma Z_of_byte_of_Z (z : Z) : Z_of_byte (byte_of_Z z) = z mod 256.
Proof.
  unfold Z_of_byte, byte_of_Z.
  assert (Hz : 0 <= z mod 256 < 256) by (apply Z.mod_pos_bound; lia).
  destruct (Byte.of_N (Z.to_N (z mod 256))) as [b|] eqn:Hb; simpl.
  - apply Byte.to_of_N in Hb. rewrite Hb. lia.
  - apply Byte.of_N_None_iff in Hb. lia.
Qed.

(** [chunk_from_htons] writes a 16-bit number with its high byte first, so
    reading the chunk as a big-endian number gives the number back. *)
Lemma untoh16_chunk_from_htons (v : Z) :
  0 <= v < 65536 -> untoh16 (chunk_from_htons v) = v.
Proof.
  intros Hv. unfold untoh16, chunk_from_htons. rewrite !Z_of_byte_of_Z.
  change 255 with (Z.ones 8). rewrite Z.land_ones by lia.
  rewrite Z.shiftr_div_pow2 by lia. change 256 with (2 ^ 8).
  rewrite Z.mod_mod by lia.
  rewrite (Z.mod_small (v / 2 ^ 8))
    by (split; [apply Z.div_pos; lia | apply Z.div_lt_upper_bound; lia]).
  apply Z.bits_inj'. intros n Hn. rewrite Z.lor_spec, Z.shiftl_spec by lia.
  destruct (Z.ltb_spec n 8).
  - rewrite Z.testbit_neg_r by lia. rewrite Z.mod_pow2_bits_low by lia. reflexivity.
  - rewrite Z.mod_pow2_bits_high by lia. rewrite orb_false_r.
    rewrite Z.div_pow2_bits by lia. f_equal. lia.
Qed.

Lemma check_ke_method_r_unacceptable (s : state) (p : proposal_t)
    (alg : key_exchange_method_t) :
  proposal (this s) = Some p ->
  has_transform p KEY_EXCHANGE_METHOD (ke_method (this s)) = false ->
  get_algorithm p KEY_EXCHANGE_METHOD = Some alg ->
  check_ke_method_r s =
  Some (false,
        {| this := this s;
           message := add_notify (message s) false INVALID_KE_PAYLOAD (chunk_from_htons alg);
           trace := trace s |}).
Proof.
  intros Hp Hh Hg.
  assert (H : runs check_ke_method_r s (fun r s' =>
                r = false /\
                s' = {| this := this s;
                        message := add_notify (message s) false INVALID_KE_PAYLOAD
                                     (chunk_from_htons alg);
                        trace := trace s |})).
  { unfold check_ke_method_r, check_ke_method. repeat runs_step.
    rewrite Hh. cbn [negb]. cbv iota. rewrite Hg. repeat runs_step.
    cbn [fst snd negb]. cbv iota. repeat runs_step. auto. }
  destruct H as (r & s' & Hrun & -> & ->). exact Hrun.
Qed.

(** C9.  When [build_r] has selected a proposal that does not have the key
    exchange method of the peer's KE payload but has some key exchange
    method, it adds an INVALID_KE_PAYLOAD notify to the response, whose data
    is that method of the proposal as two bytes, high byte first (read as a
    big-endian number they give the method back), and returns SUCCESS; the
    task is left as it was after the selection and nothing is reported or
    scheduled: the failure of the CHILD_SA is not handled, so no delete of
    the IKE_SA is scheduled. *)
Theorem build_r_invalid_ke_payload (s s0 s1 : state) (no_ke ike_auth : bool)
    (p : proposal_t) (alg : key_exchange_method_t) :
  build_r_prologue s = Some (inr (no_ke, ike_auth), s0) ->
  build_r_select no_ke s0 = Some (None, s1) ->
  proposal (this s1) = Some p ->
  has_transform p KEY_EXCHANGE_METHOD (ke_method (this s1)) = false ->
  get_algorithm p KEY_EXCHANGE_METHOD = Some alg ->
  exists s',
    build_r s = Some (SUCCESS, s') /\
    this s' = this s1 /\
    exchange_type (message s') = exchange_type (message s1) /\
    payloads (message s') =
      payloads (message s1) ++ [PLV2_NOTIFY INVALID_KE_PAYLOAD (chunk_from_htons alg)] /\
    events_since s1 s' = [] /\
    length (chunk_from_htons alg) = 2%nat /\
    (0 <= alg < 65536 -> untoh16 (chunk_from_htons alg) = alg).
Proof.
  intros Hpro Hsel Hp Hh Hg.
  eexists. split.
  - unfold build_r. rewrite (bind_run _ _ _ _ _ Hpro). cbv iota beta.
    rewrite (bind_run _ _ _ _ _ Hsel). cbv iota beta.
    unfold build_r_negotiate.
    rewrite (bind_run _ _ _ _ _ (check_ke_method_r_unacceptable s1 p alg Hp Hh Hg)).
    reflexivity.
  - cbn [this message trace]. repeat split.
    + unfold events_since. cbn [trace]. apply drop_all.
    + apply untoh16_chunk_from_htons.
Qed.

(** ** The link between the exchanges of one negotiation *)

(** Whether the message carries, in an ADDITIONAL_KEY_EXCHANGE notify, the
    link the task holds. *)
Definition carries_link (t : private_child_create_t) (m : message_t) : bool :=
  match get_notify (payloads m) ADDITIONAL_KEY_EXCHANGE with
  | Some data => chunk_equals_const (link t) data
  | None => false
  end.

(** The notify with which [build_r_multi_ke] rejects a follow-up: the checks
    of the KE payload come before that of the link. *)
Definition rejection (t : private_child_create_t) : notify_type_t :=
  if negb (non_null (ke t)) then INVALID_SYNTAX
  else if ke_failed t then NO_PROPOSAL_CHOSEN
  else STATE_NOT_FOUND.

Lemma in_add_payload (m : message_t) (p q : payload_t) :
  In p (payloads m) -> In p (payloads (add_payload m q)).
Proof. intros H. unfold add_payload. cbn [payloads]. apply in_or_app. by left. Qed.

Lemma in_add_notify (m : message_t) (p : payload_t) (type : notify_type_t) (data : chunk_t) :
  In p (payloads m) -> In p (payloads (add_notify m false type data)).
Proof. intros H. unfold add_notify. cbn [payloads]. apply in_or_app. by left. Qed.

Lemma in_add_notify_here (m : message_t) (flush : bool) (type : notify_type_t)
    (data : chunk_t) :
  In (PLV2_NOTIFY type data) (payloads (add_notify m flush type data)).
Proof. unfold add_notify. cbn [payloads]. apply in_or_app. right. by left. Qed.

#[local] Hint Resolve in_add_payload in_add_notify in_add_notify_here : core.

(** [build_payloads] leaves the task alone and, where it succeeds, has put
    the link of the task in the message. *)
Lemma build_payloads_link (s : state) :
  wp build_payloads s (fun ok s' =>
    this s' = this s /\
    (ok = true -> chunk_ptr (link (this s)) = true ->
     In (PLV2_NOTIFY ADDITIONAL_KEY_EXCHANGE (link (this s))) (payloads (message s')))).
Proof.
  unfold build_payloads, build_payloads_multi_ke, add_ke_payload, get_exchange_type.
  repeat wp_step; split; try reflexivity; try discriminate; intros _ Hl;
    try congruence; auto 20.
Qed.


Lemma key_exchange_done_frame (s : state) :
  wp key_exchange_done s (fun _ s' =>
    link (this s') = link (this s) /\ message s' = message s).
Proof. unfold key_exchange_done. repeat wp_step; auto. Qed.

(** When [key_exchange_done_and_install_r] reports that key exchanges are
    left to do, the task has a link, the byte 0x42 if it had none, and the
    link is in the message. *)
Lemma key_exchange_done_and_install_r_link (ike_auth : bool) (s : state) :
  wp (key_exchange_done_and_install_r ike_auth) s (fun all_done s' =>
    all_done = false ->
    link (this s') = (if chunk_ptr (link (this s)) then link (this s) else [x42]) /\
    In (PLV2_NOTIFY ADDITIONAL_KEY_EXCHANGE (link (this s'))) (payloads (message s'))).
Proof.
  unfold key_exchange_done_and_install_r. apply wp_bind.
  eapply wp_mono; [apply key_exchange_done_frame|]. intros all_done s1 (Hl & _). cbv beta.
  destruct all_done.
  - (* all key exchanges are done: the result is never FALSE *)
    apply wp_bind. apply wp_get_this. cbv beta iota. apply wp_bind. apply wp_set.
    apply wp_bind.
    eapply wp_mono; [intros ? ? _; exact I|]. intros ok s2 _. cbv beta.
    destruct ok; cbn [negb]; cbv iota.
    + apply wp_bind. eapply wp_mono; [intros ? ? _; exact I|]. intros st s3 _. cbv beta.
      destruct st; unfold handle_child_sa_failure; repeat wp_step; discriminate.
    + unfold handle_child_sa_failure. repeat wp_step; discriminate.
  - apply wp_bind. apply wp_get_this. cbv beta. apply wp_bind.
    assert (Hset : forall (Q : unit -> state -> Prop),
               (forall s2, link (this s2) =
                           (if chunk_ptr (link (this s)) then link (this s) else [x42]) ->
                           Q tt s2) ->
               wp (when (negb (chunk_ptr (link (this s1)))) (set (upd_link (chunk_clone [x42]))))
                 s1 Q).
    { intros Q HQ. rewrite Hl. apply wp_when; intros Hb.
      - apply wp_set. apply HQ. fields. apply negb_true_iff in Hb. by rewrite Hb.
      - apply HQ. apply negb_false_iff in Hb. by rewrite Hl, Hb. }
    apply Hset. intros s2 Hl2. apply wp_bind.
    eapply wp_mono; [apply build_payloads_link|]. intros ok s3 (Ht & Hin). cbv beta.
    assert (Hptr : chunk_ptr (link (this s2)) = true).
    { rewrite Hl2. by destruct (chunk_ptr (link (this s))) eqn:Hc. }
    destruct ok; cbn [negb]; cbv iota.
    + apply wp_ret. intros _. rewrite Ht. split; [exact Hl2|]. auto.
    + unfold handle_child_sa_failure. repeat wp_step; discriminate.
Qed.


Ltac runs_branch :=
  lazymatch goal with
  | |- runs (match ?x with _ => _ end) _ _ =>
      first
        [ match goal with H : x = _ |- _ => rewrite H end
        | let Hx := fresh "Hx" in destruct x eqn:Hx ]
  | |- runs (when ?b _) _ _ => apply runs_when; intros ?
  end; cbv beta iota; fields.

Lemma process_ke_payload_runs (received : key_exchange_method_t) (data : chunk_t)
    (s : state) :
  initiator (this s) = false ->
  (ke_index (this s) < length (key_exchanges (this s)))%nat ->
  runs (process_ke_payload received data) s (fun _ s' =>
    link (this s') = link (this s) /\ initiator (this s') = false /\
    message s' = message s /\ trace s' = trace s).
Proof.
  intros Hi Hlt. apply lookup_lt_is_Some in Hlt as [slot Hslot].
  unfold process_ke_payload. repeat runs_step.
  repeat (runs_step || runs_branch); auto.
Qed.

Lemma process_link_responder (s : state) :
  initiator (this s) = false ->
  runs process_link s (fun _ s' =>
    link (this s') =
      (if carries_link (this s) (message s) then link (this s) else chunk_empty) /\
    trace s' = trace s).
Proof.
  intros Hi. unfold process_link, carries_link. repeat runs_step.
  destruct (get_notify (payloads (message s)) ADDITIONAL_KEY_EXCHANGE) as [data|].
  - rewrite Hi. cbv iota.
    destruct (chunk_equals_const (link (this s)) data); cbn [negb]; cbv iota;
      repeat runs_step; auto.
  - repeat runs_step. auto.
Qed.

Lemma process_r_multi_ke_link (s : state) :
  initiator (this s) = false ->
  exchange_type (message s) = IKE_FOLLOWUP_KE ->
  (ke_index (this s) < length (key_exchanges (this s)))%nat ->
  runs process_r_multi_ke s (fun st s' =>
    st = NEED_MORE /\
    link (this s') =
      (if carries_link (this s) (message s) then link (this s) else chunk_empty) /\
    trace s' = trace s).
Proof.
  intros Hi Hx Hlt. unfold process_r_multi_ke, get_exchange_type. repeat runs_step.
  rewrite Hx. rewrite bool_decide_true by reflexivity. cbn [when].
  unfold process_payloads_multi_ke. repeat runs_step.
  assert (Hke : runs (match get_ke_payload (payloads (message s)) with
                      | Some (method, data) => process_ke_payload method data
                      | None => set (upd_ke_failed true)
                      end) s
                  (fun _ s' =>
                     link (this s') = link (this s) /\ initiator (this s') = false /\
                     message s' = message s /\ trace s' = trace s)).
  { destruct (get_ke_payload (payloads (message s))) as [[method data]|].
    - by apply process_ke_payload_runs.
    - repeat runs_step. auto. }
  eapply runs_mono; [exact Hke|]. intros _ s1 (Hl & Hi1 & Hm & Ht). cbv beta.
  eapply runs_mono; [apply process_link_responder, Hi1|].
  intros _ s2 (Hl2 & Ht2). cbv beta. apply runs_ret.
  unfold carries_link in *. rewrite Hl2, Hl, Hm, Ht2, Ht. auto.
Qed.

Lemma build_r_multi_ke_rejects (s : state) :
  chunk_ptr (link (this s)) = false ->
  build_r_multi_ke s =
  Some (SUCCESS,
        {| this := this s;
           message := add_notify (message s) false (rejection (this s)) chunk_empty;
           trace := trace s ++
                    (if aborted (this s) then [] else [failure_event (message s)]) |}).
Proof.
  intros Hl.
  assert (H : runs build_r_multi_ke s (fun st s' =>
                st = SUCCESS /\
                s' = {| this := this s;
                        message := add_notify (message s) false (rejection (this s))
                                     chunk_empty;
                        trace := trace s ++
                                 (if aborted (this s) then []
                                  else [failure_event (message s)]) |})).
  { unfold build_r_multi_ke, rejection, handle_child_sa_failure, failure_event,
      get_exchange_type.
    repeat runs_step. rewrite Hl. cbn [negb].
    destruct (negb (non_null (ke (this s)))); cbv iota;
      [|destruct (ke_failed (this s)); cbv iota];
      repeat runs_step;
      (destruct (aborted (this s)); cbv iota;
       [repeat runs_step; rewrite app_nil_r; split; [reflexivity|]; by destruct s
       |repeat runs_step; cbn [add_notify exchange_type];
        destruct (bool_decide (exchange_type (message s) = IKE_AUTH) &&
                  close_ike_on_child_failure E); repeat runs_step; auto]). }
  destruct H as (st & s' & Hrun & -> & ->). exact Hrun.
Qed.

Lemma build_r_multi_ke_continues (s : state) :
  ke (this s) <> None -> ke_failed (this s) = false ->
  chunk_ptr (link (this s)) = true ->
  build_r_multi_ke s =
  (done <- key_exchange_done_and_install_r false ;;
   if negb done then ret NEED_MORE else ret SUCCESS) s.
Proof.
  intros Hke Hf Hl. unfold build_r_multi_ke.
  change (bind get_this ?k s) with (k (this s) s). cbv beta.
  destruct (ke (this s)); [|contradiction]. rewrite Hf, Hl. reflexivity.
Qed.


(** C7 (as amended).  A responder that processes an IKE_FOLLOWUP_KE message
    keeps its link only if the message carries, in an
    ADDITIONAL_KEY_EXCHANGE notify, exactly the bytes of the link (and the
    link is not empty); if the notify is missing or its data differs the
    link is dropped.  [build_r_multi_ke] then rejects the follow-up: it adds
    one notify to the response, handles the failure of the CHILD_SA (unless
    the task was aborted) and returns SUCCESS.  The notify is
    STATE_NOT_FOUND only if the follow-up had an acceptable KE payload: with
    no key exchange object the notify is INVALID_SYNTAX, and after a failed
    key exchange it is NO_PROPOSAL_CHOSEN, as these are checked first.  With
    the link kept and the KE payload accepted, [build_r_multi_ke] goes on
    with the key exchange.  And whenever
    [key_exchange_done_and_install_r] reports that key exchanges are left to
    do, the task has a link, the single byte 0x42 if it had none before, and
    the response carries it in an ADDITIONAL_KEY_EXCHANGE notify. *)
Theorem responder_link (s : state) (resp : message_t) :
  initiator (this s) = false ->
  exchange_type (message s) = IKE_FOLLOWUP_KE ->
  (ke_index (this s) < length (key_exchanges (this s)))%nat ->
  exists s1,
    process_r_multi_ke s = Some (NEED_MORE, s1) /\
    trace s1 = trace s /\
    link (this s1) =
      (if carries_link (this s) (message s) then link (this s) else chunk_empty) /\
    (carries_link (this s) (message s) = false ->
     build_r_multi_ke {| this := this s1; message := resp; trace := trace s1 |} =
     Some (SUCCESS,
           {| this := this s1;
              message := add_notify resp false (rejection (this s1)) chunk_empty;
              trace := trace s1 ++
                       (if aborted (this s1) then [] else [failure_event resp]) |})) /\
    (carries_link (this s) (message s) = true ->
     ke (this s1) <> None -> ke_failed (this s1) = false ->
     build_r_multi_ke {| this := this s1; message := resp; trace := trace s1 |} =
     (done <- key_exchange_done_and_install_r false ;;
      if negb done then ret NEED_MORE else ret SUCCESS)
       {| this := this s1; message := resp; trace := trace s1 |}) /\
    (forall (ike_auth : bool) (sa sa' : state),
       key_exchange_done_and_install_r ike_auth sa = Some (false, sa') ->
       link (this sa') = (if chunk_ptr (link (this sa)) then link (this sa) else [x42]) /\
       In (PLV2_NOTIFY ADDITIONAL_KEY_EXCHANGE (link (this sa'))) (payloads (message sa'))).
Proof.
  intros Hi Hx Hlt.
  destruct (process_r_multi_ke_link s Hi Hx Hlt) as (st & s1 & Hrun & -> & Hl & Ht).
  exists s1. split; [exact Hrun|]. split; [exact Ht|]. split; [exact Hl|].
  split; [|split].
  - intros Hc. rewrite Hc in Hl.
    apply (build_r_multi_ke_rejects {| this := this s1; message := resp; trace := trace s1 |}).
    cbn [this]. by rewrite Hl.
  - intros Hc Hke Hf. rewrite Hc in Hl.
    apply (build_r_multi_ke_continues
             {| this := this s1; message := resp; trace := trace s1 |}); cbn [this]; auto.
    rewrite Hl. unfold carries_link, chunk_equals_const in Hc.
    destruct (get_notify (payloads (message s)) ADDITIONAL_KEY_EXCHANGE); [|discriminate].
    by destruct (chunk_ptr (link (this s))).
  - intros ike_auth sa sa' Hdone.
    exact (key_exchange_done_and_install_r_link ike_auth sa false sa' Hdone eq_refl).
Qed.

(** ** Frames: what a run leaves alone *)

(** [frame R m]: every run of [m] that returns takes a state to one that is
    [R]-related to it. *)
Definition frame (R : relation state) {A} (m : M A) : Prop :=
  forall s a s', m s = Some (a, s') -> R s s'.

Section frames.

Context (R : relation state) `{!PreOrder R}.

Lemma frame_ret {A} (a : A) : frame R (ret a).
Proof. intros s a' s' [= _ <-]. reflexivity. Qed.

Lemma frame_crash {A} : frame R (@crash A).
Proof. intros s a s' [=]. Qed.

Lemma frame_bind {A B} (m : M A) (f : A -> M B) :
  frame R m -> (forall a, frame R (f a)) -> frame R (bind m f).
Proof.
  intros Hm Hf s b s'. unfold bind.
  destruct (m s) as [[a s1]|] eqn:H1; [|discriminate].
  intros H2. etransitivity; [eapply Hm | eapply Hf]; eauto.
Qed.

Lemma frame_deref {A} (o : option A) : frame R (deref o).
Proof. destruct o; [apply frame_ret | apply frame_crash]. Qed.

Lemma frame_get_this : frame R get_this.
Proof. intros s a s' [= _ <-]. reflexivity. Qed.

Lemma frame_get_message : frame R get_message.
Proof. intros s a s' [= _ <-]. reflexivity. Qed.

Lemma frame_set f :
  (forall s, R s {| this := f (this s); message := message s; trace := trace s |}) ->
  frame R (set f).
Proof. intros H s a s' [= _ <-]. apply H. Qed.

Lemma frame_set_message f :
  (forall s, R s {| this := this s; message := f (message s); trace := trace s |}) ->
  frame R (set_message f).
Proof. intros H s a s' [= _ <-]. apply H. Qed.

Lemma frame_emit e :
  (forall s, R s {| this := this s; message := message s; trace := trace s ++ [e] |}) ->
  frame R (emit e).
Proof. intros H s a s' [= _ <-]. apply H. Qed.

Lemma frame_when b m : frame R m -> frame R (when b m).
Proof. intros Hm. destruct b; [exact Hm | apply frame_ret]. Qed.

Lemma frame_for_each {A} (f : A -> M unit) (l : list A) :
  (forall x, frame R (f x)) -> frame R (for_each f l).
Proof.
  intros Hf. induction l as [|x l IH]; simpl.
  - apply frame_ret.
  - apply frame_bind; auto.
Qed.

(** A method run on another task leaves this one alone. *)
Lemma frame_on_task {A} t (m : M A) :
  (forall s s', this s' = this s -> R s s') -> frame R (on_task t m).
Proof.
  intros H s a s'. unfold on_task.
  destruct (m _) as [[a1 s1]|]; [|discriminate].
  intros [= _ <-]. by apply H.
Qed.

End frames.

Create HintDb frames discriminated.

(** One step of a frame proof; [leaf] proves that a setter or an event
    respects the relation. *)
Ltac frame_step leaf :=
  first
    [ solve [auto with frames]
    | match goal with
      | |- frame ?R (ret _) => apply (frame_ret R)
      | |- frame ?R crash => apply (frame_crash R)
      | |- frame ?R (deref _) => apply (frame_deref R)
      | |- frame ?R get_this => apply (frame_get_this R)
      | |- frame ?R get_message => apply (frame_get_message R)
      | |- frame ?R (bind _ _) => apply (frame_bind R); [|intros ?]
      | |- frame ?R (when _ _) => apply (frame_when R)
      | |- frame ?R (set _) => apply (frame_set R); solve [leaf]
      | |- frame ?R (set_message _) => apply (frame_set_message R); solve [leaf]
      | |- frame ?R (emit _) => apply (frame_emit R); solve [leaf]
      | |- frame ?R (on_task _ _) => apply (frame_on_task R); solve [leaf]
      | |- frame ?R (for_each _ _) => apply (frame_for_each R); intros ?; cbv beta
      | |- frame _ (let _ := _ in _) => cbv zeta
      | |- frame _ (match ?x with _ => _ end) => destruct x
      end ].

(** ** What only the caller of a task changes *)

(** The abort flag, the reqid, the marks and the interface IDs the task was
    given, and the selectors of the packet that triggered it. *)
Definition steady (s s' : state) : Prop :=
  aborted (this s') = aborted (this s) /\
  reqid (child (this s')) = reqid (child (this s)) /\
  mark_in (child (this s')) = mark_in (child (this s)) /\
  mark_out (child (this s')) = mark_out (child (this s)) /\
  if_id_in (child (this s')) = if_id_in (child (this s)) /\
  if_id_out (child (this s')) = if_id_out (child (this s)) /\
  packet_tsi (this s') = packet_tsi (this s) /\
  packet_tsr (this s') = packet_tsr (this s).

#[local] Instance steady_preorder : PreOrder steady.
Proof.
  split.
  - intros s. unfold steady. auto 10.
  - intros s1 s2 s3 (A1 & A2 & A3 & A4 & A5 & A6 & A7 & A8)
      (B1 & B2 & B3 & B4 & B5 & B6 & B7 & B8).
    unfold steady. repeat split; congruence.
Qed.

Ltac steady_leaf :=
  intros; unfold steady, upd_in_child in *; fields;
  repeat split; try reflexivity; congruence.

Ltac frames_steady := repeat (frame_step steady_leaf).

Lemma upd_sa_steady f : frame steady (upd_sa f).
Proof. unfold upd_sa. frames_steady. Qed.
#[local] Hint Resolve upd_sa_steady : frames.

Lemma set_state_steady st : frame steady (set_state st).
Proof. unfold set_state. frames_steady. Qed.
#[local] Hint Resolve set_state_steady : frames.

Lemma use_label_steady l : frame steady (use_label l).
Proof. unfold use_label. frames_steady. Qed.
#[local] Hint Resolve use_label_steady : frames.

Lemma use_ke_method_steady m : frame steady (use_ke_method m).
Proof. unfold use_ke_method. frames_steady. Qed.
#[local] Hint Resolve use_ke_method_steady : frames.

Lemma set_config_steady c : frame steady (set_config c).
Proof. unfold set_config. frames_steady. Qed.
#[local] Hint Resolve set_config_steady : frames.

Lemma schedule_delayed_retry_steady : frame steady schedule_delayed_retry.
Proof. unfold schedule_delayed_retry. frames_steady. Qed.
#[local] Hint Resolve schedule_delayed_retry_steady : frames.

Lemma get_nonce_steady store :
  (forall n s, steady s {| this := store n (this s); message := message s;
                           trace := trace s |}) ->
  frame steady (get_nonce store).
Proof.
  intros H. unfold get_nonce.
  repeat (frame_step ltac:(first [apply H | steady_leaf])).
Qed.

Lemma get_nonce_my_steady : frame steady (get_nonce upd_my_nonce).
Proof. apply get_nonce_steady. steady_leaf. Qed.

Lemma get_nonce_other_steady : frame steady (get_nonce upd_other_nonce).
Proof. apply get_nonce_steady. steady_leaf. Qed.
#[local] Hint Resolve get_nonce_my_steady get_nonce_other_steady : frames.

Lemma generate_nonce_steady : frame steady generate_nonce.
Proof. unfold generate_nonce. frames_steady. Qed.
#[local] Hint Resolve generate_nonce_steady : frames.

Lemma allocate_spi_steady : frame steady allocate_spi.
Proof. unfold allocate_spi. frames_steady. Qed.
#[local] Hint Resolve allocate_spi_steady : frames.

Lemma update_and_check_proposals_steady : frame steady update_and_check_proposals.
Proof. unfold update_and_check_proposals. frames_steady. Qed.
#[local] Hint Resolve update_and_check_proposals_steady : frames.

Lemma schedule_inactivity_timeout_steady : frame steady schedule_inactivity_timeout.
Proof. unfold schedule_inactivity_timeout. frames_steady. Qed.
#[local] Hint Resolve schedule_inactivity_timeout_steady : frames.

Lemma narrow_ts_steady t c l i : frame steady (narrow_ts t c l i).
Proof. unfold narrow_ts. frames_steady. Qed.
#[local] Hint Resolve narrow_ts_steady : frames.

Lemma check_mode_steady i r : frame steady (check_mode i r).
Proof. unfold check_mode. frames_steady. Qed.
#[local] Hint Resolve check_mode_steady : frames.

Lemma narrow_and_check_ts_steady a : frame steady (narrow_and_check_ts a).
Proof. unfold narrow_and_check_ts. frames_steady. Qed.
#[local] Hint Resolve narrow_and_check_ts_steady : frames.

Lemma install_sa_steady e i s c b : frame steady (install_sa e i s c b).
Proof. unfold install_sa. frames_steady. Qed.
#[local] Hint Resolve install_sa_steady : frames.

Lemma register_outbound_sa_steady e i s c : frame steady (register_outbound_sa e i s c).
Proof. unfold register_outbound_sa. frames_steady. Qed.
#[local] Hint Resolve register_outbound_sa_steady : frames.

Lemma install_child_sa_steady : frame steady install_child_sa.
Proof. unfold install_child_sa. frames_steady. Qed.
#[local] Hint Resolve install_child_sa_steady : frames.

Lemma select_proposal_steady b : frame steady (select_proposal b).
Proof. unfold select_proposal. frames_steady. Qed.
#[local] Hint Resolve select_proposal_steady : frames.

Lemma add_ke_payload_steady : frame steady add_ke_payload.
Proof. unfold add_ke_payload. frames_steady. Qed.
#[local] Hint Resolve add_ke_payload_steady : frames.

Lemma build_payloads_multi_ke_steady : frame steady build_payloads_multi_ke.
Proof. unfold build_payloads_multi_ke. frames_steady. Qed.
#[local] Hint Resolve build_payloads_multi_ke_steady : frames.

Lemma build_payloads_steady : frame steady build_payloads.
Proof. unfold build_payloads. frames_steady. Qed.
#[local] Hint Resolve build_payloads_steady : frames.

Lemma add_ipcomp_notify_steady i : frame steady (add_ipcomp_notify i).
Proof. unfold add_ipcomp_notify. frames_steady. Qed.
#[local] Hint Resolve add_ipcomp_notify_steady : frames.

Lemma handle_notify_steady ty d : frame steady (handle_notify ty d).
Proof. unfold handle_notify. frames_steady. Qed.
#[local] Hint Resolve handle_notify_steady : frames.

Lemma determine_key_exchanges_steady : frame steady determine_key_exchanges.
Proof. unfold determine_key_exchanges. frames_steady. Qed.
#[local] Hint Resolve determine_key_exchanges_steady : frames.

Lemma clear_key_exchanges_steady : frame steady clear_key_exchanges.
Proof. unfold clear_key_exchanges. frames_steady. Qed.
#[local] Hint Resolve clear_key_exchanges_steady : frames.

Lemma process_ke_payload_steady m d : frame steady (process_ke_payload m d).
Proof. unfold process_ke_payload. frames_steady. Qed.
#[local] Hint Resolve process_ke_payload_steady : frames.

Lemma check_ke_method_steady : frame steady check_ke_method.
Proof. unfold check_ke_method. frames_steady. Qed.
#[local] Hint Resolve check_ke_method_steady : frames.

Lemma check_ke_method_r_steady : frame steady check_ke_method_r.
Proof. unfold check_ke_method_r. frames_steady. Qed.
#[local] Hint Resolve check_ke_method_r_steady : frames.

Lemma process_payloads_steady : frame steady process_payloads.
Proof. unfold process_payloads. frames_steady. Qed.
#[local] Hint Resolve process_payloads_steady : frames.

Lemma generic_label_only_steady : frame steady generic_label_only.
Proof. unfold generic_label_only. frames_steady. Qed.
#[local] Hint Resolve generic_label_only_steady : frames.

Lemma defer_child_sa_steady : frame steady defer_child_sa.
Proof. unfold defer_child_sa. frames_steady. Qed.
#[local] Hint Resolve defer_child_sa_steady : frames.

Lemma check_for_duplicate_steady : frame steady check_for_duplicate.
Proof. unfold check_for_duplicate. frames_steady. Qed.
#[local] Hint Resolve check_for_duplicate_steady : frames.

Lemma check_for_generic_label_steady : frame steady check_for_generic_label.
Proof. unfold check_for_generic_label. frames_steady. Qed.
#[local] Hint Resolve check_for_generic_label_steady : frames.

Lemma build_i_multi_ke_steady : frame steady build_i_multi_ke.
Proof. unfold build_i_multi_ke. frames_steady. Qed.
#[local] Hint Resolve build_i_multi_ke_steady : frames.

Lemma build_i_prologue_steady : frame steady build_i_prologue.
Proof. unfold build_i_prologue. frames_steady. Qed.
#[local] Hint Resolve build_i_prologue_steady : frames.

Lemma build_i_child_sa_steady b : frame steady (build_i_child_sa b).
Proof. unfold build_i_child_sa. frames_steady. Qed.
#[local] Hint Resolve build_i_child_sa_steady : frames.

Lemma build_i_send_steady b c : frame steady (build_i_send b c).
Proof. unfold build_i_send. frames_steady. Qed.
#[local] Hint Resolve build_i_send_steady : frames.

Lemma build_i_steady : frame steady build_i.
Proof. unfold build_i. frames_steady. Qed.
#[local] Hint Resolve build_i_steady : frames.

Lemma process_link_steady : frame steady process_link.
Proof. unfold process_link. frames_steady. Qed.
#[local] Hint Resolve process_link_steady : frames.

Lemma process_payloads_multi_ke_steady : frame steady process_payloads_multi_ke.
Proof. unfold process_payloads_multi_ke. frames_steady. Qed.
#[local] Hint Resolve process_payloads_multi_ke_steady : frames.

Lemma process_r_multi_ke_steady : frame steady process_r_multi_ke.
Proof. unfold process_r_multi_ke. frames_steady. Qed.
#[local] Hint Resolve process_r_multi_ke_steady : frames.

Lemma process_r_steady : frame steady process_r.
Proof. unfold process_r. frames_steady. Qed.
#[local] Hint Resolve process_r_steady : frames.

Lemma handle_child_sa_failure_steady : frame steady handle_child_sa_failure.
Proof. unfold handle_child_sa_failure. frames_steady. Qed.
#[local] Hint Resolve handle_child_sa_failure_steady : frames.

Lemma select_label_steady : frame steady select_label.
Proof. unfold select_label. frames_steady. Qed.
#[local] Hint Resolve select_label_steady : frames.

Lemma key_exchange_done_steady : frame steady key_exchange_done.
Proof. unfold key_exchange_done. frames_steady. Qed.
#[local] Hint Resolve key_exchange_done_steady : frames.

Lemma key_exchange_done_and_install_r_steady a : frame steady (key_exchange_done_and_install_r a).
Proof. unfold key_exchange_done_and_install_r. frames_steady. Qed.
#[local] Hint Resolve key_exchange_done_and_install_r_steady : frames.

Lemma build_r_multi_ke_steady : frame steady build_r_multi_ke.
Proof. unfold build_r_multi_ke. frames_steady. Qed.
#[local] Hint Resolve build_r_multi_ke_steady : frames.

Lemma build_r_prologue_steady : frame steady build_r_prologue.
Proof. unfold build_r_prologue. frames_steady. Qed.
#[local] Hint Resolve build_r_prologue_steady : frames.

Lemma build_r_select_steady b : frame steady (build_r_select b).
Proof. unfold build_r_select. frames_steady. Qed.
#[local] Hint Resolve build_r_select_steady : frames.

Lemma build_r_negotiate_steady b : frame steady (build_r_negotiate b).
Proof. unfold build_r_negotiate. frames_steady. Qed.
#[local] Hint Resolve build_r_negotiate_steady : frames.

Lemma build_r_steady : frame steady build_r.
Proof. unfold build_r. frames_steady. Qed.
#[local] Hint Resolve build_r_steady : frames.

Lemma raise_alerts_steady ty : frame steady (raise_alerts ty).
Proof. unfold raise_alerts. frames_steady. Qed.
#[local] Hint Resolve raise_alerts_steady : frames.

Lemma build_i_delete_steady : frame steady build_i_delete.
Proof. unfold build_i_delete. frames_steady. Qed.
#[local] Hint Resolve build_i_delete_steady : frames.

Lemma delete_failed_sa_steady : frame steady delete_failed_sa.
Proof. unfold delete_failed_sa. frames_steady. Qed.
#[local] Hint Resolve delete_failed_sa_steady : frames.

Lemma key_exchange_done_and_install_i_steady a : frame steady (key_exchange_done_and_install_i a).
Proof. unfold key_exchange_done_and_install_i. frames_steady. Qed.
#[local] Hint Resolve key_exchange_done_and_install_i_steady : frames.

Lemma process_i_multi_ke_steady : frame steady process_i_multi_ke.
Proof. unfold process_i_multi_ke. frames_steady. Qed.
#[local] Hint Resolve process_i_multi_ke_steady : frames.

Lemma migrate_steady : frame steady migrate.
Proof. unfold migrate. frames_steady. Qed.
#[local] Hint Resolve migrate_steady : frames.

Lemma process_i_prologue_steady : frame steady process_i_prologue.
Proof. unfold process_i_prologue. frames_steady. Qed.
#[local] Hint Resolve process_i_prologue_steady : frames.

Lemma process_i_notify_steady ty d : frame steady (process_i_notify ty d).
Proof. unfold process_i_notify. frames_steady. Qed.
#[local] Hint Resolve process_i_notify_steady : frames.

Lemma process_i_notifies_steady pls : frame steady (process_i_notifies pls).
Proof.
  induction pls as [|pl pls IH]; simpl.
  - apply (frame_ret steady).
  - destruct pl; try exact IH. frames_steady.
Qed.
#[local] Hint Resolve process_i_notifies_steady : frames.

Lemma process_i_select_steady b : frame steady (process_i_select b).
Proof. unfold process_i_select. frames_steady. Qed.
#[local] Hint Resolve process_i_select_steady : frames.

Lemma process_i_ipcomp_steady : frame steady process_i_ipcomp.
Proof. unfold process_i_ipcomp. frames_steady. Qed.
#[local] Hint Resolve process_i_ipcomp_steady : frames.

Lemma process_i_finish_steady b : frame steady (process_i_finish b).
Proof. unfold process_i_finish. frames_steady. Qed.
#[local] Hint Resolve process_i_finish_steady : frames.

Lemma process_i_steady : frame steady process_i.
Proof. unfold process_i. frames_steady. Qed.
#[local] Hint Resolve process_i_steady : frames.

Lemma destroy_steady : frame steady destroy.
Proof. unfold destroy. frames_steady. Qed.
#[local] Hint Resolve destroy_steady : frames.

Lemma task_build_steady : frame steady task_build.
Proof. unfold task_build. frames_steady. Qed.
#[local] Hint Resolve task_build_steady : frames.

Lemma task_process_steady : frame steady task_process.
Proof. unfold task_process. frames_steady. Qed.
#[local] Hint Resolve task_process_steady : frames.


(** The calls that set the abort flag, and those that set the parameters a
    task is given. *)
Definition is_abort (c : method_call) : bool :=
  match c with
  | Call_abort => true
  | _ => false
  end.

Definition sets_parameters (c : method_call) : bool :=
  match c with
  | Call_use_reqid _ | Call_use_marks _ _ | Call_use_if_ids _ _ => true
  | _ => false
  end.

(** The parameters a task is given by its creator. *)
Definition parameters (t : private_child_create_t)
  : Z * Z * Z * Z * Z * option traffic_selector_t * option traffic_selector_t :=
  (reqid (child t), mark_in (child t), mark_out (child t),
   if_id_in (child t), if_id_out (child t), packet_tsi t, packet_tsr t).

Lemma call_steady (c : method_call) :
  is_abort c = false -> sets_parameters c = false -> frame steady (call c).
Proof.
  destruct c; cbn [is_abort sets_parameters call]; intros Ha Hp;
    try discriminate; frames_steady.
Qed.

Lemma call_aborted (c : method_call) (s s' : state) (u : unit) :
  call c s = Some (u, s') -> aborted (this s') = aborted (this s) || is_abort c.
Proof.
  destruct (is_abort c) eqn:Ha; [|destruct (sets_parameters c) eqn:Hp].
  - destruct c; try discriminate. cbn [call]. unfold abort_. intros [= _ <-].
    fields. by rewrite orb_true_r.
  - rewrite orb_false_r. intros Hc.
    assert (H : wp (call c) s (fun _ s' => aborted (this s') = aborted (this s)));
      [|exact (H u s' Hc)].
    clear Hc. destruct c; try discriminate; cbn [call];
      unfold use_reqid, use_marks, use_if_ids; repeat wp_step; reflexivity.
  - intros Hc. rewrite orb_false_r. exact (proj1 (call_steady c Ha Hp _ _ _ Hc)).
Qed.

Lemma call_parameters (c : method_call) (s s' : state) (u : unit) :
  sets_parameters c = false ->
  call c s = Some (u, s') -> parameters (this s') = parameters (this s).
Proof.
  intros Hp. destruct (is_abort c) eqn:Ha.
  - destruct c; try discriminate. cbn [call]. unfold abort_. intros [= _ <-].
    reflexivity.
  - intros Hc.
    destruct (call_steady c Ha Hp _ _ _ Hc) as (_ & H1 & H2 & H3 & H4 & H5 & H6 & H7).
    unfold parameters. by rewrite H1, H2, H3, H4, H5, H6, H7.
Qed.


(** ** What an aborted initiator never does *)

(** A run is quiet if it leaves the abort flag alone, does not establish the
    CHILD_SA and makes no call that derives keys, hands an SA to the kernel
    or establishes the CHILD_SA. *)
Definition quiet (s s' : state) : Prop :=
  aborted (this s') = aborted (this s) /\
  (established (this s') = true -> established (this s) = true) /\
  exists evs, trace s' = trace s ++ evs /\
              existsb is_sa_call evs = false /\
              existsb is_establishing_call evs = false.

#[local] Instance quiet_preorder : PreOrder quiet.
Proof.
  split.
  - intros s. split; [reflexivity|]. split; [auto|].
    exists []. by rewrite app_nil_r.
  - intros s1 s2 s3 (A1 & A2 & e1 & A3 & A4 & A5) (B1 & B2 & e2 & B3 & B4 & B5).
    split; [congruence|]. split; [auto|].
    exists (e1 ++ e2). rewrite B3, A3, app_assoc, !existsb_app, A4, A5, B4, B5. auto.
Qed.

Lemma quiet_same_trace (s s' : state) :
  aborted (this s') = aborted (this s) ->
  (established (this s') = true -> established (this s) = true) ->
  trace s' = trace s ->
  quiet s s'.
Proof.
  intros Ha He Ht. split; [exact Ha|]. split; [exact He|].
  exists []. by rewrite app_nil_r.
Qed.

Lemma quiet_event (s : state) (e : event) :
  is_sa_call e = false -> is_establishing_call e = false ->
  quiet s {| this := this s; message := message s; trace := trace s ++ [e] |}.
Proof.
  intros H1 H2. split; [reflexivity|]. split; [auto|].
  exists [e]. cbn [trace existsb]. by rewrite H1, H2.
Qed.

Ltac quiet_leaf :=
  intros;
  first
    [ apply quiet_event; reflexivity
    | apply quiet_same_trace; unfold upd_in_child; fields;
      solve [reflexivity | auto | discriminate] ].

Ltac frames_quiet := repeat (frame_step quiet_leaf || unfold set_state).

Lemma schedule_delayed_retry_quiet : frame quiet schedule_delayed_retry.
Proof.
  unfold schedule_delayed_retry. apply (frame_bind quiet); [frames_quiet|]. intros t.
  apply (frame_bind quiet); [frames_quiet|]. intros cfg. cbv zeta.
  apply (frame_bind quiet); [|intros ?; frames_quiet].
  intros s [u t'] s'. unfold on_task, use_reqid, use_marks, use_if_ids, use_label.
  destruct (reqid (child t) =? 0);
    [|destruct (bool_decide (ref_reqid E (reqid (child t)) = SUCCESS))];
    cbn; intros [= _ _ <-]; split; try reflexivity; (split; [auto|]); fields.
  - exists []. by rewrite app_nil_r.
  - exists [EvRefReqid (reqid (child t))]. auto.
  - exists [EvRefReqid (reqid (child t))]. auto.
Qed.
#[local] Hint Resolve schedule_delayed_retry_quiet : frames.

Lemma upd_sa_quiet f : frame quiet (upd_sa f).
Proof. unfold upd_sa. frames_quiet. Qed.
#[local] Hint Resolve upd_sa_quiet : frames.

Lemma get_nonce_other_quiet : frame quiet (get_nonce upd_other_nonce).
Proof. unfold get_nonce. frames_quiet. Qed.
#[local] Hint Resolve get_nonce_other_quiet : frames.

Lemma generate_nonce_quiet : frame quiet generate_nonce.
Proof. unfold generate_nonce. frames_quiet. Qed.
#[local] Hint Resolve generate_nonce_quiet : frames.

Lemma select_proposal_quiet b : frame quiet (select_proposal b).
Proof. unfold select_proposal. frames_quiet. Qed.
#[local] Hint Resolve select_proposal_quiet : frames.

Lemma handle_notify_quiet ty d : frame quiet (handle_notify ty d).
Proof. unfold handle_notify. frames_quiet. Qed.
#[local] Hint Resolve handle_notify_quiet : frames.

Lemma clear_key_exchanges_quiet : frame quiet clear_key_exchanges.
Proof. unfold clear_key_exchanges. frames_quiet. Qed.
#[local] Hint Resolve clear_key_exchanges_quiet : frames.

Lemma process_ke_payload_quiet m d : frame quiet (process_ke_payload m d).
Proof. unfold process_ke_payload. frames_quiet. Qed.
#[local] Hint Resolve process_ke_payload_quiet : frames.

Lemma process_payloads_quiet : frame quiet process_payloads.
Proof. unfold process_payloads. frames_quiet. Qed.
#[local] Hint Resolve process_payloads_quiet : frames.

Lemma generic_label_only_quiet : frame quiet generic_label_only.
Proof. unfold generic_label_only. frames_quiet. Qed.
#[local] Hint Resolve generic_label_only_quiet : frames.

Lemma defer_child_sa_quiet : frame quiet defer_child_sa.
Proof. unfold defer_child_sa. frames_quiet. Qed.
#[local] Hint Resolve defer_child_sa_quiet : frames.

Lemma process_link_quiet : frame quiet process_link.
Proof. unfold process_link. frames_quiet. Qed.
#[local] Hint Resolve process_link_quiet : frames.

Lemma process_payloads_multi_ke_quiet : frame quiet process_payloads_multi_ke.
Proof. unfold process_payloads_multi_ke. frames_quiet. Qed.
#[local] Hint Resolve process_payloads_multi_ke_quiet : frames.

Lemma handle_child_sa_failure_quiet : frame quiet handle_child_sa_failure.
Proof. unfold handle_child_sa_failure. frames_quiet. Qed.
#[local] Hint Resolve handle_child_sa_failure_quiet : frames.

Lemma raise_alerts_quiet ty : frame quiet (raise_alerts ty).
Proof. unfold raise_alerts. frames_quiet. Qed.
#[local] Hint Resolve raise_alerts_quiet : frames.

Lemma delete_failed_sa_quiet : frame quiet delete_failed_sa.
Proof. unfold delete_failed_sa. frames_quiet. Qed.
#[local] Hint Resolve delete_failed_sa_quiet : frames.

Lemma migrate_quiet : frame quiet migrate.
Proof. unfold migrate. frames_quiet. Qed.
#[local] Hint Resolve migrate_quiet : frames.

Lemma process_i_prologue_quiet : frame quiet process_i_prologue.
Proof. unfold process_i_prologue. frames_quiet. Qed.
#[local] Hint Resolve process_i_prologue_quiet : frames.

Lemma process_i_notify_quiet ty d : frame quiet (process_i_notify ty d).
Proof. unfold process_i_notify. frames_quiet. Qed.
#[local] Hint Resolve process_i_notify_quiet : frames.

Lemma process_i_notifies_quiet pls : frame quiet (process_i_notifies pls).
Proof.
  induction pls as [|pl pls IH]; simpl.
  - apply (frame_ret quiet).
  - destruct pl; try exact IH. frames_quiet.
Qed.
#[local] Hint Resolve process_i_notifies_quiet : frames.

Lemma process_i_select_quiet b : frame quiet (process_i_select b).
Proof. unfold process_i_select. frames_quiet. Qed.
#[local] Hint Resolve process_i_select_quiet : frames.


Lemma frame_wp {A} (R : relation state) (m : M A) (s : state) :
  frame R m -> wp m s (fun _ s' => R s s').
Proof. intros H a s' Hm. exact (H s a s' Hm). Qed.

Lemma process_i_aborted (s : state) :
  aborted (this s) = true -> wp process_i s (fun _ s' => quiet s s').
Proof.
  intros Ha. unfold process_i. apply wp_bind.
  eapply wp_mono; [apply (frame_wp quiet), process_i_prologue_quiet|].
  intros r s0 H0. cbv beta. destruct r as [st|[no_ke ike_auth]]; [by apply wp_ret|].
  apply wp_bind. apply wp_get_message. cbv beta. apply wp_bind.
  eapply wp_mono; [apply (frame_wp quiet), process_i_notifies_quiet|].
  intros r s1 H1. cbv beta.
  assert (H01 : quiet s s1) by (etransitivity; eassumption).
  destruct r as [st|]; [by apply wp_ret|].
  apply wp_bind.
  eapply wp_mono;
    [apply wp_and;
       [apply (frame_wp quiet), process_i_select_quiet
       |apply process_i_select_not_aborted]|].
  intros r s2 [H2 Hn]. cbv beta.
  assert (H02 : quiet s s2) by (etransitivity; eassumption).
  destruct r as [st|]; [by apply wp_ret|].
  specialize (Hn eq_refl). destruct H02 as (H02 & _). congruence.
Qed.

Lemma process_i_multi_ke_aborted (s : state) :
  aborted (this s) = true -> wp process_i_multi_ke s (fun _ s' => quiet s s').
Proof.
  intros Ha. unfold process_i_multi_ke. apply wp_bind. apply wp_get_message. cbv beta.
  destruct (non_null (get_notify (payloads (message s)) TEMPORARY_FAILURE)).
  - apply (frame_wp quiet). frames_quiet.
  - apply wp_bind.
    eapply wp_mono; [apply (frame_wp quiet), process_payloads_multi_ke_quiet|].
    intros u s1 H1. cbv beta in H1 |- *. apply wp_bind. apply wp_get_this. cbv beta.
    pose proof (proj1 H1) as Ha1. rewrite Ha1, Ha, orb_true_r.
    eapply wp_mono; [apply (frame_wp quiet); frames_quiet|].
    intros st s2 H2. cbv beta. etransitivity; [exact H1|exact H2].
Qed.

(** X3.  Whatever response [process] of an initiator gets after the task
    was aborted, the CHILD_SA is not installed: no keys are derived, no SA
    and no policy is handed to the kernel, the CHILD_SA is not added to the
    IKE_SA and no child-up event is raised, and the task is neither
    established nor revived by it. *)
Theorem aborted_initiator_never_installs (s s' : state) (st : status_t) :
  aborted (this s) = true ->
  process (this s) = _process_i \/ process (this s) = _process_i_multi_ke ->
  task_process s = Some (st, s') ->
  aborted (this s') = true /\
  (established (this s') = true -> established (this s) = true) /\
  existsb is_sa_call (events_since s s') = false /\
  existsb is_establishing_call (events_since s s') = false.
Proof.
  intros Ha Hp Hrun.
  assert (H : quiet s s').
  { unfold task_process in Hrun. unfold bind at 1, get_this at 1 in Hrun.
    destruct Hp as [Hp|Hp]; rewrite Hp in Hrun.
    - exact (process_i_aborted s Ha _ _ Hrun).
    - exact (process_i_multi_ke_aborted s Ha _ _ Hrun). }
  destruct H as (H1 & H2 & evs & H3 & H4 & H5).
  split; [congruence|]. split; [exact H2|].
  unfold events_since. rewrite H3, drop_app_length. auto.
Qed.


(** ** Deleting a failed CHILD_SA *)

(** X4.  [delete_failed_sa] and the build that follows it.  If an SPI was
    allocated for a protocol, [delete_failed_sa] destroys the CHILD_SA,
    returns NEED_MORE and makes [build_i_delete] the build handler, and the
    next build then turns whatever message it gets into an INFORMATIONAL
    one, appends one DELETE payload for exactly that protocol and SPI, and
    returns SUCCESS without touching the task.  Without an SPI or without a
    protocol, [delete_failed_sa] returns SUCCESS and changes nothing. *)
Theorem delete_failed_sa_then_build (s : state) :
  child_sa (this s) <> None ->
  exists s1,
    delete_failed_sa s = Some (if spi_allocated (this s) then NEED_MORE else SUCCESS, s1) /\
    (spi_allocated (this s) = false -> s1 = s) /\
    (spi_allocated (this s) = true ->
     this s1 = upd_child_sa None (upd_build _build_i_delete (this s)) /\
     message s1 = message s /\
     events_since s s1 = [EvDestroyChildSa] /\
     forall (m : message_t) (tr : list event),
       task_build {| this := this s1; message := m; trace := tr |} =
       Some (SUCCESS,
             {| this := this s1;
                message := {| exchange_type := INFORMATIONAL;
                              payloads := payloads m ++
                                          [PLV2_DELETE (proto (this s)) [my_spi (this s)]] |};
                trace := tr |})).
Proof.
  intros Hsa. destruct (child_sa (this s)) as [sa|] eqn:Hsa'; [clear Hsa|contradiction].
  unfold spi_allocated.
  destruct (negb (my_spi (this s) =? 0) && negb (bool_decide (proto (this s) = PROTO_NONE)))
    eqn:Hspi.
  - eexists. split.
    + unfold delete_failed_sa, bind, get_this. rewrite Hspi. cbn. rewrite Hsa'. reflexivity.
    + split; [discriminate|]. intros _. cbn [this message trace].
      split; [reflexivity|]. split; [reflexivity|]. split.
      * unfold events_since. cbn [trace]. by rewrite drop_app_length.
      * intros m tr. unfold task_build, build_i_delete, bind, get_this, set_message.
        cbn. rewrite Hspi. reflexivity.
  - exists s. split.
    + unfold delete_failed_sa, bind, get_this. by rewrite Hspi.
    + split; [reflexivity|discriminate].
Qed.


(** ** Notifies that end [process_i] *)

(** [process_i] before its loop over the notifies changes nothing but the
    nonce of the peer. *)
Lemma process_i_prologue_nonce (s : state) :
  wp process_i_prologue s (fun _ s0 =>
    this s0 = this s \/ exists n, this s0 = upd_other_nonce n (this s)).
Proof.
  unfold process_i_prologue, get_nonce, defer_child_sa, generic_label_only.
  repeat wp_step; eauto.
Qed.

Lemma runs_on_task {A} (t : private_child_create_t) (m : M A) (s : state)
    (Q : A * private_child_create_t -> state -> Prop) :
  runs m {| this := t; message := message s; trace := trace s |}
    (fun a s1 => Q (a, this s1)
                   {| this := this s; message := message s1; trace := trace s1 |}) ->
  runs (on_task t m) s Q.
Proof.
  intros (a & s1 & Hm & HQ). exists (a, this s1). eexists. split; [|exact HQ].
  unfold on_task. by rewrite Hm.
Qed.

(** The calls a delayed retry makes: it takes a reference to the reqid of
    the task, if it has one, and queues the new task. *)
Definition retry_calls (t task : private_child_create_t) (delay : Z) : list event :=
  (if reqid (child t) =? 0 then [] else [EvRefReqid (reqid (child t))]) ++
  [EvQueueTaskDelayed task delay].

(** The task a delayed retry queues for the task [t]. *)
Definition retries (t task : private_child_create_t) : Prop :=
  initiator task = true /\ build task = _build_i /\ process task = _process_i /\
  config task = config t /\ rekey task = false /\ retry task = false /\
  aborted task = false /\ ke_method task = KE_NONE /\
  packet_tsi task = packet_tsi t /\ packet_tsr task = packet_tsr t /\
  mark_in (child task) = mark_in (child t) /\ mark_out (child task) = mark_out (child t) /\
  if_id_in (child task) = if_id_in (child t) /\
  if_id_out (child task) = if_id_out (child t) /\
  label (child task) = label (child t) /\
  reqid (child task) =
    (if bool_decide (ref_reqid E (reqid (child t)) = SUCCESS) then reqid (child t) else 0).

Lemma schedule_delayed_retry_runs (s : state) (cfg : child_cfg_t) :
  config (this s) = Some cfg ->
  0 < RETRY_JITTER E ->
  runs schedule_delayed_retry s (fun _ s' =>
    this s' = this s /\ message s' = message s /\
    exists task delay,
      trace s' = trace s ++ retry_calls (this s) task delay /\
      retries (this s) task /\
      RETRY_INTERVAL E - RETRY_JITTER E < delay <= RETRY_INTERVAL E).
Proof.
  intros Hcfg Hj. unfold schedule_delayed_retry.
  apply runs_bind, runs_get_this. cbv beta.
  apply runs_bind. eapply runs_deref; [exact Hcfg|]. cbv beta zeta.
  apply runs_bind, runs_on_task.
  unfold use_reqid, use_marks, use_if_ids, use_label, child_create_create.
  assert (Hd : RETRY_INTERVAL E - RETRY_JITTER E <
               RETRY_INTERVAL E - random E mod RETRY_JITTER E <= RETRY_INTERVAL E).
  { pose proof (Z.mod_pos_bound (random E) (RETRY_JITTER E) Hj). lia. }
  repeat runs_step. unfold retry_calls, retries.
  change (0 =? 0) with true. cbn [negb when].
  destruct (reqid (child (this s)) =? 0) eqn:Hr; cbv iota.
  - apply Z.eqb_eq in Hr. repeat runs_step. cbn [when]. repeat runs_step. cbn [snd].
    split; [reflexivity|]. split; [reflexivity|]. eexists _, _.
    split; [reflexivity|]. split; [|exact Hd].
    unfold upd_in_child. fields. rewrite Hcfg, Hr.
    repeat split; try reflexivity. by destruct (bool_decide _).
  - repeat runs_step.
    destruct (bool_decide (ref_reqid E (reqid (child (this s))) = SUCCESS)); cbn [when];
      repeat runs_step; cbn [snd];
      (split; [reflexivity|]); (split; [reflexivity|]); eexists _, _;
      (split; [by rewrite <- app_assoc|]); (split; [|exact Hd]);
      unfold upd_in_child; fields; rewrite Hcfg; repeat split; reflexivity.
Qed.


Lemma process_i_notify_temporary_failure (s : state) (data : chunk_t) (cfg : child_cfg_t) :
  config (this s) = Some cfg ->
  0 < RETRY_JITTER E ->
  runs (process_i_notify TEMPORARY_FAILURE data) s (fun r s' =>
    r = Some SUCCESS /\ this s' = this s /\
    if rekey (this s) || aborted (this s) then trace s' = trace s
    else exists task delay,
           trace s' = trace s ++ retry_calls (this s) task delay /\
           retries (this s) task /\
           RETRY_INTERVAL E - RETRY_JITTER E < delay <= RETRY_INTERVAL E).
Proof.
  intros Hcfg Hj. unfold process_i_notify.
  change (is_child_error_notify TEMPORARY_FAILURE) with false.
  change (TEMPORARY_FAILURE =? TEMPORARY_FAILURE) with true. cbv iota.
  apply runs_bind, runs_get_this. cbv beta. apply runs_bind.
  destruct (rekey (this s)) eqn:Hr; [|destruct (aborted (this s)) eqn:Ha];
    cbn [negb andb orb when].
  - repeat runs_step. auto.
  - repeat runs_step. auto.
  - eapply runs_mono; [exact (schedule_delayed_retry_runs s cfg Hcfg Hj)|].
    intros _ s' (Ht & Hm & task & delay & Htr & Hre & Hd). repeat runs_step.
    split; [reflexivity|]. split; [exact Ht|]. eauto.
Qed.

(** X5.  A TEMPORARY_FAILURE notify ends [process_i] with SUCCESS.  The
    task is left as it was, apart from the nonce of the peer, which
    [process_i] has taken from the nonce payload of a CREATE_CHILD_SA
    response before it looks at the notifies.  Unless the task rekeys or was
    aborted, a
    fresh initiator task for the same configuration is queued to retry, with
    the marks, interface IDs, label and packet selectors of this one and its
    reqid (if a reference to it could be taken), after a delay of more than
    RETRY_INTERVAL - RETRY_JITTER and at most RETRY_INTERVAL seconds; a
    rekeying or aborted task queues nothing. *)
Theorem process_i_temporary_failure (s s0 : state) (no_ke ike_auth : bool)
    (pre post : list payload_t) (data : chunk_t) (cfg : child_cfg_t) :
  process_i_prologue s = Some (inr (no_ke, ike_auth), s0) ->
  payloads (message s) = pre ++ PLV2_NOTIFY TEMPORARY_FAILURE data :: post ->
  forallb (passed_over (exchange_type (message s))) pre = true ->
  config (this s) = Some cfg ->
  0 < RETRY_JITTER E ->
  exists s',
    process_i s = Some (SUCCESS, s') /\
    this s' = with_peer_nonce (this s) (message s) /\
    if rekey (this s) || aborted (this s) then events_since s s' = []
    else exists task delay,
           events_since s s' = retry_calls (this s) task delay /\
           retries (this s) task /\
           RETRY_INTERVAL E - RETRY_JITTER E < delay <= RETRY_INTERVAL E.
Proof.
  intros Hpro Hpl Hpre Hcfg Hj.
  destruct (process_i_prologue_frame s _ _ Hpro) as (Hm & Htr & Ha & _ & Hr & _).
  assert (Hsame : config (this s0) = config (this s) /\ child (this s0) = child (this s) /\
                  packet_tsi (this s0) = packet_tsi (this s) /\
                  packet_tsr (this s0) = packet_tsr (this s)).
  { destruct (process_i_prologue_nonce s _ _ Hpro) as [->|[n ->]]; auto. }
  destruct Hsame as (Hc & Hch & Hpi & Hpr).
  assert (Hcfg0 : config (this s0) = Some cfg) by congruence.
  destruct (process_i_at_notify s s0 no_ke ike_auth pre post TEMPORARY_FAILURE data
              (fun st s' =>
                 st = SUCCESS /\ this s' = this s0 /\
                 if rekey (this s) || aborted (this s) then trace s' = trace s
                 else exists task delay,
                        trace s' = trace s ++ retry_calls (this s) task delay /\
                        retries (this s) task /\
                        RETRY_INTERVAL E - RETRY_JITTER E < delay <= RETRY_INTERVAL E)
              Hpro Hpl Hpre) as (st & s' & Hrun & -> & Ht & Hev).
  { eapply runs_mono; [exact (process_i_notify_temporary_failure s0 data cfg Hcfg0 Hj)|].
    intros r s' (-> & Ht & Hev). exists SUCCESS. split; [reflexivity|].
    split; [reflexivity|]. split; [exact Ht|].
    rewrite Hr, Ha, Htr in Hev. unfold retry_calls, retries in *.
    by rewrite Hc, Hch, Hpi, Hpr in Hev. }
  exists s'. split; [exact Hrun|].
  split; [rewrite Ht; exact (process_i_prologue_task s _ _ Hpro)|].
  unfold events_since. destruct (rekey (this s) || aborted (this s)).
  - rewrite Hev. apply drop_all.
  - destruct Hev as (task & delay & Hev & H). exists task, delay.
    rewrite Hev, drop_app_length. auto.
Qed.

(** The alert and the handling of the failure after an error notify. *)
Definition error_calls (t : private_child_create_t) (m : message_t)
    (type : notify_type_t) : list event :=
  (if type =? NO_PROPOSAL_CHOSEN then [EvAlert ALERT_PROPOSAL_MISMATCH_CHILD] else []) ++
  (if aborted t then [] else [failure_event m]).

Lemma process_i_notify_child_error (s : state) (type : notify_type_t) (data : chunk_t) :
  is_child_error_notify type = true ->
  config (this s) <> None ->
  runs (process_i_notify type data) s (fun r s' =>
    r = Some SUCCESS /\ this s' = this s /\ message s' = message s /\
    trace s' = trace s ++ error_calls (this s) (message s) type).
Proof.
  intros Hty Hcfg. destruct (config (this s)) as [cfg|] eqn:Hc; [clear Hcfg|contradiction].
  unfold process_i_notify, raise_alerts, handle_child_sa_failure, error_calls, failure_event,
    get_exchange_type.
  rewrite Hty. cbv iota.
  destruct (type =? NO_PROPOSAL_CHOSEN); repeat runs_step;
    (destruct (aborted (this s)); cbv iota;
     [repeat runs_step; rewrite ?app_nil_r; auto
     |repeat runs_step;
      destruct (bool_decide (exchange_type (message s) = IKE_AUTH) &&
                close_ike_on_child_failure E);
      repeat runs_step; rewrite <- ?app_assoc; auto]).
Qed.

(** X6.  An error notify about the CHILD_SA (NO_PROPOSAL_CHOSEN,
    SINGLE_PAIR_REQUIRED, NO_ADDITIONAL_SAS, INTERNAL_ADDRESS_FAILURE,
    FAILED_CP_REQUIRED, TS_UNACCEPTABLE or INVALID_SELECTORS) ends
    [process_i] with SUCCESS.  The message is left as it is, and so is the
    task (no delete is prepared, no retry), apart from the nonce of the
    peer, which [process_i] has taken from the nonce payload of a
    CREATE_CHILD_SA response before it looks at the notifies.  An alert
    about the proposals is raised for NO_PROPOSAL_CHOSEN only, and the
    failure is handled unless the task was aborted. *)
Theorem process_i_child_error (s s0 : state) (no_ke ike_auth : bool)
    (pre post : list payload_t) (type : notify_type_t) (data : chunk_t) :
  process_i_prologue s = Some (inr (no_ke, ike_auth), s0) ->
  payloads (message s) = pre ++ PLV2_NOTIFY type data :: post ->
  forallb (passed_over (exchange_type (message s))) pre = true ->
  is_child_error_notify type = true ->
  config (this s) <> None ->
  exists s',
    process_i s = Some (SUCCESS, s') /\
    this s' = with_peer_nonce (this s) (message s) /\ message s' = message s /\
    events_since s s' = error_calls (this s) (message s) type.
Proof.
  intros Hpro Hpl Hpre Hty Hcfg.
  destruct (process_i_prologue_frame s _ _ Hpro) as (Hm & Htr & Ha & _).
  assert (Hc : config (this s0) = config (this s)).
  { destruct (process_i_prologue_nonce s _ _ Hpro) as [->|[n ->]]; auto. }
  destruct (process_i_at_notify s s0 no_ke ike_auth pre post type data
              (fun st s' =>
                 st = SUCCESS /\ this s' = this s0 /\ message s' = message s /\
                 trace s' = trace s ++ error_calls (this s) (message s) type)
              Hpro Hpl Hpre) as (st & s' & Hrun & -> & Ht & Hm' & Hev).
  { eapply runs_mono; [apply (process_i_notify_child_error s0 type data Hty); congruence|].
    intros r s' (-> & Ht & Hm' & Hev). exists SUCCESS. split; [reflexivity|].
    split; [reflexivity|]. split; [exact Ht|]. split; [congruence|].
    unfold error_calls in *. by rewrite Ha, Hm, Htr in Hev. }
  exists s'. split; [exact Hrun|].
  split; [rewrite Ht; exact (process_i_prologue_task s _ _ Hpro)|]. split; [exact Hm'|].
  unfold events_since. by rewrite Hev, drop_app_length.
Qed.


(** ** Narrowing the traffic selectors *)

Lemma wp_run {A} (m : M A) (s : state) : wp m s (fun a s' => m s = Some (a, s')).
Proof. intros a s' H. exact H. Qed.

Lemma narrow_ts_reads (t : private_child_create_t) (cfg : child_cfg_t) (local : bool)
    (in_ : option (list traffic_selector_t)) (s : state) :
  wp (narrow_ts t cfg local in_) s (fun _ s' => s' = s).
Proof. unfold narrow_ts. repeat wp_step; reflexivity. Qed.

Lemma check_mode_reads (i r : host_t) (s : state) :
  wp (check_mode i r) s (fun _ s' => s' = s).
Proof. unfold check_mode. repeat wp_step; reflexivity. Qed.

Lemma check_mode_tunnel (i r : host_t) (s : state) :
  config (this s) <> None -> mode (this s) = MODE_TUNNEL ->
  check_mode i r s = Some (true, s).
Proof.
  intros Hc Hm. unfold check_mode, bind, get_this.
  destruct (config (this s)); [|contradiction]. cbn [deref ret]. by rewrite Hm.
Qed.

Lemma length_eqb_0 {A} (l : list A) : (length l =? 0)%nat = false -> l <> [].
Proof. by destruct l. Qed.

(** The host the selectors of the initiator, and those of the responder, are
    checked against. *)
Definition host_i (t : private_child_create_t) : host_t :=
  if initiator t then get_my_host E else get_other_host E.

Definition host_r (t : private_child_create_t) : host_t :=
  if initiator t then get_other_host E else get_my_host E.

(** X7.  What [narrow_and_check_ts] returns: SUCCESS, NOT_FOUND or FAILED.
    When it returns NOT_FOUND it has kept the selectors and the mode of the
    task.  Otherwise the task has got narrowed selectors, none of the two
    lists empty, and the mode was checked against them: an initiator returns
    FAILED if the check fails and SUCCESS if it passes; a responder never
    returns FAILED, it falls back to tunnel mode, so that after SUCCESS the
    mode of the task always passes the check. *)
Theorem narrow_and_check_ts_result (ike_auth : bool) (s s' : state) (st : status_t) :
  narrow_and_check_ts ike_auth s = Some (st, s') ->
  (st = SUCCESS \/ st = NOT_FOUND \/ st = FAILED) /\
  (st = FAILED -> initiator (this s) = true) /\
  (st = NOT_FOUND ->
   tsi (this s') = tsi (this s) /\ tsr (this s') = tsr (this s) /\
   mode (this s') = mode (this s)) /\
  (st <> NOT_FOUND ->
   (exists i r, tsi (this s') = Some i /\ tsr (this s') = Some r /\ i <> [] /\ r <> []) /\
   check_mode (host_i (this s)) (host_r (this s)) s' = Some (bool_decide (st = SUCCESS), s')).
Proof.
  revert st s'.
  change (wp (narrow_and_check_ts ike_auth) s (fun st s' =>
    (st = SUCCESS \/ st = NOT_FOUND \/ st = FAILED) /\
    (st = FAILED -> initiator (this s) = true) /\
    (st = NOT_FOUND ->
     tsi (this s') = tsi (this s) /\ tsr (this s') = tsr (this s) /\
     mode (this s') = mode (this s)) /\
    (st <> NOT_FOUND ->
     (exists i r, tsi (this s') = Some i /\ tsr (this s') = Some r /\ i <> [] /\ r <> []) /\
     check_mode (host_i (this s)) (host_r (this s)) s' =
       Some (bool_decide (st = SUCCESS), s')))).
  unfold narrow_and_check_ts, host_i, host_r. repeat wp_step.
  eapply wp_mono; [apply narrow_ts_reads|]. intros my_ts ? ->. cbv beta.
  apply wp_bind. eapply wp_mono; [apply narrow_ts_reads|]. intros other_ts ? ->. cbv beta.
  apply wp_bind, wp_emit. cbv beta.
  destruct (narrow E _ my_ts other_ts) as [my_ts' other_ts'].
  destruct ((length my_ts' =? 0)%nat || (length other_ts' =? 0)%nat) eqn:Hlen.
  - repeat wp_step. split; [auto|]. split; [discriminate|]. split; [auto|]. congruence.
  - apply orb_false_elim in Hlen as [Hl1%length_eqb_0 Hl2%length_eqb_0].
    repeat wp_step.
    + (* initiator *)
      eapply wp_mono; [apply wp_and; [apply check_mode_reads|apply wp_run]|].
      intros ok ? [-> Hrun]. cbv beta. destruct ok; cbn [negb]; cbv iota; apply wp_ret.
      * split; [auto|]. split; [discriminate|]. split; [discriminate|]. intros _.
        split; [eauto 10|]. exact Hrun.
      * split; [auto|]. split; [auto|]. split; [discriminate|]. intros _.
        split; [eauto 10|]. exact Hrun.
    + (* responder *)
      eapply wp_mono; [apply wp_and; [apply check_mode_reads|apply wp_run]|].
      intros ok ? [-> Hrun]. cbv beta. destruct ok; cbn [negb]; cbv iota; repeat wp_step.
      * split; [auto|]. split; [discriminate|]. split; [discriminate|]. intros _.
        split; [eauto 10|]. exact Hrun.
      * split; [auto|]. split; [discriminate|]. split; [discriminate|]. intros _.
        split; [eauto 10|]. apply check_mode_tunnel; fields; congruence.
Qed.


(** ** What [install_child_sa] leaves behind *)

(** The calls that hand the CHILD_SA over to the IKE_SA as installed. *)
Definition hands_over (e : event) : bool :=
  match e with
  | EvSetState CHILD_INSTALLED => true
  | EvAddChildSa _ => true
  | _ => false
  end.

Lemma install_child_sa_outcome_wp (s : state) :
  wp install_child_sa s (fun st s' =>
    (st = SUCCESS \/ st = FAILED \/ st = NOT_FOUND) /\
    (st = SUCCESS ->
     established (this s') = true /\
     (exists sa, child_sa (this s') = Some sa /\ sa_state sa = CHILD_INSTALLED /\
                 In (EvAddChildSa sa) (events_since s s')) /\
     In EvInstallPolicies (events_since s s') /\ install_policies E = SUCCESS) /\
    (st <> SUCCESS ->
     established (this s') = established (this s) /\
     existsb hands_over (events_since s s') = false) /\
    (st = FAILED -> In (EvAlert ALERT_INSTALL_CHILD_SA_FAILED) (events_since s s'))).
Proof.
  unfold install_child_sa, install_sa, register_outbound_sa, schedule_inactivity_timeout.
  repeat wp_step.
  all: rewrite <- ?app_assoc; rewrite ?events_since_app, ?events_since_nil;
    cbn [app existsb hands_over orb].
  all: split; [auto|].
  all: split; [intros Hst; try discriminate Hst|].
  all: try (split; [intros Hst; try congruence; auto|]; intros Hst; try discriminate Hst).
  all: repeat match goal with
              | H : Some _ = Some _ |- _ => injection H as <-
              | H : negb (bool_decide (_ = SUCCESS)) = false |- _ =>
                  apply status_not_success in H
              end.
  all: try (cbn [In]; solve [auto 20]).
  all: split; [reflexivity|]; split;
    [eexists; split; [reflexivity|]; split; [reflexivity|]; cbn [In]; auto 20|].
  all: split; [cbn [In]; auto 20|assumption].
Qed.

(** X8.  The CHILD_SA is handed over exactly when [install_child_sa]
    returns SUCCESS.  After SUCCESS the policies were installed, the
    CHILD_SA is in state INSTALLED and was added to the IKE_SA, and the task
    is established.  After any other result (FAILED or NOT_FOUND, whatever
    failed: the key derivation, an SA, the policies or the selectors) the
    CHILD_SA was neither set to INSTALLED nor added to the IKE_SA and the
    established flag is as before; FAILED comes with the alert
    ALERT_INSTALL_CHILD_SA_FAILED. *)
Theorem install_child_sa_outcome (s s' : state) (st : status_t) :
  install_child_sa s = Some (st, s') ->
  (st = SUCCESS \/ st = FAILED \/ st = NOT_FOUND) /\
  (st = SUCCESS ->
   established (this s') = true /\
   (exists sa, child_sa (this s') = Some sa /\ sa_state sa = CHILD_INSTALLED /\
               In (EvAddChildSa sa) (events_since s s')) /\
   In EvInstallPolicies (events_since s s') /\ install_policies E = SUCCESS) /\
  (st <> SUCCESS ->
   established (this s') = established (this s) /\
   existsb hands_over (events_since s s') = false) /\
  (st = FAILED -> In (EvAlert ALERT_INSTALL_CHILD_SA_FAILED) (events_since s s')).
Proof.
  intros Hrun. exact (install_child_sa_outcome_wp s st s' Hrun).
Qed.


(** An SA is handed to the kernel with a CPI exactly if IPComp is in use. *)
Definition cpi_consistent (transform : ipcomp_transform_t) (e : event) : bool :=
  match e with
  | EvInstall _ _ _ cpi _ _ _ | EvRegisterOutbound _ _ _ cpi _ _ =>
      Bool.eqb (cpi =? 0) (transform =? IPCOMP_NONE)
  | _ => true
  end.

Lemma install_child_sa_cpis_wp (s : state) :
  wp install_child_sa s (fun st s' =>
    forallb (cpi_consistent (ipcomp (this s'))) (events_since s s') = true /\
    (existsb is_sa_call (events_since s s') = true ->
     (my_cpi (this s') = 0 <-> ipcomp (this s') = IPCOMP_NONE) /\
     (other_cpi (this s') = 0 <-> ipcomp (this s') = IPCOMP_NONE))).
Proof.
  unfold install_child_sa, install_sa, register_outbound_sa, schedule_inactivity_timeout.
  repeat wp_step.
  all: rewrite <- ?app_assoc; rewrite ?events_since_app, ?events_since_nil;
    cbn [app forallb existsb cpi_consistent is_sa_call orb andb].
  all: repeat match goal with
              | H : _ || _ = false |- _ => apply orb_false_elim in H as [? ?]
              end.
  all: repeat match goal with
              | H : (_ =? _) = false |- _ => rewrite H
              end.
  all: split; [reflexivity|intros Hcall; try discriminate Hcall].
  all: repeat match goal with
              | H : (_ =? _) = false |- _ => apply Z.eqb_neq in H
              end.
  all: split; split; intros ?; solve [reflexivity | contradiction].
Qed.

(** X9.  [install_child_sa] uses compression on both SAs or on none: once it
    hands an SA to the kernel, the two CPIs of the task are either both
    zero, with no IPComp transform, or both non-zero with the transform
    agreed, and every install or register call gets a CPI exactly if there
    is a transform.  A CPI or a transform that lacks its counterparts is
    dropped before anything is installed. *)
Theorem install_child_sa_cpis (s s' : state) (st : status_t) :
  install_child_sa s = Some (st, s') ->
  forallb (cpi_consistent (ipcomp (this s'))) (events_since s s') = true /\
  (existsb is_sa_call (events_since s s') = true ->
   (my_cpi (this s') = 0 <-> ipcomp (this s') = IPCOMP_NONE) /\
   (other_cpi (this s') = 0 <-> ipcomp (this s') = IPCOMP_NONE)).
Proof.
  intros Hrun. exact (install_child_sa_cpis_wp s st s' Hrun).
Qed.


(** ** The key exchanges left to do *)

(** An entry of the plan that stands for a key exchange not done yet. *)
Definition is_pending (slot : key_exchange_slot_t) : bool :=
  negb (kx_type slot =? 0) && negb (kx_done slot).

(** The number of key exchanges of the plan that are left to do. *)
Definition pending (t : private_child_create_t) : nat :=
  length (List.filter is_pending (drop (ke_index t) (take MAX_KEY_EXCHANGES (key_exchanges t)))).

Lemma existsb_filter_length {A} (f : A -> bool) (l : list A) :
  existsb f l = negb (length (List.filter f l) =? 0)%nat.
Proof.
  induction l as [|x l IH]; [reflexivity|]. simpl. destruct (f x); [reflexivity|exact IH].
Qed.

Lemma additional_key_exchange_required_pending (t : private_child_create_t) :
  additional_key_exchange_required t = negb (pending t =? 0)%nat.
Proof. unfold additional_key_exchange_required, pending. apply existsb_filter_length. Qed.

Lemma pending_step (t : private_child_create_t) (slot : key_exchange_slot_t)
    (g : key_exchange_slot_t -> key_exchange_slot_t) (t' : private_child_create_t) :
  (ke_index t < MAX_KEY_EXCHANGES)%nat ->
  key_exchanges t !! ke_index t = Some slot ->
  key_exchanges t' = alter g (ke_index t) (key_exchanges t) ->
  ke_index t' = S (ke_index t) ->
  pending t = ((if is_pending slot then 1 else 0) + pending t')%nat.
Proof.
  intros Hlt Hslot Hkx Hi. unfold pending. rewrite Hkx, Hi.
  rewrite take_alter_lt by exact Hlt. rewrite drop_alter_lt by lia.
  assert (Hs : take MAX_KEY_EXCHANGES (key_exchanges t) !! ke_index t = Some slot)
    by (rewrite lookup_take_lt by exact Hlt; exact Hslot).
  rewrite (drop_S _ _ _ Hs). simpl. by destruct (is_pending slot).
Qed.

(** X10.  [key_exchange_done] counts the plan down.  With a key exchange
    object and the current entry inside the plan, it appends the object to
    the completed ones, moves on to the next entry, and returns TRUE
    exactly if no key exchange of the plan is left to do; the number left
    has dropped by one if the current entry was one of them and is
    unchanged otherwise.  Without a key exchange object it returns TRUE and
    changes nothing. *)
Theorem key_exchange_done_pending (s : state) :
  (ke_index (this s) < MAX_KEY_EXCHANGES)%nat ->
  (ke_index (this s) < length (key_exchanges (this s)))%nat ->
  exists s',
    key_exchange_done s =
      Some (match ke (this s) with
            | Some _ => (pending (this s') =? 0)%nat
            | None => true
            end, s') /\
    message s' = message s /\ trace s' = trace s /\
    match ke (this s) with
    | None => this s' = this s
    | Some k =>
        kes (this s') = kes (this s) ++ [k] /\
        ke (this s') = None /\
        ke_index (this s') = S (ke_index (this s)) /\
        forall slot,
          key_exchanges (this s) !! ke_index (this s) = Some slot ->
          pending (this s) = ((if is_pending slot then 1 else 0) + pending (this s'))%nat
    end.
Proof.
  intros Hmax Hlt. apply lookup_lt_is_Some in Hlt as [slot Hslot].
  destruct (ke (this s)) as [k|] eqn:Hke.
  - assert (H : runs key_exchange_done s (fun r s' =>
                  r = (pending (this s') =? 0)%nat /\
                  message s' = message s /\ trace s' = trace s /\
                  kes (this s') = kes (this s) ++ [k] /\
                  ke (this s') = None /\
                  ke_index (this s') = S (ke_index (this s)) /\
                  key_exchanges (this s') =
                    alter (fun sl => {| kx_type := kx_type sl; kx_meth := kx_meth sl;
                                        kx_done := true |})
                      (ke_index (this s)) (key_exchanges (this s)))).
    { unfold key_exchange_done. repeat runs_step. rewrite Hke. cbv iota.
      repeat runs_step. rewrite additional_key_exchange_required_pending, negb_involutive.
      unfold pending. fields. auto 10. }
    destruct H as (r & s' & Hrun & -> & Hm & Ht & Hkes & Hke' & Hi & Hkx).
    exists s'. split; [exact Hrun|]. split; [exact Hm|]. split; [exact Ht|].
    split; [exact Hkes|]. split; [exact Hke'|]. split; [exact Hi|].
    intros slot' Hslot'. exact (pending_step _ _ _ _ Hmax Hslot' Hkx Hi).
  - exists s. split; [|auto].
    unfold key_exchange_done, bind, get_this. by rewrite Hke.
Qed.


Lemma present_transforms_types (p : proposal_t) (t : transform_type_t) (n : nat) :
  Forall (fun e => t <= fst e) (present_transforms p t n).
Proof.
  revert t. induction n as [|n IH]; intros t.
  - constructor.
  - rewrite present_transforms_S. specialize (IH (t + 1)).
    assert (H : Forall (fun e => t <= fst e) (present_transforms p (t + 1) n)).
    { eapply Forall_impl; [|exact IH]. intros e He. simpl in He. lia. }
    destruct (get_algorithm p t); [constructor; [simpl; lia|exact H]|exact H].
Qed.

(** The entry of a plan that was just written. *)
Definition planned (e : transform_type_t * key_exchange_method_t) : key_exchange_slot_t :=
  {| kx_type := fst e; kx_meth := snd e; kx_done := false |}.

Lemma overlay_replicate (plan : list (transform_type_t * key_exchange_method_t)) (n : nat) :
  (length plan <= n)%nat ->
  overlay plan (replicate n empty_slot) =
  map planned plan ++ replicate (n - length plan) empty_slot.
Proof.
  revert n. induction plan as [|e plan IH]; intros n Hn.
  - rewrite overlay_nil. simpl. by rewrite Nat.sub_0_r.
  - destruct n as [|n]; [simpl in Hn; lia|].
    simpl replicate. rewrite overlay_cons, IH by (simpl in Hn; lia). reflexivity.
Qed.

Lemma filter_pending_planned (plan : list (transform_type_t * key_exchange_method_t)) :
  Forall (fun e => fst e <> 0) plan ->
  List.filter is_pending (map planned plan) = map planned plan.
Proof.
  induction 1 as [|e plan He _ IH]; [reflexivity|].
  simpl. unfold is_pending at 1. cbn [planned kx_type kx_done].
  destruct (_ =? 0) eqn:H0; [apply Z.eqb_eq in H0; contradiction|].
  cbn [negb andb]. by rewrite IH.
Qed.

Lemma filter_pending_empty (n : nat) :
  List.filter is_pending (replicate n empty_slot) = [].
Proof. induction n as [|n IH]; [reflexivity|exact IH]. Qed.

(** X11.  On a plan that was cleared, [determine_key_exchanges] leaves as
    many key exchanges to do as the selected proposal has key exchange
    transforms: one for its KEY_EXCHANGE_METHOD and one for each of its
    ADDITIONAL_KEY_EXCHANGE_1..7 transforms, and none for a proposal without
    a KEY_EXCHANGE_METHOD, whatever additional ones it has. *)
Theorem determine_key_exchanges_pending (s : state) (p : proposal_t) :
  proposal (this s) = Some p ->
  key_exchanges (this s) = replicate MAX_KEY_EXCHANGES empty_slot ->
  ke_index (this s) = 0%nat ->
  exists s',
    determine_key_exchanges s = Some (tt, s') /\
    ke_index (this s') = 0%nat /\
    pending (this s') =
      match get_algorithm p KEY_EXCHANGE_METHOD with
      | Some _ => S (length (present_additional p))
      | None => 0%nat
      end.
Proof.
  intros Hp Hkx Hi.
  assert (H : runs determine_key_exchanges s (fun _ s' =>
                ke_index (this s') = 0%nat /\
                key_exchanges (this s') =
                  match get_algorithm p KEY_EXCHANGE_METHOD with
                  | Some alg =>
                      planned (KEY_EXCHANGE_METHOD, alg) ::
                      map planned (present_additional p) ++
                      replicate (MAX_ADDITIONAL_KEY_EXCHANGES - length (present_additional p))
                        empty_slot
                  | None => replicate MAX_KEY_EXCHANGES empty_slot
                  end)).
  { unfold determine_key_exchanges. repeat runs_step.
    destruct (get_algorithm p KEY_EXCHANGE_METHOD) as [alg|]; repeat runs_step; [|auto].
    split; [exact Hi|]. rewrite Hkx.
    change (Z.to_nat (ADDITIONAL_KEY_EXCHANGE_7 - ADDITIONAL_KEY_EXCHANGE_1 + 1))
      with MAX_ADDITIONAL_KEY_EXCHANGES.
    rewrite determine_additional_overlay
      by (unfold set_slot; rewrite length_alter, length_replicate;
          unfold MAX_KEY_EXCHANGES; lia).
    unfold set_slot, MAX_KEY_EXCHANGES. simpl replicate. simpl alter.
    change (take 1 (?x :: ?l)) with [x]. change (drop 1 (?x :: ?l)) with l.
    change [empty_slot; empty_slot; empty_slot; empty_slot; empty_slot; empty_slot;
            empty_slot] with (replicate MAX_ADDITIONAL_KEY_EXCHANGES empty_slot).
    rewrite overlay_replicate by apply length_present_transforms.
    reflexivity. }
  destruct H as ([] & s' & Hrun & Hi' & Hkx'). exists s'.
  split; [exact Hrun|]. split; [exact Hi'|].
  unfold pending. rewrite Hi', Hkx', drop_0.
  destruct (get_algorithm p KEY_EXCHANGE_METHOD) as [alg|].
  - pose proof (length_present_transforms p ADDITIONAL_KEY_EXCHANGE_1
                  MAX_ADDITIONAL_KEY_EXCHANGES) as Hlen.
    fold (present_additional p) in Hlen.
    rewrite take_ge
      by (simpl; rewrite length_app, length_map, length_replicate;
          unfold MAX_KEY_EXCHANGES; lia).
    simpl. rewrite List.filter_app, filter_pending_planned, filter_pending_empty.
    + by rewrite app_nil_r, length_map.
    + eapply Forall_impl; [|apply present_transforms_types].
      intros e He. simpl in He. unfold ADDITIONAL_KEY_EXCHANGE_1 in He. lia.
  - rewrite take_ge by (rewrite length_replicate; lia).
    by rewrite filter_pending_empty.
Qed.


(** ** The link, echoed by the initiator *)

Lemma get_notify_app (l1 l2 : list payload_t) (type : notify_type_t) :
  get_notify (l1 ++ l2) type =
  match get_notify l1 type with
  | Some data => Some data
  | None => get_notify l2 type
  end.
Proof.
  induction l1 as [|pl l1 IH]; [reflexivity|].
  simpl. destruct pl; try exact IH. destruct (type0 =? type); [reflexivity|exact IH].
Qed.

Lemma add_ke_payload_notifies (s : state) (type : notify_type_t) :
  wp add_ke_payload s (fun _ s' =>
    this s' = this s /\ exchange_type (message s') = exchange_type (message s) /\
    get_notify (payloads (message s')) type = get_notify (payloads (message s)) type).
Proof.
  unfold add_ke_payload. repeat wp_step; repeat split; try reflexivity.
  all: unfold add_payload; cbn [payloads]; rewrite get_notify_app;
    by destruct (get_notify (payloads (message s)) type).
Qed.

Lemma build_i_multi_ke_link (s : state) :
  get_notify (payloads (message s)) ADDITIONAL_KEY_EXCHANGE = None ->
  wp build_i_multi_ke s (fun st s' =>
    (st = NEED_MORE \/ st = FAILED) /\
    (chunk_ptr (link (this s)) = false -> st = FAILED) /\
    (st = NEED_MORE ->
     exchange_type (message s') = IKE_FOLLOWUP_KE /\
     get_notify (payloads (message s')) ADDITIONAL_KEY_EXCHANGE = Some (link (this s)))).
Proof.
  intros Hnone. unfold build_i_multi_ke.
  apply wp_bind, wp_set_message. cbv beta. apply wp_bind, wp_get_this. cbv beta. fields.
  apply wp_bind, wp_deref. intros slot Hslot. cbv zeta beta.
  apply wp_bind, wp_set. cbv beta.
  destruct (negb (non_null (create_ke (kx_meth slot)))).
  { apply wp_ret. split; [auto|]. split; [auto|discriminate]. }
  destruct (chunk_ptr (link (this s))) eqn:Hl; cbn [negb]; cbv iota.
  2: { apply wp_ret. split; [auto|]. split; [auto|discriminate]. }
  unfold build_payloads_multi_ke. apply wp_bind. apply wp_bind.
  eapply wp_mono; [apply (add_ke_payload_notifies _ ADDITIONAL_KEY_EXCHANGE)|].
  intros ok s1 (Ht & Hx & Hn). cbv beta. fields_in Ht. fields_in Hx. fields_in Hn.
  destruct ok; cbn [negb]; cbv iota.
  - repeat wp_step.
    + split; [auto|]. split; [discriminate|]. intros _. rewrite Ht. fields.
      unfold add_notify. cbn [exchange_type payloads].
      split; [exact Hx|]. rewrite get_notify_app, Hn.
      unfold set_exchange_type. cbn [payloads]. rewrite Hnone. reflexivity.
    + rewrite Ht in *. fields_in H. congruence.
  - repeat wp_step. split; [auto|]. split; [auto|discriminate].
Qed.

(** X12.  The initiator echoes the link.  [process_link] of an initiator
    stores the data of the ADDITIONAL_KEY_EXCHANGE notify of the response,
    or drops its link if there is none.  The follow-up request that
    [build_i_multi_ke] then builds is an IKE_FOLLOWUP_KE message that
    carries exactly that data in its ADDITIONAL_KEY_EXCHANGE notify, so a
    responder holding the same link accepts it; without a link no follow-up
    is sent: [build_i_multi_ke] returns FAILED. *)
Theorem initiator_echoes_link (s : state) :
  initiator (this s) = true ->
  exists s1,
    process_link s = Some (tt, s1) /\
    link (this s1) =
      default chunk_empty (get_notify (payloads (message s)) ADDITIONAL_KEY_EXCHANGE) /\
    forall (m : message_t) (tr : list event) (st : status_t) (s2 : state),
      get_notify (payloads m) ADDITIONAL_KEY_EXCHANGE = None ->
      build_i_multi_ke {| this := this s1; message := m; trace := tr |} = Some (st, s2) ->
      (st = NEED_MORE \/ st = FAILED) /\
      (link (this s1) = chunk_empty -> st = FAILED) /\
      (st = NEED_MORE ->
       exchange_type (message s2) = IKE_FOLLOWUP_KE /\
       get_notify (payloads (message s2)) ADDITIONAL_KEY_EXCHANGE = Some (link (this s1)) /\
       forall r : private_child_create_t,
         link r = link (this s1) -> carries_link r (message s2) = true).
Proof.
  intros Hi.
  assert (H : runs process_link s (fun _ s1 =>
                link (this s1) =
                default chunk_empty
                  (get_notify (payloads (message s)) ADDITIONAL_KEY_EXCHANGE))).
  { unfold process_link. repeat runs_step.
    destruct (get_notify (payloads (message s)) ADDITIONAL_KEY_EXCHANGE) as [data|].
    - rewrite Hi. cbv iota. repeat runs_step. reflexivity.
    - repeat runs_step. reflexivity. }
  destruct H as ([] & s1 & Hrun & Hl). exists s1.
  split; [exact Hrun|]. split; [exact Hl|].
  intros m tr st s2 Hnone Hbuild.
  destruct (build_i_multi_ke_link {| this := this s1; message := m; trace := tr |}
              Hnone st s2 Hbuild) as (H1 & H2 & H3).
  cbn [this] in H2, H3. split; [exact H1|]. split.
  - intros He. apply H2. by rewrite He.
  - intros Hst. destruct (H3 Hst) as (H4 & H5). split; [exact H4|]. split; [exact H5|].
    intros r Hr. unfold carries_link, chunk_equals_const. rewrite H5, Hr.
    destruct (chunk_ptr (link (this s1))) eqn:Hp.
    + by rewrite bool_decide_true.
    + specialize (H2 eq_refl). congruence.
Qed.


(** ** What [build_r] and [process_i] return *)

(** Step over a call whose effect on the state does not matter. *)
Ltac wp_skip :=
  eapply wp_mono; [intros ? ? _; exact I|]; intros ? ? _; cbv beta.

(** One step of a run of which only the result is of interest: calls of
    other methods are stepped over. *)
Ltac wp_status_step :=
  lazymatch goal with
  | |- wp (bind ?m _) _ _ =>
      lazymatch m with
      | bind _ _ => apply wp_bind
      | ret _ => apply wp_bind
      | set _ => apply wp_bind
      | set_message _ => apply wp_bind
      | emit _ => apply wp_bind
      | get_this => apply wp_bind
      | get_message => apply wp_bind
      | deref _ => apply wp_bind
      | when _ _ => apply wp_bind
      | match _ with _ => _ end => apply wp_bind
      | _ => apply wp_bind; wp_skip
      end
  | |- wp (ret _) _ _ => wp_step
  | |- wp crash _ _ => wp_step
  | |- wp (set _) _ _ => wp_step
  | |- wp (set_message _) _ _ => wp_step
  | |- wp (emit _) _ _ => wp_step
  | |- wp get_this _ _ => wp_step
  | |- wp get_message _ _ => wp_step
  | |- wp (deref _) _ _ => wp_step
  | |- wp (when _ _) _ _ => wp_step
  | |- wp (match _ with _ => _ end) _ _ => wp_step
  | |- wp (let _ := _ in _) _ _ => wp_step
  | |- wp _ _ (fun _ s1 => wp _ s1 _) => wp_skip
  end; cbv beta.

(** What [build_r] returns for a message of the exchange type [exch] to a
    task [t], leaving the task [t'] and the response [m']. *)
Definition multi_ke_handlers_r (t' : private_child_create_t) : Prop :=
  build t' = _build_r_multi_ke /\ process t' = _process_r_multi_ke.

Definition build_r_returns (t : private_child_create_t) (m : message_t)
    (st : status_t) (t' : private_child_create_t) (m' : message_t) : Prop :=
  match exchange_type m with
  | IKE_SA_INIT =>
      (st = NEED_MORE /\ get_nonce_payload (payloads m) <> None) \/
      (st = FAILED /\ get_nonce_payload (payloads m) = None)
  | CREATE_CHILD_SA => st = SUCCESS \/ (st = NEED_MORE /\ multi_ke_handlers_r t')
  | IKE_AUTH =>
      st = SUCCESS \/
      (st = NEED_MORE /\
       (has_condition E COND_AUTHENTICATED = false \/ multi_ke_handlers_r t')) \/
      (st = FAILED /\ handle_childless t = INVALID_STATE /\
       In (PLV2_NOTIFY INVALID_SYNTAX chunk_empty) (payloads m'))
  | _ => st = NEED_MORE
  end.

Lemma build_r_prologue_status (s : state) :
  wp build_r_prologue s (fun r s0 =>
    match r with
    | inl st => build_r_returns (this s) (message s) st (this s0) (message s0)
    | inr _ =>
        exchange_type (message s) = CREATE_CHILD_SA \/ exchange_type (message s) = IKE_AUTH
    end).
Proof.
  unfold build_r_prologue, get_nonce, generate_nonce, get_exchange_type, build_r_returns.
  repeat wp_step.
  all: try match goal with H : exchange_type _ = _ |- _ => rewrite H end.
  all: auto 10.
  right. left. split; [reflexivity|]. left. now apply negb_true_iff.
Qed.

Lemma build_r_select_status (no_ke : bool) (s : state) :
  wp (build_r_select no_ke) s (fun r _ => r = Some SUCCESS \/ r = None).
Proof.
  unfold build_r_select.
  repeat wp_status_step; auto.
Qed.

Lemma build_r_negotiate_status (ike_auth : bool) (s : state) :
  wp (build_r_negotiate ike_auth) s (fun st s' =>
    st = SUCCESS \/ (st = NEED_MORE /\ multi_ke_handlers_r (this s'))).
Proof.
  unfold build_r_negotiate, multi_ke_handlers_r.
  repeat wp_status_step; auto.
Qed.

(** X13. What the responder's [build_r] returns.  For CREATE_CHILD_SA it
    never fails the task: it returns SUCCESS, or NEED_MORE after handing the
    task over to the handlers of the additional key exchanges.  For IKE_AUTH
    it returns FAILED only when the childless policy is violated, with an
    INVALID_SYNTAX notify in the response, and NEED_MORE only while the peer
    is not authenticated or with the same handlers.  For IKE_SA_INIT it
    returns NEED_MORE if the message it is given, which is the response
    being built, has a nonce payload, and FAILED otherwise; for every other
    exchange type NEED_MORE. *)
Theorem build_r_status (s s' : state) (st : status_t) :
  build_r s = Some (st, s') ->
  build_r_returns (this s) (message s) st (this s') (message s').
Proof.
  intros Hrun.
  assert (H : wp build_r s (fun st s' =>
            build_r_returns (this s) (message s) st (this s') (message s')));
    [|exact (H st s' Hrun)].
  unfold build_r.
  apply wp_bind. eapply wp_mono; [apply build_r_prologue_status|].
  intros [st0|[no_ke ike_auth]] s0 H0; cbv beta iota in *.
  - wp_step. exact H0.
  - apply wp_bind. eapply wp_mono; [apply build_r_select_status|].
    intros r s1 H1. cbv beta in H1.
    assert (Hn : forall st1 t1 m1,
               st1 = SUCCESS \/ (st1 = NEED_MORE /\ multi_ke_handlers_r t1) ->
               build_r_returns (this s) (message s) st1 t1 m1).
    { intros st1 t1 m1 Hs. unfold build_r_returns.
      destruct H0 as [-> | ->]; [exact Hs|].
      destruct Hs as [Hs|[Hs Hh]]; [left; exact Hs|right; left; auto]. }
    destruct H1 as [-> | ->].
    + wp_step. apply Hn. now left.
    + eapply wp_mono; [apply build_r_negotiate_status|].
      intros st1 s2 H2. apply Hn, H2.
Qed.

(** ** The handlers of the task across calls *)

(** [handlers_kept s s']: from [s] to [s'] the task kept its [build] and
    [process] handlers. *)
Definition handlers_kept (s s' : state) : Prop :=
  build (this s') = build (this s) /\ process (this s') = process (this s).

#[local] Instance handlers_kept_preorder : PreOrder handlers_kept.
Proof.
  split.
  - intros s. unfold handlers_kept. auto.
  - intros s1 s2 s3 [A1 A2] [B1 B2]. unfold handlers_kept. split; congruence.
Qed.

Ltac handlers_leaf :=
  intros; unfold handlers_kept, upd_in_child in *; fields;
  repeat split; try reflexivity; congruence.

Ltac frames_handlers := repeat (frame_step handlers_leaf).

Lemma upd_sa_handlers_kept f : frame handlers_kept (upd_sa f).
Proof. unfold upd_sa. frames_handlers. Qed.
#[local] Hint Resolve upd_sa_handlers_kept : frames.

Lemma set_state_handlers_kept st : frame handlers_kept (set_state st).
Proof. unfold set_state. frames_handlers. Qed.
#[local] Hint Resolve set_state_handlers_kept : frames.

Lemma use_label_handlers_kept l : frame handlers_kept (use_label l).
Proof. unfold use_label. frames_handlers. Qed.
#[local] Hint Resolve use_label_handlers_kept : frames.

Lemma schedule_delayed_retry_handlers_kept : frame handlers_kept schedule_delayed_retry.
Proof. unfold schedule_delayed_retry. frames_handlers. Qed.
#[local] Hint Resolve schedule_delayed_retry_handlers_kept : frames.

Lemma allocate_spi_handlers_kept : frame handlers_kept allocate_spi.
Proof. unfold allocate_spi. frames_handlers. Qed.
#[local] Hint Resolve allocate_spi_handlers_kept : frames.

Lemma update_and_check_proposals_handlers_kept : frame handlers_kept update_and_check_proposals.
Proof. unfold update_and_check_proposals. frames_handlers. Qed.
#[local] Hint Resolve update_and_check_proposals_handlers_kept : frames.

Lemma schedule_inactivity_timeout_handlers_kept : frame handlers_kept schedule_inactivity_timeout.
Proof. unfold schedule_inactivity_timeout. frames_handlers. Qed.
#[local] Hint Resolve schedule_inactivity_timeout_handlers_kept : frames.

Lemma narrow_ts_handlers_kept t c l i : frame handlers_kept (narrow_ts t c l i).
Proof. unfold narrow_ts. frames_handlers. Qed.
#[local] Hint Resolve narrow_ts_handlers_kept : frames.

Lemma check_mode_handlers_kept i r : frame handlers_kept (check_mode i r).
Proof. unfold check_mode. frames_handlers. Qed.
#[local] Hint Resolve check_mode_handlers_kept : frames.

Lemma narrow_and_check_ts_handlers_kept a : frame handlers_kept (narrow_and_check_ts a).
Proof. unfold narrow_and_check_ts. frames_handlers. Qed.
#[local] Hint Resolve narrow_and_check_ts_handlers_kept : frames.

Lemma install_sa_handlers_kept e i s c b : frame handlers_kept (install_sa e i s c b).
Proof. unfold install_sa. frames_handlers. Qed.
#[local] Hint Resolve install_sa_handlers_kept : frames.

Lemma register_outbound_sa_handlers_kept e i s c : frame handlers_kept (register_outbound_sa e i s c).
Proof. unfold register_outbound_sa. frames_handlers. Qed.
#[local] Hint Resolve register_outbound_sa_handlers_kept : frames.

Lemma install_child_sa_handlers_kept : frame handlers_kept install_child_sa.
Proof. unfold install_child_sa. frames_handlers. Qed.
#[local] Hint Resolve install_child_sa_handlers_kept : frames.

Lemma select_proposal_handlers_kept b : frame handlers_kept (select_proposal b).
Proof. unfold select_proposal. frames_handlers. Qed.
#[local] Hint Resolve select_proposal_handlers_kept : frames.

Lemma handle_notify_handlers_kept ty d : frame handlers_kept (handle_notify ty d).
Proof. unfold handle_notify. frames_handlers. Qed.
#[local] Hint Resolve handle_notify_handlers_kept : frames.

Lemma determine_key_exchanges_handlers_kept : frame handlers_kept determine_key_exchanges.
Proof. unfold determine_key_exchanges. frames_handlers. Qed.
#[local] Hint Resolve determine_key_exchanges_handlers_kept : frames.

Lemma clear_key_exchanges_handlers_kept : frame handlers_kept clear_key_exchanges.
Proof. unfold clear_key_exchanges. frames_handlers. Qed.
#[local] Hint Resolve clear_key_exchanges_handlers_kept : frames.

Lemma process_ke_payload_handlers_kept m d : frame handlers_kept (process_ke_payload m d).
Proof. unfold process_ke_payload. frames_handlers. Qed.
#[local] Hint Resolve process_ke_payload_handlers_kept : frames.

Lemma check_ke_method_handlers_kept : frame handlers_kept check_ke_method.
Proof. unfold check_ke_method. frames_handlers. Qed.
#[local] Hint Resolve check_ke_method_handlers_kept : frames.

Lemma process_payloads_handlers_kept : frame handlers_kept process_payloads.
Proof. unfold process_payloads. frames_handlers. Qed.
#[local] Hint Resolve process_payloads_handlers_kept : frames.

Lemma generic_label_only_handlers_kept : frame handlers_kept generic_label_only.
Proof. unfold generic_label_only. frames_handlers. Qed.
#[local] Hint Resolve generic_label_only_handlers_kept : frames.

Lemma defer_child_sa_handlers_kept : frame handlers_kept defer_child_sa.
Proof. unfold defer_child_sa. frames_handlers. Qed.
#[local] Hint Resolve defer_child_sa_handlers_kept : frames.

Lemma process_link_handlers_kept : frame handlers_kept process_link.
Proof. unfold process_link. frames_handlers. Qed.
#[local] Hint Resolve process_link_handlers_kept : frames.

Lemma process_payloads_multi_ke_handlers_kept : frame handlers_kept process_payloads_multi_ke.
Proof. unfold process_payloads_multi_ke. frames_handlers. Qed.
#[local] Hint Resolve process_payloads_multi_ke_handlers_kept : frames.

Lemma handle_child_sa_failure_handlers_kept : frame handlers_kept handle_child_sa_failure.
Proof. unfold handle_child_sa_failure. frames_handlers. Qed.
#[local] Hint Resolve handle_child_sa_failure_handlers_kept : frames.

Lemma select_label_handlers_kept : frame handlers_kept select_label.
Proof. unfold select_label. frames_handlers. Qed.
#[local] Hint Resolve select_label_handlers_kept : frames.

Lemma key_exchange_done_handlers_kept : frame handlers_kept key_exchange_done.
Proof. unfold key_exchange_done. frames_handlers. Qed.
#[local] Hint Resolve key_exchange_done_handlers_kept : frames.

Lemma raise_alerts_handlers_kept ty : frame handlers_kept (raise_alerts ty).
Proof. unfold raise_alerts. frames_handlers. Qed.
#[local] Hint Resolve raise_alerts_handlers_kept : frames.


(** What the initiator does next when [process_i] returns NEED_MORE: it
    waits for a later message or retries with [build_i], deletes the failed
    CHILD_SA, or goes on with the additional key exchanges. *)
Definition waiting (t' : private_child_create_t) : Prop :=
  build t' = _build_i /\ process t' = _process_i.

Definition deleting (t' : private_child_create_t) : Prop :=
  build t' = _build_i_delete /\ process t' = _process_i /\ child_sa t' = None.

Definition continuing (t' : private_child_create_t) : Prop :=
  build t' = _build_i_multi_ke /\ process t' = _process_i_multi_ke.

(** The result of a failure path from the state [s]. *)
Definition failed_or_deleting (s : state) (st : status_t) (s' : state) : Prop :=
  st = SUCCESS \/
  (st = NEED_MORE /\ build (this s') = _build_i_delete /\
   process (this s') = process (this s) /\ child_sa (this s') = None).

Lemma failed_or_deleting_kept (s0 s : state) (st : status_t) (s' : state) :
  handlers_kept s0 s -> failed_or_deleting s st s' -> failed_or_deleting s0 st s'.
Proof.
  intros [_ Hp] [H|(H1 & H2 & H3 & H4)]; [left; exact H|right].
  repeat split; [assumption..| |assumption]. congruence.
Qed.

Lemma delete_failed_sa_status (s : state) :
  wp delete_failed_sa s (failed_or_deleting s).
Proof.
  unfold delete_failed_sa, failed_or_deleting.
  repeat wp_step; fields; auto 10.
Qed.

(** One step of a run along which the handlers are tracked: calls of
    methods that keep them are stepped over with their frame. *)
Ltac wp_kept_step :=
  lazymatch goal with
  | |- wp (bind ?m _) _ _ =>
      lazymatch m with
      | bind _ _ => apply wp_bind
      | ret _ => apply wp_bind
      | set _ => apply wp_bind
      | set_message _ => apply wp_bind
      | emit _ => apply wp_bind
      | get_this => apply wp_bind
      | get_message => apply wp_bind
      | deref _ => apply wp_bind
      | when _ _ => apply wp_bind
      | match _ with _ => _ end => apply wp_bind
      | delete_failed_sa =>
          apply wp_bind; eapply wp_mono; [apply delete_failed_sa_status|]; intros ? ? ?
      | _ =>
          apply wp_bind;
          eapply wp_mono; [apply (frame_wp handlers_kept); solve [auto with frames]|];
          intros ? ? ?
      end
  | |- wp delete_failed_sa _ _ =>
      eapply wp_mono; [apply delete_failed_sa_status|]; intros ? ? ?
  | |- wp (ret _) _ _ => wp_step
  | |- wp crash _ _ => wp_step
  | |- wp (set _) _ _ => wp_step
  | |- wp (set_message _) _ _ => wp_step
  | |- wp (emit _) _ _ => wp_step
  | |- wp get_this _ _ => wp_step
  | |- wp get_message _ _ => wp_step
  | |- wp (deref _) _ _ => wp_step
  | |- wp (when _ _) _ _ => wp_step
  | |- wp (match _ with _ => _ end) _ _ => wp_step
  | |- wp (let _ := _ in _) _ _ => wp_step
  | |- wp _ _ (fun _ s1 => wp _ s1 _) =>
      eapply wp_mono; [apply (frame_wp handlers_kept); solve [auto with frames]|];
      intros ? ? ?
  end; cbv beta.

(** Close a goal about the handlers from the frames collected on the way. *)
Ltac handlers_case :=
  repeat split; solve [reflexivity | congruence | assumption].

Ltac handlers_search :=
  first [ handlers_case
        | split; handlers_search
        | left; handlers_search
        | right; handlers_search ].

Ltac handlers_done :=
  cbv beta in *;
  unfold failed_or_deleting, handlers_kept, waiting, deleting, continuing in *; fields;
  repeat match goal with H : _ |- _ => progress fields_in H end;
  repeat match goal with
         | H : _ \/ _ |- _ => destruct H
         | H : _ /\ _ |- _ => destruct H
         end;
  subst; handlers_search.

Lemma key_exchange_done_and_install_i_status (ike_auth : bool) (s : state) :
  wp (key_exchange_done_and_install_i ike_auth) s (fun st s' =>
    st = SUCCESS \/
    (st = NEED_MORE /\ handlers_kept s s') \/
    (st = NEED_MORE /\ build (this s') = _build_i_delete /\
     process (this s') = process (this s) /\ child_sa (this s') = None)).
Proof.
  unfold key_exchange_done_and_install_i.
  repeat wp_kept_step; handlers_done.
Qed.

Lemma migrate_handlers (s : state) :
  wp migrate s (fun _ s' =>
    build (this s') = _build_i /\ process (this s') = _process_i /\
    retry (this s') = retry (this s)).
Proof.
  unfold migrate, clear_key_exchanges.
  repeat wp_step; fields; auto.
Qed.

(** A stage of [process_i] from the state [s]: it goes on with the handlers
    kept, or returns on a failure path or to retry. *)
Definition stage_result (s : state) (r : option status_t) (s' : state) : Prop :=
  match r with
  | None => handlers_kept s s'
  | Some st =>
      failed_or_deleting s st s' \/
      (st = NEED_MORE /\ waiting (this s') /\ retry (this s') = true)
  end.

Lemma set_state_retry (st : child_sa_state_t) (s : state) :
  wp (set_state st) s (fun _ s' => retry (this s') = retry (this s)).
Proof. unfold set_state, upd_sa. repeat wp_step; fields; reflexivity. Qed.

Lemma process_i_notify_retry (type : notify_type_t) (data : chunk_t) (s : state) :
  wp (process_i_notify type data) s (fun r s' =>
    r = Some NEED_MORE -> waiting (this s') /\ retry (this s') = true).
Proof.
  unfold process_i_notify.
  destruct (is_child_error_notify type); [repeat wp_status_step; discriminate|].
  destruct (type =? TEMPORARY_FAILURE); [repeat wp_status_step; discriminate|].
  destruct (type =? INVALID_KE_PAYLOAD); [|repeat wp_status_step; discriminate].
  apply wp_bind, wp_get_this. cbv beta.
  destruct (aborted (this s)); [wp_step; discriminate|]. cbv zeta.
  destruct (retry (this s)); [repeat wp_status_step; discriminate|].
  apply wp_bind, wp_set. apply wp_bind, wp_set.
  apply wp_bind. eapply wp_mono; [apply set_state_retry|].
  intros u s1 H1. fields_in H1.
  apply wp_bind. eapply wp_mono; [apply migrate_handlers|].
  intros u' s2 (Hb & Hp & Hr). wp_step. intros _. unfold waiting.
  rewrite Hr, H1. auto.
Qed.

Lemma process_i_notify_status (type : notify_type_t) (data : chunk_t) (s : state) :
  wp (process_i_notify type data) s (stage_result s).
Proof.
  eapply wp_mono; [apply wp_and; [apply process_i_notify_retry|]|].
  - unfold process_i_notify.
    instantiate (1 := fun r s' =>
      match r with
      | None => handlers_kept s s'
      | Some st => st = SUCCESS \/ st = NEED_MORE
      end).
    repeat wp_kept_step; try handlers_done.
    apply wp_bind. wp_skip. wp_step. now right.
  - cbv beta. intros [st|] s' [H1 H2]; unfold stage_result; [|exact H2].
    destruct H2 as [-> | ->]; [left; now left|right].
    split; [reflexivity|]. apply H1. reflexivity.
Qed.

Lemma process_i_notifies_status (pls : list payload_t) (s : state) :
  wp (process_i_notifies pls) s (stage_result s).
Proof.
  revert s. induction pls as [|p rest IH]; intros s; cbn [process_i_notifies].
  - wp_step. unfold stage_result. reflexivity.
  - assert (Hrest : wp (process_i_notifies rest) s (stage_result s)) by apply IH.
    destruct p; try exact Hrest.
    apply wp_bind. eapply wp_mono; [apply process_i_notify_status|].
    intros [st|] s1 H1; [wp_step; exact H1|].
    eapply wp_mono; [apply IH|].
    intros r s2 H2. unfold stage_result in *.
    destruct r as [st|]; [|etransitivity; eassumption].
    destruct H2 as [H2|H2]; [left|right; exact H2].
    eapply failed_or_deleting_kept; eassumption.
Qed.

Lemma stage_result_kept (s0 s : state) (r : option status_t) (s' : state) :
  handlers_kept s0 s -> stage_result s r s' -> stage_result s0 r s'.
Proof.
  intros Hk. unfold stage_result. destruct r as [st|].
  - intros [H|H]; [left; eapply failed_or_deleting_kept; eassumption|right; exact H].
  - intros H. etransitivity; eassumption.
Qed.

Lemma process_i_select_status (no_ke : bool) (s : state) :
  wp (process_i_select no_ke) s (stage_result s).
Proof.
  unfold process_i_select, stage_result.
  repeat wp_kept_step; handlers_done.
Qed.

Lemma process_i_ipcomp_status (s : state) :
  wp process_i_ipcomp s (stage_result s).
Proof.
  unfold process_i_ipcomp, stage_result.
  repeat wp_kept_step; handlers_done.
Qed.

Lemma process_i_finish_status (ike_auth : bool) (s : state) :
  build (this s) = _build_i ->
  wp (process_i_finish ike_auth) s (fun st s' =>
    st = SUCCESS \/
    (st = NEED_MORE /\
     ((build (this s') = _build_i_delete /\ process (this s') = process (this s) /\
       child_sa (this s') = None) \/
      continuing (this s')))).
Proof.
  intros Hb. unfold process_i_finish.
  repeat wp_kept_step; try handlers_done.
  apply wp_bind. eapply wp_mono; [apply key_exchange_done_and_install_i_status|].
  intros st1 s3 H3. cbv beta.
  repeat wp_kept_step;
    repeat match goal with
           | H : bool_decide _ = true |- _ => apply bool_decide_eq_true in H
           | H : bool_decide _ = false |- _ => apply bool_decide_eq_false in H
           end;
    handlers_done.
Qed.

(** What [process_i] returns for the message [m], leaving the task [t']. *)
Definition process_i_returns (m : message_t) (st : status_t)
    (t' : private_child_create_t) : Prop :=
  match exchange_type m with
  | IKE_SA_INIT =>
      (st = NEED_MORE /\ get_nonce_payload (payloads m) <> None /\ waiting t') \/
      (st = FAILED /\ get_nonce_payload (payloads m) = None)
  | CREATE_CHILD_SA =>
      st = SUCCESS \/
      (st = NEED_MORE /\
       ((waiting t' /\ retry t' = true) \/ deleting t' \/ continuing t'))
  | IKE_AUTH =>
      st = SUCCESS \/
      (st = NEED_MORE /\ (waiting t' \/ deleting t' \/ continuing t'))
  | _ => st = NEED_MORE /\ waiting t'
  end.

Lemma process_i_prologue_status (s : state) :
  build (this s) = _build_i -> process (this s) = _process_i ->
  wp process_i_prologue s (fun r s0 =>
    handlers_kept s s0 /\
    match r with
    | inl st => process_i_returns (message s) st (this s0)
    | inr _ =>
        exchange_type (message s) = CREATE_CHILD_SA \/ exchange_type (message s) = IKE_AUTH
    end).
Proof.
  intros Hb Hp.
  unfold process_i_prologue, get_nonce, get_exchange_type, process_i_returns.
  repeat wp_kept_step.
  all: try match goal with H : exchange_type _ = _ |- _ => rewrite H end.
  all: try (split; [handlers_done|]).
  all: handlers_done.
Qed.

(** X14. What the initiator's [process_i] returns to a task that still has
    its first handlers, and what the task does next.  For CREATE_CHILD_SA and
    IKE_AUTH it never fails the task: it returns SUCCESS or NEED_MORE.  With
    NEED_MORE the task has been handed over to [build_i_delete] with its
    CHILD_SA gone, or to the handlers of the additional key exchanges, or it
    keeps [build_i] and [process_i]: for CREATE_CHILD_SA only to retry with
    another key exchange method, for IKE_AUTH also to wait.  For IKE_SA_INIT
    it returns NEED_MORE if the response has a nonce payload and FAILED
    otherwise; for every other exchange type NEED_MORE. *)
Theorem process_i_status (s s' : state) (st : status_t) :
  build (this s) = _build_i ->
  process (this s) = _process_i ->
  process_i s = Some (st, s') ->
  process_i_returns (message s) st (this s').
Proof.
  intros Hb Hp Hrun.
  assert (H : wp process_i s (fun st s' => process_i_returns (message s) st (this s')));
    [|exact (H st s' Hrun)].
  assert (Hn : forall s0 st1 s1,
             handlers_kept s s0 ->
             (exchange_type (message s) = CREATE_CHILD_SA \/
              exchange_type (message s) = IKE_AUTH) ->
             stage_result s0 (Some st1) s1 ->
             process_i_returns (message s) st1 (this s1)).
  { intros s0 st1 s1 Hk Hx Hs. unfold process_i_returns. unfold stage_result in Hs.
    destruct Hx as [-> | ->]; handlers_done. }
  unfold process_i.
  apply wp_bind. eapply wp_mono; [apply process_i_prologue_status; assumption|].
  intros [st0|[no_ke ike_auth]] s0 [Hk H0]; cbv beta iota in *.
  { wp_step. exact H0. }
  apply wp_bind, wp_get_message. cbv beta.
  apply wp_bind. eapply wp_mono; [apply process_i_notifies_status|].
  intros [st1|] s1 H1; [wp_step; exact (Hn s0 st1 s1 Hk H0 H1)|].
  apply wp_bind. eapply wp_mono; [apply process_i_select_status|].
  intros [st2|] s2 H2;
    [wp_step; refine (Hn s1 st2 s2 _ H0 H2); etransitivity; eassumption|].
  apply wp_bind. eapply wp_mono; [apply process_i_ipcomp_status|].
  intros [st3|] s3 H3;
    [wp_step; refine (Hn s2 st3 s3 _ H0 H3); repeat (etransitivity; [eassumption|]);
     reflexivity|].
  unfold stage_result in H1, H2, H3.
  eapply wp_mono; [apply process_i_finish_status; handlers_done|].
  intros st4 s4 H4. cbv beta in H4.
  unfold process_i_returns. destruct H0 as [-> | ->]; handlers_done.
Qed.


(** ** What [build_payloads] writes and [process_payloads] reads *)

(** The proposals a task sends: all of its own as initiator, the selected
    one as responder. *)
Definition sent_proposals (t : private_child_create_t) : option (list proposal_t) :=
  if initiator t then proposals t else option_map (fun p => [p]) (proposal t).

(** The notify that announces a mode. *)
Definition mode_notify (m : ipsec_mode_t) : list payload_t :=
  match m with
  | MODE_TRANSPORT => [PLV2_NOTIFY USE_TRANSPORT_MODE chunk_empty]
  | MODE_BEET => [PLV2_NOTIFY USE_BEET_MODE chunk_empty]
  | _ => []
  end.

(** The notify that announces the lack of ESPv3 TFC padding. *)
Definition tfc_notify (supported : bool) : list payload_t :=
  if supported then [] else [PLV2_NOTIFY ESP_TFC_PADDING_NOT_SUPPORTED chunk_empty].

(** The payloads [process_payloads] passes by without reading them. *)
Definition passes_by (p : payload_t) : bool :=
  match p with
  | PLV2_NONCE _ | PLV2_DELETE _ _ | PLV2_OTHER _ => true
  | PLV2_NOTIFY type _ =>
      negb (type =? USE_TRANSPORT_MODE) && negb (type =? USE_BEET_MODE) &&
      negb (type =? IPCOMP_SUPPORTED) && negb (type =? ESP_TFC_PADDING_NOT_SUPPORTED)
  | _ => false
  end.

(** The mode a peer takes from the notify for the mode [m]. *)
Definition received_mode (m : ipsec_mode_t) : ipsec_mode_t :=
  match m with
  | MODE_TRANSPORT => MODE_TRANSPORT
  | MODE_BEET => if supports_extension E EXT_STRONGSWAN then MODE_BEET else MODE_TUNNEL
  | _ => MODE_TUNNEL
  end.

(** The payloads of an offer: the SA payload, the payloads [nl] passed by,
    the key exchange payload [kepl] if any, the selectors, and the notifies
    for the mode and the TFC padding. *)
Definition offer (props : list proposal_t) (nl kepl : list payload_t)
    (tsi_ tsr_ : list traffic_selector_t) (li lr : list sec_label_t)
    (md : ipsec_mode_t) (tfc : bool) : list payload_t :=
  PLV2_SECURITY_ASSOCIATION props :: nl ++ kepl ++
  [PLV2_TS_INITIATOR tsi_ li; PLV2_TS_RESPONDER tsr_ lr] ++
  mode_notify md ++ tfc_notify tfc.

(** At most one key exchange payload, of the method of [k] if there is a
    key exchange object [k]. *)
Definition ke_payload_of (k : option key_exchange_t) (kepl : list payload_t) : Prop :=
  (kepl = [] /\ k = None) \/
  exists method data,
    kepl = [PLV2_KEY_EXCHANGE method data] /\ forall k', k = Some k' -> method = get_method k'.

(** The nonce payload and the link that [build_payloads] puts between the
    SA payload and the key exchange payload. *)
Definition sent_passed (t : private_child_create_t) (exch : exchange_type_t)
  : list payload_t :=
  (if bool_decide (exch = CREATE_CHILD_SA) then [PLV2_NONCE (my_nonce t)] else []) ++
  (if chunk_ptr (link t) then [PLV2_NOTIFY ADDITIONAL_KEY_EXCHANGE (link t)] else []).

(** The key exchange payload [add_ke_payload] adds. *)
Definition sent_ke (t : private_child_create_t) : list payload_t :=
  match (match ke t with Some k => Some k | None => list.last (kes t) end) with
  | None => []
  | Some k =>
      match get_public_key E k with
      | None => []
      | Some pub => [PLV2_KEY_EXCHANGE (get_method k) pub]
      end
  end.

Lemma sent_passed_passes_by (t : private_child_create_t) (exch : exchange_type_t) :
  forallb passes_by (sent_passed t exch) = true.
Proof.
  unfold sent_passed. destruct (bool_decide _), (chunk_ptr _); reflexivity.
Qed.

Lemma sent_ke_payload (t : private_child_create_t) :
  (forall k, ke t = Some k -> get_public_key E k <> None) ->
  ke_payload_of (ke t) (sent_ke t).
Proof.
  intros Hpub. unfold sent_ke, ke_payload_of.
  destruct (ke t) as [k|] eqn:Hk.
  - specialize (Hpub k eq_refl).
    destruct (get_public_key E k) as [pub|]; [right|contradiction].
    exists (get_method k), pub. split; [reflexivity|]. intros k' [= ->]. reflexivity.
  - destruct (list.last (kes t)) as [k|]; [|left; split; reflexivity].
    destruct (get_public_key E k) as [pub|]; [right|left; split; reflexivity].
    exists (get_method k), pub. split; [reflexivity|]. intros k' [=].
Qed.

Lemma build_payloads_sends (s : state) :
  wp build_payloads s (fun ok s' =>
    ok = true -> exchange_type (message s) <> IKE_FOLLOWUP_KE ->
    (forall k, ke (this s) = Some k -> get_public_key E k <> None) /\
    exists props tsi_ tsr_,
      sent_proposals (this s) = Some props /\
      tsi (this s) = Some tsi_ /\ tsr (this s) = Some tsr_ /\
      exchange_type (message s') = exchange_type (message s) /\
      payloads (message s') =
        payloads (message s) ++
        offer props (sent_passed (this s) (exchange_type (message s))) (sent_ke (this s))
          tsi_ tsr_ (labels_of (label (child (this s))))
          (labels_of (label (child (this s)))) (mode (this s)) (kernel_esp_v3_tfc E)).
Proof.
  unfold build_payloads, add_ke_payload, get_exchange_type.
  repeat wp_step; intros Hok Hne; try discriminate Hok.
  1: { apply bool_decide_eq_true in Hx. contradiction. }
  all: split;
    [intros k' Hk';
     match goal with H : match ke _ with _ => _ end = _ |- _ => rewrite Hk' in H end;
     congruence|].
  all: unfold sent_proposals, offer, sent_passed, sent_ke, mode_notify, tfc_notify.
  all: repeat match goal with
              | H : negb _ = true |- _ => apply negb_true_iff in H
              | H : negb _ = false |- _ => apply negb_false_iff in H
              end.
  all: repeat match goal with H : _ = _ |- _ => rewrite H end.
  all: do 3 eexists; repeat split; try reflexivity.
  all: unfold add_notify, add_payload; cbn [payloads exchange_type app]; rewrite <- ?app_assoc;
    try reflexivity.
Qed.

(** The body of the loop of [process_payloads]. *)
Definition process_payload (payload : payload_t) : M unit :=
  match payload with
  | PLV2_SECURITY_ASSOCIATION props => set (upd_proposals (Some props))
  | PLV2_KEY_EXCHANGE method data => process_ke_payload method data
  | PLV2_TS_INITIATOR ts labels =>
      set (upd_tsi (Some ts)) ;;; set (upd_labels_i (Some labels))
  | PLV2_TS_RESPONDER ts labels =>
      set (upd_tsr (Some ts)) ;;; set (upd_labels_r (Some labels))
  | PLV2_NOTIFY type data => handle_notify type data
  | _ => ret tt
  end.

Lemma process_payloads_loop :
  process_payloads =
  (set (upd_mode MODE_TUNNEL) ;;;
   m <- get_message ;;
   for_each process_payload (payloads m)).
Proof. reflexivity. Qed.

Lemma runs_for_each_app {A} (f : A -> M unit) (l1 l2 : list A) (s : state)
    (Q : unit -> state -> Prop) :
  runs (for_each f l1) s (fun _ s1 => runs (for_each f l2) s1 Q) ->
  runs (for_each f (l1 ++ l2)) s Q.
Proof.
  revert s. induction l1 as [|x l1 IH]; intros s H; cbn [for_each app] in *.
  - destruct H as (u & s1 & [= _ <-] & H). exact H.
  - destruct H as (u & s2 & Hrun & H).
    unfold bind in Hrun. destruct (f x s) as [[u1 s1]|] eqn:Hf; [|discriminate].
    apply runs_bind. exists u1, s1. split; [exact Hf|].
    apply IH. exists u, s2. auto.
Qed.

Lemma runs_for_each_passes_by (l : list payload_t) (s : state)
    (Q : unit -> state -> Prop) :
  forallb passes_by l = true -> Q tt s -> runs (for_each process_payload l) s Q.
Proof.
  induction l as [|p l IH]; cbn [for_each forallb]; intros Hl HQ.
  - apply runs_ret. exact HQ.
  - apply andb_prop in Hl as [Hp Hl].
    apply runs_bind.
    assert (Hrun : process_payload p s = Some (tt, s)).
    { destruct p; try discriminate Hp; try reflexivity.
      cbn [passes_by] in Hp. unfold process_payload, handle_notify.
      repeat (apply andb_prop in Hp as [Hp ?]).
      repeat match goal with H : negb _ = true |- _ => apply negb_true_iff in H; rewrite H end.
      reflexivity. }
    exists tt, s. split; [exact Hrun|]. apply IH; assumption.
Qed.

(** The members of a task that an offer sets. *)
Definition offer_kept (s s' : state) : Prop :=
  proposals (this s') = proposals (this s) /\
  tsi (this s') = tsi (this s) /\ tsr (this s') = tsr (this s) /\
  labels_i (this s') = labels_i (this s) /\ labels_r (this s') = labels_r (this s) /\
  mode (this s') = mode (this s) /\ tfcv3 (this s') = tfcv3 (this s).

Lemma process_ke_payload_reads (received : key_exchange_method_t) (data : chunk_t)
    (s : state) (slot : key_exchange_slot_t) :
  key_exchanges (this s) !! ke_index (this s) = Some slot ->
  runs (process_ke_payload received data) s (fun _ s' =>
    offer_kept s s' /\
    (kx_meth slot = 0 \/ kx_meth slot = received -> ke_method (this s') = received)).
Proof.
  intros Hslot. unfold process_ke_payload, offer_kept.
  repeat (runs_step || runs_branch).
  all: split; [repeat split; reflexivity|]; intros Hm; try reflexivity.
  apply andb_prop in Hx as [H1 H2]. apply negb_true_iff in H1, H2.
  apply Z.eqb_neq in H1, H2. destruct Hm; contradiction.
Qed.

Lemma offer_kept_trans (s1 s2 s3 : state) :
  offer_kept s1 s2 -> offer_kept s2 s3 -> offer_kept s1 s3.
Proof.
  unfold offer_kept. intros (A1 & A2 & A3 & A4 & A5 & A6 & A7) (B1 & B2 & B3 & B4 & B5 & B6 & B7).
  repeat split; congruence.
Qed.

Lemma process_payloads_reads (r : private_child_create_t) (tr : list event)
    (exch : exchange_type_t) (pre : list payload_t) (props : list proposal_t)
    (nl kepl : list payload_t) (tsi_ tsr_ : list traffic_selector_t)
    (li lr : list sec_label_t) (md : ipsec_mode_t) (tfc : bool)
    (ko : option key_exchange_t) (slot : key_exchange_slot_t) :
  forallb passes_by pre = true ->
  forallb passes_by nl = true ->
  ke_payload_of ko kepl ->
  key_exchanges r !! ke_index r = Some slot ->
  runs process_payloads
    {| this := r;
       message := {| exchange_type := exch;
                     payloads := pre ++ offer props nl kepl tsi_ tsr_ li lr md tfc |};
       trace := tr |}
    (fun _ s' =>
       proposals (this s') = Some props /\
       tsi (this s') = Some tsi_ /\ tsr (this s') = Some tsr_ /\
       labels_i (this s') = Some li /\ labels_r (this s') = Some lr /\
       mode (this s') = received_mode md /\
       tfcv3 (this s') = tfcv3 r && tfc /\
       forall k, ko = Some k -> kx_meth slot = 0 \/ kx_meth slot = get_method k ->
                 ke_method (this s') = get_method k).
Proof.
  intros Hpre Hnl Hke Hslot.
  rewrite process_payloads_loop.
  apply runs_bind, runs_set. apply runs_bind, runs_get_message. cbv beta. fields.
  apply runs_for_each_app, runs_for_each_passes_by; [exact Hpre|].
  unfold offer. cbn [for_each]. apply runs_bind. cbn [process_payload]. apply runs_set.
  apply runs_for_each_app, runs_for_each_passes_by; [exact Hnl|].
  apply runs_for_each_app.
  match goal with |- runs _ ?s0 _ => set (s1 := s0) end.
  assert (Hk : runs (for_each process_payload kepl) s1 (fun _ s2 =>
            offer_kept s1 s2 /\
            forall k, ko = Some k -> kx_meth slot = 0 \/ kx_meth slot = get_method k ->
                      ke_method (this s2) = get_method k)).
  { destruct Hke as [[-> ->]|(method & data & -> & Hm)]; cbn [for_each].
    - apply runs_ret. split; [|discriminate]. unfold offer_kept. auto 10.
    - apply runs_bind. cbn [process_payload].
      eapply runs_mono; [apply (process_ke_payload_reads method data s1 slot); exact Hslot|].
      intros u s2 [Hkept Hmeth]. apply runs_ret. split; [exact Hkept|].
      intros k Hko Hs. rewrite <- (Hm k Hko) in *. auto. }
  eapply runs_mono; [exact Hk|]. clear Hk.
  intros u s2 [(K1 & K2 & K3 & K4 & K5 & K6 & K7) Hmeth]. subst s1. fields_in K1.
  fields_in K2. fields_in K3. fields_in K4. fields_in K5. fields_in K6. fields_in K7.
  cbn [for_each app]. apply runs_bind. cbn [process_payload].
  repeat runs_step.
  assert (Ht : handle_notify USE_TRANSPORT_MODE chunk_empty = set (upd_mode MODE_TRANSPORT))
    by reflexivity.
  assert (Hb : handle_notify USE_BEET_MODE chunk_empty =
               when (supports_extension E EXT_STRONGSWAN) (set (upd_mode MODE_BEET)))
    by reflexivity.
  assert (Hf : handle_notify ESP_TFC_PADDING_NOT_SUPPORTED chunk_empty =
               set (upd_tfcv3 false))
    by reflexivity.
  unfold received_mode.
  destruct md, tfc; cbn [mode_notify tfc_notify app for_each process_payload];
    rewrite ?Ht, ?Hb, ?Hf;
    repeat (runs_step || runs_branch);
    rewrite ?K1, ?K6, ?K7, ?andb_true_r, ?andb_false_r;
    repeat match goal with H : supports_extension _ _ = _ |- _ => rewrite H end;
    repeat split; try reflexivity; exact Hmeth.
Qed.


(** ** The responder names the error *)

(** A notify of an error type: those up to 16383, as [process_i] tells
    them from status notifies. *)
Definition is_error_notify (p : payload_t) : bool :=
  match p with
  | PLV2_NOTIFY type _ => Z.leb type 16383
  | _ => false
  end.

Definition names_error (m : message_t) : bool := existsb is_error_notify (payloads m).

(** The CHILD_SA of the task is installed and the task established. *)
Definition child_installed (t : private_child_create_t) : Prop :=
  established t = true /\
  exists sa, child_sa t = Some sa /\ sa_state sa = CHILD_INSTALLED.

(** The response tells the peer how the request ended. *)
Definition answered (s : state) : Prop :=
  child_installed (this s) \/ names_error (message s) = true.

Lemma names_error_add_notify (m : message_t) (flush : bool) (type : notify_type_t)
    (data : chunk_t) :
  Z.leb type 16383 = true -> names_error (add_notify m flush type data) = true.
Proof.
  intros H. unfold names_error, add_notify. cbn [payloads].
  rewrite existsb_app. cbn [existsb is_error_notify]. rewrite H.
  rewrite orb_true_r. reflexivity.
Qed.

Lemma names_error_add_payload (m : message_t) (p : payload_t) :
  names_error m = true -> names_error (add_payload m p) = true.
Proof.
  intros H. unfold names_error, add_payload in *. cbn [payloads].
  rewrite existsb_app, H. reflexivity.
Qed.

Lemma handle_child_sa_failure_same (s : state) :
  wp handle_child_sa_failure s (fun _ s' => this s' = this s /\ message s' = message s).
Proof. unfold handle_child_sa_failure. repeat wp_step; auto. Qed.

(** One step of a run of the responder: failures are followed to the
    notify they add, other calls are stepped over. *)
Ltac wp_answer_step :=
  lazymatch goal with
  | |- wp (bind ?m _) _ _ =>
      lazymatch m with
      | bind _ _ => apply wp_bind
      | ret _ => apply wp_bind
      | set _ => apply wp_bind
      | set_message _ => apply wp_bind
      | emit _ => apply wp_bind
      | get_this => apply wp_bind
      | get_message => apply wp_bind
      | deref _ => apply wp_bind
      | when _ _ => apply wp_bind
      | match _ with _ => _ end => apply wp_bind
      | handle_child_sa_failure =>
          apply wp_bind; eapply wp_mono; [apply handle_child_sa_failure_same|];
          intros ? ? [? ?]
      | install_child_sa =>
          apply wp_bind; eapply wp_mono; [apply install_child_sa_outcome_wp|];
          intros ? ? (_ & ? & _)
      | _ => apply wp_bind; wp_skip
      end
  | |- wp (ret _) _ _ => wp_step
  | |- wp crash _ _ => wp_step
  | |- wp (set _) _ _ => wp_step
  | |- wp (set_message _) _ _ => wp_step
  | |- wp (emit _) _ _ => wp_step
  | |- wp get_this _ _ => wp_step
  | |- wp get_message _ _ => wp_step
  | |- wp (deref _) _ _ => wp_step
  | |- wp (when _ _) _ _ => wp_step
  | |- wp (match _ with _ => _ end) _ _ => wp_step
  | |- wp (let _ := _ in _) _ _ => wp_step
  | |- wp _ _ (fun _ s1 => wp _ s1 _) => wp_skip
  end; cbv beta.

(** Close a goal of a failure path: the notify added last names the error. *)
Ltac answered_by_notify :=
  intros; unfold answered; right; fields;
  repeat match goal with H : message _ = _ |- _ => rewrite H end; fields;
  apply names_error_add_notify; reflexivity.

Lemma key_exchange_done_and_install_r_answers (ike_auth : bool) (s : state) :
  wp (key_exchange_done_and_install_r ike_auth) s (fun done s' =>
    done = true -> answered s').
Proof.
  unfold key_exchange_done_and_install_r.
  repeat wp_answer_step; try answered_by_notify; try discriminate.
  all: intros _; left; fields;
    match goal with H : SUCCESS = SUCCESS -> _ |- _ =>
      destruct (H eq_refl) as (He & (sa & Hsa & Hst & _) & _)
    end;
    split; [exact He|exists sa; auto].
Qed.

Lemma check_ke_method_r_answers (s : state) :
  wp check_ke_method_r s (fun ok s' => ok = false -> names_error (message s') = true).
Proof.
  unfold check_ke_method_r.
  repeat wp_answer_step; intros; try discriminate; fields;
    apply names_error_add_notify; reflexivity.
Qed.

Ltac wp_answer_step' :=
  lazymatch goal with
  | |- wp (bind (key_exchange_done_and_install_r _) _) _ _ =>
      apply wp_bind; eapply wp_mono; [apply key_exchange_done_and_install_r_answers|];
      intros ? ? ?; cbv beta
  | |- wp (bind check_ke_method_r _) _ _ =>
      apply wp_bind; eapply wp_mono; [apply check_ke_method_r_answers|];
      intros ? ? ?; cbv beta
  | _ => wp_answer_step
  end.

Ltac answered_done :=
  first [ answered_by_notify
        | intros; discriminate
        | intros; cbv beta in *;
          match goal with
          | H : ?d = true -> answered _, Hn : negb ?d = false |- _ =>
              apply H; apply negb_false_iff in Hn; exact Hn
          | H : ?d = false -> names_error _ = true, Hn : negb ?d = true |- _ =>
              unfold answered; right; apply H; apply negb_true_iff in Hn; exact Hn
          end
        | intros; unfold answered; right; fields; solve [auto]
        | intros; fields; solve [auto] ].

Lemma build_r_multi_ke_answers (s : state) :
  wp build_r_multi_ke s (fun st s' => st = SUCCESS -> answered s').
Proof.
  unfold build_r_multi_ke.
  repeat wp_answer_step'; answered_done.
Qed.

Lemma build_r_negotiate_answers (ike_auth : bool) (s : state) :
  wp (build_r_negotiate ike_auth) s (fun st s' => st = SUCCESS -> answered s').
Proof.
  unfold build_r_negotiate.
  repeat wp_answer_step'; answered_done.
Qed.

Lemma cp_failure_names_error (m : message_t) :
  existsb is_cp_failure_notify (payloads m) = true -> names_error m = true.
Proof.
  unfold names_error. induction (payloads m) as [|p l IH]; cbn [existsb]; [discriminate|].
  intros H. apply orb_prop in H as [H|H].
  - destruct p; try discriminate H. cbn [is_cp_failure_notify is_error_notify] in *.
    apply orb_prop in H as [H|H]; apply Z.eqb_eq in H; subst; reflexivity.
  - rewrite (IH H). apply orb_true_r.
Qed.

Lemma build_r_select_answers (no_ke : bool) (s : state) :
  wp (build_r_select no_ke) s (fun r s' => r = Some SUCCESS -> answered s').
Proof.
  unfold build_r_select.
  repeat wp_answer_step'; try answered_done.
  all: intros _; right;
    match goal with H : message _ = _ |- _ => rewrite H end; fields;
    apply cp_failure_names_error; assumption.
Qed.

Lemma build_r_prologue_answers (s : state) :
  exchange_type (message s) = CREATE_CHILD_SA ->
  wp build_r_prologue s (fun r s' => r = inl SUCCESS -> answered s').
Proof.
  intros Hx. unfold build_r_prologue, get_exchange_type.
  repeat wp_answer_step'; try congruence; answered_done.
Qed.

(** X16. The responder never ends a request without telling.  When
    [build_r] returns SUCCESS for a CREATE_CHILD_SA request, or
    [build_r_multi_ke] returns SUCCESS, then either the CHILD_SA is installed
    and the task established, or the response carries a notify of an error
    type. *)
Theorem responder_answers (s s' : state) :
  (exchange_type (message s) = CREATE_CHILD_SA /\ build_r s = Some (SUCCESS, s')) \/
  build_r_multi_ke s = Some (SUCCESS, s') ->
  child_installed (this s') \/ names_error (message s') = true.
Proof.
  intros [[Hx Hrun]|Hrun]; [|exact (build_r_multi_ke_answers s SUCCESS s' Hrun eq_refl)].
  assert (H : wp build_r s (fun st s' => st = SUCCESS -> answered s'));
    [|exact (H SUCCESS s' Hrun eq_refl)].
  unfold build_r.
  apply wp_bind. eapply wp_mono; [apply build_r_prologue_answers; exact Hx|].
  intros [st0|[no_ke ike_auth]] s0 H0; cbv beta iota in *.
  - wp_step. intros ->. auto.
  - apply wp_bind. eapply wp_mono; [apply build_r_select_answers|].
    intros [st1|] s1 H1; cbv beta in *.
    + wp_step. intros ->. auto.
    + apply build_r_negotiate_answers.
Qed.


(** ** What [build_i] returns *)

(** [request_kept s s']: from [s] to [s'] the task kept its SPI, its
    CHILD_SA object if it had one and its [build] handler, and the message
    its exchange type. *)
Definition request_kept (s s' : state) : Prop :=
  my_spi (this s') = my_spi (this s) /\
  (child_sa (this s) <> None -> child_sa (this s') <> None) /\
  build (this s') = build (this s) /\
  exchange_type (message s') = exchange_type (message s).

#[local] Instance request_kept_preorder : PreOrder request_kept.
Proof.
  split.
  - intros s. unfold request_kept. auto.
  - intros s1 s2 s3 (A1 & A2 & A3 & A4) (B1 & B2 & B3 & B4). unfold request_kept.
    repeat split; [congruence|auto|congruence|congruence].
Qed.

Ltac request_leaf :=
  intros; unfold request_kept, upd_in_child, add_notify, add_payload in *; fields;
  repeat split; try reflexivity; try congruence; try discriminate; auto.

Ltac frames_request := repeat (frame_step request_leaf).

Lemma generate_nonce_request_kept : frame request_kept generate_nonce.
Proof. unfold generate_nonce. frames_request. Qed.
#[local] Hint Resolve generate_nonce_request_kept : frames.

Lemma update_and_check_proposals_request_kept : frame request_kept update_and_check_proposals.
Proof. unfold update_and_check_proposals. frames_request. Qed.
#[local] Hint Resolve update_and_check_proposals_request_kept : frames.

Lemma add_ipcomp_notify_request_kept i : frame request_kept (add_ipcomp_notify i).
Proof. unfold add_ipcomp_notify. frames_request. Qed.
#[local] Hint Resolve add_ipcomp_notify_request_kept : frames.

Lemma generic_label_only_request_kept : frame request_kept generic_label_only.
Proof. unfold generic_label_only. frames_request. Qed.
#[local] Hint Resolve generic_label_only_request_kept : frames.

Lemma defer_child_sa_request_kept : frame request_kept defer_child_sa.
Proof. unfold defer_child_sa. frames_request. Qed.
#[local] Hint Resolve defer_child_sa_request_kept : frames.

Lemma check_for_duplicate_request_kept : frame request_kept check_for_duplicate.
Proof. unfold check_for_duplicate. frames_request. Qed.
#[local] Hint Resolve check_for_duplicate_request_kept : frames.

Lemma check_for_generic_label_request_kept : frame request_kept check_for_generic_label.
Proof. unfold check_for_generic_label. frames_request. Qed.
#[local] Hint Resolve check_for_generic_label_request_kept : frames.

Lemma build_i_child_sa_request_kept b : frame request_kept (build_i_child_sa b).
Proof. unfold build_i_child_sa. frames_request. Qed.
#[local] Hint Resolve build_i_child_sa_request_kept : frames.


(** The request is out: the task has an SPI and a CHILD_SA object and has
    let go of its offer, and the message has an SA payload. *)
Definition request_sent (t' : private_child_create_t) (m' : message_t) : Prop :=
  my_spi t' <> 0 /\ child_sa t' <> None /\
  tsi t' = None /\ tsr t' = None /\ proposals t' = None /\
  exists props, In (PLV2_SECURITY_ASSOCIATION props) (payloads m').

Lemma allocate_spi_allocates (s : state) :
  wp allocate_spi s (fun ok s' =>
    build (this s') = build (this s) /\
    exchange_type (message s') = exchange_type (message s) /\
    (ok = true -> my_spi (this s') <> 0 /\ child_sa (this s') <> None)).
Proof.
  unfold allocate_spi.
  repeat wp_step; repeat split; try reflexivity;
    first [apply Z.eqb_neq, negb_true_iff; assumption | congruence].
Qed.

Lemma build_payloads_offer (s : state) :
  wp build_payloads s (fun ok s' =>
    this s' = this s /\
    (ok = true -> exchange_type (message s) <> IKE_FOLLOWUP_KE ->
     exchange_type (message s') = exchange_type (message s) /\
     exists props, In (PLV2_SECURITY_ASSOCIATION props) (payloads (message s')))).
Proof.
  eapply wp_mono; [apply wp_and; [apply build_payloads_link|apply build_payloads_sends]|].
  cbv beta. intros ok s' [[Ht _] H]. split; [exact Ht|].
  intros Hok Hne. destruct (H Hok Hne) as (_ & props & tsi_ & tsr_ & _ & _ & _ & Hx & Hpl).
  split; [exact Hx|]. exists props. rewrite Hpl. apply in_or_app. right. unfold offer.
  now left.
Qed.

(** One step of a run of [build_i] along which the request is tracked. *)
Ltac wp_request_step :=
  lazymatch goal with
  | |- wp (bind ?m _) _ _ =>
      lazymatch m with
      | bind _ _ => apply wp_bind
      | ret _ => apply wp_bind
      | set _ => apply wp_bind
      | set_message _ => apply wp_bind
      | emit _ => apply wp_bind
      | get_this => apply wp_bind
      | get_message => apply wp_bind
      | deref _ => apply wp_bind
      | when _ _ => apply wp_bind
      | match _ with _ => _ end => apply wp_bind
      | (if _ then _ else _) => apply wp_bind
      | allocate_spi =>
          apply wp_bind; eapply wp_mono; [apply allocate_spi_allocates|];
          intros ? ? (? & ? & ?)
      | build_payloads =>
          apply wp_bind; eapply wp_mono; [apply build_payloads_offer|];
          intros ? ? (? & ?)
      | _ =>
          apply wp_bind;
          eapply wp_mono; [apply (frame_wp request_kept); solve [auto with frames]|];
          intros ? ? ?
      end
  | |- wp (ret _) _ _ => wp_step
  | |- wp crash _ _ => wp_step
  | |- wp (set _) _ _ => wp_step
  | |- wp (set_message _) _ _ => wp_step
  | |- wp (emit _) _ _ => wp_step
  | |- wp get_this _ _ => wp_step
  | |- wp get_message _ _ => wp_step
  | |- wp (deref _) _ _ => wp_step
  | |- wp (when _ _) _ _ => wp_step
  | |- wp (match _ with _ => _ end) _ _ => wp_step
  | |- wp (let _ := _ in _) _ _ => wp_step
  | |- wp _ _ (fun _ s1 => wp _ s1 _) =>
      eapply wp_mono; [apply (frame_wp request_kept); solve [auto with frames]|];
      intros ? ? ?
  end; cbv beta.

Ltac request_facts :=
  cbv beta in *; unfold request_kept, set_exchange_type in *; fields;
  repeat match goal with H : _ |- _ => progress fields_in H end;
  repeat match goal with
         | H : _ /\ _ |- _ => destruct H
         | H : andb _ _ = true |- _ => apply andb_prop in H
         | H : bool_decide _ = true |- _ => apply bool_decide_eq_true in H
         | H : bool_decide _ = false |- _ => apply bool_decide_eq_false in H
         | H : negb ?a = false |- _ => apply negb_false_iff in H; try subst a
         | H : negb ?a = true |- _ => apply negb_true_iff in H; try subst a
         | H : true = true -> _ |- _ => specialize (H eq_refl)
         | H : false = true -> _ |- _ => clear H
         | H : ?x <> IKE_FOLLOWUP_KE -> _, Hx : _ \/ _ |- _ =>
             let Hn := fresh "Hn" in
             assert (Hn : x <> IKE_FOLLOWUP_KE) by (destruct Hx; congruence);
             specialize (H Hn)
         end.

Ltac request_case :=
  solve [ reflexivity | congruence | assumption | auto
        | match goal with H : _ \/ _ |- _ => destruct H; congruence end ].

Ltac request_search :=
  first [ request_case
        | split; request_search
        | left; request_search
        | right; request_search ].

Ltac request_done :=
  request_facts; unfold request_sent;
  repeat match goal with H : this _ = _ |- _ => rewrite H in *; clear H end;
  fields; request_search.

Lemma build_i_send_status (no_ke : bool) (cfg : child_cfg_t) (s : state) :
  exchange_type (message s) = CREATE_CHILD_SA \/ exchange_type (message s) = IKE_AUTH ->
  wp (build_i_send no_ke cfg) s (fun st s' =>
    build (this s') = build (this s) /\
    ((st = SUCCESS /\ exchange_type (message s) = CREATE_CHILD_SA /\
      exchange_type (message s') = EXCHANGE_TYPE_UNDEFINED) \/
     st = FAILED \/
     (st = NEED_MORE /\ exchange_type (message s') = exchange_type (message s) /\
      request_sent (this s') (message s')))).
Proof.
  intros Hx. unfold build_i_send, get_exchange_type.
  repeat wp_request_step; request_done.
Qed.

(** What [build_i] returns for the message [m] to the task [t], leaving the
    task [t'] and the message [m']. *)
Definition build_i_returns (t : private_child_create_t) (m : message_t) (st : status_t)
    (t' : private_child_create_t) (m' : message_t) : Prop :=
  match exchange_type m with
  | IKE_SA_INIT =>
      (st = NEED_MORE /\ get_nonce_payload (payloads m) <> None) \/
      (st = FAILED /\ get_nonce_payload (payloads m) = None)
  | CREATE_CHILD_SA =>
      (st = SUCCESS /\ exchange_type m' = EXCHANGE_TYPE_UNDEFINED) \/
      st = FAILED \/
      (st = NEED_MORE /\ exchange_type m' = CREATE_CHILD_SA /\ request_sent t' m')
  | IKE_AUTH =>
      (st = DESTROY_ME /\ childless E = CHILDLESS_FORCE /\
       supports_extension E EXT_IKE_CHILDLESS = false /\ t' = t /\ m' = m) \/
      (st = NEED_MORE /\ build t' = build t /\ my_nonce t' = chunk_empty /\ m' = m) \/
      (st = FAILED /\ build t' = build_return_need_more) \/
      (st = NEED_MORE /\ build t' = build_return_need_more /\
       exchange_type m' = IKE_AUTH /\ request_sent t' m')
  | _ => st = NEED_MORE
  end.

Lemma build_i_prologue_status (s : state) :
  wp build_i_prologue s (fun r s0 =>
    match r with
    | inl st => build_i_returns (this s) (message s) st (this s0) (message s0)
    | inr _ =>
        exchange_type (message s0) = exchange_type (message s) /\
        ((exchange_type (message s) = CREATE_CHILD_SA /\ build (this s0) = build (this s)) \/
         (exchange_type (message s) = IKE_AUTH /\ build (this s0) = build_return_need_more))
    end).
Proof.
  unfold build_i_prologue, get_nonce, generate_nonce, defer_child_sa, generic_label_only,
    get_exchange_type, build_i_returns.
  repeat wp_step.
  all: try match goal with H : exchange_type _ = _ |- _ => rewrite H end.
  all: fields; auto 10.
  left. apply bool_decide_eq_true in Hx1. auto.
Qed.

(** X17. What the initiator's [build_i] returns.  SUCCESS is returned for
    CREATE_CHILD_SA only, and only with the exchange type of the message set
    to undefined, so that nothing is sent.  NEED_MORE for CREATE_CHILD_SA
    means the request is out: the task has a non-zero SPI and a CHILD_SA
    object and has let go of its proposals and selectors, and the message
    has kept its exchange type and has an SA payload.  For IKE_AUTH the same
    holds if the CHILD_SA is not deferred, with the build handler replaced
    so that the offer is sent only once; a deferred CHILD_SA leaves the
    message alone and clears the nonce, and DESTROY_ME is returned only if
    childless IKE_SAs are forced and the peer does not support them.  For
    IKE_SA_INIT the result is NEED_MORE if the message has a nonce payload
    and FAILED otherwise; for every other exchange type NEED_MORE. *)
Theorem build_i_status (s s' : state) (st : status_t) :
  build_i s = Some (st, s') ->
  build_i_returns (this s) (message s) st (this s') (message s').
Proof.
  intros Hrun.
  assert (H : wp build_i s (fun st s' =>
            build_i_returns (this s) (message s) st (this s') (message s')));
    [|exact (H st s' Hrun)].
  unfold build_i.
  apply wp_bind. eapply wp_mono; [apply build_i_prologue_status|].
  intros [st0|no_ke] s0 H0; cbv beta iota in *; [wp_step; exact H0|].
  destruct H0 as [Hm Hb].
  apply wp_bind.
  eapply wp_mono; [apply (frame_wp request_kept); solve [auto with frames]|].
  intros cfg s1 (K1 & K2 & K3 & K4). cbv beta.
  eapply wp_mono; [apply build_i_send_status; destruct Hb as [[Hx _]|[Hx _]]; [left|right];
                   congruence|].
  intros st1 s2 [Hb2 H2]. cbv beta. unfold build_i_returns.
  destruct Hb as [[Hx Hb]|[Hx Hb]]; rewrite Hx.
  - destruct H2 as [(-> & _ & H2)|[-> |(-> & H2 & H3)]]; auto.
    right. right. split; [reflexivity|]. split; [congruence|exact H3].
  - destruct H2 as [(_ & H2 & _)|[-> |(-> & H2 & H3)]]; [congruence| |].
    + right. right. left. split; [reflexivity|]. congruence.
    + right. right. right. split; [reflexivity|]. split; [congruence|].
      split; [congruence|exact H3].
Qed.


(** ** The key exchange method of a request *)

Lemma get_ke_payload_app (l1 l2 : list payload_t) :
  get_ke_payload (l1 ++ l2) =
  match get_ke_payload l1 with
  | Some x => Some x
  | None => get_ke_payload l2
  end.
Proof.
  induction l1 as [|p l1 IH]; [reflexivity|].
  cbn [app get_ke_payload]. destruct p; try exact IH. reflexivity.
Qed.

Lemma get_ke_payload_passes_by (l : list payload_t) :
  forallb passes_by l = true -> get_ke_payload l = None.
Proof.
  induction l as [|p l IH]; [reflexivity|]. cbn [forallb get_ke_payload].
  intros H. apply andb_prop in H as [Hp Hl]. destruct p; try discriminate Hp; auto.
Qed.

(** [method_kept s s']: from [s] to [s'] the task kept its key exchange
    method and objects, its retry flag and its configuration, and the
    message its first key exchange payload, if any. *)
Definition method_kept (s s' : state) : Prop :=
  ke_method (this s') = ke_method (this s) /\
  retry (this s') = retry (this s) /\
  ke (this s') = ke (this s) /\
  kes (this s') = kes (this s) /\
  config (this s') = config (this s) /\
  exchange_type (message s') = exchange_type (message s) /\
  get_ke_payload (payloads (message s')) = get_ke_payload (payloads (message s)).

#[local] Instance method_kept_preorder : PreOrder method_kept.
Proof.
  split.
  - intros s. unfold method_kept. auto 10.
  - intros s1 s2 s3 (A1 & A2 & A3 & A4 & A5 & A6 & A7) (B1 & B2 & B3 & B4 & B5 & B6 & B7).
    unfold method_kept. repeat split; congruence.
Qed.

Ltac method_leaf :=
  intros; unfold method_kept, upd_in_child, add_notify, add_payload in *; fields;
  rewrite ?get_ke_payload_app; cbn [get_ke_payload];
  repeat split; try reflexivity; try congruence;
  match goal with |- match ?x with _ => _ end = _ => destruct x; reflexivity end.

Ltac frames_method := repeat (frame_step method_leaf).

Lemma generate_nonce_method_kept : frame method_kept generate_nonce.
Proof. unfold generate_nonce. frames_method. Qed.
#[local] Hint Resolve generate_nonce_method_kept : frames.

Lemma allocate_spi_method_kept : frame method_kept allocate_spi.
Proof. unfold allocate_spi. frames_method. Qed.
#[local] Hint Resolve allocate_spi_method_kept : frames.

Lemma update_and_check_proposals_method_kept : frame method_kept update_and_check_proposals.
Proof. unfold update_and_check_proposals. frames_method. Qed.
#[local] Hint Resolve update_and_check_proposals_method_kept : frames.

Lemma add_ipcomp_notify_method_kept i : frame method_kept (add_ipcomp_notify i).
Proof. unfold add_ipcomp_notify. frames_method. Qed.
#[local] Hint Resolve add_ipcomp_notify_method_kept : frames.

Lemma generic_label_only_method_kept : frame method_kept generic_label_only.
Proof. unfold generic_label_only. frames_method. Qed.
#[local] Hint Resolve generic_label_only_method_kept : frames.

Lemma check_for_duplicate_method_kept : frame method_kept check_for_duplicate.
Proof. unfold check_for_duplicate. frames_method. Qed.
#[local] Hint Resolve check_for_duplicate_method_kept : frames.

Lemma check_for_generic_label_method_kept : frame method_kept check_for_generic_label.
Proof. unfold check_for_generic_label. frames_method. Qed.
#[local] Hint Resolve check_for_generic_label_method_kept : frames.

Lemma build_i_child_sa_method_kept b : frame method_kept (build_i_child_sa b).
Proof. unfold build_i_child_sa. frames_method. Qed.
#[local] Hint Resolve build_i_child_sa_method_kept : frames.


Lemma build_payloads_ke (s : state) :
  wp build_payloads s (fun ok s' =>
    this s' = this s /\
    (ok = true -> exchange_type (message s) <> IKE_FOLLOWUP_KE ->
     get_ke_payload (payloads (message s)) = None ->
     (forall k, ke (this s) = Some k -> get_public_key E k <> None) /\
     get_ke_payload (payloads (message s')) = get_ke_payload (sent_ke (this s)))).
Proof.
  eapply wp_mono; [apply wp_and; [apply build_payloads_link|apply build_payloads_sends]|].
  cbv beta. intros ok s' [[Ht _] H]. split; [exact Ht|].
  intros Hok Hne Hnone.
  destruct (H Hok Hne) as (Hpub & props & tsi_ & tsr_ & _ & _ & _ & _ & Hpl).
  split; [exact Hpub|].
  rewrite Hpl. unfold offer. rewrite get_ke_payload_app, Hnone. cbn [get_ke_payload].
  rewrite get_ke_payload_app, (get_ke_payload_passes_by _ (sent_passed_passes_by _ _)).
  rewrite get_ke_payload_app.
  destruct (get_ke_payload (sent_ke (this s))); [reflexivity|].
  unfold mode_notify, tfc_notify.
  destruct (mode (this s)), (kernel_esp_v3_tfc E); reflexivity.
Qed.

(** One step of a run of [build_i] along which the key exchange method is
    tracked. *)
Ltac wp_method_step :=
  lazymatch goal with
  | |- wp (bind ?m _) _ _ =>
      lazymatch m with
      | bind _ _ => apply wp_bind
      | ret _ => apply wp_bind
      | set _ => apply wp_bind
      | set_message _ => apply wp_bind
      | emit _ => apply wp_bind
      | get_this => apply wp_bind
      | get_message => apply wp_bind
      | deref _ => apply wp_bind
      | when _ _ => apply wp_bind
      | match _ with _ => _ end => apply wp_bind
      | (if _ then _ else _) => apply wp_bind
      | build_payloads =>
          apply wp_bind; eapply wp_mono; [apply build_payloads_ke|];
          intros ? ? (? & ?)
      | _ =>
          apply wp_bind;
          eapply wp_mono; [apply (frame_wp method_kept); solve [auto with frames]|];
          intros ? ? ?
      end
  | |- wp (ret _) _ _ => wp_step
  | |- wp crash _ _ => wp_step
  | |- wp (set _) _ _ => wp_step
  | |- wp (set_message _) _ _ => wp_step
  | |- wp (emit _) _ _ => wp_step
  | |- wp get_this _ _ => wp_step
  | |- wp get_message _ _ => wp_step
  | |- wp (deref _) _ _ => wp_step
  | |- wp (when _ _) _ _ => wp_step
  | |- wp (match _ with _ => _ end) _ _ => wp_step
  | |- wp (let _ := _ in _) _ _ => wp_step
  | |- wp _ _ (fun _ s1 => wp _ s1 _) =>
      eapply wp_mono; [apply (frame_wp method_kept); solve [auto with frames]|];
      intros ? ? ?
  end; cbv beta.

(** The method [build_i] offers for a CREATE_CHILD_SA: the one the task
    has, if it retries or has one, and the first of the configuration
    otherwise. *)
Definition method_to_offer (t : private_child_create_t) (cfg : child_cfg_t)
  : key_exchange_method_t :=
  if retry t || negb (ke_method t =? KE_NONE) then ke_method t
  else cfg_get_algorithm E cfg KEY_EXCHANGE_METHOD.

(** The message has a key exchange payload exactly if [method] is one, and
    then its first one is for [method]. *)
Definition offers_method (m : message_t) (method : key_exchange_method_t) : Prop :=
  (method = KE_NONE -> get_ke_payload (payloads m) = None) /\
  (method <> KE_NONE -> exists pub, get_ke_payload (payloads m) = Some (method, pub)).

Lemma offers_method_sent (t : private_child_create_t) (m' : message_t)
    (method : key_exchange_method_t) :
  (method = KE_NONE -> ke t = None /\ kes t = []) ->
  (method <> KE_NONE -> ke t = create_ke method /\ create_ke method <> None) ->
  (forall k, ke t = Some k -> get_public_key E k <> None) ->
  get_ke_payload (payloads m') = get_ke_payload (sent_ke t) ->
  offers_method m' method.
Proof.
  intros H1 H2 Hpub Hpl. unfold offers_method. rewrite Hpl. unfold sent_ke.
  split; intros Hm.
  - destruct (H1 Hm) as [-> ->]. reflexivity.
  - destruct (H2 Hm) as [Hk Hsome]. unfold create_ke in *.
    destruct (create_ke_supported E method); [|contradiction].
    specialize (Hpub _ Hk). rewrite Hk.
    destruct (get_public_key E _) as [pub|]; [|contradiction].
    exists pub. reflexivity.
Qed.

Ltac method_facts :=
  cbv beta in *; unfold method_kept in *; fields;
  repeat match goal with H : _ |- _ => progress fields_in H end;
  repeat match goal with
         | H : context [negb false] |- _ => progress cbn [negb andb] in H
         | H : _ /\ _ |- _ => destruct H
         | H : andb _ _ = true |- _ => apply andb_prop in H
         | H : bool_decide _ = true |- _ => apply bool_decide_eq_true in H
         | H : bool_decide _ = false |- _ => apply bool_decide_eq_false in H
         | H : negb ?a = false |- _ => apply negb_false_iff in H; try subst a
         | H : negb ?a = true |- _ => apply negb_true_iff in H; try subst a
         | H : true = true -> _ |- _ => specialize (H eq_refl)
         | H : false = true -> _ |- _ => clear H
         | H : (_ =? _) = true |- _ => apply Z.eqb_eq in H
         | H : (_ =? _) = false |- _ => apply Z.eqb_neq in H
         end.

Lemma create_ke_checked (method : key_exchange_method_t) :
  negb (method =? KE_NONE) && negb (non_null (create_ke method)) = false ->
  method <> KE_NONE -> create_ke method <> None.
Proof.
  intros H Hm. apply andb_false_iff in H as [H|H]; apply negb_false_iff in H.
  - apply Z.eqb_eq in H. contradiction.
  - destruct (create_ke method); [discriminate|discriminate H].
Qed.

Ltac method_premises :=
  repeat match goal with
         | H : ?x <> IKE_FOLLOWUP_KE -> _ |- _ =>
             let Hn := fresh "Hn" in
             assert (Hn : x <> IKE_FOLLOWUP_KE) by congruence; specialize (H Hn)
         | H : get_ke_payload ?l = None -> _ |- _ =>
             let Hn := fresh "Hn" in
             assert (Hn : get_ke_payload l = None) by congruence; specialize (H Hn)
         | H : _ /\ _ |- _ => destruct H
         end.

Ltac method_done :=
  method_facts; method_premises;
  repeat match goal with H : this _ = _ |- _ => rewrite H in *; clear H end;
  fields;
  split;
  [ unfold method_to_offer;
    match goal with
    | |- _ = (if retry ?t || negb (ke_method ?t =? KE_NONE) then _ else _) =>
        let Hr := fresh "Hr" in
        let Hm := fresh "Hm" in
        destruct (retry t) eqn:Hr; destruct (ke_method t =? KE_NONE) eqn:Hm;
        cbn [orb negb];
        first [apply Z.eqb_eq in Hm | apply Z.eqb_neq in Hm];
        congruence
    end
  | eapply offers_method_sent; cycle 3;
    [ eassumption
    | fields; intros; split; congruence
    | fields; intros; split;
      [ congruence
      | match goal with
        | Hc : negb (?m =? KE_NONE) && negb (non_null (create_ke ?m)) = false |- _ =>
            first [ apply (create_ke_checked m Hc); congruence
                  | replace (create_ke _) with (create_ke m) by congruence;
                    apply (create_ke_checked m Hc); congruence ]
        | _ => congruence
        end ]
    | fields; assumption ] ].

Lemma build_i_send_method (cfg : child_cfg_t) (s : state) :
  exchange_type (message s) = CREATE_CHILD_SA ->
  ke (this s) = None -> kes (this s) = [] ->
  get_ke_payload (payloads (message s)) = None ->
  wp (build_i_send false cfg) s (fun st s' =>
    st = NEED_MORE ->
    ke_method (this s') = method_to_offer (this s) cfg /\
    offers_method (message s') (ke_method (this s'))).
Proof.
  intros Hx Hke Hkes Hnone. unfold build_i_send, get_exchange_type.
  repeat wp_method_step; intros Hst; try discriminate Hst.
  all: method_done.
Qed.

Lemma build_i_prologue_method (s : state) :
  exchange_type (message s) = CREATE_CHILD_SA ->
  wp build_i_prologue s (fun r s0 =>
    match r with
    | inl st => st <> NEED_MORE
    | inr no_ke => no_ke = false /\ method_kept s s0
    end).
Proof.
  intros Hx. unfold build_i_prologue, generate_nonce, get_exchange_type.
  repeat wp_step; try congruence; try discriminate.
  all: split; [reflexivity|]; unfold method_kept; fields; auto 10.
Qed.

Lemma build_i_child_sa_config (no_ke : bool) (s : state) :
  wp (build_i_child_sa no_ke) s (fun cfg _ => config (this s) = Some cfg).
Proof.
  unfold build_i_child_sa.
  repeat wp_method_step; assumption.
Qed.

(** X18. The key exchange method of a CREATE_CHILD_SA request.  When
    [build_i] sends the request of a task without key exchange objects, the
    task ends with the method it had if it retries or had one, and with the
    first method of its configuration otherwise; and the request has a key
    exchange payload exactly if that method is not KE_NONE, for that
    method.  So a retry offers the method the peer asked for, and a retry
    with KE_NONE sends no key exchange payload. *)
Theorem build_i_offers_method (s s' : state) (cfg : child_cfg_t) :
  build_i s = Some (NEED_MORE, s') ->
  exchange_type (message s) = CREATE_CHILD_SA ->
  config (this s) = Some cfg ->
  ke (this s) = None ->
  kes (this s) = [] ->
  get_ke_payload (payloads (message s)) = None ->
  ke_method (this s') = method_to_offer (this s) cfg /\
  offers_method (message s') (ke_method (this s')).
Proof.
  intros Hrun Hx Hcfg Hke Hkes Hnone.
  assert (H : wp build_i s (fun st s' =>
            st = NEED_MORE ->
            ke_method (this s') = method_to_offer (this s) cfg /\
            offers_method (message s') (ke_method (this s'))));
    [|exact (H NEED_MORE s' Hrun eq_refl)].
  unfold build_i.
  apply wp_bind. eapply wp_mono; [apply build_i_prologue_method; exact Hx|].
  intros [st0|no_ke] s0 H0; cbv beta iota in *; [wp_step; intros ->; contradiction|].
  destruct H0 as [-> (K1 & K2 & K3 & K4 & K5 & K6 & K7)].
  apply wp_bind.
  eapply wp_mono;
    [apply wp_and;
     [apply (frame_wp method_kept); solve [auto with frames]
     |apply build_i_child_sa_config]|].
  cbv beta. intros cfg' s1 [(L1 & L2 & L3 & L4 & L5 & L6 & L7) Hc].
  assert (cfg' = cfg) as -> by congruence.
  eapply wp_mono; [apply build_i_send_method; congruence|].
  cbv beta. intros st s2 H2 Hst. destruct (H2 Hst) as [Hm Ho].
  split; [|exact Ho]. rewrite Hm. unfold method_to_offer. rewrite L1, L2, K1, K2.
  reflexivity.
Qed.


(** ** The proposals of a request *)

(** A proposal of the task as [update_and_check_proposals] offers it: with
    the SPI of the task and the method moved to the front, and whether it
    has the method. *)
Definition offered (spi : Z) (method : key_exchange_method_t) (p : proposal_t)
  : bool * proposal_t :=
  promote_transform (set_spi p spi) KEY_EXCHANGE_METHOD method.

Lemma update_proposals_loop_partition (spi : Z) (method : key_exchange_method_t)
    (props : list proposal_t) :
  update_proposals_loop spi method props =
  if method =? KE_NONE
  then (List.map (fun p => set_spi p spi) props, [], false)
  else (List.map snd (List.filter fst (List.map (offered spi method) props)),
        List.map snd (List.filter (fun x => negb (fst x)) (List.map (offered spi method) props)),
        List.existsb fst (List.map (offered spi method) props)).
Proof.
  induction props as [|p props IH]; cbn [update_proposals_loop].
  - destruct (method =? KE_NONE); reflexivity.
  - rewrite IH. destruct (method =? KE_NONE) eqn:Hm; cbn [negb].
    + reflexivity.
    + cbn [List.map List.filter List.existsb].
      change (promote_transform (set_spi p spi) KEY_EXCHANGE_METHOD method)
        with (offered spi method p).
      destruct (offered spi method p) as [ok p'].
      destruct ok; reflexivity.
Qed.

(** X19. [update_and_check_proposals] drops no proposal and sorts them in a
    stable way.  Without a key exchange method every proposal gets the SPI
    of the task, the order is kept and the result is TRUE.  With a method,
    the proposals that have it come first, then those that lack it, each
    group in its order, every proposal with the SPI of the task; the result
    is TRUE exactly if some proposal has the method. *)
Theorem update_and_check_proposals_partition (s : state) (props : list proposal_t) :
  proposals (this s) = Some props ->
  exists props',
    update_and_check_proposals s =
      Some (if ke_method (this s) =? KE_NONE then true
            else List.existsb fst
                   (List.map (offered (my_spi (this s)) (ke_method (this s))) props),
            {| this := upd_proposals (Some props') (this s);
               message := message s; trace := trace s |}) /\
    length props' = length props /\
    props' =
      if ke_method (this s) =? KE_NONE
      then List.map (fun p => set_spi p (my_spi (this s))) props
      else List.map snd
             (List.filter fst
                (List.map (offered (my_spi (this s)) (ke_method (this s))) props)) ++
           List.map snd
             (List.filter (fun x => negb (fst x))
                (List.map (offered (my_spi (this s)) (ke_method (this s))) props)).
Proof.
  intros Hp.
  exists (if ke_method (this s) =? KE_NONE
          then List.map (fun p => set_spi p (my_spi (this s))) props
          else List.map snd
                 (List.filter fst
                    (List.map (offered (my_spi (this s)) (ke_method (this s))) props)) ++
               List.map snd
                 (List.filter (fun x => negb (fst x))
                    (List.map (offered (my_spi (this s)) (ke_method (this s))) props))).
  split; [|split; [|reflexivity]].
  - unfold update_and_check_proposals, bind, get_this, deref. rewrite Hp.
    unfold ret. cbv beta iota.
    rewrite update_proposals_loop_partition.
    destruct (ke_method (this s) =? KE_NONE); cbv beta iota; unfold set;
      rewrite ?app_nil_r; reflexivity.
  - destruct (ke_method (this s) =? KE_NONE).
    + now rewrite length_map.
    + rewrite length_app, !length_map.
      rewrite <- (length_map (offered (my_spi (this s)) (ke_method (this s))) props).
      generalize (List.map (offered (my_spi (this s)) (ke_method (this s))) props).
      intros l. induction l as [|x l IH]; [reflexivity|].
      cbn [List.filter length]. destruct (fst x); cbn [negb length]; lia.
Qed.

End child_create.

(** * Histories of a task *)

(** A history: the methods called on a task one after the other, each with
    the environment it runs in and the message it is given. *)
Definition history : Type := list (env * method_call * message_t).

Fixpoint run_history (h : history) (t : private_child_create_t)
  : option private_child_create_t :=
  match h with
  | [] => Some t
  | (E, c, m) :: h' =>
      match call E c {| this := t; message := m; trace := [] |} with
      | Some (_, s') => run_history h' (this s')
      | None => None
      end
  end.

Lemma run_history_evolves (h : history) (t t' : private_child_create_t) :
  run_history h t = Some t' -> evolves t t'.
Proof.
  revert t. induction h as [|[[E c] m] h IH]; intros t; simpl.
  - intros [= <-]. reflexivity.
  - destruct (call E c _) as [[u s']|] eqn:Hc; [|discriminate].
    intros Hh. etransitivity; [|exact (IH _ Hh)].
    exact (call_preserves E c _ _ _ Hc).
Qed.

(** C10.  Whatever methods are called on a task, [get_config] returns NULL
    if the task was created without a configuration, also after
    [set_config] has stored one; so a task whose [get_config] returns a
    configuration was created with one. *)
Theorem get_config_responder (cfg : option child_cfg_t) (rekey_ : bool)
    (tsi_ tsr_ : option traffic_selector_t) (h : history) (t : private_child_create_t) :
  run_history h (child_create_create cfg rekey_ tsi_ tsr_) = Some t ->
  (cfg = None -> get_config t = None) /\
  (get_config t <> None -> cfg <> None).
Proof.
  intros Hh. apply run_history_evolves in Hh as (Hi & _).
  unfold get_config. rewrite Hi. destruct cfg; simpl.
  - split; [discriminate | intros _; discriminate].
  - split; [reflexivity | intros H; contradiction].
Qed.

(** * Concrete runs *)

Definition ts0 : traffic_selector_t :=
  {| ts_protocol := 0; ts_from_port := 0; ts_to_port := 65535;
     ts_from_addr := 167837696; ts_to_addr := 167903231 |}.

(** An ESP proposal with x25519 (31) as key exchange method. *)
Definition proposal0 : proposal_t :=
  {| prop_protocol := PROTO_ESP; prop_spi := 51966;
     prop_transforms := [(1, 12); (3, 12); (KEY_EXCHANGE_METHOD, 31)] |}.

(** An ESP proposal with x25519 and additional key exchanges 1 and 3, but
    not 2. *)
Definition proposal_gap : proposal_t :=
  {| prop_protocol := PROTO_ESP; prop_spi := 51966;
     prop_transforms := [(1, 12); (KEY_EXCHANGE_METHOD, 31);
                         (ADDITIONAL_KEY_EXCHANGE_1, 35);
                         (ADDITIONAL_KEY_EXCHANGE_3, 36)] |}.

Definition keys0 : child_keys_t :=
  {| encr_i := [x01]; integ_i := [x02]; encr_r := [x03]; integ_r := [x04] |}.

(** An environment: an established IKE_SA with the CHILD_SAs [sas], a
    kernel whose install of an inbound SA returns [inbound_status] and which
    otherwise succeeds, and a configuration that accepts what is offered. *)
Definition env_of (sas : list child_sa_t) (inbound_status : status_t) : env :=
  {| get_my_host := 1;
     get_other_host := 2;
     has_condition := fun c => match c with COND_AUTHENTICATED => true | _ => false end;
     supports_extension := fun _ => false;
     ike_get_state := IKE_ESTABLISHED;
     ike_get_if_id := fun _ => 0;
     ike_child_sas := sas;
     ike_sa_get_dynamic_hosts := fun local => if local then [1] else [2];
     childless := CHILDLESS_ALLOW;
     get_peer_cfg := true;
     virtual_ips := [];
     peer_select_child_cfg := fun _ _ _ _ _ _ => Some 1;
     cfg_equals := Z.eqb;
     cfg_get_label := fun _ => None;
     cfg_get_label_mode := fun _ => SEC_LABEL_MODE_SYSTEM;
     cfg_get_proposals := fun _ _ => [proposal0];
     cfg_get_mode := fun _ => MODE_TUNNEL;
     cfg_get_algorithm := fun _ _ => 31;
     cfg_has_option := fun _ _ => false;
     cfg_get_inactivity := fun _ => 0;
     cfg_select_proposal := fun _ props _ _ _ => head props;
     cfg_select_label := fun _ _ => Some None;
     cfg_get_traffic_selectors := fun _ _ supplied _ => default [ts0] supplied;
     create_nonce_gen := true;
     allocate_nonce := Some [x0a; x0b; x0c; x0d];
     create_ke_supported := fun _ => true;
     derive_child_keys := fun _ _ _ _ => Some keys0;
     set_public_key := fun _ _ => true;
     get_public_key := fun _ => Some [xaa; xbb];
     child_sa_create := fun my other cfg data =>
       {| sa_config := cfg; sa_unique_id := 7; sa_reqid := reqid data;
          sa_mark_in := mark_in data; sa_mark_out := mark_out data;
          sa_if_id_in := if_id_in data; sa_if_id_out := if_id_out data;
          sa_label := label data; sa_state := CHILD_CREATED; sa_ipcomp := IPCOMP_NONE;
          sa_mode := MODE_TUNNEL; sa_protocol := PROTO_ESP; sa_proposal := None;
          sa_my_host := my; sa_other_host := other; sa_encap := encap data;
          sa_my_ts := []; sa_other_ts := [] |};
     alloc_spi := fun _ => 3405691582;
     alloc_cpi := 0;
     install := fun _ _ _ _ _ inbound _ => if inbound then inbound_status else SUCCESS;
     register_outbound := fun _ _ _ _ _ _ => SUCCESS;
     install_policies := SUCCESS;
     kernel_esp_v3_tfc := true;
     ref_reqid := fun _ => SUCCESS;
     is_host := fun _ _ => false;
     to_subnet := fun ts => ts_from_addr ts;
     set_address := fun ts _ => ts;
     host_create_any := fun _ => 0;
     narrow := fun _ my other => (my, other);
     inactivity_close_ike := false;
     accept_private_algs := false;
     prefer_configured_proposals := true;
     close_ike_on_child_failure := false;
     random := 4;
     RETRY_INTERVAL := 15;
     RETRY_JITTER := 10 |}.

Definition env0 : env := env_of [] SUCCESS.

Definition message0 (e : exchange_type_t) (pls : list payload_t) : message_t :=
  {| exchange_type := e; payloads := pls |}.

Definition state_of (t : private_child_create_t) (m : message_t) : state :=
  {| this := t; message := m; trace := [] |}.

(** The state a run ends in, or the state it started from if it does not
    return. *)
Definition final {A} (m : M A) (s : state) : state :=
  match m s with
  | Some (_, s') => s'
  | None => s
  end.

(** An initiator that is about to install: it has allocated its SPI, sent
    its offer and selected the proposal of the peer. *)
Definition initiator_installing : private_child_create_t :=
  upd_kes [{| kx_method := 31; kx_peer_public := Some [xaa] |}]
    (upd_child_sa
       (Some (child_sa_create env0 1 2 1
                (child (child_create_create (Some 1) false None None))))
       (upd_other_spi 48879
          (upd_my_spi 3405691582
             (upd_proposal (Some proposal0)
                (upd_tsr (Some [ts0])
                   (upd_tsi (Some [ts0])
                      (upd_other_nonce [x05; x06]
                         (upd_my_nonce [x0a; x0b]
                            (child_create_create (Some 1) false None None))))))))).

Definition s_install : state := state_of initiator_installing (message0 CREATE_CHILD_SA []).

Definition s_installed : state := Eval vm_compute in final (install_child_sa env0) s_install.

Lemma install_child_sa_keys_witness :
  install_child_sa env0 s_install = Some (SUCCESS, s_installed) /\
  exists (p : proposal_t) (k : child_keys_t),
    proposal (this s_install) = Some p /\
    derive_child_keys env0 p (kes (this s_install)) [x0a; x0b] [x05; x06] = Some k /\
    List.filter is_sa_call (events_since s_install s_installed) =
    [ EvDeriveChildKeys p (kes (this s_install)) [x0a; x0b] [x05; x06];
      EvInstall (encr_r k) (integ_r k) 3405691582 0 true true true;
      EvInstall (encr_i k) (integ_i k) 48879 0 true false true ].
Proof.
  assert (Hrun : install_child_sa env0 s_install = Some (SUCCESS, s_installed))
    by reflexivity.
  split; [exact Hrun|].
  exact (install_child_sa_keys env0 s_install s_installed Hrun).
Defined.

(** The same initiator against a kernel that fails to install the inbound
    SA. *)
Definition env_inbound_fails : env := env_of [] FAILED.

Definition s_install_failed : state :=
  Eval vm_compute in final (install_child_sa env_inbound_fails) s_install.

(** C3 as the specification states it: after a failed inbound install, no
    call hands the outbound SA to the kernel. *)
Definition outbound_never_after_failed_inbound (E : env) (s : state) : Prop :=
  forall (st : status_t) (s' : state) (encr integ : chunk_t) (spi cpi : Z) (ini tfc : bool),
    install_child_sa E s = Some (st, s') ->
    In (EvInstall encr integ spi cpi ini true tfc) (events_since s s') ->
    install E encr integ spi cpi ini true tfc <> SUCCESS ->
    List.existsb is_outbound_call (events_since s s') = false.

Lemma outbound_installed_after_failed_inbound :
  ~ outbound_never_after_failed_inbound env_inbound_fails s_install.
Proof.
  intros H.
  specialize (H FAILED s_install_failed [x03] [x04] 3405691582 0 true true).
  assert (Hrun : install_child_sa env_inbound_fails s_install = Some (FAILED, s_install_failed))
    by reflexivity.
  specialize (H Hrun).
  assert (Hin : In (EvInstall [x03] [x04] 3405691582 0 true true true)
                   (events_since s_install s_install_failed))
    by (lazy; auto).
  specialize (H Hin).
  assert (Hf : install env_inbound_fails [x03] [x04] 3405691582 0 true true true <> SUCCESS)
    by (lazy; discriminate).
  specialize (H Hf). lazy in H. discriminate H.
Qed.

Lemma install_child_sa_inbound_failure_witness :
  install_child_sa env_inbound_fails s_install = Some (FAILED, s_install_failed) /\
  In (EvInstall [x03] [x04] 3405691582 0 true true true)
     (events_since s_install s_install_failed) /\
  install env_inbound_fails [x03] [x04] 3405691582 0 true true true <> SUCCESS /\
  (FAILED = FAILED /\
   List.existsb is_outbound_call (events_since s_install s_install_failed) = true /\
   List.existsb is_establishing_call (events_since s_install s_install_failed) = false /\
   established (this s_install_failed) = established (this s_install)).
Proof.
  assert (Hrun : install_child_sa env_inbound_fails s_install = Some (FAILED, s_install_failed))
    by reflexivity.
  assert (Hin : In (EvInstall [x03] [x04] 3405691582 0 true true true)
                   (events_since s_install s_install_failed))
    by (lazy; auto).
  assert (Hf : install env_inbound_fails [x03] [x04] 3405691582 0 true true true <> SUCCESS)
    by (lazy; discriminate).
  split; [exact Hrun|]. split; [exact Hin|]. split; [exact Hf|].
  exact (install_child_sa_inbound_failure env_inbound_fails s_install
           s_install_failed FAILED [x03] [x04] 3405691582 0 true true Hrun Hin Hf).
Defined.

(** Two nonces whose common prefix ties: the longer one is the peer's. *)
Definition task_tied_nonces : private_child_create_t :=
  upd_other_nonce [x01; x02] (upd_my_nonce [x01] (child_create_create (Some 1) false None None)).

Lemma get_lower_nonce_tie_returns_other :
  my_nonce task_tied_nonces <> [] /\ other_nonce task_tied_nonces <> [] /\
  ~ lower_nonce_as_specified (my_nonce task_tied_nonces) (other_nonce task_tied_nonces)
      (get_lower_nonce task_tied_nonces).
Proof.
  split; [discriminate|]. split; [discriminate|].
  intros (_ & _ & H). specialize (H eq_refl). lazy in H. discriminate H.
Qed.

(** A responder that has selected the proposal with the gap. *)
Definition s_gap : state :=
  state_of (upd_proposal (Some proposal_gap) (child_create_create None false None None))
    (message0 CREATE_CHILD_SA []).

Lemma determine_key_exchanges_packs_over_gap :
  plan_as_specified proposal_gap = None /\
  exists s',
    determine_key_exchanges s_gap = Some (tt, s') /\
    key_exchanges (this s') !! 2%nat =
      Some {| kx_type := ADDITIONAL_KEY_EXCHANGE_3; kx_meth := 36; kx_done := false |} /\
    key_exchanges (this s') <>
      overlay ((KEY_EXCHANGE_METHOD, 31) ::
               additional_prefix proposal_gap MAX_ADDITIONAL_KEY_EXCHANGES
                 ADDITIONAL_KEY_EXCHANGE_1)
        (key_exchanges (this s_gap)).
Proof.
  split; [lazy; reflexivity|].
  eexists. split; [lazy; reflexivity|].
  split; [lazy; reflexivity|]. lazy. discriminate.
Qed.

Lemma determine_key_exchanges_plan_witness :
  proposal (this s_gap) = Some proposal_gap /\
  length (key_exchanges (this s_gap)) = MAX_KEY_EXCHANGES /\
  determine_key_exchanges s_gap =
  Some (tt,
        {| this :=
             upd_key_exchanges
               (overlay [(KEY_EXCHANGE_METHOD, 31); (ADDITIONAL_KEY_EXCHANGE_1, 35);
                         (ADDITIONAL_KEY_EXCHANGE_3, 36)]
                  (key_exchanges (this s_gap)))
               (this s_gap);
           message := message s_gap;
           trace := trace s_gap |}).
Proof.
  assert (Hp : proposal (this s_gap) = Some proposal_gap) by reflexivity.
  assert (Hl : length (key_exchanges (this s_gap)) = MAX_KEY_EXCHANGES) by reflexivity.
  split; [exact Hp|]. split; [exact Hl|].
  exact (determine_key_exchanges_plan s_gap proposal_gap Hp Hl).
Defined.

(** An installed CHILD_SA of the IKE_SA with the static reqid 5; the one the
    task creates has no reqid yet. *)
Definition sa_installed : child_sa_t :=
  {| sa_config := 1; sa_unique_id := 3; sa_reqid := 5;
     sa_mark_in := 0; sa_mark_out := 0; sa_if_id_in := 0; sa_if_id_out := 0;
     sa_label := None; sa_state := CHILD_INSTALLED; sa_ipcomp := IPCOMP_NONE;
     sa_mode := MODE_TUNNEL; sa_protocol := PROTO_ESP; sa_proposal := Some proposal0;
     sa_my_host := 1; sa_other_host := 2; sa_encap := false;
     sa_my_ts := [ts0]; sa_other_ts := [ts0] |}.

Definition env_dup : env := env_of [sa_installed] SUCCESS.

Definition s_create : state :=
  state_of (child_create_create (Some 1) false None None) (message0 CREATE_CHILD_SA []).

Definition s_create0 : state := Eval vm_compute in final (build_i_prologue env_dup) s_create.

Definition s_create1 : state :=
  Eval vm_compute in final (build_i_child_sa env_dup false) s_create0.

Definition sa_mine : child_sa_t :=
  Eval vm_compute in child_sa_create env_dup 1 2 1 (child (this s_create1)).

Lemma sa_installed_is_duplicate :
  exists sa, In sa (ike_child_sas env_dup) /\ is_duplicate env_dup sa sa_mine.
Proof.
  exists sa_installed. split; [left; reflexivity|].
  unfold is_duplicate. repeat split; try reflexivity. right; left; reflexivity.
Qed.

Lemma build_i_duplicate_witness :
  rekey (this s_create) = false /\
  exchange_type (message s_create) = CREATE_CHILD_SA /\
  build_i_prologue env_dup s_create = Some (inr false, s_create0) /\
  build_i_child_sa env_dup false s_create0 = Some (1, s_create1) /\
  child_sa (this s_create1) = Some sa_mine /\
  (exists sa, In sa (ike_child_sas env_dup) /\ is_duplicate env_dup sa sa_mine) /\
  build_i env_dup s_create =
  Some (SUCCESS,
        {| this := this s_create1;
           message := {| exchange_type := EXCHANGE_TYPE_UNDEFINED;
                         payloads := payloads (message s_create) |};
           trace := trace s_create1 |}).
Proof.
  assert (H1 : rekey (this s_create) = false) by reflexivity.
  assert (H2 : exchange_type (message s_create) = CREATE_CHILD_SA) by reflexivity.
  assert (H3 : build_i_prologue env_dup s_create = Some (inr false, s_create0))
    by reflexivity.
  assert (H4 : build_i_child_sa env_dup false s_create0 = Some (1, s_create1))
    by reflexivity.
  assert (H5 : child_sa (this s_create1) = Some sa_mine) by reflexivity.
  repeat (split; [assumption|]).
  split; [exact sa_installed_is_duplicate|].
  exact (proj2 (build_i_duplicate env_dup s_create s_create0 s_create1 false 1 sa_mine
                  H1 H2 H3 H4 H5) sa_installed_is_duplicate).
Defined.

(** C6 as the specification states it fails here: the existing CHILD_SA has
    the reqid 5 and the new one none, so they are no duplicates in the words
    of the specification, yet the check finds a duplicate and the build
    stops. *)
Lemma duplicate_with_one_static_reqid :
  check_for_duplicate env_dup s_create1 = Some (true, s_create1) /\
  ~ (exists sa, In sa (ike_child_sas env_dup) /\
                is_duplicate_as_specified env_dup sa sa_mine).
Proof.
  split; [reflexivity|].
  intros (sa & [<- | []] & H).
  destruct H as (_ & _ & _ & _ & _ & _ & _ & [[H _] | H]); lazy in H; discriminate H.
Qed.

Definition history_set_config : history :=
  [(env0, Call_set_config (Some 7), message0 CREATE_CHILD_SA [])].

Lemma get_config_responder_witness :
  run_history history_set_config (child_create_create None false None None) =
  Some (upd_config (Some 7) (child_create_create None false None None)) /\
  config (upd_config (Some 7) (child_create_create None false None None)) = Some 7 /\
  ((@None child_cfg_t = None ->
    get_config (upd_config (Some 7) (child_create_create None false None None)) = None) /\
   (get_config (upd_config (Some 7) (child_create_create None false None None)) <> None ->
    @None child_cfg_t <> None)).
Proof.
  assert (H : run_history history_set_config (child_create_create None false None None) =
              Some (upd_config (Some 7) (child_create_create None false None None)))
    by reflexivity.
  split; [exact H|]. split; [reflexivity|].
  exact (get_config_responder None false None None history_set_config _ H).
Defined.

(** * INVALID_KE_PAYLOAD, at most one retry *)

(** C2 (as amended).  Let [process_i] come, in its loop over the notifies of
    a response, to an INVALID_KE_PAYLOAD notify.  By then it has taken the
    nonce of the peer from the nonce payload of a CREATE_CHILD_SA response
    and written nothing else.  If the task was not aborted and has not
    retried before, [process_i] takes the method to use from the notify data
    (read as a big-endian 16-bit number if the data has two bytes, KE_NONE
    otherwise), sets [retry], stores the method in [ke_method], sets the
    CHILD_SA to CHILD_RETRYING, migrates the task (which destroys the
    CHILD_SA and restores the handlers [build_i] and [process_i]) and
    returns NEED_MORE; whatever is called on the task afterwards, [retry]
    stays set.  If the task was not aborted and has retried before,
    [process_i] handles the failure of the CHILD_SA and returns SUCCESS
    with the task as the nonce left it: there is no second retry.  If the
    task was aborted, [process_i] returns SUCCESS at once, with the task as
    the nonce left it and the message as it was: it makes no call at all, so
    it neither retries nor handles a failure. *)
Theorem process_i_invalid_ke_payload (E : env) (s s0 : state) (no_ke ike_auth : bool)
    (pre post : list payload_t) (data : chunk_t) :
  process_i_prologue E s = Some (inr (no_ke, ike_auth), s0) ->
  payloads (message s) = pre ++ PLV2_NOTIFY INVALID_KE_PAYLOAD data :: post ->
  forallb (passed_over (exchange_type (message s))) pre = true ->
  (aborted (this s) = false -> retry (this s) = false -> child_sa (this s) <> None ->
   exists s',
     process_i E s = Some (NEED_MORE, s') /\
     retry (this s') = true /\ ke_method (this s') = requested_method data /\
     child_sa (this s') = None /\
     build (this s') = _build_i /\ process (this s') = _process_i /\
     events_since s s' = [EvSetState CHILD_RETRYING; EvDestroyChildSa] /\
     forall (h : history) (t : private_child_create_t),
       run_history h (this s') = Some t -> retry t = true) /\
  (aborted (this s) = false -> retry (this s) = true ->
   exists s',
     process_i E s = Some (SUCCESS, s') /\
     this s' = with_peer_nonce (this s) (message s) /\
     events_since s s' =
     [if bool_decide (exchange_type (message s) = IKE_AUTH) && close_ike_on_child_failure E
      then EvScheduleDeleteIkeSa 100
      else EvAlert ALERT_KEEP_ON_CHILD_SA_FAILURE]) /\
  (aborted (this s) = true ->
   exists s',
     process_i E s = Some (SUCCESS, s') /\
     this s' = with_peer_nonce (this s) (message s) /\
     retry (this s') = retry (this s) /\
     message s' = message s /\
     events_since s s' = []).
Proof.
  intros Hpro Hpl Hpre.
  destruct (process_i_prologue_frame E s _ _ Hpro)
    as (Hm & Htr & Ha0 & Hr0 & _ & Hsa0 & _).
  pose proof (process_i_prologue_task E s _ _ Hpro) as Htask. cbv beta iota in Htask.
  split; [|split].
  - intros Ha Hr Hsa. destruct (child_sa (this s)) as [sa|] eqn:Hsa'; [|contradiction].
    destruct (process_i_at_notify E s s0 no_ke ike_auth pre post INVALID_KE_PAYLOAD data
                (fun st s' =>
                   st = NEED_MORE /\
                   retry (this s') = true /\ ke_method (this s') = requested_method data /\
                   child_sa (this s') = None /\
                   build (this s') = _build_i /\ process (this s') = _process_i /\
                   trace s' = trace s ++ [EvSetState CHILD_RETRYING; EvDestroyChildSa])
                Hpro Hpl Hpre) as (st & s' & Hrun & -> & H1 & H2 & H3 & H4 & H5 & H6).
    { eapply runs_mono.
      - apply (process_i_notify_invalid_ke_first E s0 data sa); congruence.
      - intros r s' (-> & ? & ? & ? & ? & ? & ? & Ht). exists NEED_MORE.
        rewrite Htr in Ht. auto 10. }
    exists s'. repeat (split; [assumption|]). split.
    + unfold events_since. rewrite H6. by rewrite drop_app_length.
    + intros h t Hh. apply run_history_evolves in Hh as (_ & _ & Hh). auto.
  - intros Ha Hr.
    destruct (process_i_at_notify E s s0 no_ke ike_auth pre post INVALID_KE_PAYLOAD data
                (fun st s' =>
                   st = SUCCESS /\ this s' = this s0 /\
                   trace s' =
                   trace s ++
                   [if bool_decide (exchange_type (message s) = IKE_AUTH) &&
                       close_ike_on_child_failure E
                    then EvScheduleDeleteIkeSa 100
                    else EvAlert ALERT_KEEP_ON_CHILD_SA_FAILURE])
                Hpro Hpl Hpre) as (st & s' & Hrun & -> & H1 & H2).
    { eapply runs_mono.
      - apply (process_i_notify_invalid_ke_again E s0 data); congruence.
      - intros r s' (-> & ? & ? & Ht). exists SUCCESS.
        rewrite Htr, Hm in Ht. auto. }
    exists s'. split; [exact Hrun|]. split; [congruence|].
    unfold events_since. rewrite H2. by rewrite drop_app_length.
  - intros Ha.
    destruct (process_i_at_notify E s s0 no_ke ike_auth pre post INVALID_KE_PAYLOAD data
                (fun st s' => st = SUCCESS /\ s' = s0)
                Hpro Hpl Hpre) as (st & s' & Hrun & -> & ->).
    { eapply runs_mono.
      - apply runs_eq, (process_i_notify_invalid_ke_aborted E s0 data). congruence.
      - intros r s' [-> ->]. exists SUCCESS. auto. }
    exists s0. split; [exact Hrun|]. split; [exact Htask|]. split; [exact Hr0|].
    split; [exact Hm|].
    unfold events_since. rewrite Htr. apply drop_all.
Qed.

(** A response to the initiator's request that asks for another key
    exchange method (19, ecp256). *)
Definition message_invalid_ke : message_t :=
  message0 CREATE_CHILD_SA
    [PLV2_NONCE [x05; x06]; PLV2_NOTIFY INVALID_KE_PAYLOAD [x00; x13]].

Definition s_invalid_ke : state := state_of initiator_installing message_invalid_ke.

Definition s_invalid_ke0 : state :=
  Eval vm_compute in final (process_i_prologue env0) s_invalid_ke.

Lemma process_i_invalid_ke_payload_witness :
  process_i_prologue env0 s_invalid_ke = Some (inr (false, false), s_invalid_ke0) /\
  payloads (message s_invalid_ke) =
    [PLV2_NONCE [x05; x06]] ++ PLV2_NOTIFY INVALID_KE_PAYLOAD [x00; x13] :: [] /\
  forallb (passed_over (exchange_type (message s_invalid_ke))) [PLV2_NONCE [x05; x06]] = true /\
  aborted (this s_invalid_ke) = false /\
  retry (this s_invalid_ke) = false /\
  child_sa (this s_invalid_ke) <> None /\
  exists s',
    process_i env0 s_invalid_ke = Some (NEED_MORE, s') /\
    retry (this s') = true /\ ke_method (this s') = 19 /\
    child_sa (this s') = None /\
    build (this s') = _build_i /\ process (this s') = _process_i /\
    events_since s_invalid_ke s' = [EvSetState CHILD_RETRYING; EvDestroyChildSa] /\
    forall (h : history) (t : private_child_create_t),
      run_history h (this s') = Some t -> retry t = true.
Proof.
  assert (H1 : process_i_prologue env0 s_invalid_ke = Some (inr (false, false), s_invalid_ke0))
    by reflexivity.
  assert (H2 : payloads (message s_invalid_ke) =
               [PLV2_NONCE [x05; x06]] ++ PLV2_NOTIFY INVALID_KE_PAYLOAD [x00; x13] :: [])
    by reflexivity.
  assert (H3 : forallb (passed_over (exchange_type (message s_invalid_ke)))
                 [PLV2_NONCE [x05; x06]] = true) by reflexivity.
  assert (H4 : aborted (this s_invalid_ke) = false) by reflexivity.
  assert (H5 : retry (this s_invalid_ke) = false) by reflexivity.
  assert (H6 : child_sa (this s_invalid_ke) <> None) by discriminate.
  repeat (split; [assumption|]).
  exact (proj1 (process_i_invalid_ke_payload env0 s_invalid_ke s_invalid_ke0 false false
                  [PLV2_NONCE [x05; x06]] [] [x00; x13] H1 H2 H3) H4 H5 H6).
Defined.

(** C2 as the specification states it, for a response whose first notify is
    INVALID_KE_PAYLOAD: a task that has not retried retries. *)
Definition retries_as_specified (E : env) (s : state) : Prop :=
  retry (this s) = false ->
  exists s', process_i E s = Some (NEED_MORE, s') /\ retry (this s') = true.

(** The same response when the task has been aborted in the meantime. *)
Definition s_invalid_ke_aborted : state :=
  state_of (upd_aborted true initiator_installing) message_invalid_ke.

Lemma aborted_task_does_not_retry :
  initiator (this s_invalid_ke_aborted) = true /\
  retry (this s_invalid_ke_aborted) = false /\
  (exists s', process_i env0 s_invalid_ke_aborted = Some (SUCCESS, s') /\
              retry (this s') = false) /\
  ~ retries_as_specified env0 s_invalid_ke_aborted.
Proof.
  split; [reflexivity|]. split; [reflexivity|]. split.
  - eexists. split; reflexivity.
  - intros H. destruct (H eq_refl) as (s' & Hrun & _). lazy in Hrun. discriminate Hrun.
Qed.

(** * IPComp in a response *)

(** The environment [e] with a configuration that asks for IPComp and a
    kernel that allocates CPIs. *)
Definition with_ipcomp (e : env) : env :=
  {| get_my_host := get_my_host e;
     get_other_host := get_other_host e;
     has_condition := has_condition e;
     supports_extension := supports_extension e;
     ike_get_state := ike_get_state e;
     ike_get_if_id := ike_get_if_id e;
     ike_child_sas := ike_child_sas e;
     ike_sa_get_dynamic_hosts := ike_sa_get_dynamic_hosts e;
     childless := childless e;
     get_peer_cfg := get_peer_cfg e;
     virtual_ips := virtual_ips e;
     peer_select_child_cfg := peer_select_child_cfg e;
     cfg_equals := cfg_equals e;
     cfg_get_label := cfg_get_label e;
     cfg_get_label_mode := cfg_get_label_mode e;
     cfg_get_proposals := cfg_get_proposals e;
     cfg_get_mode := cfg_get_mode e;
     cfg_get_algorithm := cfg_get_algorithm e;
     cfg_has_option := fun _ o => match o with OPT_IPCOMP => true | _ => false end;
     cfg_get_inactivity := cfg_get_inactivity e;
     cfg_select_proposal := cfg_select_proposal e;
     cfg_select_label := cfg_select_label e;
     cfg_get_traffic_selectors := cfg_get_traffic_selectors e;
     create_nonce_gen := create_nonce_gen e;
     allocate_nonce := allocate_nonce e;
     create_ke_supported := create_ke_supported e;
     derive_child_keys := derive_child_keys e;
     set_public_key := set_public_key e;
     get_public_key := get_public_key e;
     child_sa_create := child_sa_create e;
     alloc_spi := alloc_spi e;
     alloc_cpi := 4660;
     install := install e;
     register_outbound := register_outbound e;
     install_policies := install_policies e;
     kernel_esp_v3_tfc := kernel_esp_v3_tfc e;
     ref_reqid := ref_reqid e;
     is_host := is_host e;
     to_subnet := to_subnet e;
     set_address := set_address e;
     host_create_any := host_create_any e;
     narrow := narrow e;
     inactivity_close_ike := inactivity_close_ike e;
     accept_private_algs := accept_private_algs e;
     prefer_configured_proposals := prefer_configured_proposals e;
     close_ike_on_child_failure := close_ike_on_child_failure e;
     random := random e;
     RETRY_INTERVAL := RETRY_INTERVAL e;
     RETRY_JITTER := RETRY_JITTER e |}.

(** A task as [build_i] leaves it after the request for a new CHILD_SA. *)
Definition fresh_initiator : state :=
  state_of (child_create_create (Some 1) false None None) (message0 CREATE_CHILD_SA []).

(** The response of a peer that accepts the offer, with the notifies
    [notifies]. *)
Definition response (notifies : list payload_t) : message_t :=
  message0 CREATE_CHILD_SA
    ([PLV2_SECURITY_ASSOCIATION [proposal0]; PLV2_NONCE [x05; x06];
      PLV2_KEY_EXCHANGE 31 [xcc];
      PLV2_TS_INITIATOR [ts0] []; PLV2_TS_RESPONDER [ts0] []] ++ notifies).

(** The initiator of environment [E] when the response arrives. *)
Definition awaiting (E : env) (notifies : list payload_t) : state :=
  state_of (this (final (build_i E) fresh_initiator)) (response notifies).

(** The initiator did not propose IPComp, the peer sends IPCOMP_SUPPORTED
    with DEFLATE. *)
Definition s_unrequested : state :=
  Eval vm_compute in awaiting env0 [PLV2_NOTIFY IPCOMP_SUPPORTED [x43; x21; x02]].

Definition s_unrequested0 : state :=
  Eval vm_compute in final (process_i_prologue env0) s_unrequested.

Definition s_unrequested1 : state :=
  Eval vm_compute in
    final (process_i_notifies env0 (payloads (message s_unrequested0))) s_unrequested0.

Definition s_unrequested2 : state :=
  Eval vm_compute in final (process_i_select env0 false) s_unrequested1.

Lemma process_i_ipcomp_check_witness :
  process_i_prologue env0 s_unrequested = Some (inr (false, false), s_unrequested0) /\
  process_i_notifies env0 (payloads (message s_unrequested0)) s_unrequested0 =
    Some (None, s_unrequested1) /\
  process_i_select env0 false s_unrequested1 = Some (None, s_unrequested2) /\
  child_sa (this s_unrequested2) <> None /\
  ipcomp (this s_unrequested2) = IPCOMP_NONE /\
  ipcomp_received (this s_unrequested2) <> IPCOMP_NONE /\
  child_sa_failed env0 s_unrequested2 (process_i env0 s_unrequested).
Proof.
  assert (H1 : process_i_prologue env0 s_unrequested =
               Some (inr (false, false), s_unrequested0)) by reflexivity.
  assert (H2 : process_i_notifies env0 (payloads (message s_unrequested0)) s_unrequested0 =
               Some (None, s_unrequested1)) by reflexivity.
  assert (H3 : process_i_select env0 false s_unrequested1 = Some (None, s_unrequested2))
    by reflexivity.
  assert (H4 : child_sa (this s_unrequested2) <> None) by discriminate.
  assert (H5 : ipcomp (this s_unrequested2) = IPCOMP_NONE) by reflexivity.
  assert (H6 : ipcomp_received (this s_unrequested2) <> IPCOMP_NONE) by discriminate.
  repeat (split; [assumption|]).
  exact (proj1 (process_i_ipcomp_check env0 s_unrequested s_unrequested0 s_unrequested1
                  s_unrequested2 false false H1 H2 H3 H4) H5 H6).
Defined.

(** The initiator proposed DEFLATE, the peer answers with IPCOMP_SUPPORTED
    for LZS. *)
Definition s_other_transform : state :=
  Eval vm_compute in
    awaiting (with_ipcomp env0) [PLV2_NOTIFY IPCOMP_SUPPORTED [x43; x21; x03]].

Definition s_other_transform_done : state :=
  Eval vm_compute in final (process_i (with_ipcomp env0)) s_other_transform.

(** The initiator did not propose IPComp, the peer sends IPCOMP_SUPPORTED
    for LZS. *)
Definition s_unrequested_lzs : state :=
  Eval vm_compute in awaiting env0 [PLV2_NOTIFY IPCOMP_SUPPORTED [x43; x21; x03]].

Definition s_unrequested_lzs_done : state :=
  Eval vm_compute in final (process_i env0) s_unrequested_lzs.

(** Whether the failure of a CHILD_SA was handled. *)
Definition is_failure (e : event) : bool :=
  match e with
  | EvScheduleDeleteIkeSa _ | EvAlert ALERT_KEEP_ON_CHILD_SA_FAILURE => true
  | _ => false
  end.

Lemma ipcomp_supported_with_other_transform :
  (ipcomp (this s_other_transform) = IPCOMP_DEFLATE /\
   In (PLV2_NOTIFY IPCOMP_SUPPORTED [x43; x21; byte_of_Z IPCOMP_LZS])
      (payloads (message s_other_transform)) /\
   process_i (with_ipcomp env0) s_other_transform = Some (SUCCESS, s_other_transform_done) /\
   established (this s_other_transform_done) = true /\
   ipcomp (this s_other_transform_done) = IPCOMP_NONE /\
   existsb is_failure (trace s_other_transform_done) = false) /\
  (ipcomp (this s_unrequested_lzs) = IPCOMP_NONE /\
   In (PLV2_NOTIFY IPCOMP_SUPPORTED [x43; x21; byte_of_Z IPCOMP_LZS])
      (payloads (message s_unrequested_lzs)) /\
   process_i env0 s_unrequested_lzs = Some (SUCCESS, s_unrequested_lzs_done) /\
   established (this s_unrequested_lzs_done) = true /\
   existsb is_failure (trace s_unrequested_lzs_done) = false).
Proof.
  repeat split; try reflexivity; simpl; auto 10.
Qed.

(** * A request with an unacceptable key exchange method *)

(** A request for a CHILD_SA with a KE payload for the method [method]. *)
Definition request (method : key_exchange_method_t) : message_t :=
  message0 CREATE_CHILD_SA
    [PLV2_SECURITY_ASSOCIATION [proposal0]; PLV2_NONCE [x05; x06];
     PLV2_KEY_EXCHANGE method [xcc];
     PLV2_TS_INITIATOR [ts0] []; PLV2_TS_RESPONDER [ts0] []].

(** The responder after it has processed a request with ecp256 (19), when
    its configuration has x25519 (31) only. *)
Definition s_responder : state :=
  Eval vm_compute in
    state_of
      (this (final (process_r env0)
               (state_of (child_create_create None false None None) (request 19))))
      (message0 CREATE_CHILD_SA []).

Definition s_responder0 : state :=
  Eval vm_compute in final (build_r_prologue env0) s_responder.

Definition s_responder1 : state :=
  Eval vm_compute in final (build_r_select env0 false) s_responder0.

Lemma build_r_invalid_ke_payload_witness :
  build_r_prologue env0 s_responder = Some (inr (false, false), s_responder0) /\
  build_r_select env0 false s_responder0 = Some (None, s_responder1) /\
  proposal (this s_responder1) = Some proposal0 /\
  has_transform proposal0 KEY_EXCHANGE_METHOD (ke_method (this s_responder1)) = false /\
  get_algorithm proposal0 KEY_EXCHANGE_METHOD = Some 31 /\
  exists s',
    build_r env0 s_responder = Some (SUCCESS, s') /\
    this s' = this s_responder1 /\
    exchange_type (message s') = exchange_type (message s_responder1) /\
    payloads (message s') =
      payloads (message s_responder1) ++
      [PLV2_NOTIFY INVALID_KE_PAYLOAD (chunk_from_htons 31)] /\
    events_since s_responder1 s' = [] /\
    length (chunk_from_htons 31) = 2%nat /\
    (0 <= 31 < 65536 -> untoh16 (chunk_from_htons 31) = 31).
Proof.
  assert (H1 : build_r_prologue env0 s_responder = Some (inr (false, false), s_responder0))
    by reflexivity.
  assert (H2 : build_r_select env0 false s_responder0 = Some (None, s_responder1))
    by reflexivity.
  assert (H3 : proposal (this s_responder1) = Some proposal0) by reflexivity.
  assert (H4 : has_transform proposal0 KEY_EXCHANGE_METHOD (ke_method (this s_responder1)) =
               false) by reflexivity.
  assert (H5 : get_algorithm proposal0 KEY_EXCHANGE_METHOD = Some 31) by reflexivity.
  repeat (split; [assumption|]).
  exact (build_r_invalid_ke_payload env0 s_responder s_responder0 s_responder1 false false
           proposal0 31 H1 H2 H3 H4 H5).
Defined.

(** * A negotiation with several key exchanges *)

(** A request for a CHILD_SA with additional key exchanges. *)
Definition request_multi_ke : message_t :=
  message0 CREATE_CHILD_SA
    [PLV2_SECURITY_ASSOCIATION [proposal_gap]; PLV2_NONCE [x05; x06];
     PLV2_KEY_EXCHANGE 31 [xcc];
     PLV2_TS_INITIATOR [ts0] []; PLV2_TS_RESPONDER [ts0] []].

(** The responder when it builds the response to the request. *)
Definition s_first_round : state :=
  Eval vm_compute in
    state_of
      (this (final (process_r env0)
               (state_of (child_create_create None false None None) request_multi_ke)))
      (message0 CREATE_CHILD_SA []).

Definition s_first_round_done : state :=
  Eval vm_compute in final (build_r env0) s_first_round.

(** The first round: the response carries the link 0x42. *)
Example first_round_emits_link :
  link (this s_first_round) = chunk_empty /\
  build_r env0 s_first_round = Some (NEED_MORE, s_first_round_done) /\
  link (this s_first_round_done) = [x42] /\
  In (PLV2_NOTIFY ADDITIONAL_KEY_EXCHANGE [x42]) (payloads (message s_first_round_done)) /\
  build (this s_first_round_done) = _build_r_multi_ke /\
  process (this s_first_round_done) = _process_r_multi_ke.
Proof. repeat split; try reflexivity. simpl. auto. Qed.

(** The responder when a follow-up with the payloads [pls] arrives. *)
Definition followup (pls : list payload_t) : state :=
  state_of (this s_first_round_done) (message0 IKE_FOLLOWUP_KE pls).

(** A follow-up with the next key exchange but without the link. *)
Definition s_followup : state :=
  Eval vm_compute in followup [PLV2_KEY_EXCHANGE 35 [xdd]].

Definition s_followup1 : state :=
  Eval vm_compute in final (process_r_multi_ke env0) s_followup.

Lemma responder_link_witness :
  initiator (this s_followup) = false /\
  exchange_type (message s_followup) = IKE_FOLLOWUP_KE /\
  (ke_index (this s_followup) < length (key_exchanges (this s_followup)))%nat /\
  carries_link (this s_followup) (message s_followup) = false /\
  exists s1,
    process_r_multi_ke env0 s_followup = Some (NEED_MORE, s1) /\
    link (this s1) = chunk_empty /\
    rejection (this s1) = STATE_NOT_FOUND /\
    build_r_multi_ke env0
      {| this := this s1; message := message0 IKE_FOLLOWUP_KE []; trace := trace s1 |} =
    Some (SUCCESS,
          {| this := this s1;
             message := add_notify (message0 IKE_FOLLOWUP_KE []) false (rejection (this s1))
                          chunk_empty;
             trace := trace s1 ++
                      (if aborted (this s1) then []
                       else [failure_event env0 (message0 IKE_FOLLOWUP_KE [])]) |}).
Proof.
  assert (H1 : initiator (this s_followup) = false) by reflexivity.
  assert (H2 : exchange_type (message s_followup) = IKE_FOLLOWUP_KE) by reflexivity.
  assert (H3 : (ke_index (this s_followup) < length (key_exchanges (this s_followup)))%nat)
    by (simpl; lia).
  assert (H4 : carries_link (this s_followup) (message s_followup) = false) by reflexivity.
  repeat (split; [assumption|]).
  destruct (responder_link env0 s_followup (message0 IKE_FOLLOWUP_KE []) H1 H2 H3)
    as (s1 & Hrun & _ & Hl & Hrej & _).
  exists s1. split; [exact Hrun|]. split; [by rewrite Hl, H4|]. split; [|exact (Hrej H4)].
  assert (Hc : process_r_multi_ke env0 s_followup = Some (NEED_MORE, s_followup1))
    by reflexivity.
  rewrite Hc in Hrun. injection Hrun as <-. reflexivity.
Defined.

(** C7 as the specification states it: a follow-up without the link of the
    responder is answered with STATE_NOT_FOUND. *)
Definition state_not_found_as_specified (E : env) (s : state) (resp : message_t) : Prop :=
  carries_link (this s) (message s) = false ->
  exists (s1 s2 : state),
    process_r_multi_ke E s = Some (NEED_MORE, s1) /\
    build_r_multi_ke E {| this := this s1; message := resp; trace := trace s1 |} =
      Some (SUCCESS, s2) /\
    In (PLV2_NOTIFY STATE_NOT_FOUND chunk_empty) (payloads (message s2)).

(** A follow-up with neither a KE payload nor the link. *)
Definition s_followup_bare : state := Eval vm_compute in followup [].

Definition s_followup_bare1 : state :=
  Eval vm_compute in final (process_r_multi_ke env0) s_followup_bare.

Definition s_followup_bare2 : state :=
  Eval vm_compute in
    final (build_r_multi_ke env0)
      {| this := this s_followup_bare1; message := message0 IKE_FOLLOWUP_KE [];
         trace := trace s_followup_bare1 |}.

Lemma followup_without_ke_payload :
  initiator (this s_followup_bare) = false /\
  exchange_type (message s_followup_bare) = IKE_FOLLOWUP_KE /\
  link (this s_followup_bare) = [x42] /\
  carries_link (this s_followup_bare) (message s_followup_bare) = false /\
  process_r_multi_ke env0 s_followup_bare = Some (NEED_MORE, s_followup_bare1) /\
  build_r_multi_ke env0
    {| this := this s_followup_bare1; message := message0 IKE_FOLLOWUP_KE [];
       trace := trace s_followup_bare1 |} = Some (SUCCESS, s_followup_bare2) /\
  payloads (message s_followup_bare2) = [PLV2_NOTIFY INVALID_SYNTAX chunk_empty] /\
  ~ state_not_found_as_specified env0 s_followup_bare (message0 IKE_FOLLOWUP_KE []).
Proof.
  assert (H1 : process_r_multi_ke env0 s_followup_bare = Some (NEED_MORE, s_followup_bare1))
    by reflexivity.
  assert (H2 : build_r_multi_ke env0
                 {| this := this s_followup_bare1; message := message0 IKE_FOLLOWUP_KE [];
                    trace := trace s_followup_bare1 |} = Some (SUCCESS, s_followup_bare2))
    by reflexivity.
  repeat (split; [reflexivity || assumption|]).
  intros H. destruct (H eq_refl) as (s1 & s2 & Hrun & Hbuild & Hin).
  rewrite H1 in Hrun. injection Hrun as <-.
  rewrite H2 in Hbuild. injection Hbuild as <-.
  simpl in Hin. destruct Hin as [Hin|[]]. discriminate Hin.
Qed.

(** * What only the caller of a task changes *)

(** The methods a history calls. *)
Definition calls (h : history) : list method_call := map (fun x => snd (fst x)) h.

(** X1.  Only [abort] sets the abort flag and nothing clears it: after any
    sequence of method calls (builds, processes, migrations and the setters)
    the task is aborted exactly if it was before or [abort] was one of the
    calls. *)
Theorem abort_flag_history (h : history) (t t' : private_child_create_t) :
  run_history h t = Some t' ->
  aborted t' = aborted t || existsb is_abort (calls h).
Proof.
  revert t. induction h as [|[[E c] m] h IH]; intros t; simpl.
  - intros [= <-]. by rewrite orb_false_r.
  - destruct (call E c _) as [[u s']|] eqn:Hc; [|discriminate].
    intros Hh. rewrite (IH _ Hh). apply call_aborted in Hc. cbn [this] in Hc.
    rewrite Hc. by rewrite orb_assoc.
Qed.

(** X2.  The reqid, the marks and the interface IDs a task was given and the
    selectors of the packet that triggered it are changed by [use_reqid],
    [use_marks] and [use_if_ids] only: any sequence of other calls, builds,
    processes (a retry included) and migrations among them, leaves them as
    they were. *)
Theorem parameters_history (h : history) (t t' : private_child_create_t) :
  run_history h t = Some t' ->
  existsb sets_parameters (calls h) = false ->
  parameters t' = parameters t.
Proof.
  revert t. induction h as [|[[E c] m] h IH]; intros t; simpl.
  - by intros [= <-].
  - destruct (call E c _) as [[u s']|] eqn:Hc; [|discriminate].
    intros Hh Hp. apply orb_false_elim in Hp as [Hp1 Hp2].
    rewrite (IH _ Hh Hp2). exact (call_parameters E c _ _ _ Hp1 Hc).
Qed.

(** A task that is given its parameters, builds its request, is aborted and
    then gets the response. *)
Definition history_aborted : history :=
  [(env0, Call_use_reqid 5, message0 CREATE_CHILD_SA []);
   (env0, Call_build, message0 CREATE_CHILD_SA []);
   (env0, Call_abort, message0 CREATE_CHILD_SA []);
   (env0, Call_process, response []);
   (env0, Call_migrate, message0 CREATE_CHILD_SA [])].

Definition task_after_history_aborted : private_child_create_t :=
  Eval vm_compute in
    default (child_create_create (Some 1) false None None)
      (run_history history_aborted (child_create_create (Some 1) false None None)).

Lemma abort_flag_history_witness :
  run_history history_aborted (child_create_create (Some 1) false None None) =
    Some task_after_history_aborted /\
  aborted task_after_history_aborted =
    aborted (child_create_create (Some 1) false None None) ||
    existsb is_abort (calls history_aborted).
Proof.
  assert (H : run_history history_aborted (child_create_create (Some 1) false None None) =
              Some task_after_history_aborted) by reflexivity.
  split; [exact H|].
  exact (abort_flag_history history_aborted _ _ H).
Defined.

Lemma parameters_history_witness :
  run_history (tl history_aborted)
    (upd_in_child (upd_reqid 5) (child_create_create (Some 1) false None None)) =
    Some task_after_history_aborted /\
  existsb sets_parameters (calls (tl history_aborted)) = false /\
  parameters task_after_history_aborted =
    parameters (upd_in_child (upd_reqid 5) (child_create_create (Some 1) false None None)).
Proof.
  assert (H : run_history (tl history_aborted)
                (upd_in_child (upd_reqid 5) (child_create_create (Some 1) false None None)) =
              Some task_after_history_aborted) by reflexivity.
  assert (H' : existsb sets_parameters (calls (tl history_aborted)) = false) by reflexivity.
  split; [exact H|]. split; [exact H'|].
  exact (parameters_history (tl history_aborted) _ _ H H').
Defined.

(** An initiator that was aborted after it sent its request and gets a
    response that accepts the offer. *)
Definition s_aborted_response : state :=
  Eval vm_compute in state_of (upd_aborted true (this (awaiting env0 []))) (response []).

Definition s_aborted_response_done : state :=
  Eval vm_compute in final (task_process env0) s_aborted_response.

Lemma aborted_initiator_never_installs_witness :
  aborted (this s_aborted_response) = true /\
  (process (this s_aborted_response) = _process_i \/
   process (this s_aborted_response) = _process_i_multi_ke) /\
  task_process env0 s_aborted_response = Some (NEED_MORE, s_aborted_response_done) /\
  aborted (this s_aborted_response_done) = true /\
  (established (this s_aborted_response_done) = true ->
   established (this s_aborted_response) = true) /\
  existsb is_sa_call (events_since s_aborted_response s_aborted_response_done) = false /\
  existsb is_establishing_call (events_since s_aborted_response s_aborted_response_done) =
    false.
Proof.
  assert (H1 : aborted (this s_aborted_response) = true) by reflexivity.
  assert (H2 : process (this s_aborted_response) = _process_i \/
               process (this s_aborted_response) = _process_i_multi_ke)
    by (left; reflexivity).
  assert (H3 : task_process env0 s_aborted_response =
               Some (NEED_MORE, s_aborted_response_done)) by reflexivity.
  split; [exact H1|]. split; [exact H2|]. split; [exact H3|].
  exact (aborted_initiator_never_installs env0 _ _ _ H1 H2 H3).
Defined.

(** * More concrete runs *)

(** An initiator that has sent its request for a CHILD_SA and gets a
    response that accepts the offer. *)
Definition s_awaiting : state := Eval vm_compute in awaiting env0 [].

Lemma delete_failed_sa_then_build_witness :
  child_sa (this s_awaiting) <> None /\
  exists s1,
    delete_failed_sa s_awaiting = Some (NEED_MORE, s1) /\
    build (this s1) = _build_i_delete /\
    task_build env0 {| this := this s1; message := message0 CREATE_CHILD_SA []; trace := [] |} =
    Some (SUCCESS,
          {| this := this s1;
             message := {| exchange_type := INFORMATIONAL;
                           payloads := [PLV2_DELETE PROTO_ESP [3405691582]] |};
             trace := [] |}).
Proof.
  assert (H : child_sa (this s_awaiting) <> None) by discriminate.
  split; [exact H|].
  destruct (delete_failed_sa_then_build env0 s_awaiting H) as (s1 & H1 & _ & H2).
  destruct (H2 eq_refl) as (H3 & _ & _ & H4).
  exists s1. split; [exact H1|]. split; [by rewrite H3|].
  exact (H4 (message0 CREATE_CHILD_SA []) []).
Defined.

(** The initiator gets TEMPORARY_FAILURE for its request. *)
Definition s_temporary_failure : state :=
  Eval vm_compute in
    state_of (this s_awaiting)
      (message0 CREATE_CHILD_SA [PLV2_NONCE [x05; x06]; PLV2_NOTIFY TEMPORARY_FAILURE []]).

Definition s_temporary_failure0 : state :=
  Eval vm_compute in final (process_i_prologue env0) s_temporary_failure.

Lemma process_i_temporary_failure_witness :
  process_i_prologue env0 s_temporary_failure = Some (inr (false, false), s_temporary_failure0) /\
  payloads (message s_temporary_failure) =
    [PLV2_NONCE [x05; x06]] ++ PLV2_NOTIFY TEMPORARY_FAILURE [] :: [] /\
  forallb (passed_over (exchange_type (message s_temporary_failure)))
    [PLV2_NONCE [x05; x06]] = true /\
  config (this s_temporary_failure) = Some 1 /\
  0 < RETRY_JITTER env0 /\
  exists s',
    process_i env0 s_temporary_failure = Some (SUCCESS, s') /\
    this s' = upd_other_nonce [x05; x06] (this s_temporary_failure) /\
    if rekey (this s_temporary_failure) || aborted (this s_temporary_failure)
    then events_since s_temporary_failure s' = []
    else exists task delay,
           events_since s_temporary_failure s' =
             retry_calls (this s_temporary_failure) task delay /\
           retries env0 (this s_temporary_failure) task /\
           RETRY_INTERVAL env0 - RETRY_JITTER env0 < delay <= RETRY_INTERVAL env0.
Proof.
  assert (H1 : process_i_prologue env0 s_temporary_failure =
               Some (inr (false, false), s_temporary_failure0)) by reflexivity.
  assert (H2 : payloads (message s_temporary_failure) =
               [PLV2_NONCE [x05; x06]] ++ PLV2_NOTIFY TEMPORARY_FAILURE [] :: [])
    by reflexivity.
  assert (H3 : forallb (passed_over (exchange_type (message s_temporary_failure)))
                 [PLV2_NONCE [x05; x06]] = true) by reflexivity.
  assert (H4 : config (this s_temporary_failure) = Some 1) by reflexivity.
  assert (H5 : 0 < RETRY_JITTER env0) by reflexivity.
  split; [exact H1|]. split; [exact H2|]. split; [exact H3|]. split; [exact H4|].
  split; [exact H5|].
  exact (process_i_temporary_failure env0 s_temporary_failure s_temporary_failure0
           false false [PLV2_NONCE [x05; x06]] [] [] 1 H1 H2 H3 H4 H5).
Defined.

(** The initiator gets NO_PROPOSAL_CHOSEN for its request. *)
Definition s_no_proposal : state :=
  Eval vm_compute in
    state_of (this s_awaiting)
      (message0 CREATE_CHILD_SA [PLV2_NONCE [x05; x06]; PLV2_NOTIFY NO_PROPOSAL_CHOSEN []]).

Definition s_no_proposal0 : state :=
  Eval vm_compute in final (process_i_prologue env0) s_no_proposal.

Lemma process_i_child_error_witness :
  process_i_prologue env0 s_no_proposal = Some (inr (false, false), s_no_proposal0) /\
  payloads (message s_no_proposal) =
    [PLV2_NONCE [x05; x06]] ++ PLV2_NOTIFY NO_PROPOSAL_CHOSEN [] :: [] /\
  forallb (passed_over (exchange_type (message s_no_proposal))) [PLV2_NONCE [x05; x06]] =
    true /\
  is_child_error_notify NO_PROPOSAL_CHOSEN = true /\
  config (this s_no_proposal) <> None /\
  exists s',
    process_i env0 s_no_proposal = Some (SUCCESS, s') /\
    this s' = upd_other_nonce [x05; x06] (this s_no_proposal) /\
    message s' = message s_no_proposal /\
    events_since s_no_proposal s' =
      error_calls env0 (this s_no_proposal) (message s_no_proposal) NO_PROPOSAL_CHOSEN.
Proof.
  assert (H1 : process_i_prologue env0 s_no_proposal = Some (inr (false, false), s_no_proposal0))
    by reflexivity.
  assert (H2 : payloads (message s_no_proposal) =
               [PLV2_NONCE [x05; x06]] ++ PLV2_NOTIFY NO_PROPOSAL_CHOSEN [] :: [])
    by reflexivity.
  assert (H3 : forallb (passed_over (exchange_type (message s_no_proposal)))
                 [PLV2_NONCE [x05; x06]] = true) by reflexivity.
  assert (H4 : is_child_error_notify NO_PROPOSAL_CHOSEN = true) by reflexivity.
  assert (H5 : config (this s_no_proposal) <> None) by discriminate.
  split; [exact H1|]. split; [exact H2|]. split; [exact H3|]. split; [exact H4|].
  split; [exact H5|].
  exact (process_i_child_error env0 s_no_proposal s_no_proposal0 false false
           [PLV2_NONCE [x05; x06]] [] NO_PROPOSAL_CHOSEN [] H1 H2 H3 H4 H5).
Defined.

Definition s_narrowed : state :=
  Eval vm_compute in final (narrow_and_check_ts env0 false) s_install.

Lemma narrow_and_check_ts_result_witness :
  narrow_and_check_ts env0 false s_install = Some (SUCCESS, s_narrowed) /\
  (SUCCESS <> NOT_FOUND ->
   (exists i r, tsi (this s_narrowed) = Some i /\ tsr (this s_narrowed) = Some r /\
                i <> [] /\ r <> []) /\
   check_mode env0 (host_i env0 (this s_install)) (host_r env0 (this s_install)) s_narrowed =
     Some (bool_decide (SUCCESS = SUCCESS), s_narrowed)).
Proof.
  assert (H : narrow_and_check_ts env0 false s_install = Some (SUCCESS, s_narrowed))
    by reflexivity.
  split; [exact H|].
  exact (proj2 (proj2 (proj2 (narrow_and_check_ts_result env0 false _ _ _ H)))).
Defined.

Lemma install_child_sa_outcome_witness :
  install_child_sa env0 s_install = Some (SUCCESS, s_installed) /\
  (SUCCESS = SUCCESS ->
   established (this s_installed) = true /\
   (exists sa, child_sa (this s_installed) = Some sa /\ sa_state sa = CHILD_INSTALLED /\
               In (EvAddChildSa sa) (events_since s_install s_installed)) /\
   In EvInstallPolicies (events_since s_install s_installed) /\
   install_policies env0 = SUCCESS).
Proof.
  assert (H : install_child_sa env0 s_install = Some (SUCCESS, s_installed)) by reflexivity.
  split; [exact H|].
  exact (proj1 (proj2 (install_child_sa_outcome env0 _ _ _ H))).
Defined.

(** An initiator about to install that proposed DEFLATE and has a CPI of
    its own, but none of the peer. *)
Definition s_half_compressed : state :=
  state_of (upd_ipcomp IPCOMP_DEFLATE (upd_my_cpi 4660 initiator_installing))
    (message0 CREATE_CHILD_SA []).

Definition s_half_compressed_done : state :=
  Eval vm_compute in final (install_child_sa env0) s_half_compressed.

Lemma install_child_sa_cpis_witness :
  my_cpi (this s_half_compressed) = 4660 /\
  other_cpi (this s_half_compressed) = 0 /\
  install_child_sa env0 s_half_compressed = Some (SUCCESS, s_half_compressed_done) /\
  forallb (cpi_consistent (ipcomp (this s_half_compressed_done)))
    (events_since s_half_compressed s_half_compressed_done) = true /\
  (existsb is_sa_call (events_since s_half_compressed s_half_compressed_done) = true ->
   (my_cpi (this s_half_compressed_done) = 0 <->
    ipcomp (this s_half_compressed_done) = IPCOMP_NONE) /\
   (other_cpi (this s_half_compressed_done) = 0 <->
    ipcomp (this s_half_compressed_done) = IPCOMP_NONE)).
Proof.
  assert (H : install_child_sa env0 s_half_compressed = Some (SUCCESS, s_half_compressed_done))
    by reflexivity.
  split; [reflexivity|]. split; [reflexivity|]. split; [exact H|].
  exact (install_child_sa_cpis env0 _ _ _ H).
Defined.

Lemma key_exchange_done_pending_witness :
  (ke_index (this s_followup1) < MAX_KEY_EXCHANGES)%nat /\
  (ke_index (this s_followup1) < length (key_exchanges (this s_followup1)))%nat /\
  pending (this s_followup1) = 2%nat /\
  exists s',
    key_exchange_done s_followup1 =
      Some (match ke (this s_followup1) with
            | Some _ => (pending (this s') =? 0)%nat
            | None => true
            end, s') /\
    message s' = message s_followup1 /\ trace s' = trace s_followup1 /\
    match ke (this s_followup1) with
    | None => this s' = this s_followup1
    | Some k =>
        kes (this s') = kes (this s_followup1) ++ [k] /\
        ke (this s') = None /\
        ke_index (this s') = S (ke_index (this s_followup1)) /\
        forall slot,
          key_exchanges (this s_followup1) !! ke_index (this s_followup1) = Some slot ->
          pending (this s_followup1) =
            ((if is_pending slot then 1 else 0) + pending (this s'))%nat
    end.
Proof.
  assert (H1 : (ke_index (this s_followup1) < MAX_KEY_EXCHANGES)%nat)
    by (unfold MAX_KEY_EXCHANGES; simpl; lia).
  assert (H2 : (ke_index (this s_followup1) < length (key_exchanges (this s_followup1)))%nat)
    by (simpl; lia).
  split; [exact H1|]. split; [exact H2|]. split; [reflexivity|].
  exact (key_exchange_done_pending s_followup1 H1 H2).
Defined.

Lemma determine_key_exchanges_pending_witness :
  proposal (this s_gap) = Some proposal_gap /\
  key_exchanges (this s_gap) = replicate MAX_KEY_EXCHANGES empty_slot /\
  ke_index (this s_gap) = 0%nat /\
  length (present_additional proposal_gap) = 2%nat /\
  exists s',
    determine_key_exchanges s_gap = Some (tt, s') /\
    ke_index (this s') = 0%nat /\
    pending (this s') =
      match get_algorithm proposal_gap KEY_EXCHANGE_METHOD with
      | Some _ => S (length (present_additional proposal_gap))
      | None => 0%nat
      end.
Proof.
  assert (H1 : proposal (this s_gap) = Some proposal_gap) by reflexivity.
  assert (H2 : key_exchanges (this s_gap) = replicate MAX_KEY_EXCHANGES empty_slot)
    by reflexivity.
  assert (H3 : ke_index (this s_gap) = 0%nat) by reflexivity.
  split; [exact H1|]. split; [exact H2|]. split; [exact H3|]. split; [reflexivity|].
  exact (determine_key_exchanges_pending s_gap proposal_gap H1 H2 H3).
Defined.

(** The initiator gets a response with the link 0x42. *)
Definition s_linked : state :=
  Eval vm_compute in
    state_of (this s_awaiting) (response [PLV2_NOTIFY ADDITIONAL_KEY_EXCHANGE [x42]]).

Lemma initiator_echoes_link_witness :
  initiator (this s_linked) = true /\
  exists s1,
    process_link s_linked = Some (tt, s1) /\
    link (this s1) = [x42] /\
    forall (m : message_t) (tr : list event) (st : status_t) (s2 : state),
      get_notify (payloads m) ADDITIONAL_KEY_EXCHANGE = None ->
      build_i_multi_ke env0 {| this := this s1; message := m; trace := tr |} = Some (st, s2) ->
      (st = NEED_MORE \/ st = FAILED) /\
      (link (this s1) = chunk_empty -> st = FAILED) /\
      (st = NEED_MORE ->
       exchange_type (message s2) = IKE_FOLLOWUP_KE /\
       get_notify (payloads (message s2)) ADDITIONAL_KEY_EXCHANGE = Some (link (this s1)) /\
       forall r : private_child_create_t,
         link r = link (this s1) -> carries_link r (message s2) = true).
Proof.
  assert (H : initiator (this s_linked) = true) by reflexivity.
  split; [exact H|].
  destruct (initiator_echoes_link env0 s_linked H) as (s1 & H1 & H2 & H3).
  exists s1. split; [exact H1|]. split; [exact H2|exact H3].
Defined.

(** The first round of the responder returns
    NEED_MORE with the handlers of the additional key exchanges. *)
Lemma build_r_status_witness :
  build_r env0 s_first_round = Some (NEED_MORE, s_first_round_done) /\
  build_r_returns env0 (this s_first_round) (message s_first_round) NEED_MORE
    (this s_first_round_done) (message s_first_round_done).
Proof.
  assert (H : build_r env0 s_first_round = Some (NEED_MORE, s_first_round_done))
    by reflexivity.
  split; [exact H|].
  exact (build_r_status env0 s_first_round s_first_round_done NEED_MORE H).
Defined.

(** The initiator when the peer asks for another key exchange method, ecp256
    (19), with INVALID_KE_PAYLOAD. *)
Definition s_other_method : state :=
  Eval vm_compute in
    state_of (this s_awaiting)
      (message0 CREATE_CHILD_SA
         [PLV2_NONCE [x05; x06]; PLV2_NOTIFY INVALID_KE_PAYLOAD [x00; x13]]).

Definition s_other_method_done : state :=
  Eval vm_compute in final (process_i env0) s_other_method.

Lemma process_i_status_witness :
  build (this s_other_method) = _build_i /\
  process (this s_other_method) = _process_i /\
  process_i env0 s_other_method = Some (NEED_MORE, s_other_method_done) /\
  process_i_returns (message s_other_method) NEED_MORE (this s_other_method_done).
Proof.
  assert (Hb : build (this s_other_method) = _build_i) by reflexivity.
  assert (Hp : process (this s_other_method) = _process_i) by reflexivity.
  assert (Hr : process_i env0 s_other_method = Some (NEED_MORE, s_other_method_done))
    by reflexivity.
  split; [exact Hb|]. split; [exact Hp|]. split; [exact Hr|].
  exact (process_i_status env0 s_other_method s_other_method_done NEED_MORE Hb Hp Hr).
Defined.

(** X15. What a task writes with [build_payloads], a peer reads back with
    [process_payloads].  If [build_payloads] succeeds on a message that is no
    IKE_FOLLOWUP_KE and so far holds only payloads that [process_payloads]
    passes by, then a peer task with a current entry in its plan of key
    exchanges reads the message without fault and ends with the proposals
    sent (all of an initiator, the selected one of a responder), the traffic
    selectors of the sender and its label on both selector payloads.  Its
    mode is that of the sender if this is transport mode, or BEET mode and
    the sender is known to be strongSwan, and tunnel mode otherwise; it keeps
    TFC padding only if the sender's kernel supports it; and its key
    exchange method is that of the sender's key exchange object, unless its
    plan asks for another one. *)
Theorem payloads_round_trip (E1 E2 : env) (s s' : state) (r : private_child_create_t)
    (tr : list event) :
  build_payloads E1 s = Some (true, s') ->
  exchange_type (message s) <> IKE_FOLLOWUP_KE ->
  forallb passes_by (payloads (message s)) = true ->
  (ke_index r < length (key_exchanges r))%nat ->
  exists r',
    process_payloads E2 {| this := r; message := message s'; trace := tr |} =
      Some (tt, r') /\
    proposals (this r') = sent_proposals (this s) /\
    tsi (this r') = tsi (this s) /\
    tsr (this r') = tsr (this s) /\
    labels_i (this r') = Some (labels_of (label (child (this s)))) /\
    labels_r (this r') = Some (labels_of (label (child (this s)))) /\
    mode (this r') = received_mode E2 (mode (this s)) /\
    tfcv3 (this r') = tfcv3 r && kernel_esp_v3_tfc E1 /\
    forall k slot,
      ke (this s) = Some k ->
      key_exchanges r !! ke_index r = Some slot ->
      kx_meth slot = 0 \/ kx_meth slot = get_method k ->
      ke_method (this r') = get_method k.
Proof.
  intros Hrun Hne Hpre Hlt.
  apply lookup_lt_is_Some in Hlt as [slot Hslot].
  destruct (build_payloads_sends E1 s true s' Hrun eq_refl Hne)
    as (Hpub & props & tsi_ & tsr_ & Hp & Hi & Hr & Hx & Hpl).
  destruct (process_payloads_reads E2 r tr (exchange_type (message s'))
              (payloads (message s)) props
              (sent_passed (this s) (exchange_type (message s))) (sent_ke E1 (this s))
              tsi_ tsr_ (labels_of (label (child (this s))))
              (labels_of (label (child (this s)))) (mode (this s))
              (kernel_esp_v3_tfc E1) (ke (this s)) slot Hpre
              (sent_passed_passes_by _ _) (sent_ke_payload E1 _ Hpub) Hslot)
    as (u & r' & Hrun' & H1 & H2 & H3 & H4 & H5 & H6 & H7 & H8).
  rewrite <- Hpl in Hrun'.
  assert (Hm : {| exchange_type := exchange_type (message s');
                  payloads := payloads (message s') |} = message s')
    by (destruct (message s'); reflexivity).
  rewrite Hm in Hrun'. destruct u.
  exists r'. split; [exact Hrun'|].
  rewrite Hp, Hi, Hr. repeat (split; [assumption|]).
  intros k slot' Hk Hslot' Hmeth. apply H8; [exact Hk|]. congruence.
Qed.

(** An initiator that offers transport mode, and the offer it builds. *)
Definition s_offering : state :=
  state_of
    (upd_mode MODE_TRANSPORT
       (upd_ke (Some {| kx_method := 31; kx_peer_public := None |})
          (upd_tsr (Some [ts0])
             (upd_tsi (Some [ts0])
                (upd_proposals (Some [proposal0])
                   (child_create_create (Some 1) false None None))))))
    (message0 CREATE_CHILD_SA []).

Definition s_offered : state := Eval vm_compute in final (build_payloads env0) s_offering.

Lemma payloads_round_trip_witness :
  build_payloads env0 s_offering = Some (true, s_offered) /\
  exchange_type (message s_offering) <> IKE_FOLLOWUP_KE /\
  forallb passes_by (payloads (message s_offering)) = true /\
  (ke_index (child_create_create None false None None) <
   length (key_exchanges (child_create_create None false None None)))%nat /\
  exists r',
    process_payloads env0
      {| this := child_create_create None false None None;
         message := message s_offered; trace := [] |} = Some (tt, r') /\
    proposals (this r') = Some [proposal0] /\
    tsi (this r') = Some [ts0] /\
    tsr (this r') = Some [ts0] /\
    mode (this r') = MODE_TRANSPORT /\
    ke_method (this r') = 31.
Proof.
  assert (H1 : build_payloads env0 s_offering = Some (true, s_offered)) by reflexivity.
  assert (H2 : exchange_type (message s_offering) <> IKE_FOLLOWUP_KE) by discriminate.
  assert (H3 : forallb passes_by (payloads (message s_offering)) = true) by reflexivity.
  assert (H4 : (ke_index (child_create_create None false None None) <
                length (key_exchanges (child_create_create None false None None)))%nat)
    by (cbv; lia).
  split; [exact H1|]. split; [exact H2|]. split; [exact H3|]. split; [exact H4|].
  destruct (payloads_round_trip env0 env0 s_offering s_offered
              (child_create_create None false None None) [] H1 H2 H3 H4)
    as (r' & Hrun & Hp & Hi & Hr & _ & _ & Hm & _ & Hk).
  exists r'. split; [exact Hrun|]. split; [exact Hp|]. split; [exact Hi|].
  split; [exact Hr|]. split; [exact Hm|].
  exact (Hk {| kx_method := 31; kx_peer_public := None |}
            {| kx_type := 0; kx_meth := 0; kx_done := false |}
            eq_refl eq_refl (or_introl eq_refl)).
Defined.

(** The responder of [s_responder] answers the request for ecp256 with an
    INVALID_KE_PAYLOAD notify. *)
Definition s_responder_done : state := Eval vm_compute in final (build_r env0) s_responder.

Lemma responder_answers_witness :
  ((exchange_type (message s_responder) = CREATE_CHILD_SA /\
    build_r env0 s_responder = Some (SUCCESS, s_responder_done)) \/
   build_r_multi_ke env0 s_responder = Some (SUCCESS, s_responder_done)) /\
  (child_installed (this s_responder_done) \/
   names_error (message s_responder_done) = true).
Proof.
  assert (H : (exchange_type (message s_responder) = CREATE_CHILD_SA /\
               build_r env0 s_responder = Some (SUCCESS, s_responder_done)) \/
              build_r_multi_ke env0 s_responder = Some (SUCCESS, s_responder_done))
    by (left; split; reflexivity).
  split; [exact H|].
  exact (responder_answers env0 s_responder s_responder_done H).
Defined.

(** The request of the initiator [fresh_initiator]. *)
Definition s_requested : state := Eval vm_compute in final (build_i env0) fresh_initiator.

Lemma build_i_status_witness :
  build_i env0 fresh_initiator = Some (NEED_MORE, s_requested) /\
  build_i_returns env0 (this fresh_initiator) (message fresh_initiator) NEED_MORE
    (this s_requested) (message s_requested).
Proof.
  assert (H : build_i env0 fresh_initiator = Some (NEED_MORE, s_requested)) by reflexivity.
  split; [exact H|].
  exact (build_i_status env0 fresh_initiator s_requested NEED_MORE H).
Defined.

(** The initiator retries after an INVALID_KE_PAYLOAD notify whose data is
    one byte long: the method to use is KE_NONE, and the request it builds
    next has no key exchange payload. *)
Definition s_retrying : state :=
  Eval vm_compute in
    state_of
      (this (final (process_i env0)
               (state_of (this s_awaiting)
                  (message0 CREATE_CHILD_SA
                     [PLV2_NONCE [x05; x06]; PLV2_NOTIFY INVALID_KE_PAYLOAD [x13]]))))
      (message0 CREATE_CHILD_SA []).

Definition s_retried : state := Eval vm_compute in final (build_i env0) s_retrying.

Lemma build_i_offers_method_witness :
  build_i env0 s_retrying = Some (NEED_MORE, s_retried) /\
  exchange_type (message s_retrying) = CREATE_CHILD_SA /\
  config (this s_retrying) = Some 1 /\
  ke (this s_retrying) = None /\
  kes (this s_retrying) = [] /\
  get_ke_payload (payloads (message s_retrying)) = None /\
  retry (this s_retrying) = true /\
  ke_method (this s_retrying) = KE_NONE /\
  ke_method (this s_retried) = KE_NONE /\
  offers_method (message s_retried) (ke_method (this s_retried)).
Proof.
  assert (H1 : build_i env0 s_retrying = Some (NEED_MORE, s_retried)) by reflexivity.
  assert (H2 : exchange_type (message s_retrying) = CREATE_CHILD_SA) by reflexivity.
  assert (H3 : config (this s_retrying) = Some 1) by reflexivity.
  assert (H4 : ke (this s_retrying) = None) by reflexivity.
  assert (H5 : kes (this s_retrying) = []) by reflexivity.
  assert (H6 : get_ke_payload (payloads (message s_retrying)) = None) by reflexivity.
  split; [exact H1|]. split; [exact H2|]. split; [exact H3|]. split; [exact H4|].
  split; [exact H5|]. split; [exact H6|]. split; [reflexivity|]. split; [reflexivity|].
  exact (build_i_offers_method env0 s_retrying s_retried 1 H1 H2 H3 H4 H5 H6).
Defined.

(** A task with two proposals, of which the second has the method x25519
    (31) the task is to offer. *)
Definition proposal_ecp : proposal_t :=
  {| prop_protocol := PROTO_ESP; prop_spi := 0; prop_transforms := [(1, 12); (4, 19)] |}.

Definition s_two_proposals : state :=
  state_of
    (upd_ke_method 31
       (upd_my_spi 7
          (upd_proposals (Some [proposal_ecp; proposal0])
             (child_create_create (Some 1) false None None))))
    (message0 CREATE_CHILD_SA []).

Lemma update_and_check_proposals_partition_witness :
  proposals (this s_two_proposals) = Some [proposal_ecp; proposal0] /\
  exists props',
    update_and_check_proposals s_two_proposals =
      Some (true, {| this := upd_proposals (Some props') (this s_two_proposals);
                     message := message s_two_proposals;
                     trace := trace s_two_proposals |}) /\
    length props' = 2%nat /\
    props' =
      [ {| prop_protocol := PROTO_ESP; prop_spi := 7;
           prop_transforms := [(4, 31); (1, 12); (3, 12)] |};
        {| prop_protocol := PROTO_ESP; prop_spi := 7;
           prop_transforms := [(1, 12); (4, 19)] |} ].
Proof.
  assert (H : proposals (this s_two_proposals) = Some [proposal_ecp; proposal0])
    by reflexivity.
  split; [exact H|].
  destruct (update_and_check_proposals_partition s_two_proposals
              [proposal_ecp; proposal0] H) as (props' & Hrun & Hlen & Heq).
  exists props'. split; [exact Hrun|]. split; [exact Hlen|]. exact Heq.
Defined.
